(* ===== verification/_CoqProject ===== *)
-Q . S2P
Prelude.v
Slug.v
Paths.v
ProviderKind.v
Manifest.v
Validate.v
Config.v
Policy.v
Capability.v
Protocol.v
Registry.v
Session.v
Connection.v
Proxy.v
State.v
Exec.v
Hooks.v
Services.v
Capture.v
Flox.v
World.v
Shell.v
SshKeys.v
Terminate.v
Up.v
Nix.v
Devbox.v
Providers.v
SshConfig.v
Status.v
Init.v
Cli.v
KeeperMain.v
SshServer.v
SshRelay.v
Sftp.v
Tunnel.v
Netns.v
Doctor.v
Lifecycle.v
KeeperSystem.v
SshSystem.v
Descriptors.v
KeeperLog.v
Messages.v
KeeperLines.v
Spike.v
Permissions.v
