(* ===== verification/Prelude.v ===== *)
(** * devcroft: a verification development

    devcroft starts development sandboxes: it reads a project's
    [devcroft.toml], resolves the project's environment through a provider
    (flox, nix or devbox), compiles a policy, and starts a keeper process that
    confines itself to that policy and runs commands on behalf of clients that
    connect to its sockets (its own protocol, and SSH).  This library models the
    Rust program under [src/src/] part by part and proves the properties that
    make it correct.

    ** Reading guide: files of the library and of the program

    - {!Prelude}: strings and bytes, UTF-8, the error type [result] and its
      monad, the list, option, number and sorting lemmas the rest shares.
    - {!Slug} ([config/slug.rs]), {!ProviderKind} ([provider/mod.rs],
      [provider/validate.rs]), {!Manifest}, {!Validate} and {!Config}
      ([config/mod.rs], [config/validate.rs], [config/discovery.rs]): names,
      provider names, the manifest's data and defaults, its checks and
      warnings, discovery and the whole of [parse]/[load].
    - {!Paths} ([paths.rs]): the textual path algebra every policy decision
      goes through.
    - {!Policy} ([policy/mod.rs], [why.rs], [render.rs], [degraded.rs]) and
      {!Capability} ([policy/capability_set.rs]): compilation, the later
      additions, [why], rendering, host degradation, and the translation into
      calls of the sandbox backend, which is the interface [CapBuilder].
    - {!Protocol}, {!Registry}, {!Session}, {!Connection} ([keeper/]): the wire
      format, the session registry, process and pseudo-terminal set-up, and one
      connection as a step relation [internal] (plus what the rest of the
      keeper does, [other]) over the reader, the two output pumps, the waiter
      and the writer.  A blocking call is a step that is taken when the peer
      does its part; who waits for whom is the function [waits].
    - {!KeeperMain} ([bin/devcroft.rs] from [keeper_main] on, [keeper/mod.rs],
      [ssh/mod.rs]): the keeper process as the list of its steps, from its
      environment to the accept loop: relay, self-restriction, signal handling,
      services, shutdown; and the start of the egress proxy's process.
    - {!KeeperSystem} (the same three): all connections of one keeper over its one
      registry, the shutdown thread and the process ids the kernel hands out, as
      the step relation [sys_step]; and {!KeeperLog}: the records of its log.
    - {!Descriptors} ([lifecycle/up.rs], [proxy/mod.rs], [keeper/session.rs],
      [keeper/pty.rs], [exec.rs]): the descriptors each process starts with, from
      [up] to the child of a session, with the calls of the keeper's threads
      interleaved by [kf_step]; and the local terminal around a [shell].
    - {!Permissions} ([lifecycle/up.rs], [lifecycle/state.rs], [proxy/mod.rs],
      [ssh/keys.rs]): the modes of a sandbox's files while it starts.
    - {!SshServer}, {!SshRelay} ([ssh/server.rs]) and {!Sftp} ([ssh/sftp.rs]):
      the requests of an SSH connection over its table of channels, the relay of
      a session's output to its channel as the step relation [relay_step], and
      the file-transfer handles; and {!SshSystem}: all SSH connections of a keeper
      and the relays of their sessions beside {!KeeperSystem}, as [ssh_step].
    - {!Exec} ([exec.rs]): the client side of a session.
    - {!Proxy} and {!Tunnel} ([proxy/server.rs], [ssh/proxy.rs]): the egress
      proxy's handling of a connection as the list of actions it takes; the
      accept loops, the log, and the relays of established connections as one
      step relation, [tunnel_step] (the two threads, with their buffers) within
      [tunnel_world] (and their peers, who may stop reading).
    - {!State} ([lifecycle/state.rs]), {!World}, {!Hooks} ([lifecycle/hooks.rs]),
      {!SshKeys} ([ssh/keys.rs]), {!Terminate} ([lifecycle/terminate.rs]),
      {!Up} ([lifecycle/up.rs], [proxy/mod.rs]) and {!Status}
      ([lifecycle/status.rs]): the on-disk state and the lifecycle operations,
      as computations over a [World] of files, a clock of observations and the
      events (signals, process starts, hooks, lines printed) so far.
    - {!Lifecycle} (the lock of [lifecycle/state.rs]): several commands at the
      same time, as programs that take the lock, act and give it back, their
      steps interleaved by [lstep] and, with processes killed, [lworld].
    - {!Services} ([services/mod.rs]), {!Capture} ([provider/capture.rs]),
      {!Flox}, {!Nix}, {!Devbox} ([provider/flox.rs], [nix.rs], [devbox.rs]),
      {!Providers} (the dispatch, which implements the [Provider] interface) and
      {!Shell} ([shell.rs]): declared services, the capture of an activated
      environment, the providers, and the search for the sandbox's shell.
    - {!Netns} ([fleet/netns.rs] and the probe subcommands): the kernel calls
      that give a keeper its own network namespace.
    - {!SshConfig} ([ssh/config.rs], [ssh/proxy.rs]), {!Init}, {!Cli} and
      {!Doctor} ([bin/devcroft.rs]): the managed section of [~/.ssh/config], and
      every command from its arguments to its exit code.
    - {!Messages} (the [Display] implementations, [bin/devcroft.rs]): the texts of
      the errors, all that [up] prints, the advice of [init], the usage texts; and
      {!KeeperLines} ([bin/devcroft.rs], [ssh/mod.rs], [ssh/server.rs]): what the
      keeper, the egress proxy and the SSH server print while they start.
    - {!Spike} ([bin/spike.rs]): the second binary, the experiment of the design.

    ** How components meet

    Calls are calls: [Up.up] uses [Policy.compile], [Capability.to_capability_set],
    [State.health], [Shell.resolve] and so on, and [Cli.main] calls [Up.up].
    What is outside the program is an interface or a parameter: the sandbox
    backend ([CapBuilder]), JSON ([Json] for frames, [Codec] for files, with
    their round-trip laws as hypotheses), the operating system ([Host],
    [ProcView], the views of the process table at successive moments, [Probes]
    for [doctor]), the file system of the SFTP server ([FileSystem]), DNS and
    the host filter of the proxy, the TOML decoder, the [flox], [nix], [devbox],
    [nix-store] and hook commands.  The [Provider] class is the program's own
    trait: the theorems about [Up] hold for every instance, and {!Providers} is
    the program's.  A started keeper is connected with the keeper that starts:
    what [Up.up] hands to the operating system is a [KeeperLaunch], and the
    theorems of {!KeeperMain} start from the launches [Up.up] makes.  The
    environment {!Connection} assumes for one connection is what the others do in
    {!KeeperSystem} ([connections_refine]), so that its theorems hold for each
    connection of every run of a keeper.  {!SshSystem} puts the
    handlers of {!SshServer} and the relays of {!SshRelay} beside
    {!KeeperSystem}, and says what all of it amounts to for a client
    ([ssh_sessions_end_to_end]).

    ** What the theorems show

    - Confinement: a filesystem grant handed to the backend is a declared value
      that stays in the project ([Capability.path_grants_sound],
      [grants_complete], [network_grants_exact]), the calls and their order are
      the plan's and so is the error ([to_capability_set_refines]); what [why]
      allows is handed to the backend where it exists, and what is handed to it
      [why] allows, outside of denied directories
      ([why_agrees_with_grants]); the data
      directory and the credential directories are denied
      ([Policy.data_dir_always_denied], [sensitive_denied_unless_granted]); no
      keeper is ever started without its compiled plan having been found
      enforceable ([Up.keeper_confined]), and the keeper restricts itself to
      that very plan before anything but its relay's listener
      ([KeeperMain.keeper_applies_checked_plan]), read with its own [HOME] and
      its own view of the files ([manifest_home_moves_grants] shows where that
      leads); an isolated keeper's namespace
      is set up in the order that works ([Netns.keeper_child_isolated]).
    - Egress: whatever the proxy dials, sends or relays belongs to an
      authenticated request for an allowed host and address; the one lookup of
      a request's name comes before the filter and needs the token only
      ([Proxy.egress_mediated]); reading a request is bounded, its log tells
      what happened, line by line ([Tunnel.log_tells]), and what is relayed is
      relayed in order and, once the source closed, completely
      ([Tunnel.tunnel_in_order], [hops_in_order]), for as long as the peers do
      their part ([tunnel_returns]).
    - Sessions: frames round-trip, truncation and length are handled
      ([Protocol]); under every interleaving the client sees the start, the
      outputs in order and one exit, and a session
      is registered until it is reaped ([Connection]); [exec] end to end.  With
      any number of connections the registry is exactly the live sessions and
      process groups are not shared ([KeeperSystem.registry_is_live_sessions]),
      none waits for another, only for its own client and child
      ([connections_progress]), whom the keeper signals
      ([signals_reach_own_groups]) and what its shutdown reaches
      ([shutdown_interleaved]); the log cannot be forged by a command
      ([KeeperLog.log_unforgeable]), though hook output in the same file can
      look like a record ([hook_output_forges]); which descriptors a session's
      child gets ([Descriptors.session_descriptors]).
    - SSH: a session runs what its channel asked for, channels do not touch
      each other, output, exit status and close come in order and the relay
      ends ([SshServer], [SshRelay]); with any number of connections beside the
      rest of the keeper what they start, signal and send is what their requests
      ask for ([SshSystem.ssh_sessions_end_to_end]), an SSH client's close signals
      the last session of its own channel ([ssh_signals_own_session]), no session
      waits for another ([ssh_progress]), no SSH session is registered
      ([ssh_sessions_unregistered]) and the shutdown passes over them
      ([shutdown_spares_ssh]); SFTP handles are typed, writes are read
      back, listings are complete ([Sftp]).
    - Lifecycle: only recorded, identity-checked processes are signalled
      ([State.terminate_only_recorded], [Terminate.down_releases]); state
      directories are disjoint; [down] leaves no runtime file and [rm] nothing of
      the sandbox, both touching nothing else but the derived environments that
      the sandboxes of a project share ([Terminate.rm_confined]);
      metadata is written atomically and readable by nobody else
      ([Permissions.state_dir_private]); what [up] does, in order
      ([Up.up_success], [already_up_exactly], [keeper_environment]), and that it
      says why when a sandbox does not get its own network
      ([Up.isolation_surfaced]); commands run
      side by side have the effect of some order, always finish, and start no
      keeper twice ([Lifecycle.commands_serializable], [commands_finish],
      [concurrent_ups_one_keeper]).
    - Environments: the captured delta is exactly what leads from the baseline to
      what the activation printed ([Providers.resolution_two_phase]), no resolution runs the project's
      activation hook, derivations and locks are
      respected, and services are reported completely ([Capture], [Flox],
      [Nix], [Devbox], [Providers], [Services]).
    - Commands: which sandbox each acts on, what needs consent, what is
      reported and with which exit code ([Cli]), what [init] writes is loaded
      back ([Init]), what it advises is what the provider asks for
      ([Messages.advice_matches_provider]), the text of a failed [up] names the
      layer of its exit code ([Messages.up_output_spec]), the usage text
      documents the commands there are ([usage_documents_commands],
      [own_usage_line]), what [doctor] checks ([Doctor.doctor_verdict]); a keeper
      says what it could not start ([KeeperLines.keeper_says_why]).
    - Behaviours shown that contradict the program's own documentation, among
      them: a valid deny list can never be enforced; a grant inside the data
      directory reaches the backend; a manifest's [HOME] moves the grants of its
      keeper; a relay's keeper may die of SIGTERM before its shutdown; a second
      shell orphans the first; a half-open tunnel stays; an interrupted flox
      derivation is reused; a recovery forgets the processes it replaces; the
      end of an [rm] takes the artifacts of the [up] that overtook it;
      [policy] and [why] omit the keeper's own grant; [doctor] prints a failure
      and passes; the children of sessions inherit the keeper's listeners, and
      the terminal of a session that is being opened; hook output can forge a
      record of the log; a
      client's signal, or the close of its channel, may reach a recycled process
      group; a session started late in a shutdown, and every SSH session,
      survives it.

    ** Bounds and fuel

    Loops of the program are structural recursions where they walk a list.  The
    reading loops take fuel that is proved enough: [Proxy.read_headers] runs
    with one more turn than bytes its budget admits, each turn using at least
    one; [Connection.pump_all] walks the child's writes.  Threads are step
    relations with a measure every step lowers: [Connection.internal],
    [SshRelay.relay_step] (with at most 64 queued events) and
    [Tunnel.tunnel_step] (for every buffer size), and over all connections of a
    keeper [KeeperSystem.total_work]; a measure bounds the steps, whether one
    can be taken is said apart, by what a thread waits for; the programs of {!Lifecycle} are
    well founded.  Polling loops
    ([State.poll_gone], [Up.wait_until_responsive]) take the number of tries that
    fit before the program's deadline, for every such number.  Machine integers
    are [N] or [Z] with their bounds written out ([u16] ports, [u64] start
    times, 32-bit exit codes with wrap-around, the 4-byte frame length, the
    64-bit FNV hash).

    ** What is not modelled, and why

    The SSH and SFTP transports are third-party crates: {!SshServer} and {!Sftp}
    start at the requests they deliver, whether they tell a handler of a
    channel whose connection broke is theirs to decide, and the copy loop of an
    SSH tunnel is one of that runtime's.  The texts of errors other than those of
    {!Messages} and {!KeeperLines} are parameters or left out, with the exit code
    modelled.  Within one command the answers about files it does not own
    (whether a path exists, is a directory, where its links lead) do not change;
    between [up] and its keeper they may.  [openpty] makes its two descriptors in
    one step, and a record of a log is written whole or not at all.  That a
    value survives its JSON, and what the TOML decoder makes of a text, are
    hypotheses about those crates.  Module
    declarations ([lib.rs], the [mod.rs] re-exports) hold no code.  Empty directories are not
    represented: a directory is its files.

    ** Plan

    Every part of the program that holds code is modelled.  What could be added:
    the commands of several sandboxes of one project side by side, which
    {!Lifecycle} treats for one lock each; the tunnels of SSH connections and
    the SFTP sessions as threads of {!SshSystem}. *)

From Stdlib Require Export Ascii.
From stdpp Require Export base list strings pretty gmap sorting.

(** ** Rust strings and byte vectors

    A Rust [String]/[&str] is its UTF-8 byte sequence and a [Vec<u8>] is a byte
    sequence: both are lists of 8-bit [ascii] values, so [as_bytes] is the
    identity and byte-indexed slicing is [take]/[drop].  Functions of the
    source that iterate over [char]s go through {!chars} below. *)
Abbreviation str := (list ascii).
Coercion String.list_ascii_of_string : string >-> list.

(** A list of string literals. *)
Definition strs (l : list string) : list str := map String.list_ascii_of_string l.

#[global] Arguments String.list_ascii_of_string _ : simpl never.
#[global] Arguments strs _ : simpl never.

(** ** Results *)

Inductive result (E A : Type) : Type :=
| Ok (a : A)
| Err (e : E).
Arguments Ok {E A} a.
Arguments Err {E A} e.

#[export] Instance result_ret {E} : MRet (result E) := λ A a, Ok a.
#[export] Instance result_bind {E} : MBind (result E) :=
  λ A B f r, match r with Ok a => f a | Err e => Err e end.
#[export] Instance result_fmap {E} : FMap (result E) :=
  λ A B f r, match r with Ok a => Ok (f a) | Err e => Err e end.

Definition is_ok {E A} (r : result E A) : bool :=
  match r with Ok _ => true | Err _ => false end.

Definition map_err {E F A} (f : E → F) (r : result E A) : result F A :=
  match r with Ok a => Ok a | Err e => Err (f e) end.

Definition ok_or {E A} (e : E) (o : option A) : result E A :=
  match o with Some a => Ok a | None => Err e end.

(** [?] in a loop: run the fallible body over a list, left to right, and stop
    at the first error. *)
Fixpoint try_for_each {E A} (f : A → result E unit) (l : list A) : result E unit :=
  match l with
  | [] => Ok tt
  | x :: l => match f x with Ok _ => try_for_each f l | Err e => Err e end
  end.

Fixpoint try_fold {E A S} (f : S → A → result E S) (s : S) (l : list A) : result E S :=
  match l with
  | [] => Ok s
  | x :: l => match f s x with Ok s' => try_fold f s' l | Err e => Err e end
  end.

(** [iter().map(f).collect::<Result<Vec<_>, _>>()]. *)
Fixpoint try_map {E A B} (f : A → result E B) (l : list A) : result E (list B) :=
  match l with
  | [] => Ok []
  | x :: l =>
      match f x with
      | Ok y => match try_map f l with Ok ys => Ok (y :: ys) | Err e => Err e end
      | Err e => Err e
      end
  end.

(** Iterator combinators with boolean predicates. *)
Fixpoint find {A} (f : A → bool) (l : list A) : option A :=
  match l with
  | [] => None
  | x :: l => if f x then Some x else find f l
  end.

Definition member {A} `{EqDecision A} (x : A) (l : list A) : bool :=
  existsb (λ y, bool_decide (x = y)) l.

(** [Iterator::min_by_key]: the first of the minimal elements. *)
Definition min_by_key {A} (f : A → nat) (l : list A) : option A :=
  match l with
  | [] => None
  | x :: l => Some (foldl (λ best y, if f y <? f best then y else best) x l)
  end.

Fixpoint position {A} (f : A → bool) (l : list A) : option nat :=
  match l with
  | [] => None
  | x :: l => if f x then Some 0 else S <$> position f l
  end.

(** ** ASCII classes ([char::is_ascii_*], [to_ascii_lowercase]) *)

Definition byte (c : ascii) : N := N_of_ascii c.

Definition in_range (lo hi n : N) : bool := ((lo <=? n) && (n <=? hi))%N.

(** On [char]s (code points) … *)
Definition char_is_ascii_lowercase (n : N) : bool := in_range 97 122 n.
Definition char_is_ascii_uppercase (n : N) : bool := in_range 65 90 n.
Definition char_is_ascii_digit (n : N) : bool := in_range 48 57 n.
Definition char_to_ascii_lowercase (n : N) : N :=
  if char_is_ascii_uppercase n then (n + 32)%N else n.

(** … and on bytes. *)
Definition is_ascii_lowercase (c : ascii) : bool := char_is_ascii_lowercase (byte c).
Definition is_ascii_digit (c : ascii) : bool := char_is_ascii_digit (byte c).
Definition to_ascii_lowercase (c : ascii) : ascii :=
  ascii_of_N (char_to_ascii_lowercase (byte c)).

Definition DOUBLE_QUOTE : str := ["034"%char].
Definition NL : ascii := "010".
Definition NUL : ascii := "000".

(** ** Rust [str] operations *)

Definition last_is (c : ascii) (s : str) : bool := bool_decide (last s = Some c).

Fixpoint strip_prefix (p s : str) : option str :=
  match p, s with
  | [], _ => Some s
  | x :: p, y :: s => if decide (x = y) then strip_prefix p s else None
  | _ :: _, [] => None
  end.

Definition starts_with (p s : str) : bool := match strip_prefix p s with Some _ => true | None => false end.

Definition strip_suffix (p s : str) : option str :=
  reverse <$> strip_prefix (reverse p) (reverse s).

Definition contains_char (c : ascii) (s : str) : bool := existsb (λ d, bool_decide (c = d)) s.

(** [s.split(c)]: always at least one piece. *)
Fixpoint split_on (c : ascii) (s : str) : list str :=
  match s with
  | [] => [[]]
  | d :: s =>
      if decide (c = d) then [] :: split_on c s
      else match split_on c s with
           | [] => [[d]]
           | w :: ws => (d :: w) :: ws
           end
  end.

(** [s.split_once(c)]. *)
Fixpoint split_once (c : ascii) (s : str) : option (str * str) :=
  match s with
  | [] => None
  | d :: s =>
      if decide (c = d) then Some ([], s)
      else match split_once c s with
           | Some (a, b) => Some (d :: a, b)
           | None => None
           end
  end.

(** [s.rsplit_once(c)]. *)
Definition rsplit_once (c : ascii) (s : str) : option (str * str) :=
  match split_once c (reverse s) with
  | Some (a, b) => Some (reverse b, reverse a)
  | None => None
  end.

(** [s.find(pat)] with a string pattern: byte offset of the first match. *)
Fixpoint find_str (pat s : str) : option nat :=
  if starts_with pat s then Some 0
  else match s with
       | [] => None
       | _ :: s => S <$> find_str pat s
       end.

Definition contains_str (pat s : str) : bool := match find_str pat s with Some _ => true | None => false end.

(** [slice.join(sep)]. *)
Fixpoint join (sep : str) (l : list str) : str :=
  match l with
  | [] => []
  | [w] => w
  | w :: ws => w ++ sep ++ join sep ws
  end.

(** [format!("{}", n)] on integers. *)
Definition show_N (n : N) : str := pretty n.
Definition show_Z (z : Z) : str := pretty z.
Definition show_nat (n : nat) : str := pretty n.

(** ** Text as [char]s

    [chars] decodes UTF-8 the way [String::from_utf8_lossy] does: one U+FFFD
    per maximal invalid subpart.  On valid UTF-8 (every [str] of the source) it
    is [str::chars].  [None] marks an invalid subpart, so that [utf8_valid] is
    [String::from_utf8(..).is_ok()]. *)
Definition char := N.

(** For a lead byte: number of continuation bytes and the range of the first one. *)
Definition utf8_lead (b : N) : option (nat * N * N) :=
  if in_range 0xC2 0xDF b then Some (1, 0x80%N, 0xBF%N)
  else if (b =? 0xE0)%N then Some (2, 0xA0%N, 0xBF%N)
  else if in_range 0xE1 0xEC b then Some (2, 0x80%N, 0xBF%N)
  else if (b =? 0xED)%N then Some (2, 0x80%N, 0x9F%N)
  else if in_range 0xEE 0xEF b then Some (2, 0x80%N, 0xBF%N)
  else if (b =? 0xF0)%N then Some (3, 0x90%N, 0xBF%N)
  else if in_range 0xF1 0xF3 b then Some (3, 0x80%N, 0xBF%N)
  else if (b =? 0xF4)%N then Some (3, 0x80%N, 0x8F%N)
  else None.

Definition utf8_lead_bits (n : nat) (b : N) : N :=
  match n with 1 => (b mod 32)%N | 2 => (b mod 16)%N | _ => (b mod 8)%N end.

(** The decoder: [pend] is the state inside a multi-byte sequence (bytes still
    expected, allowed range of the next one, value so far). *)
Fixpoint utf8_decode (pend : option (nat * N * N * N)) (s : str) : list (option char) :=
  let start (b : N) (s : str) (k : option (nat * N * N * N) → list (option char)) :=
    if (b <? 0x80)%N then Some b :: k None
    else match utf8_lead b with
         | Some (n, lo, hi) => k (Some (n, lo, hi, utf8_lead_bits n b))
         | None => None :: k None
         end in
  match s with
  | [] => match pend with None => [] | Some _ => [None] end
  | c :: s =>
      let b := byte c in
      match pend with
      | None => start b s (λ p, utf8_decode p s)
      | Some (n, lo, hi, v) =>
          if in_range lo hi b then
            let v' := (v * 64 + b mod 64)%N in
            match n with
            | S (S n') => utf8_decode (Some (S n', 0x80%N, 0xBF%N, v')) s
            | _ => Some v' :: utf8_decode None s
            end
          else None :: start b s (λ p, utf8_decode p s)
      end
  end.

Definition utf8_valid (s : str) : bool :=
  forallb (λ o, match o with Some _ => true | None => false end) (utf8_decode None s).

Definition chars (s : str) : list char :=
  (λ o, default 0xFFFD%N o) <$> utf8_decode None s.

(** [char::encode_utf8]. *)
Definition encode_char (n : char) : str :=
  (if n <? 0x80 then [ascii_of_N n]
   else if n <? 0x800 then [ascii_of_N (0xC0 + n / 64); ascii_of_N (0x80 + n mod 64)]
   else if n <? 0x10000 then
     [ascii_of_N (0xE0 + n / 4096); ascii_of_N (0x80 + n / 64 mod 64); ascii_of_N (0x80 + n mod 64)]
   else [ascii_of_N (0xF0 + n / 262144); ascii_of_N (0x80 + n / 4096 mod 64);
         ascii_of_N (0x80 + n / 64 mod 64); ascii_of_N (0x80 + n mod 64)])%N.

Definition of_chars (l : list char) : str := mjoin (encode_char <$> l).

Definition from_utf8_lossy (b : str) : str := of_chars (chars b).

(** [char::is_whitespace] (Unicode [White_Space]). *)
Definition is_whitespace (n : char) : bool :=
  in_range 9 13 n || (n =? 32)%N || (n =? 0x85)%N || (n =? 0xA0)%N || (n =? 0x1680)%N
  || in_range 0x2000 0x200A n || (n =? 0x2028)%N || (n =? 0x2029)%N || (n =? 0x202F)%N
  || (n =? 0x205F)%N || (n =? 0x3000)%N.

Fixpoint drop_while {A} (f : A → bool) (l : list A) : list A :=
  match l with
  | [] => []
  | x :: l' => if f x then drop_while f l' else l
  end.

(** [str::trim], [str::trim_end], [str::split_whitespace]. *)
Definition trim_end (s : str) : str :=
  of_chars (reverse (drop_while is_whitespace (reverse (chars s)))).
Definition trim (s : str) : str := trim_end (of_chars (drop_while is_whitespace (chars s))).

Fixpoint words (f : char → bool) (cur : list char) (l : list char) : list (list char) :=
  let flush := match cur with [] => [] | _ => [reverse cur] end in
  match l with
  | [] => flush
  | c :: l => if f c then flush ++ words f [] l else words f (c :: cur) l
  end.
Definition split_whitespace (s : str) : list str := of_chars <$> words is_whitespace [] (chars s).

(** [str::lines]: pieces ended by a newline, one trailing [\r] removed from each;
    no piece after a final newline. *)
Definition strip_cr (s : str) : str :=
  match strip_suffix ["013"%char] s with Some s' => s' | None => s end.
Definition lines (s : str) : list str :=
  let ws := split_on NL s in
  match last ws with
  | Some [] => strip_cr <$> take (length ws - 1) ws
  | _ => take (length ws - 1) (strip_cr <$> ws) ++ drop (length ws - 1) ws
  end.

Definition eq_ignore_ascii_case (a b : str) : bool :=
  bool_decide (to_ascii_lowercase <$> a = to_ascii_lowercase <$> b).

(** ** Integer parsing ([str::parse::<uN>], [str::parse::<iN>]) *)
Fixpoint digits_value (acc : N) (s : str) : option N :=
  match s with
  | [] => Some acc
  | c :: s => if is_ascii_digit c then digits_value (acc * 10 + (byte c - 48)) s else None
  end.

Definition parse_unsigned (max : N) (s : str) : option N :=
  let digits := match s with "+"%char :: s => s | _ => s end in
  match digits with
  | [] => None
  | _ => match digits_value 0 digits with
         | Some n => if (n <=? max)%N then Some n else None
         | None => None
         end
  end.

Definition U16_MAX : N := 0xFFFF.
Definition U64_MAX : N := 0xFFFFFFFFFFFFFFFF.

Definition parse_i32 (s : str) : option Z :=
  match s with
  | "-"%char :: d =>
      match d with
      | [] => None
      | "+"%char :: _ => None
      | _ => match digits_value 0 d with
             | Some n => if (n <=? 2147483648)%N then Some (- Z.of_N n)%Z else None
             | None => None
             end
      end
  | _ => Z.of_N <$> parse_unsigned 2147483647 s
  end.

(** ** Shared lemmas *)

Create HintDb devcroft.

Lemma ok_inj {E A} (x y : A) : @Ok E A x = Ok y → x = y.
Proof. by intros [= ->]. Qed.

Lemma byte_inj c d : byte c = byte d → c = d.
Proof. intros H. apply (f_equal ascii_of_N) in H. by rewrite !ascii_N_embedding in H. Qed.

Lemma byte_lt c : (byte c < 256)%N.
Proof. apply N_ascii_bounded. Qed.

Lemma byte_of_N n : (n < 256)%N → byte (ascii_of_N n) = n.
Proof. apply N_ascii_embedding. Qed.

Lemma in_range_spec lo hi n : in_range lo hi n = true ↔ (lo ≤ n ≤ hi)%N.
Proof. unfold in_range. rewrite andb_true_iff, !N.leb_le. tauto. Qed.

(** ASCII text: [chars] is the byte values. *)
Definition is_ascii (s : str) : Prop := Forall (λ c, (byte c < 128)%N) s.

Lemma utf8_decode_ascii s : is_ascii s → utf8_decode None s = (λ c, Some (byte c)) <$> s.
Proof.
  induction 1 as [|c s Hc _ IH]; [done|]. simpl.
  apply N.ltb_lt in Hc. rewrite Hc. by rewrite IH.
Qed.

Lemma chars_ascii s : is_ascii s → chars s = byte <$> s.
Proof. intros H. unfold chars. rewrite utf8_decode_ascii by done. by rewrite <- list_fmap_compose. Qed.

Lemma utf8_valid_ascii s : is_ascii s → utf8_valid s = true.
Proof.
  intros H. unfold utf8_valid. rewrite utf8_decode_ascii by done.
  apply forallb_forall. intros o Ho. apply list_elem_of_In in Ho.
  by apply list_elem_of_fmap in Ho as (c & -> & _).
Qed.

Lemma of_chars_cons c l : of_chars (c :: l) = encode_char c ++ of_chars l.
Proof. done. Qed.

Lemma of_chars_ascii s : is_ascii s → of_chars (byte <$> s) = s.
Proof.
  induction 1 as [|c s Hc _ IH]; [done|].
  rewrite fmap_cons, of_chars_cons, IH. unfold encode_char.
  apply N.ltb_lt in Hc. rewrite Hc. simpl. f_equal. apply ascii_N_embedding.
Qed.

#[export] Hint Resolve chars_ascii utf8_valid_ascii of_chars_ascii : devcroft.

(** *** [drop_while] *)
Lemma drop_while_suffix {A} (f : A → bool) l : ∃ k, l = k ++ drop_while f l ∧ forallb f k = true.
Proof.
  induction l as [|x l (k & Hk & Hf)]; [by exists []|]. simpl.
  destruct (f x) eqn:E; [|by exists []].
  exists (x :: k). simpl. rewrite E, Hf. by rewrite <- Hk.
Qed.

Lemma drop_while_head {A} (f : A → bool) l x : head (drop_while f l) = Some x → f x = false.
Proof. induction l as [|y l IH]; [done|]. simpl. destruct (f y) eqn:E; [done|]. simpl. by intros [= ->]. Qed.

Lemma drop_while_id {A} (f : A → bool) l :
  (∀ x, head l = Some x → f x = false) → drop_while f l = l.
Proof. destruct l as [|x l]; [done|]. intros H. simpl. by rewrite (H x). Qed.

Lemma head_reverse {A} (l : list A) : head (reverse l) = last l.
Proof. destruct l as [|x l] using rev_ind; [done|]. by rewrite reverse_snoc, last_snoc. Qed.

(** *** Searching *)
Lemma find_some {A} (f : A → bool) l x : find f l = Some x → x ∈ l ∧ f x = true.
Proof.
  induction l as [|y l IH]; [done|]. simpl. destruct (f y) eqn:E.
  - intros [= ->]. split; [by left|done].
  - intros H. apply IH in H as [? ?]. split; [by right|done].
Qed.

Lemma find_none {A} (f : A → bool) l : find f l = None ↔ (∀ x, x ∈ l → f x = false).
Proof.
  induction l as [|y l IH]; simpl.
  - split; [intros _ x Hx; by apply not_elem_of_nil in Hx|done].
  - destruct (f y) eqn:E.
    + split; [done|]. intros H. specialize (H y). rewrite H in E; [done|by left].
    + rewrite IH. split; intros H x.
      * intros Hx. apply elem_of_cons in Hx as [->|Hx]; [done|by apply H].
      * intros Hx. apply H. by right.
Qed.

Lemma existsb_elem {A} (f : A → bool) l : existsb f l = true ↔ ∃ x, x ∈ l ∧ f x = true.
Proof. rewrite existsb_exists. by setoid_rewrite list_elem_of_In. Qed.

Lemma existsb_none {A} (f : A → bool) l : existsb f l = false ↔ ∀ x, x ∈ l → f x = false.
Proof.
  rewrite <- not_true_iff_false, existsb_elem. split.
  - intros H x Hx. apply not_true_iff_false. intros Hf. apply H. eauto.
  - intros H (x & Hx & Hf). by rewrite H in Hf.
Qed.

Lemma forallb_elem {A} (f : A → bool) l : forallb f l = true ↔ ∀ x, x ∈ l → f x = true.
Proof. rewrite forallb_forall. by setoid_rewrite list_elem_of_In. Qed.

Lemma member_spec {A} `{EqDecision A} (x : A) l : member x l = true ↔ x ∈ l.
Proof.
  unfold member. rewrite existsb_elem. split.
  - intros (y & Hy & ->%bool_decide_eq_true). done.
  - intros H. exists x. split; [done|]. by apply bool_decide_eq_true.
Qed.

Lemma member_false {A} `{EqDecision A} (x : A) l : member x l = false ↔ x ∉ l.
Proof. by rewrite <- not_true_iff_false, member_spec. Qed.

Lemma try_for_each_ok {E A} (f : A → result E unit) l :
  try_for_each f l = Ok tt ↔ ∀ x, x ∈ l → f x = Ok tt.
Proof.
  induction l as [|y l IH]; simpl.
  - split; [intros _ x Hx; by apply not_elem_of_nil in Hx|done].
  - destruct (f y) as [[]|e] eqn:E1.
    + rewrite IH. split.
      * intros H x Hx. apply elem_of_cons in Hx as [->|Hx]; [done|by apply H].
      * intros H x Hx. apply H. by right.
    + split; [done|]. intros H. rewrite H in E1; [done|by left].
Qed.

(** The first error of a [try_for_each], with everything before it fine. *)
Lemma try_for_each_err {E A} (f : A → result E unit) l e :
  try_for_each f l = Err e ↔
  ∃ l1 x l2, l = l1 ++ x :: l2 ∧ f x = Err e ∧ ∀ y, y ∈ l1 → f y = Ok tt.
Proof.
  induction l as [|y l IH]; simpl.
  - split; [done|]. intros (l1 & x & l2 & H & _). by destruct l1.
  - destruct (f y) as [[]|e'] eqn:E1.
    + rewrite IH. split.
      * intros (l1 & x & l2 & -> & Hx & Hl1). exists (y :: l1), x, l2.
        split; [done|]. split; [done|]. intros z Hz.
        apply elem_of_cons in Hz as [->|Hz]; [done|by apply Hl1].
      * intros ([|z l1] & x & l2 & H & Hx & Hl1); simplify_eq/=; [congruence|].
        exists l1, x, l2. split; [done|]. split; [done|]. intros z' Hz. apply Hl1. by right.
    + split.
      * intros [= ->]. exists [], y, l. split; [done|]. split; [done|].
        intros z Hz. by apply not_elem_of_nil in Hz.
      * intros ([|z l1] & x & l2 & H & Hx & Hl1); simplify_eq/=; [congruence|].
        rewrite (Hl1 z) in E1; [done|by left].
Qed.

Lemma try_map_forall2 {E A B} (g : A → result E B) l l' :
  try_map g l = Ok l' → Forall2 (λ x y, g x = Ok y) l l'.
Proof.
  revert l'. induction l as [|x l IH]; intros l'; simpl; [by intros [= <-]; constructor|].
  destruct (g x) as [y|] eqn:Eg; [|done]. destruct (try_map g l) as [ys|]; [|done].
  intros [= <-]. constructor; [done|by apply IH].
Qed.


Lemma try_map_err {E A B} (g : A → result E B) l e : try_map g l = Err e → ∃ x, x ∈ l ∧ g x = Err e.
Proof.
  induction l as [|x l IH]; simpl; [done|]. destruct (g x) as [y|e'] eqn:Eg.
  - destruct (try_map g l) as [ys|e']; [done|]. intros [= ->]. destruct IH as (z & Hz & Hg); [done|]. exists z. by split; [right|].
  - intros [= ->]. exists x. by split; [left|].
Qed.

Lemma min_by_key_spec {A} (f : A → nat) l x :
  min_by_key f l = Some x → x ∈ l ∧ ∀ y, y ∈ l → f x ≤ f y.
Proof.
  destruct l as [|a l]; simpl; [done|]. intros [= <-].
  assert (∀ b, let m := foldl (λ best y, if f y <? f best then y else best) b l in
    m ∈ b :: l ∧ ∀ y, y ∈ b :: l → f m ≤ f y) as H; [|apply H].
  induction l as [|c l IH]; intros b; simpl.
  - split; [by left|]. intros y [->|Hy%not_elem_of_nil]%elem_of_cons; done.
  - destruct (f c <? f b) eqn:E.
    + apply Nat.ltb_lt in E. destruct (IH c) as [Hin Hmin]. split; [by right|].
      intros y [->|Hy]%elem_of_cons; [|by apply Hmin].
      etrans; [apply Hmin; by left|lia].
    + apply Nat.ltb_ge in E. destruct (IH b) as [Hin Hmin]. split.
      * apply elem_of_cons in Hin as [->|Hin]; [by left|by right; right].
      * intros y Hy. rewrite !elem_of_cons in Hy. destruct Hy as [->|[->|Hy]].
        -- apply Hmin. by left.
        -- etrans; [apply Hmin; by left|done].
        -- apply Hmin. by right.
Qed.

Lemma min_by_key_none {A} (f : A → nat) l : min_by_key f l = None ↔ l = [].
Proof. by destruct l. Qed.

Lemma elem_of_filter_bool {A} (f : A → bool) l x : x ∈ List.filter f l ↔ x ∈ l ∧ f x = true.
Proof. by rewrite !list_elem_of_In, List.filter_In. Qed.

(** *** Splitting at a separator *)
Lemma split_once_app c a b : c ∉ a → split_once c (a ++ c :: b) = Some (a, b).
Proof.
  induction a as [|d a IH]; intros Hn; simpl.
  - by destruct (decide (c = c)).
  - apply not_elem_of_cons in Hn as [Hd Hn]. destruct (decide (c = d)); [done|]. by rewrite IH.
Qed.

Lemma rsplit_once_app c a b : c ∉ b → rsplit_once c (a ++ c :: b) = Some (a, b).
Proof.
  intros Hn. unfold rsplit_once. rewrite reverse_app, reverse_cons, <- app_assoc. cbn [app].
  rewrite split_once_app by by rewrite elem_of_reverse. by rewrite !reverse_involutive.
Qed.

(** *** Printing and parsing integers *)
Lemma pretty_N_char_digit x :
  (x < 10)%N → is_ascii_digit (pretty_N_char x) = true ∧ (byte (pretty_N_char x) - 48 = x)%N.
Proof.
  intros Hx. assert (x ∈ [0; 1; 2; 3; 4; 5; 6; 7; 8; 9]%N) as Hin.
  { rewrite !elem_of_cons. lia. }
  clear Hx. repeat (apply elem_of_cons in Hin as [->|Hin]; [by vm_compute|]). by apply not_elem_of_nil in Hin.
Qed.

Lemma digits_value_pretty x s :
  digits_value 0 (pretty_N_go x s) = digits_value x s.
Proof.
  revert s. induction (N.lt_wf_0 x) as [x _ IH]; intros s.
  destruct (decide (x = 0)%N) as [->|Hx]; [by rewrite pretty_N_go_0|].
  rewrite pretty_N_go_step by lia. rewrite IH by (apply N.div_lt; lia).
  change (String.list_ascii_of_string (String ?c ?s)) with (c :: String.list_ascii_of_string s). cbn [digits_value].
  destruct (pretty_N_char_digit (x mod 10)) as [-> ->]; [by apply N.mod_lt|].
  f_equal. pose proof (N.div_mod x 10). lia.
Qed.

Lemma pretty_go_digits x s :
  Forall (λ c, is_ascii_digit c = true) (String.list_ascii_of_string s) →
  Forall (λ c, is_ascii_digit c = true) (String.list_ascii_of_string (pretty_N_go x s)).
Proof.
  revert s. induction (N.lt_wf_0 x) as [x _ IH]; intros s Hs.
  destruct (decide (x = 0)%N) as [->|Hx]; [by rewrite pretty_N_go_0|].
  rewrite pretty_N_go_step by lia. apply IH; [apply N.div_lt; lia|].
  change (String.list_ascii_of_string (String ?c ?s)) with (c :: String.list_ascii_of_string s).
  constructor; [|done]. apply pretty_N_char_digit. by apply N.mod_lt.
Qed.

Lemma show_N_digits n : Forall (λ c, is_ascii_digit c = true) (show_N n).
Proof.
  unfold show_N, pretty, pretty_N. destruct (decide (n = 0)%N); [by repeat constructor|].
  apply pretty_go_digits. constructor.
Qed.

Lemma show_N_not_in n c : is_ascii_digit c = false → c ∉ show_N n.
Proof.
  intros Hc Hin. pose proof (show_N_digits n) as Hd. rewrite Forall_forall in Hd.
  specialize (Hd c Hin). congruence.
Qed.

Lemma show_N_ascii n : is_ascii (show_N n).
Proof.
  eapply Forall_impl; [apply show_N_digits|]. intros c Hc. simpl in Hc.
  unfold is_ascii_digit, char_is_ascii_digit in Hc. apply in_range_spec in Hc. lia.
Qed.

Lemma digits_value_show n : digits_value 0 (show_N n) = Some n.
Proof.
  unfold show_N, pretty, pretty_N. destruct (decide (n = 0)%N) as [->|]; [done|].
  by rewrite digits_value_pretty.
Qed.

Lemma show_N_head n : ∃ c s, show_N n = c :: s ∧ is_ascii_digit c = true.
Proof.
  pose proof (show_N_digits n) as Hd. pose proof (digits_value_show n) as Hv.
  destruct (show_N n) as [|c s] eqn:E; [|inversion Hd; by exists c, s].
  exfalso. unfold show_N, pretty, pretty_N in E. destruct (decide (n = 0)%N) as [|Hn]; [done|].
  simpl in Hv. by injection Hv as <-.
Qed.

(** [n.to_string().parse()] is [n] when it fits the target type. *)
Lemma parse_show_N max n : (n ≤ max)%N → parse_unsigned max (show_N n) = Some n.
Proof.
  intros Hn. unfold parse_unsigned. destruct (show_N_head n) as (c & s & E & Hc).
  pose proof (digits_value_show n) as Hv. rewrite E in *.
  destruct (decide (c = "+"%char)) as [->|Hp]; [done|].
  assert ((match c :: s with "+"%char :: s => s | _ => c :: s end) = c :: s) as ->.
  { destruct c as [[] [] [] [] [] [] [] []]; done. }
  rewrite Hv. apply N.leb_le in Hn. by rewrite Hn.
Qed.

(** *** ASCII bytes in decoded text *)
Lemma utf8_lead_lo b n lo hi : utf8_lead b = Some (n, lo, hi) → (128 ≤ lo)%N.
Proof. unfold utf8_lead. intros H. repeat case_match; simplify_eq; lia. Qed.

(** An ASCII byte always decodes to itself, whatever surrounds it. *)
Lemma utf8_decode_ascii_byte c s pend :
  c ∈ s → (byte c < 128)%N → (∀ n lo hi v, pend = Some (n, lo, hi, v) → (128 ≤ lo)%N) →
  Some (byte c) ∈ utf8_decode pend s.
Proof.
  intros Hin Hc. revert pend. induction s as [|d s IH]; [by apply not_elem_of_nil in Hin|]. intros pend Hp.
  assert (∀ l : list (option char), (∀ p, (∀ n lo hi v, p = Some (n, lo, hi, v) → (128 ≤ lo)%N) →
      c ∈ s → Some (byte c) ∈ utf8_decode p s) →
    Some (byte c) ∈ l ++ (if (byte d <? 128)%N then Some (byte d) :: utf8_decode None s
      else match utf8_lead (byte d) with
           | Some (n, lo, hi) => utf8_decode (Some (n, lo, hi, utf8_lead_bits n (byte d))) s
           | None => None :: utf8_decode None s end)) as Hstart.
  { intros l Hs. apply elem_of_app. right. destruct (byte d <? 128)%N eqn:Ed.
    - apply elem_of_cons in Hin as [->|Hin]; [by left|]. right. by apply Hs.
    - apply N.ltb_ge in Ed. apply elem_of_cons in Hin as [->|Hin]; [lia|].
      destruct (utf8_lead (byte d)) as [[[n lo] hi]|] eqn:El.
      + apply Hs; [|done]. intros ? ? ? ? [= <- <- <- <-]. by eapply utf8_lead_lo.
      + right. by apply Hs. }
  assert (∀ p, (∀ n lo hi v, p = Some (n, lo, hi, v) → (128 ≤ lo)%N) → c ∈ s → Some (byte c) ∈ utf8_decode p s) as Hs.
  { intros p Hp' Hin'. by apply IH. }
  destruct pend as [[[[n lo] hi] v]|]; cbn [utf8_decode]; [|exact (Hstart [] Hs)].
  specialize (Hp n lo hi v eq_refl). destruct (in_range lo hi (byte d)) eqn:Er; [|exact (Hstart [None] Hs)].
  apply in_range_spec in Er. apply elem_of_cons in Hin as [->|Hin]; [lia|].
  destruct n as [|[|n]]; [right; by apply Hs..|].
  apply Hs; [|done]. by intros ? ? ? ? [= <- <- <- <-].
Qed.

Lemma chars_ascii_byte c s : c ∈ s → (byte c < 128)%N → byte c ∈ chars s.
Proof.
  intros Hin Hc. unfold chars. apply list_elem_of_fmap. exists (Some (byte c)). split; [done|].
  by apply utf8_decode_ascii_byte.
Qed.

(** Valid text decodes on its own, whatever follows. *)
Lemma utf8_decode_app a b pend :
  forallb (λ o, match o with Some _ => true | None => false end) (utf8_decode pend a) = true →
  utf8_decode pend (a ++ b) = utf8_decode pend a ++ utf8_decode None b.
Proof.
  revert pend. induction a as [|c a IH]; intros [[[[n lo] hi] v]|]; cbn [utf8_decode app forallb]; try done.
  - destruct (in_range lo hi (byte c)); [|done].
    destruct n as [|[|n]]; cbn [forallb app]; [intros H; by rewrite IH..|apply IH].
  - destruct (byte c <? 128)%N; cbn [forallb app]; [intros H; by rewrite IH|].
    destruct (utf8_lead (byte c)) as [[[n lo] hi]|]; [apply IH|done].
Qed.

Lemma utf8_valid_app a b : utf8_valid a = true → utf8_valid (a ++ b) = utf8_valid b.
Proof.
  unfold utf8_valid. intros H. rewrite utf8_decode_app by done. by rewrite forallb_app, H.
Qed.

(** *** Encoded text decodes to itself *)

(** The values of a [char]. *)
Definition scalar (n : char) : Prop := (n < 0xD800 ∨ 0xE000 ≤ n < 0x110000)%N.

Lemma utf8_lead_step c s n lo hi :
  (128 ≤ byte c)%N → utf8_lead (byte c) = Some (n, lo, hi) →
  utf8_decode None (c :: s) = utf8_decode (Some (n, lo, hi, utf8_lead_bits n (byte c))) s.
Proof. intros Hc Hl. cbn [utf8_decode]. rewrite (proj2 (N.ltb_ge _ _)) by done. by rewrite Hl. Qed.

Lemma utf8_next_step n lo hi v c s :
  in_range lo hi (byte c) = true →
  utf8_decode (Some (S n, lo, hi, v)) (c :: s)
  = match n with
    | 0 => Some (v * 64 + byte c mod 64)%N :: utf8_decode None s
    | S _ => utf8_decode (Some (n, 0x80%N, 0xBF%N, v * 64 + byte c mod 64)%N) s
    end.
Proof. intros Hr. cbn [utf8_decode]. rewrite Hr. by destruct n. Qed.

Lemma mod_above k a m r : a = (k * m)%N → (r < m)%N → ((a + r) mod m = r)%N.
Proof. intros ->. intros. rewrite N.add_comm, N.Div0.mod_add. by apply N.mod_small. Qed.

(** What [encode_utf8] writes for a character decodes to it. *)
Lemma utf8_decode_encode n s : scalar n → utf8_decode None (encode_char n ++ s) = Some n :: utf8_decode None s.
Proof.
  intros Hn. unfold scalar in Hn. unfold encode_char.
  assert (n = 64 * (n / 64) + n mod 64 ∧ n mod 64 < 64)%N as [E1 R1] by (split; [by apply N.div_mod|by apply N.mod_lt]).
  assert (n / 64 = 64 * (n / 4096) + n / 64 mod 64 ∧ n / 64 mod 64 < 64)%N as [E2 R2].
  { replace 4096%N with (64 * 64)%N by done. rewrite <- N.Div0.div_div. split; [by apply N.div_mod|by apply N.mod_lt]. }
  assert (n / 4096 = 64 * (n / 262144) + n / 4096 mod 64 ∧ n / 4096 mod 64 < 64)%N as [E3 R3].
  { replace 262144%N with (4096 * 64)%N by done. rewrite <- (N.Div0.div_div n 4096). split; [by apply N.div_mod|by apply N.mod_lt]. }
  set (q1 := (n / 64)%N) in *. set (q2 := (n / 4096)%N) in *. set (q3 := (n / 262144)%N) in *.
  set (r1 := (n mod 64)%N) in *. set (r2 := (q1 mod 64)%N) in *. set (r3 := (q2 mod 64)%N) in *. clearbody r1 r2 r3 q1 q2 q3.
  assert (∀ r, r < 64 → (0x80 + r) mod 64 = r)%N as Hmod by (intros r Hr; by apply (mod_above 2)).
  assert (∀ m, (m < 256)%N → byte (ascii_of_N m) = m) as Hb by (intros; by apply N_ascii_embedding).
  destruct (n <? 128)%N eqn:D1; [|destruct (n <? 2048)%N eqn:D2; [|destruct (n <? 65536)%N eqn:D3]];
    rewrite ?N.ltb_lt, ?N.ltb_ge in *; cbn [app].
  - cbn [utf8_decode]. rewrite Hb by lia. by rewrite (proj2 (N.ltb_lt _ _)) by done.
  - rewrite (utf8_lead_step _ _ 1 0x80 0xBF) by (rewrite Hb by lia; first [lia|unfold utf8_lead; by rewrite (proj2 (in_range_spec _ _ _)) by lia]).
    rewrite utf8_next_step by (apply in_range_spec; rewrite Hb; lia).
    unfold utf8_lead_bits. rewrite !Hb by lia. rewrite Hmod by done. rewrite (mod_above 6) by (done || lia). do 2 f_equal. lia.
  - assert (∃ lo hi, utf8_lead (0xE0 + q2) = Some (2, lo, hi) ∧ (lo ≤ 0x80 + r2 ≤ hi)%N) as (lo & hi & Hl & ? & ?).
    { unfold utf8_lead. repeat case_match; rewrite ?in_range_spec, ?N.eqb_eq, ?N.eqb_neq, <- ?not_true_iff_false, ?in_range_spec in *;
        try (exfalso; lia); eexists _, _; (split; [done|lia]). }
    rewrite (utf8_lead_step _ _ 2 lo hi) by (rewrite Hb by lia; first [lia|exact Hl]).
    rewrite utf8_next_step by (apply in_range_spec; rewrite Hb; lia). rewrite utf8_next_step by (apply in_range_spec; rewrite Hb; lia).
    unfold utf8_lead_bits. rewrite !Hb by lia. rewrite !Hmod by done. rewrite (mod_above 14) by (done || lia). do 2 f_equal. lia.
  - assert (∃ lo hi, utf8_lead (0xF0 + q3) = Some (3, lo, hi) ∧ (lo ≤ 0x80 + r3 ≤ hi)%N) as (lo & hi & Hl & ? & ?).
    { unfold utf8_lead. repeat case_match; rewrite ?in_range_spec, ?N.eqb_eq, ?N.eqb_neq, <- ?not_true_iff_false, ?in_range_spec in *;
        try (exfalso; lia); eexists _, _; (split; [done|lia]). }
    rewrite (utf8_lead_step _ _ 3 lo hi) by (rewrite Hb by lia; first [lia|exact Hl]).
    rewrite utf8_next_step by (apply in_range_spec; rewrite Hb; lia). do 2 rewrite utf8_next_step by (apply in_range_spec; rewrite Hb; lia).
    unfold utf8_lead_bits. rewrite !Hb by lia. rewrite !Hmod by done. rewrite (mod_above 30) by (done || lia). do 2 f_equal. lia.
Qed.

Lemma chars_of_chars l : Forall scalar l → chars (of_chars l) = l.
Proof.
  induction 1 as [|n l Hn _ IH]; [done|]. rewrite of_chars_cons. unfold chars. rewrite utf8_decode_encode by done.
  cbn. f_equal. exact IH.
Qed.

(** *** Newlines in decoded and trimmed text *)

(** The states of the decoder inside a sequence: the value read so far leads
    to a character beyond ASCII and below [2^21]. *)
Definition pend_ok (p : option (nat * N * N * N)) : Prop :=
  ∀ n lo hi v, p = Some (n, lo, hi, v) →
    (128 ≤ lo)%N ∧ (hi ≤ 191)%N ∧
    match n with
    | 1 => (128 ≤ v * 64 + (lo - 128) ∧ v < 32768)%N
    | 2 => (2 ≤ v * 64 + (lo - 128) ∧ v < 512)%N
    | 3 => (1 ≤ v * 64 + (lo - 128) ∧ v < 8)%N
    | _ => False
    end.

Lemma pend_ok_lead b n lo hi : utf8_lead b = Some (n, lo, hi) → pend_ok (Some (n, lo, hi, utf8_lead_bits n b)).
Proof.
  intros Hl n' lo' hi' v [= <- <- <- <-]. unfold utf8_lead, in_range in Hl.
  assert (∀ m, (m ≠ 0)%N → ∃ q r, (b mod m = r ∧ b = m * q + r ∧ r < m)%N) as Hm.
  { intros m Hm. exists (b / m)%N, (b mod m)%N. split; [done|]. split; [by apply N.div_mod|by apply N.mod_lt]. }
  repeat (case_match; simplify_eq); unfold utf8_lead_bits;
    repeat match goal with
    | H : (_ && _) = true |- _ => apply andb_true_iff in H as [?%N.leb_le ?%N.leb_le]
    | H : (_ =? _)%N = true |- _ => apply N.eqb_eq in H
    end;
    destruct (Hm 32%N) as (q1 & r1 & E1 & ? & ?), (Hm 16%N) as (q2 & r2 & E2 & ? & ?), (Hm 8%N) as (q3 & r3 & E3 & ? & ?);
    try done; rewrite ?E1, ?E2, ?E3; clear E1 E2 E3; clear Hm; split_and!; lia.
Qed.

Lemma utf8_decode_values s p n :
  pend_ok p → Some n ∈ utf8_decode p s → (∃ c, c ∈ s ∧ byte c = n ∧ (n < 128)%N) ∨ (128 ≤ n < 2097152)%N.
Proof.
  revert p. induction s as [|d s IH]; intros p Hp.
  { destruct p; cbn; intros Hin; [|by apply elem_of_nil in Hin]. by apply list_elem_of_singleton in Hin. }
  assert (∀ p, pend_ok p → Some n ∈ utf8_decode p s →
    (∃ c, c ∈ d :: s ∧ byte c = n ∧ (n < 128)%N) ∨ (128 ≤ n < 2097152)%N) as IH'.
  { intros p' Hp' Hin. destruct (IH p' Hp' Hin) as [(c & ? & ?)|?]; [left; exists c; split; [by right|done]|by right]. }
  assert (pend_ok None) as Hnone by done.
  assert (Some n ∈ (if (byte d <? 128)%N then Some (byte d) :: utf8_decode None s
      else match utf8_lead (byte d) with
           | Some (m, lo, hi) => utf8_decode (Some (m, lo, hi, utf8_lead_bits m (byte d))) s
           | None => None :: utf8_decode None s end) →
    (∃ c, c ∈ d :: s ∧ byte c = n ∧ (n < 128)%N) ∨ (128 ≤ n < 2097152)%N) as Hstart.
  { destruct (byte d <? 128)%N eqn:Ed.
    - intros [[= ->]|Hin]%elem_of_cons; [|by apply (IH' None)]. left. exists d. apply N.ltb_lt in Ed. split; [by left|done].
    - destruct (utf8_lead (byte d)) as [[[m lo] hi]|] eqn:El; [apply IH'; by apply pend_ok_lead|].
      intros [?|Hin]%elem_of_cons; [done|by apply (IH' None)]. }
  destruct p as [[[[m lo] hi] v]|]; cbn [utf8_decode]; [|exact Hstart].
  destruct (Hp _ _ _ _ eq_refl) as (Hlo & Hhi & Hv). destruct (in_range lo hi (byte d)) eqn:Er.
  2: { intros [?|Hin]%elem_of_cons; [done|by apply Hstart]. }
  apply in_range_spec in Er. assert (byte d mod 64 = byte d - 128)%N as Hmod.
  { replace (byte d) with ((byte d - 128) + 2 * 64)%N at 1 by lia. rewrite N.Div0.mod_add, N.mod_small by lia. done. }
  rewrite Hmod. destruct m as [|[|[|[|m]]]]; [done| | | |done].
  - intros [[= ->]|Hin]%elem_of_cons; [right; lia|by apply (IH' None)].
  - apply IH'. intros ? ? ? ? [= <- <- <- <-]. split_and!; lia.
  - apply IH'. intros ? ? ? ? [= <- <- <- <-]. split_and!; lia.
Qed.

Lemma chars_values s n : n ∈ chars s → (∃ c, c ∈ s ∧ byte c = n ∧ (n < 128)%N) ∨ (128 ≤ n < 2097152)%N.
Proof.
  unfold chars. intros ([m|] & -> & Hin)%list_elem_of_fmap; [|right; cbn; lia]. by apply (utf8_decode_values s None).
Qed.

Lemma encode_char_ascii_byte n c : (n < 2097152)%N → c ∈ encode_char n → (byte c < 128)%N → byte c = n.
Proof.
  assert (∀ m, (m < 256)%N → byte (ascii_of_N m) = m) as Hb by (intros; by apply N_ascii_embedding).
  intros Hn. unfold encode_char.
  assert (n / 64 < 32768 ∧ n / 4096 < 512 ∧ n / 262144 < 8)%N as (? & ? & ?) by (split_and!; apply N.Div0.div_lt_upper_bound; lia).
  assert ((n < 2048 → n / 64 < 32) ∧ (n < 65536 → n / 4096 < 16))%N as (? & ?) by (split; intros; apply N.Div0.div_lt_upper_bound; lia).
  pose proof (N.mod_lt n 64 ltac:(done)). pose proof (N.mod_lt (n / 64) 64 ltac:(done)). pose proof (N.mod_lt (n / 4096) 64 ltac:(done)).
  set (q1 := (n / 64)%N) in *. set (q2 := (n / 4096)%N) in *. set (q3 := (n / 262144)%N) in *.
  set (r1 := (n mod 64)%N) in *. set (r2 := (q1 mod 64)%N) in *. set (r3 := (q2 mod 64)%N) in *. clearbody r1 r2 r3 q1 q2 q3.
  destruct (n <? 128)%N eqn:E1; [|destruct (n <? 2048)%N eqn:E2; [|destruct (n <? 65536)%N eqn:E3]];
    rewrite ?N.ltb_lt, ?N.ltb_ge in *; rewrite !elem_of_cons, elem_of_nil; intros Hin; destruct_or! Hin; try done; subst c;
    rewrite Hb by lia; intros; lia.
Qed.

Lemma of_chars_ascii_byte c l : c ∈ of_chars l → (byte c < 128)%N → Forall (λ n, n < 2097152)%N l → byte c ∈ l.
Proof.
  intros Hin Hc Hl. unfold of_chars in Hin. apply list_elem_of_join in Hin as (x & Hx & Hin).
  apply list_elem_of_fmap in Hin as (n & -> & Hn). rewrite Forall_forall in Hl.
  by rewrite (encode_char_ascii_byte n c) by eauto.
Qed.

Lemma utf8_decode_snoc_nl s p : pend_ok p → utf8_decode p (s ++ [NL]) = utf8_decode p s ++ [Some 10%N].
Proof.
  revert p. induction s as [|d s IH]; intros p Hp.
  { destruct p as [[[[n lo] hi] v]|]; cbn [utf8_decode app]; [|done].
    destruct (Hp _ _ _ _ eq_refl) as (Hlo & _). destruct (in_range lo hi (byte NL)) eqn:Er; [|done].
    apply in_range_spec in Er. change (byte NL) with 10%N in Er. lia. }
  assert (pend_ok None) as Hnone by done.
  destruct p as [[[[n lo] hi] v]|]; cbn [utf8_decode app].
  - destruct (Hp _ _ _ _ eq_refl) as (Hlo & Hhi & Hv). destruct (in_range lo hi (byte d)) eqn:Er.
    + apply in_range_spec in Er. assert (byte d mod 64 = byte d - 128)%N as Hmod.
      { replace (byte d) with ((byte d - 128) + 2 * 64)%N at 1 by lia. rewrite N.Div0.mod_add, N.mod_small by lia. done. }
      destruct n as [|[|[|[|n]]]]; [done|by rewrite IH| | |done];
        apply IH; intros ? ? ? ? [= <- <- <- <-]; rewrite Hmod; split_and!; lia.
    + destruct (byte d <? 128)%N; [by rewrite IH|].
      destruct (utf8_lead (byte d)) as [[[m lo'] hi']|] eqn:El; [rewrite IH; [done|by apply pend_ok_lead]|by rewrite IH].
  - destruct (byte d <? 128)%N; [by rewrite IH|].
    destruct (utf8_lead (byte d)) as [[[m lo'] hi']|] eqn:El; [apply IH; by apply pend_ok_lead|by rewrite IH].
Qed.

Lemma chars_snoc_nl s : chars (s ++ [NL]) = chars s ++ [10%N].
Proof. unfold chars. by rewrite utf8_decode_snoc_nl, fmap_app. Qed.

Lemma drop_while_snoc {A} (f : A → bool) l x :
  f x = true → drop_while f (l ++ [x]) = [] ∨ drop_while f (l ++ [x]) = drop_while f l ++ [x].
Proof. intros Hx. induction l as [|y l IH]; cbn; [rewrite Hx; by left|]. destruct (f y); [done|by right]. Qed.

(** Re-encoding part of the decoded text introduces no newline. *)
Lemma of_chars_no_nl s l : NL ∉ s → (∀ n, n ∈ l → n ∈ chars s) → NL ∉ of_chars l.
Proof.
  intros Hn Hl Hin. apply of_chars_ascii_byte in Hin; [|done|].
  - destruct (chars_values s _ (Hl _ Hin)) as [(c & Hc & Hb & _)|Hx]; [|change (byte NL) with 10%N in Hx; lia].
    apply byte_inj in Hb. by subst.
  - apply Forall_forall. intros n Hn'. destruct (chars_values s _ (Hl _ Hn')) as [(c & _ & _ & ?)|?]; lia.
Qed.

Lemma trim_end_no_nl s : NL ∉ s → NL ∉ trim_end s.
Proof.
  intros Hn. apply (of_chars_no_nl s); [done|]. intros n Hin. rewrite elem_of_reverse in Hin.
  destruct (drop_while_suffix is_whitespace (reverse (chars s))) as (k & Hk & _).
  apply elem_of_reverse. rewrite Hk. apply elem_of_app. by right.
Qed.

(** A line as it is read: no newline but a last one. *)
Definition one_line (s : str) : Prop := ∃ a, NL ∉ a ∧ (s = a ∨ s = a ++ [NL]).

Lemma trim_end_snoc_nl s : trim_end (s ++ [NL]) = trim_end s.
Proof. unfold trim_end. by rewrite chars_snoc_nl, reverse_app. Qed.

Lemma trim_end_one_line s : one_line s → NL ∉ trim_end s.
Proof. intros (a & Hn & [->| ->]); rewrite ?trim_end_snoc_nl; by apply trim_end_no_nl. Qed.

Lemma trim_one_line s : one_line s → NL ∉ trim s.
Proof.
  assert (∀ a, NL ∉ a → NL ∉ of_chars (drop_while is_whitespace (chars a))) as Ha.
  { intros a Hn. apply (of_chars_no_nl a); [done|]. intros n Hin. destruct (drop_while_suffix is_whitespace (chars a)) as (k & Hk & _).
    rewrite Hk. apply elem_of_app. by right. }
  intros (a & Hn & [->| ->]); unfold trim; [by apply trim_end_no_nl, Ha|]. rewrite chars_snoc_nl.
  destruct (drop_while_snoc is_whitespace (chars a) 10%N eq_refl) as [E|E]; cbn [app] in E; unfold char in *; rewrite E; clear E.
  - apply trim_end_no_nl. unfold of_chars. apply not_elem_of_nil.
  - unfold of_chars. rewrite fmap_app, join_app. change (mjoin (encode_char <$> [10%N])) with [NL].
    rewrite trim_end_snoc_nl. by apply trim_end_no_nl, Ha.
Qed.

Lemma split_once_spec c s a b : split_once c s = Some (a, b) → s = a ++ c :: b ∧ c ∉ a.
Proof.
  revert a b. induction s as [|d s IH]; intros a b; cbn; [done|]. destruct (decide (c = d)) as [->|Hd].
  - intros [= <- <-]. split; [done|apply not_elem_of_nil].
  - destruct (split_once c s) as [[a' b']|]; [|done]. intros [= <- <-]. destruct (IH a' b' eq_refl) as [-> Hn].
    split; [done|]. by apply not_elem_of_cons.
Qed.

Lemma rsplit_once_spec c s a b : rsplit_once c s = Some (a, b) → s = a ++ c :: b ∧ c ∉ b.
Proof.
  unfold rsplit_once. destruct (split_once c (reverse s)) as [[x y]|] eqn:E; [|done]. intros [= <- <-].
  apply split_once_spec in E as [E Hn]. split; [|by rewrite elem_of_reverse].
  rewrite <- (reverse_involutive s), E, reverse_app, reverse_cons, <- app_assoc. done.
Qed.

Lemma strip_prefix_app p s : strip_prefix p (p ++ s) = Some s.
Proof. induction p as [|c p IH]; [done|]. cbn [app strip_prefix]. by rewrite decide_True. Qed.

Lemma strip_prefix_spec p s r : strip_prefix p s = Some r → s = p ++ r.
Proof.
  revert s. induction p as [|x p IH]; intros s; cbn; [by intros [= ->]|]. destruct s as [|y s]; [done|].
  destruct (decide (x = y)) as [->|]; [|done]. intros Hs. by rewrite (IH s Hs).
Qed.

(** *** Words *)
Definition ascii_word (w : str) : Prop :=
  w ≠ [] ∧ Forall (λ c, (byte c < 128)%N ∧ is_whitespace (byte c) = false) w.

Lemma ascii_word_ascii w : ascii_word w → is_ascii w.
Proof. intros [_ H]. eapply Forall_impl; [exact H|]. by intros c [? _]. Qed.

Lemma words_word w cur rest :
  Forall (λ c, (byte c < 128)%N ∧ is_whitespace (byte c) = false) w →
  words is_whitespace cur ((byte <$> w) ++ rest) = words is_whitespace (reverse (byte <$> w) ++ cur) rest.
Proof.
  revert cur. induction w as [|c w IH]; intros cur Hw; [done|]. inversion Hw as [|? ? [_ Hc] Hw']; subst.
  rewrite fmap_cons. cbn [app words]. rewrite Hc, IH by done. by rewrite reverse_cons, <- app_assoc.
Qed.

Lemma words_flush {A} (l : list A) :
  l ≠ [] → match reverse l ++ [] with [] => [] | _ => [reverse (reverse l ++ [])] end = [l].
Proof.
  intros Hl. rewrite app_nil_r. destruct (reverse l) as [|x l'] eqn:E.
  - apply (f_equal length) in E. rewrite length_reverse in E. by destruct l.
  - by rewrite <- E, reverse_involutive.
Qed.

Lemma split_whitespace_words ws :
  Forall ascii_word ws → split_whitespace (join " " ws) = ws.
Proof.
  intros Hws. unfold split_whitespace.
  assert (is_ascii (join " " ws)) as Ha.
  { induction Hws as [|w ws Hw Hws IH]; [constructor|]. destruct ws as [|w' ws]; [by apply ascii_word_ascii|].
    cbn [join]. apply Forall_app. split; [by apply ascii_word_ascii|]. by constructor. }
  rewrite chars_ascii by done. clear Ha. induction Hws as [|w ws Hw Hws IH]; [done|].
  destruct ws as [|w' ws].
  - cbn [join]. rewrite <- (app_nil_r (byte <$> w)), words_word by apply Hw. cbn [words].
    rewrite words_flush by (destruct Hw; by destruct w). simpl. by rewrite of_chars_ascii by by apply ascii_word_ascii.
  - change (join " " (w :: w' :: ws)) with (w ++ " "%char :: join " " (w' :: ws)).
    rewrite fmap_app, words_word by apply Hw. rewrite fmap_cons.
    cbn [words]. change (is_whitespace (byte " ")) with true. cbn iota.
    rewrite words_flush by (destruct Hw; by destruct w). cbn [app]. rewrite fmap_cons, IH.
    by rewrite of_chars_ascii by by apply ascii_word_ascii.
Qed.

Lemma show_N_word n : ascii_word (show_N n).
Proof.
  split.
  - destruct (show_N_head n) as (c & s & -> & _). done.
  - eapply Forall_impl; [apply show_N_digits|]. intros c Hc. simpl in Hc.
    unfold is_ascii_digit, char_is_ascii_digit in Hc. apply in_range_spec in Hc. split; [lia|].
    unfold is_whitespace, in_range. repeat rewrite orb_false_iff. rewrite !andb_false_iff, !N.leb_gt, !N.eqb_neq. lia.
Qed.

Lemma show_N_inj n n' : show_N n = show_N n' → n = n'.
Proof. intros E. pose proof (digits_value_show n) as Hn. rewrite E, digits_value_show in Hn. by injection Hn. Qed.

Lemma show_Z_not_in z c : is_ascii_digit c = false → c ≠ "-"%char → c ∉ show_Z z.
Proof.
  intros Hd Hm. destruct z as [|q|q]; [by apply (show_N_not_in 0)|by apply (show_N_not_in (N.pos q))|].
  change (show_Z (Z.neg q)) with ("-"%char :: show_N (N.pos q)). rewrite not_elem_of_cons. split; [done|by apply show_N_not_in].
Qed.

Lemma show_N_dash n s : show_N n ≠ "-"%char :: s.
Proof. intros E. apply (show_N_not_in n "-"%char); [done|]. rewrite E. by left. Qed.

Lemma show_Z_inj z z' : show_Z z = show_Z z' → z = z'.
Proof.
  assert (∀ q, show_Z (Z.neg q) = "-"%char :: show_N (N.pos q)) as Hneg by done.
  assert (∀ y, (0 ≤ y)%Z → show_Z y = show_N (Z.to_N y)) as Hpos by (intros [|q|q]; done).
  destruct (Z.neg_nonneg_cases z) as [Hz|Hz], (Z.neg_nonneg_cases z') as [Hz'|Hz'].
  - destruct z as [|q|q], z' as [|q'|q']; try lia. rewrite !Hneg. intros [= E%show_N_inj]. by injection E as ->.
  - destruct z as [|q|q]; try lia. rewrite Hneg, Hpos by done. intros E. symmetry in E. by apply show_N_dash in E.
  - destruct z' as [|q'|q']; try lia. rewrite Hneg, (Hpos z) by done. by intros E%show_N_dash.
  - rewrite !Hpos by done. intros E%show_N_inj. lia.
Qed.

Lemma sep_inj {A} (x : A) a a' b b' : x ∉ a → x ∉ a' → a ++ x :: b = a' ++ x :: b' → a = a' ∧ b = b'.
Proof.
  revert a'. induction a as [|y a IH]; intros [|y' a'] Ha Ha' E; cbn in E; simplify_eq; try done.
  - destruct Ha'. by left.
  - destruct Ha. by left.
  - destruct (IH a') as [-> ->]; try done; intros ?; [apply Ha|apply Ha']; by right.
Qed.

Lemma show_Z_of_N n : show_Z (Z.of_N n) = show_N n.
Proof. by destruct n. Qed.

Lemma parse_i32_show n : (n ≤ 2147483647)%N → parse_i32 (show_Z (Z.of_N n)) = Some (Z.of_N n).
Proof.
  intros Hn. rewrite show_Z_of_N. pose proof (parse_show_N _ _ Hn) as Hp.
  destruct (show_N_head n) as (c & s & E & Hc). rewrite E in *. unfold parse_i32.
  destruct (decide (c = "-"%char)) as [->|Hm]; [done|].
  assert ((match c :: s with "-"%char :: d => match d with [] => None | "+"%char :: _ => None
    | _ => match digits_value 0 d with Some n => if (n <=? 2147483648)%N then Some (- Z.of_N n)%Z else None | None => None end end
    | _ => Z.of_N <$> parse_unsigned 2147483647 (c :: s) end) = Z.of_N <$> parse_unsigned 2147483647 (c :: s)) as ->.
  { destruct c as [[] [] [] [] [] [] [] []]; done. }
  by rewrite Hp.
Qed.

(** *** Ordering strings and sorting ([sort_by(|a, b| a.name.cmp(&b.name))], a stable sort) *)
Fixpoint str_leb (a b : str) : bool :=
  match a, b with
  | [], _ => true
  | _ :: _, [] => false
  | c :: a, d :: b => if (byte c =? byte d)%N then str_leb a b else (byte c <? byte d)%N
  end.

Lemma str_leb_refl a : str_leb a a = true.
Proof. induction a as [|c a IH]; [done|]. simpl. by rewrite N.eqb_refl. Qed.

Lemma str_leb_total a b : str_leb a b = true ∨ str_leb b a = true.
Proof.
  revert b. induction a as [|c a IH]; intros [|d b]; simpl; auto.
  rewrite (N.eqb_sym (byte d)). destruct (byte c =? byte d)%N eqn:E; [apply IH|].
  apply N.eqb_neq in E. rewrite !N.ltb_lt. lia.
Qed.

Lemma str_leb_trans a b c : str_leb a b = true → str_leb b c = true → str_leb a c = true.
Proof.
  revert b c. induction a as [|x a IH]; intros [|y b] [|z c]; simpl; try done.
  repeat match goal with |- context [(byte ?p =? byte ?q)%N] => destruct (N.eqb_spec (byte p) (byte q)) end;
    rewrite ?N.ltb_lt; try congruence; try lia. apply IH.
Qed.

Lemma str_leb_antisym a b : str_leb a b = true → str_leb b a = true → a = b.
Proof.
  revert b. induction a as [|c a IH]; intros [|d b]; simpl; try done.
  rewrite (N.eqb_sym (byte d)). destruct (N.eqb_spec (byte c) (byte d)) as [E|E].
  - intros H1 H2. f_equal; [by apply byte_inj|by apply IH].
  - rewrite !N.ltb_lt. lia.
Qed.

Section sorting.
Context {A : Type} (key : A → str).

Fixpoint insert_by (x : A) (l : list A) : list A :=
  match l with
  | [] => [x]
  | y :: l' => if str_leb (key x) (key y) then x :: l else y :: insert_by x l'
  end.
Definition sort_by (l : list A) : list A := foldr insert_by [] l.

Definition key_le (x y : A) : Prop := str_leb (key x) (key y) = true.

Lemma insert_by_perm x l : insert_by x l ≡ₚ x :: l.
Proof.
  induction l as [|y l IH]; [done|]. simpl. destruct (str_leb _ _); [done|]. rewrite IH. apply Permutation_swap.
Qed.

Lemma sort_by_perm l : sort_by l ≡ₚ l.
Proof. induction l as [|x l IH]; [done|]. simpl. by rewrite insert_by_perm, IH. Qed.

Lemma insert_by_sorted x l : StronglySorted key_le l → StronglySorted key_le (insert_by x l).
Proof.
  induction 1 as [|y l Hl IH Hy]; simpl; [by repeat constructor|].
  destruct (str_leb (key x) (key y)) eqn:E.
  - constructor; [by constructor|]. constructor; [done|]. eapply Forall_impl; [exact Hy|].
    intros z Hz. by eapply str_leb_trans.
  - constructor; [done|]. rewrite insert_by_perm. constructor; [|done].
    unfold key_le. destruct (str_leb_total (key x) (key y)); congruence.
Qed.

Lemma sort_by_sorted l : StronglySorted key_le (sort_by l).
Proof. induction l as [|x l IH]; [constructor|]. by apply insert_by_sorted. Qed.

Lemma elem_of_sort_by x l : x ∈ sort_by l ↔ x ∈ l.
Proof. by rewrite sort_by_perm. Qed.
End sorting.
