(* ===== verification/Slug.v ===== *)
(** * Sandbox names ([src/config/slug.rs])

    [is_valid_name] is the one gate every sandbox name passes before it
    becomes a host name label and a directory component; [slugify] is the
    suggestion devcroft makes for a name that fails it.  Both are translated
    over the [char]s of the name; [slugify] builds its result byte by byte, as
    the source's [String] does. *)

From S2P Require Import Prelude.

Definition MAX_LEN : nat := 32.

Definition DASH : ascii := "-".

(** The class [[a-z0-9]] and the class [[a-z0-9-]], on [char]s. *)
Definition is_alnum (c : char) : bool := char_is_ascii_lowercase c || char_is_ascii_digit c.
Definition is_slug_char (c : char) : bool := is_alnum c || (c =? byte DASH)%N.

Definition is_valid_name (name : str) : bool :=
  if bool_decide (name = []) || (MAX_LEN <? length name) then false
  else match chars name with
       | [] => false
       | first :: _ =>
           if negb (char_is_ascii_lowercase first) && negb (char_is_ascii_digit first) then false
           else forallb is_slug_char (chars name)
       end.

(** The body of the [for c in name.chars()] loop of [slugify]. *)
Definition slug_push (slug : str) (c : char) : str :=
  let lower := char_to_ascii_lowercase c in
  if char_is_ascii_lowercase lower || char_is_ascii_digit lower then slug ++ [ascii_of_N lower]
  else if negb (last_is DASH slug) && negb (bool_decide (slug = [])) then slug ++ [DASH]
  else slug.

(** [while slug.ends_with('-') { slug.pop(); }] *)
Definition pop_dashes (slug : str) : str :=
  reverse (drop_while (λ c, bool_decide (c = DASH)) (reverse slug)).

Definition slugify (name : str) : str :=
  let slug := foldl slug_push [] (chars name) in
  let slug := pop_dashes slug in
  let slug := take MAX_LEN slug in
  let slug := pop_dashes slug in
  if bool_decide (slug = []) then "sandbox" else slug.

(** ** Invariant of the loop *)

Definition slug_byte (c : ascii) : Prop := is_slug_char (byte c) = true.

(** Slug characters only, no leading dash, no two dashes in a row. *)
Record slug_wf (s : str) : Prop := {
  wf_chars : Forall slug_byte s;
  wf_head : head s ≠ Some DASH;
  wf_dashes : ∀ i, s !! i = Some DASH → s !! S i ≠ Some DASH;
}.

Lemma is_slug_char_spec c :
  is_slug_char c = true ↔ (97 ≤ c ≤ 122 ∨ 48 ≤ c ≤ 57 ∨ c = 45)%N.
Proof.
  unfold is_slug_char, is_alnum, char_is_ascii_lowercase, char_is_ascii_digit.
  rewrite !orb_true_iff, !in_range_spec, N.eqb_eq. change (byte DASH) with 45%N. lia.
Qed.

Lemma is_alnum_spec c : is_alnum c = true ↔ (97 ≤ c ≤ 122 ∨ 48 ≤ c ≤ 57)%N.
Proof.
  unfold is_alnum, char_is_ascii_lowercase, char_is_ascii_digit.
  by rewrite orb_true_iff, !in_range_spec.
Qed.

Lemma slug_bytes_ascii s : Forall slug_byte s → is_ascii s.
Proof.
  intros H. eapply Forall_impl; [exact H|]. intros c Hc.
  apply is_slug_char_spec in Hc. lia.
Qed.

Lemma slug_byte_alnum c : slug_byte c → c ≠ DASH → is_alnum (byte c) = true.
Proof.
  intros H%is_slug_char_spec Hne. apply is_alnum_spec.
  assert (byte c ≠ 45%N); [|lia]. intros E. apply Hne. by apply byte_inj.
Qed.

Lemma slug_wf_nil : slug_wf [].
Proof. split; [constructor|done|]. by intros i. Qed.

Lemma slug_wf_snoc s c :
  slug_wf s → slug_byte c → (c = DASH → s ≠ [] ∧ last s ≠ Some DASH) → slug_wf (s ++ [c]).
Proof.
  intros [Hc Hh Hd] Hb Hdash. split.
  - apply Forall_app. split; [done|]. by constructor.
  - destruct s as [|x s]; [|done]. simpl. intros [= ->]. by destruct Hdash.
  - intros i Hi Hs.
    assert (i < length s) as Hlt by (apply lookup_lt_Some in Hs; rewrite length_app in Hs; simpl in Hs; lia).
    rewrite lookup_app_l in Hi by done.
    destruct (decide (S i < length s)) as [Hlt'|Hge].
    + rewrite lookup_app_l in Hs by done. by apply (Hd i).
    + rewrite lookup_app_r in Hs by lia.
      replace (S i - length s) with 0 in Hs by lia. injection Hs as ->.
      apply Hdash; [done|]. rewrite last_lookup. rewrite <- Hi. f_equal. lia.
Qed.

Lemma slug_push_wf s c : slug_wf s → slug_wf (slug_push s c).
Proof.
  intros Hs. unfold slug_push.
  set (l := char_to_ascii_lowercase c).
  destruct (char_is_ascii_lowercase l || char_is_ascii_digit l) eqn:E.
  - change (is_alnum l = true) in E. apply is_alnum_spec in E.
    assert (byte (ascii_of_N l) = l) as Hb by (apply byte_of_N; lia).
    apply slug_wf_snoc; [done|..].
    + apply is_slug_char_spec. rewrite Hb. lia.
    + intros Hd. rewrite Hd in Hb. change (byte DASH) with 45%N in Hb. lia.
  - destruct (negb (last_is DASH s) && negb (bool_decide (s = []))) eqn:E2; [|done].
    apply andb_true_iff in E2 as [E2 E3]. apply negb_true_iff in E2, E3.
    unfold last_is in E2. rewrite bool_decide_eq_false in E2, E3.
    by apply slug_wf_snoc.
Qed.

Lemma slug_loop_wf l s : slug_wf s → slug_wf (foldl slug_push s l).
Proof. revert s. induction l as [|c l IH]; intros s Hs; simpl; [done|]. by apply IH, slug_push_wf. Qed.

Lemma slug_wf_prefix s1 s2 : slug_wf (s1 ++ s2) → slug_wf s1.
Proof.
  intros [Hc Hh Hd]. split.
  - by apply Forall_app in Hc as [? ?].
  - by destruct s1.
  - intros i Hi Hs. apply (Hd i); by apply lookup_app_l_Some.
Qed.

Lemma slug_wf_take n s : slug_wf s → slug_wf (take n s).
Proof. intros H. apply (slug_wf_prefix _ (drop n s)). by rewrite take_drop. Qed.

Lemma pop_dashes_prefix s : ∃ k, s = pop_dashes s ++ k.
Proof.
  unfold pop_dashes.
  destruct (drop_while_suffix (λ c, bool_decide (c = DASH)) (reverse s)) as (k & Hk & _).
  exists (reverse k). rewrite <- reverse_app, <- Hk. by rewrite reverse_involutive.
Qed.

Lemma pop_dashes_nonempty s : s ≠ [] → head s ≠ Some DASH → pop_dashes s ≠ [].
Proof.
  destruct s as [|c s]; [done|]. intros _ Hc E. unfold pop_dashes in E.
  apply (f_equal reverse) in E. rewrite reverse_involutive in E. change (reverse []) with (@nil ascii) in E.
  destruct (drop_while_suffix (λ c, bool_decide (c = DASH)) (reverse (c :: s))) as (k & Hk & Hall).
  rewrite E, app_nil_r in Hk. rewrite forallb_elem in Hall.
  assert (bool_decide (c = DASH) = true) as ->%bool_decide_eq_true; [|done].
  apply Hall. rewrite <- Hk. apply elem_of_reverse. by left.
Qed.

Lemma pop_dashes_wf s : slug_wf s → slug_wf (pop_dashes s).
Proof. intros H. destruct (pop_dashes_prefix s) as [k Hk]. rewrite Hk in H. by eapply slug_wf_prefix. Qed.

Lemma pop_dashes_length s : length (pop_dashes s) ≤ length s.
Proof. destruct (pop_dashes_prefix s) as [k Hk]. rewrite Hk at 2. rewrite length_app. lia. Qed.

Lemma pop_dashes_last s : last (pop_dashes s) ≠ Some DASH.
Proof.
  unfold pop_dashes. rewrite <- head_reverse, reverse_involutive. intros H.
  apply drop_while_head in H. by rewrite bool_decide_eq_false in H.
Qed.

Lemma pop_dashes_id s : last s ≠ Some DASH → pop_dashes s = s.
Proof.
  intros H. unfold pop_dashes. rewrite drop_while_id; [apply reverse_involutive|].
  intros x. rewrite head_reverse. intros Hx. rewrite bool_decide_eq_false. congruence.
Qed.

#[export] Hint Resolve slug_wf_nil slug_loop_wf slug_wf_take pop_dashes_wf : devcroft.

(** What [slugify] guarantees about its result. *)
Record slug_result (s : str) : Prop := {
  res_wf : slug_wf s;
  res_nonempty : s ≠ [];
  res_length : length s ≤ MAX_LEN;
  res_last : last s ≠ Some DASH;
}.

Lemma slugify_result name : slug_result (slugify name).
Proof.
  unfold slugify. case_bool_decide as E.
  - split; [|done|vm_compute; lia|done]. split; [|done|].
    + repeat constructor.
    + intros i. do 7 (destruct i as [|i]; [done|]). by destruct i.
  - split; auto 7 with devcroft.
    + etrans; [apply pop_dashes_length|]. rewrite length_take. lia.
    + apply pop_dashes_last.
Qed.

Lemma slug_result_valid s : slug_result s → is_valid_name s = true.
Proof.
  intros [[Hc Hh Hd] Hne Hlen Hlast]. unfold is_valid_name.
  rewrite bool_decide_false by done.
  destruct (MAX_LEN <? length s) eqn:E; [apply Nat.ltb_lt in E; lia|]. simpl.
  rewrite chars_ascii by by apply slug_bytes_ascii.
  destruct s as [|c s]; [done|]. rewrite fmap_cons.
  assert (is_alnum (byte c) = true) as Ha.
  { apply slug_byte_alnum; [by inversion Hc|]. intros ->. done. }
  unfold is_alnum in Ha. rewrite <- negb_orb, Ha.
  rewrite <- fmap_cons. apply forallb_elem. intros x Hx.
  apply list_elem_of_fmap in Hx as (y & -> & Hy).
  rewrite Forall_forall in Hc. by apply Hc.
Qed.

(** A name that already satisfies the result's shape is left alone. *)
Lemma slug_push_id s c :
  slug_wf (s ++ [c]) → slug_push s (byte c) = s ++ [c].
Proof.
  intros [Hc Hh Hd]. unfold slug_push.
  apply Forall_app in Hc as [_ Hc]. inversion Hc as [|? ? Hc' _]; subst.
  pose proof Hc' as Hr%is_slug_char_spec.
  assert (char_to_ascii_lowercase (byte c) = byte c) as ->.
  { unfold char_to_ascii_lowercase, char_is_ascii_uppercase.
    destruct (in_range 65 90 (byte c)) eqn:E; [|done]. apply in_range_spec in E. lia. }
  change (char_is_ascii_lowercase (byte c) || char_is_ascii_digit (byte c)) with (is_alnum (byte c)).
  destruct (decide (c = DASH)) as [->|Hne].
  - simpl. unfold last_is.
    rewrite bool_decide_false; [rewrite bool_decide_false; [done|]|].
    + intros ->. done.
    + intros Hl. rewrite last_lookup in Hl.
      apply (Hd (pred (length s))); [by apply lookup_app_l_Some|].
      destruct s; [done|]. simpl length. simpl pred.
      rewrite lookup_app_r by (simpl; lia).
      replace (S (length s) - length (a :: s)) with 0 by (simpl; lia). done.
  - rewrite slug_byte_alnum by done. f_equal. f_equal. apply ascii_N_embedding.
Qed.

Lemma slug_loop_id t s : slug_wf (s ++ t) → foldl slug_push s (byte <$> t) = s ++ t.
Proof.
  revert s. induction t as [|c t IH]; intros s H; simpl; [by rewrite app_nil_r|].
  rewrite cons_middle, app_assoc in H |- *.
  rewrite slug_push_id by (by eapply slug_wf_prefix). by apply IH.
Qed.

Lemma slugify_fixed s : slug_result s → slugify s = s.
Proof.
  intros [Hwf Hne Hlen Hlast]. unfold slugify.
  rewrite chars_ascii by (apply slug_bytes_ascii, Hwf).
  rewrite (slug_loop_id s []) by done. simpl.
  rewrite (pop_dashes_id s), take_ge, (pop_dashes_id s) by done.
  by rewrite bool_decide_false by done.
Qed.

(** ** Properties *)

(** The name [slugify] suggests is always a valid sandbox name, whatever
    it was given (empty, all punctuation, non-ASCII, over-long). *)
Theorem slugify_valid name : is_valid_name (slugify name) = true.
Proof. apply slug_result_valid, slugify_result. Qed.

(** Slugifying is a projection: a suggestion is its own suggestion, so a
    user who follows the message is never offered a different name. *)
Theorem slugify_idempotent name : slugify (slugify name) = slugify name.
Proof. apply slugify_fixed, slugify_result. Qed.

(** What a valid name is, for the files that rely on it. *)
Lemma is_valid_name_spec name :
  is_valid_name name = true →
  name ≠ [] ∧ length name ≤ MAX_LEN ∧ Forall (λ c, is_slug_char c = true) (chars name).
Proof.
  unfold is_valid_name. case_bool_decide; simpl; [done|].
  destruct (MAX_LEN <? length name) eqn:E; [done|]. apply Nat.ltb_ge in E.
  destruct (chars name) as [|f l] eqn:Ec; [done|].
  destruct (negb _ && negb _); [done|]. intros Hf.
  split; [done|]. split; [done|]. apply Forall_forall. by apply forallb_elem.
Qed.

(** A valid name has no byte that separates paths or extensions. *)
Lemma is_valid_name_no_byte name c :
  is_valid_name name = true → (byte c < 128)%N → is_slug_char (byte c) = false → c ∉ name.
Proof.
  intros Hv Hc Hs Hin. apply is_valid_name_spec in Hv as (_ & _ & Hf).
  rewrite Forall_forall in Hf. specialize (Hf (byte c) (chars_ascii_byte c name Hin Hc)). congruence.
Qed.
