(* ===== verification/Paths.v ===== *)
(** * Path containment ([src/paths.rs])

    The containment test shared by manifest validation and the policy
    compiler.  A manifest path is a root marker (home, absolute, project) and
    a list of components; [is_within] compares them without touching the file
    system, and [has_traversal] is the guard that makes that comparison mean
    what it says: the theorems below relate both to the lexical resolution of
    the path the operating system performs. *)

From S2P Require Import Prelude.

(** [SENSITIVE_PATHS]. *)
Definition SENSITIVE_PATHS : list str :=
  strs ["~/.ssh"; "~/.aws"; "~/.config/gcloud"; "~/.kube"].

Inductive Root := Home | Absolute | Project.

#[export] Instance Root_eq_dec : EqDecision Root.
Proof. solve_decision. Defined.

Definition SLASH : ascii := "/".
Definition DOT : str := ".".
Definition DOTDOT : str := "..".

(** The filter closure of [components]: drop empty and [.] segments. *)
Definition keep_segment (c : str) : bool := negb (bool_decide (c = [])) && negb (bool_decide (c = DOT)).

Definition split_root (path : str) : Root * str :=
  if bool_decide (path = ("~" : str)) then (Home, [])
  else match strip_prefix "~/" path with
       | Some rest => (Home, rest)
       | None => match strip_prefix "/" path with
                 | Some rest => (Absolute, rest)
                 | None => (Project, path)
                 end
       end.

Definition components (path : str) : Root * list str :=
  let '(root, rest) := split_root path in
  (root, List.filter keep_segment (split_on SLASH rest)).

Definition has_traversal (path : str) : bool :=
  let '(_, comps) := components path in member DOTDOT comps.

Definition is_within (candidate granted : str) : bool :=
  let '(candidate_root, candidate) := components candidate in
  let '(granted_root, granted) := components granted in
  bool_decide (candidate_root = granted_root)
  && (length granted <=? length candidate)
  && bool_decide (take (length granted) candidate = granted).

(** [Path::join]. *)
Definition path_join (base p : str) : str :=
  if starts_with "/" p then p
  else if bool_decide (base = []) then p
  else if last_is SLASH base then base ++ p
  else base ++ "/" ++ p.

(** [resolve_on_path]: the first executable [name] on the ambient [PATH].  The
    environment and the file system's executable test are the process's own. *)
Section resolve_on_path.
Context (env_path : option str) (is_executable_file : str → bool).

Definition resolve_on_path (name : str) : option str :=
  match env_path with
  | None => None
  | Some path =>
      find is_executable_file ((λ dir, path_join dir name) <$> split_on ":" path)
  end.
End resolve_on_path.

(** ** Containment as a relation *)

Definition path_root (p : str) : Root := (components p).1.
Definition path_comps (p : str) : list str := (components p).2.

Lemma is_within_iff c g :
  is_within c g = true ↔ path_root c = path_root g ∧ path_comps g `prefix_of` path_comps c.
Proof.
  unfold is_within, path_root, path_comps.
  destruct (components c) as [rc lc], (components g) as [rg lg]; simpl.
  rewrite !andb_true_iff, !bool_decide_eq_true, Nat.leb_le. split.
  - intros [[-> Hlen] Htake]. split; [done|]. exists (drop (length lg) lc).
    rewrite <- Htake at 1. by rewrite take_drop.
  - intros [-> [k ->]]. rewrite length_app, take_app_length. repeat split. lia.
Qed.

Lemma is_within_refl p : is_within p p = true.
Proof. by apply is_within_iff. Qed.

Lemma is_within_trans a b c : is_within a b = true → is_within b c = true → is_within a c = true.
Proof. rewrite !is_within_iff. intros [-> ?] [-> ?]. split; [done|]. by etrans. Qed.

(** Two regions that share a path are nested one way or the other. *)
Lemma is_within_comparable p a b :
  is_within p a = true → is_within p b = true → is_within a b = true ∨ is_within b a = true.
Proof.
  rewrite !is_within_iff. intros [Hra Ha] [Hrb Hb].
  destruct (prefix_weak_total _ _ _ Ha Hb); [right|left]; by split; [congruence|].
Qed.

Lemma has_traversal_iff p : has_traversal p = true ↔ DOTDOT ∈ path_comps p.
Proof. unfold has_traversal, path_comps. destruct (components p). apply member_spec. Qed.

#[export] Hint Resolve is_within_refl is_within_trans : devcroft.

(** No component is empty or [.]. *)
Lemma path_comps_kept p c : c ∈ path_comps p → keep_segment c = true.
Proof.
  unfold path_comps, components. destruct (split_root p). simpl.
  rewrite list_elem_of_In, List.filter_In. tauto.
Qed.

(** ** Lexical resolution

    How a path with components [comps] is walked from the directory [base]
    (the components of the home directory, of the project root, or none):
    [..] leaves a directory, anything else enters one. *)
Definition walk (dir : list str) (c : str) : list str :=
  if bool_decide (c = DOTDOT) then take (pred (length dir)) dir else dir ++ [c].
Definition resolve_lexically (base comps : list str) : list str := foldl walk base comps.

Lemma resolve_lexically_plain base comps :
  DOTDOT ∉ comps → resolve_lexically base comps = base ++ comps.
Proof.
  unfold resolve_lexically. revert base. induction comps as [|c comps IH]; intros base Hn; simpl.
  - by rewrite app_nil_r.
  - rewrite not_elem_of_cons in Hn. destruct Hn as [Hc Hn]. rewrite IH by done.
    unfold walk. rewrite bool_decide_false by congruence. by rewrite <- app_assoc.
Qed.

(** C3: for paths without a [..] segment, [is_within] is containment of the
    directories the paths resolve to: same root, and wherever that root is,
    the granted directory is an ancestor of (or equal to) the candidate. *)
Theorem is_within_resolves c g :
  has_traversal c = false → has_traversal g = false →
  is_within c g = true ↔
  path_root c = path_root g ∧
  ∀ base, resolve_lexically base (path_comps g) `prefix_of` resolve_lexically base (path_comps c).
Proof.
  intros Hc Hg. apply not_true_iff_false in Hc, Hg. rewrite has_traversal_iff in Hc, Hg.
  rewrite is_within_iff. apply and_iff_compat_l. split.
  - intros Hp base. rewrite !resolve_lexically_plain by done. by apply prefix_app.
  - intros H. specialize (H []). by rewrite !resolve_lexically_plain in H by done.
Qed.

Lemma is_within_resolves_witness :
  has_traversal "src/main.rs" = false ∧ has_traversal "." = false ∧
  (is_within "src/main.rs" "." = true ↔
   path_root "src/main.rs" = path_root "." ∧
   ∀ base, resolve_lexically base (path_comps ".")
             `prefix_of` resolve_lexically base (path_comps "src/main.rs")).
Proof.
  split; [vm_compute; reflexivity|]. split; [vm_compute; reflexivity|].
  apply is_within_resolves; vm_compute; reflexivity.
Defined.

(** Without the guard the comparison is wrong: [src/../../x] passes for a path
    inside [src] while it resolves outside it. *)
Example traversal_breaks_containment :
  is_within "src/../../x" "src" = true ∧
  resolve_lexically (strs ["p"]) (path_comps "src/../../x") = strs ["x"].
Proof. split; vm_compute; reflexivity. Qed.

(** The three name spaces never contain one another. *)
Lemma is_within_same_root c g : is_within c g = true → path_root c = path_root g.
Proof. rewrite is_within_iff. tauto. Qed.

(** ** Components of joined paths *)

Lemma split_on_app c a b : split_on c (a ++ c :: b) = split_on c a ++ split_on c b.
Proof.
  induction a as [|d a IH]; simpl.
  - by destruct (decide (c = c)).
  - destruct (decide (c = d)); [by rewrite IH|]. rewrite IH.
    destruct (split_on c a) eqn:E; [|done]. by destruct a; simpl in E; repeat case_match.
Qed.

Lemma split_on_plain c a : c ∉ a → split_on c a = [a].
Proof.
  induction a as [|d a IH]; intros Hn; [done|]. apply not_elem_of_cons in Hn as [Hd Hn]. simpl.
  destruct (decide (c = d)); [done|]. by rewrite IH.
Qed.

Lemma split_on_ne c a : split_on c a ≠ [].
Proof. induction a as [|x a IH]; [done|]. cbn [split_on]. destruct (split_on c a); [done|]. by case_match. Qed.

Lemma lines_app a b : lines (a ++ NL :: b) = (strip_cr <$> split_on NL a) ++ lines b.
Proof.
  unfold lines. rewrite split_on_app. pose proof (split_on_ne NL b) as Hb.
  set (xs := split_on NL a). set (ys := split_on NL b) in *.
  assert (length (xs ++ ys) - 1 = length xs + (length ys - 1)) as Hl.
  { rewrite length_app. destruct ys; [done|]. simpl. lia. }
  assert (last (xs ++ ys) = last ys) as ->.
  { rewrite last_app. destruct (last ys) eqn:E; [done|]. by apply last_None in E. }
  rewrite Hl, !fmap_app, !drop_app_add, take_app_add, <- (length_fmap strip_cr xs), take_app_add.
  rewrite fmap_app, <- app_assoc. by destruct (last ys) as [[|]|].
Qed.

(** A relative path that is not a root marker. *)
Definition plain_relative (p : str) : Prop := split_root p = (Project, p).

Lemma components_absolute b : components (SLASH :: b) = (Absolute, List.filter keep_segment (split_on SLASH b)).
Proof. done. Qed.

(** Joining below an absolute directory appends the components. *)
Lemma components_join base p :
  path_root base = Absolute → starts_with "/" p = false → path_root p = Project →
  components (path_join base p) = (Absolute, path_comps base ++ path_comps p).
Proof.
  intros Hb Hp Hr.
  assert (∃ b, base = SLASH :: b) as [b ->].
  { unfold path_root, components, split_root in Hb. case_bool_decide; [done|].
    destruct (strip_prefix "~/" base); [done|].
    destruct base as [|c b]; [done|]. simpl in Hb. destruct (decide ("/"%char = c)) as [<-|]; [by exists b|done]. }
  assert (path_comps p = List.filter keep_segment (split_on SLASH p)) as Hpc.
  { unfold path_root, path_comps, components, split_root in *. case_bool_decide; [done|].
    destruct (strip_prefix "~/" p); [done|]. by destruct (strip_prefix "/" p). }
  unfold path_join. rewrite Hp, bool_decide_false by done.
  rewrite Hpc. unfold path_comps. rewrite components_absolute. cbn [snd].
  unfold last_is. case_bool_decide as Hl.
  - destruct b as [|d b' _] using rev_ind; [by rewrite app_nil_l|].
    rewrite app_comm_cons, last_snoc in Hl. injection Hl as ->.
    rewrite app_comm_cons, <- app_assoc. change ([SLASH] ++ p) with (SLASH :: p).
    rewrite <- app_comm_cons, components_absolute, split_on_app.
    change ([SLASH]) with (SLASH :: [] : str). rewrite split_on_app, !List.filter_app. simpl. by rewrite app_nil_r.
  - change ((SLASH :: b) ++ "/" ++ p) with (SLASH :: (b ++ SLASH :: p)).
    by rewrite components_absolute, split_on_app, List.filter_app.
Qed.

(** Joining a relative path prefixes it with something that depends on the base only. *)
Lemma path_join_prefix base : ∃ k, ∀ p, starts_with "/" p = false → path_join base p = k ++ p.
Proof.
  unfold path_join. case_bool_decide as Hb.
  - exists []. intros p ->. done.
  - destruct (last_is SLASH base); [exists base|exists (base ++ "/")]; intros p ->; [done|by rewrite <- app_assoc].
Qed.

Lemma path_join_ne base p q :
  starts_with "/" p = false → starts_with "/" q = false → p ≠ q → path_join base p ≠ path_join base q.
Proof.
  intros Hp Hq Hne He. destruct (path_join_prefix base) as [k Hk]. rewrite !Hk in He by done. by apply app_inv_head in He.
Qed.

(** A single plain file or directory name. *)
Definition plain_segment (s : str) : Prop := SLASH ∉ s ∧ keep_segment s = true ∧ s ≠ "~".

Lemma plain_segment_components s : plain_segment s → components s = (Project, [s]) ∧ starts_with "/" s = false.
Proof.
  intros (Hs & Hk & Ht). unfold components, split_root. rewrite bool_decide_false by done.
  assert (strip_prefix "~/" s = None) as ->.
  { destruct s as [|c [|d s]]; [done|simpl; by destruct (decide _)|].
    rewrite !not_elem_of_cons in Hs. simpl. destruct (decide ("~"%char = c)); [|done].
    destruct (decide ("/"%char = d)) as [<-|]; [by destruct Hs as (_ & [] & _)|done]. }
  assert (strip_prefix "/" s = None) as Hslash.
  { destruct s as [|c s]; [done|]. rewrite !not_elem_of_cons in Hs. simpl.
    destruct (decide ("/"%char = c)) as [<-|]; [by destruct Hs|done]. }
  rewrite Hslash, split_on_plain by done. simpl. rewrite Hk. split; [done|].
  unfold starts_with. by rewrite Hslash.
Qed.

Lemma join_segment base s :
  path_root base = Absolute → plain_segment s →
  components (path_join base s) = (Absolute, path_comps base ++ [s]).
Proof.
  intros Hb Hs. destruct (plain_segment_components s Hs) as [Hc Hp].
  rewrite components_join; unfold path_root, path_comps; rewrite ?Hc; done.
Qed.
