(* ===== verification/ProviderKind.v ===== *)
(** * Provider names and errors ([src/provider/mod.rs], [src/provider/validate.rs])

    Which [env.provider] values a manifest may carry, the canonical name each
    is normalised to, and the [ProviderKind] every dispatch in the program
    goes through. *)

From S2P Require Import Prelude.

Inductive ProviderError :=
| OutOfScope (name reason : str)
| VersionManager (name reason : str)
| NotYetSupported (name reason : str)
| Unknown (name : str)
| MissingBinary (provider hint : str)
| NoEnvironment (provider hint : str)
| MissingLock (provider hint : str)
| ResolutionFailed (msg : str).

Inductive ProviderKind := Flox | Nix | Devbox.

#[export] Instance ProviderKind_eq_dec : EqDecision ProviderKind.
Proof. solve_decision. Defined.

(** [ProviderKind::from_name]. *)
Definition from_name (name : str) : result ProviderError ProviderKind :=
  if bool_decide (name = ("flox" : str)) then Ok Flox
  else if bool_decide (name = ("nix" : str)) then Ok Nix
  else if bool_decide (name = ("devbox" : str)) then Ok Devbox
  else Err (Unknown name).

(** [ProviderKind::static_name]. *)
Definition static_name (k : ProviderKind) : str :=
  match k with Flox => "flox" | Nix => "nix" | Devbox => "devbox" end.

(** ** [validate.rs] *)

Definition OUT_OF_SCOPE_REASON : str :=
  "devcroft has no non-reproducible mode; every sandbox is backed by a declarative environment. Run `flox init`, not a degraded mode.".
Definition OUT_OF_SCOPE : list str := strs ["host"; "none"].

Definition VERSION_MANAGER_REASON : str :=
  "version managers install imperatively and cannot guarantee a restorable lockfile, a complete build environment, and preconditions verifiable at `up`; see docs/decisions.md §1".
Definition VERSION_MANAGERS : list str :=
  strs ["rustup"; "nvm"; "pyenv"; "rbenv"; "sdkman"; "ghcup"; "asdf"; "proto"].

Definition SUPPORTED : list str := strs ["flox"; "nix"; "flake"; "flakes"; "devbox"].

Definition NOT_YET_SUPPORTED : list (str * str) :=
  [("mise" : str, "mise is a qualified provider (artifact tier) but not yet scheduled" : str);
   ("devenv" : str, "devenv is a qualified provider (closure tier) but not yet scheduled" : str);
   ("pixi" : str, "pixi is a qualified provider (artifact tier) but not yet scheduled" : str);
   ("hermit" : str, "hermit is a qualified provider (artifact tier) but not yet scheduled" : str)].

Definition validate_provider (name : str) : result ProviderError unit :=
  if member name SUPPORTED then Ok tt
  else if member name OUT_OF_SCOPE then Err (OutOfScope name OUT_OF_SCOPE_REASON)
  else if member name VERSION_MANAGERS then Err (VersionManager name VERSION_MANAGER_REASON)
  else match find (λ p, bool_decide (p.1 = name)) NOT_YET_SUPPORTED with
       | Some (_, reason) => Err (NotYetSupported name reason)
       | None => Err (Unknown name)
       end.

Definition normalize_provider_name (name : str) : str :=
  if bool_decide (name = ("flake" : str)) || bool_decide (name = ("flakes" : str)) then "nix" else name.

(** ** Properties *)

Lemma validate_provider_ok name : validate_provider name = Ok tt ↔ name ∈ SUPPORTED.
Proof.
  unfold validate_provider. destruct (member name SUPPORTED) eqn:E.
  - apply member_spec in E. done.
  - rewrite member_false in E. split; [|done]. repeat case_match; done.
Qed.

(** Every accepted name reaches a provider: dispatch on the normalised name
    never fails. *)
Lemma normalized_dispatches name :
  validate_provider name = Ok tt → ∃ k, from_name (normalize_provider_name name) = Ok k.
Proof.
  rewrite validate_provider_ok. unfold SUPPORTED, strs, map.
  rewrite !elem_of_cons. intros Hn.
  destruct_or! Hn; try subst name; [by exists Flox|by exists Nix|by exists Nix|by exists Nix|by exists Devbox|].
  by apply not_elem_of_nil in Hn.
Qed.

Lemma from_name_static k : from_name (static_name k) = Ok k.
Proof. by destruct k. Qed.

Lemma static_name_from name k : from_name name = Ok k → static_name k = name.
Proof.
  unfold from_name. repeat case_bool_decide; intros [= <-]; by subst.
Qed.

(** A name with neither a provider nor a recorded reason is [Unknown], and
    [Unknown] always carries the rejected name. *)
Lemma validate_provider_unknown name e :
  validate_provider name = Err e →
  (∃ r, e = OutOfScope name r) ∨ (∃ r, e = VersionManager name r)
  ∨ (∃ r, e = NotYetSupported name r) ∨ e = Unknown name.
Proof. unfold validate_provider. repeat case_match; intros [= <-]; eauto 6. Qed.
