(* ===== verification/Manifest.v ===== *)
(** * The manifest's data model ([src/config/mod.rs])

    The resolved manifest, the deserialisation target that precedes it, the
    configuration errors and warnings, and the TOML values both come from.
    [env.vars] is a [BTreeMap]: a finite map here. *)

From S2P Require Import Prelude ProviderKind.

(** ** TOML values, as the [toml] crate hands them to the program.  A table is
    the list of its entries in iteration order; scalars the program never
    inspects are [TOther]. *)
Inductive toml :=
| TStr (s : str)
| TBool (b : bool)
| TTable (t : list (str * toml))
| TArray (l : list toml)
| TOther.

Definition toml_as_table (v : toml) : option (list (str * toml)) :=
  match v with TTable t => Some t | _ => None end.
Definition toml_as_str (v : toml) : option str := match v with TStr s => Some s | _ => None end.
Definition toml_as_bool (v : toml) : option bool := match v with TBool b => Some b | _ => None end.

(** [Table::get] / [Value::get] by key. *)
Definition table_get {V} (t : list (str * V)) (k : str) : option V :=
  snd <$> find (λ p, bool_decide (p.1 = k)) t.
Definition toml_get (v : toml) (k : str) : option toml := t ← toml_as_table v; table_get t k.

(** ** Manifest sections *)

Inductive NetworkDefault := Deny | Allow.

#[export] Instance NetworkDefault_eq_dec : EqDecision NetworkDefault.
Proof. solve_decision. Defined.

Record Sandbox := { sandbox_name : str }.
Record Env := { provider : str; vars : gmap str str }.
Record Filesystem := { fs_allow : list str; fs_read : list str; fs_deny : list str }.
Record Network := { net_default : NetworkDefault; net_allow : list str; net_ports : list N }.
Record Ssh := { forward_agent : bool }.
Record Hooks := { post_create : option str; post_start : option str }.

Record Manifest := {
  m_sandbox : Sandbox;
  m_env : Env;
  m_filesystem : Filesystem;
  m_network : Network;
  m_ssh : Ssh;
  m_hooks : Hooks;
}.

(** The [Default] impls: what an omitted section means. *)
Definition Env_default : Env := {| provider := "flox"; vars := ∅ |}.
Definition Filesystem_default : Filesystem :=
  {| fs_allow := strs ["."]; fs_read := []; fs_deny := [] |}.
Definition Network_default : Network := {| net_default := Deny; net_allow := []; net_ports := [] |}.
Definition Ssh_default : Ssh := {| forward_agent := false |}.
Definition Hooks_default : Hooks := {| post_create := None; post_start := None |}.

(** [RawSandbox] / [RawManifest]. *)
Record RawSandbox := { raw_name : option str; raw_isolation : option str }.
Record RawManifest := {
  raw_sandbox : RawSandbox;
  raw_env : Env;
  raw_filesystem : Filesystem;
  raw_network : Network;
  raw_ssh : Ssh;
  raw_hooks : Hooks;
}.

Definition ISOLATION_TIER : str := "process".
Definition MANIFEST_FILE_NAME : str := "devcroft.toml".

(** ** Errors and warnings *)

Inductive ConfigError :=
| NotFound
| Io (e : str)
| Parse (e : str)
| UnknownKey (path : str) (suggestion : option str)
| MissingName
| InvalidName (name suggestion : str)
| InvalidPath (field value : str)
| UselessDeny (path : str)
| InvalidProvider (e : ProviderError)
| RemovedIsolationTier (name : str)
| InvalidIsolationTier (name : str).

Inductive Warning :=
| SensitivePath (field path : str)
| NoInterpolation.
