(* ===== verification/Validate.v ===== *)
(** * Manifest validation ([src/config/validate.rs])

    Schema check of the TOML keys with did-you-mean suggestions, path checks
    of the [filesystem] section, and warnings.  The two-row edit distance is
    translated loop by loop and proved to be the minimal number of edits. *)

From S2P Require Import Prelude Paths ProviderKind Manifest.

(** ** Edit distance *)
Section edit_distance.
Context {A : Type} `{EqDecision A}.
Implicit Types a b : list A.

(** [cur[j] = (prev[j] + 1).min(cur[j - 1] + 1).min(prev[j - 1] + cost)];
    indices are in range throughout, so the default of [nth] is never used. *)
Definition dp_cell (a b : list A) (i : nat) (prev cur : list nat) (j : nat) : list nat :=
  let cost := if decide (a !! (i - 1) = b !! (j - 1)) then 0 else 1 in
  <[j := (nth j prev 0 + 1) `min` (nth (j - 1) cur 0 + 1) `min` (nth (j - 1) prev 0 + cost)]> cur.

Definition dp_row (a b : list A) (prev : list nat) (i : nat) : list nat :=
  foldl (dp_cell a b i prev) (replicate (length b + 1) i) (seq 1 (length b)).

Definition edit_distance (a b : list A) : nat :=
  nth (length b) (foldl (dp_row a b) (seq 0 (length b + 1)) (seq 1 (length a))) 0.

(** *** Reference: edit scripts and their cost *)
Inductive edits : list A → list A → nat → Prop :=
| edits_nil : edits [] [] 0
| edits_keep x a b n : edits a b n → edits (x :: a) (x :: b) n
| edits_subst x y a b n : edits a b n → edits (x :: a) (y :: b) (S n)
| edits_delete x a b n : edits a b n → edits (x :: a) b (S n)
| edits_insert y a b n : edits a b n → edits a (y :: b) (S n).

(** The recurrence the table computes. *)
Fixpoint lev (a : list A) : list A → nat :=
  fix lev_a (b : list A) : nat :=
    match a, b with
    | [], _ => length b
    | _, [] => length a
    | x :: a', y :: b' =>
        (lev a' b + 1) `min` (lev_a b' + 1)
        `min` (lev a' b' + if decide (x = y) then 0 else 1)
    end.

Lemma lev_nil_l b : lev [] b = length b.
Proof. by destruct b. Qed.
Lemma lev_nil_r a : lev a [] = length a.
Proof. by destruct a. Qed.
Lemma lev_cons x a y b :
  lev (x :: a) (y :: b) =
  (lev a (y :: b) + 1) `min` (lev (x :: a) b + 1) `min` (lev a b + if decide (x = y) then 0 else 1).
Proof. done. Qed.

Lemma edits_lev a b : edits a b (lev a b).
Proof.
  revert b. induction a as [|x a IHa]; intros b.
  - rewrite lev_nil_l. induction b; simpl; by constructor.
  - induction b as [|y b IHb].
    + rewrite lev_nil_r, length_cons. constructor. rewrite <- (lev_nil_r a). apply IHa.
    + rewrite lev_cons.
      destruct (Nat.min_spec ((lev a (y :: b) + 1) `min` (lev (x :: a) b + 1))
                  (lev a b + if decide (x = y) then 0 else 1)) as [[_ ->]|[_ ->]].
      * destruct (Nat.min_spec (lev a (y :: b) + 1) (lev (x :: a) b + 1)) as [[_ ->]|[_ ->]];
          rewrite Nat.add_1_r; by constructor.
      * destruct (decide (x = y)) as [->|].
        -- rewrite Nat.add_0_r. by constructor.
        -- rewrite Nat.add_1_r. by constructor.
Qed.

Lemma lev_delete x a b : lev (x :: a) b ≤ S (lev a b).
Proof. destruct b as [|y b]; [by rewrite !lev_nil_r|]. rewrite lev_cons. lia. Qed.
Lemma lev_insert y a b : lev a (y :: b) ≤ S (lev a b).
Proof. destruct a as [|x a]; [by rewrite !lev_nil_l|]. rewrite lev_cons. lia. Qed.

Lemma lev_minimal a b n : edits a b n → lev a b ≤ n.
Proof.
  induction 1 as [|x a b n _ IH|x y a b n _ IH|x a b n _ IH|y a b n _ IH]; [done|..].
  - rewrite lev_cons. rewrite decide_True by done. lia.
  - rewrite lev_cons. case_decide; lia.
  - pose proof (lev_delete x a b). lia.
  - pose proof (lev_insert y a b). lia.
Qed.

Lemma edits_app a1 b1 n1 a2 b2 n2 :
  edits a1 b1 n1 → edits a2 b2 n2 → edits (a1 ++ a2) (b1 ++ b2) (n1 + n2).
Proof. induction 1; intros; simpl; [done|..]; constructor; auto. Qed.

Lemma edits_reverse a b n : edits a b n → edits (reverse a) (reverse b) n.
Proof.
  induction 1 as [|x a b n _ IH|x y a b n _ IH|x a b n _ IH|y a b n _ IH];
    rewrite ?reverse_cons; [constructor|..].
  - rewrite <- (Nat.add_0_r n). apply edits_app; [done|]. repeat constructor.
  - rewrite <- Nat.add_1_r. apply edits_app; [done|]. repeat constructor.
  - rewrite <- Nat.add_1_r, <- (app_nil_r (reverse b)). apply edits_app; [done|]. repeat constructor.
  - rewrite <- Nat.add_1_r, <- (app_nil_r (reverse a)). apply edits_app; [done|]. repeat constructor.
Qed.

(** *** The table: row [i] holds the distances of the prefixes of [b] from
    the first [i] elements of [a]. *)
Definition pref (a b : list A) (i j : nat) : nat := lev (reverse (take i a)) (reverse (take j b)).

Lemma pref_0_l a b j : j ≤ length b → pref a b 0 j = j.
Proof. intros. unfold pref. simpl. rewrite lev_nil_l, length_reverse, length_take. lia. Qed.
Lemma pref_0_r a b i : i ≤ length a → pref a b i 0 = i.
Proof. intros. unfold pref. simpl. rewrite lev_nil_r, length_reverse, length_take. lia. Qed.
Lemma pref_S a b i j :
  i < length a → j < length b →
  pref a b (S i) (S j) =
  (pref a b i (S j) + 1) `min` (pref a b (S i) j + 1)
  `min` (pref a b i j + if decide (a !! i = b !! j) then 0 else 1).
Proof.
  intros [x Hx]%lookup_lt_is_Some [y Hy]%lookup_lt_is_Some. unfold pref.
  rewrite (take_S_r _ _ _ Hx), (take_S_r _ _ _ Hy), !reverse_snoc, lev_cons, Hx, Hy.
  do 2 f_equal. destruct (decide (x = y)), (decide (Some x = Some y)); congruence.
Qed.

Definition row_ok (a b : list A) (i k : nat) (row : list nat) : Prop :=
  length row = length b + 1 ∧ ∀ j, j ≤ k → nth j row 0 = pref a b i j.

Lemma nth_insert_eq (l : list nat) j x : j < length l → nth j (<[j:=x]> l) 0 = x.
Proof. intros. by rewrite nth_lookup, list_lookup_insert_eq. Qed.
Lemma nth_insert_ne (l : list nat) i j x : i ≠ j → nth j (<[i:=x]> l) 0 = nth j l 0.
Proof. intros. by rewrite !nth_lookup, list_lookup_insert_ne. Qed.

Lemma dp_cell_ok a b i j prev cur :
  i < length a → j < length b →
  row_ok a b i (length b) prev → row_ok a b (S i) j cur →
  row_ok a b (S i) (S j) (dp_cell a b (S i) prev cur (S j)).
Proof.
  intros Hi Hj [Hlp Hp] [Hlc Hc]. unfold dp_cell. split; [by rewrite length_insert|].
  intros k Hk. destruct (decide (k = S j)) as [->|Hne].
  - rewrite nth_insert_eq by lia. rewrite pref_S by done. simpl. rewrite !Nat.sub_0_r.
    rewrite (Hp (S j)), (Hp j), (Hc j) by lia. done.
  - rewrite nth_insert_ne by done. apply Hc. lia.
Qed.

Lemma dp_row_ok a b i prev :
  i < length a → row_ok a b i (length b) prev → row_ok a b (S i) (length b) (dp_row a b prev (S i)).
Proof.
  intros Hi Hp. unfold dp_row.
  assert (∀ k, k ≤ length b →
    row_ok a b (S i) k (foldl (dp_cell a b (S i) prev) (replicate (length b + 1) (S i)) (seq 1 k)))
    as H; [|by apply H].
  induction k as [|k IH]; intros Hk.
  - split; simpl; [by rewrite length_replicate|]. intros j Hj. replace j with 0 by lia.
    rewrite pref_0_r by lia. by rewrite Nat.add_1_r.
  - rewrite seq_S, foldl_snoc. apply dp_cell_ok; [done|lia|done|]. apply IH. lia.
Qed.

Lemma edit_distance_pref a b : edit_distance a b = pref a b (length a) (length b).
Proof.
  unfold edit_distance.
  assert (∀ k, k ≤ length a →
    row_ok a b k (length b) (foldl (dp_row a b) (seq 0 (length b + 1)) (seq 1 k))) as H;
    [|by apply H].
  induction k as [|k IH]; intros Hk.
  - split; simpl; [by rewrite length_seq|]. intros j Hj. rewrite pref_0_l by done.
    rewrite seq_nth; lia.
  - rewrite seq_S, foldl_snoc. apply dp_row_ok; [lia|]. apply IH. lia.
Qed.

Lemma edit_distance_lev a b : edit_distance a b = lev (reverse a) (reverse b).
Proof. rewrite edit_distance_pref. unfold pref. by rewrite !take_ge. Qed.

Lemma edit_distance_reached a b : edits a b (edit_distance a b).
Proof.
  rewrite edit_distance_lev. rewrite <- (reverse_involutive a), <- (reverse_involutive b) at 1.
  apply edits_reverse, edits_lev.
Qed.

Lemma edit_distance_minimal a b n : edits a b n → edit_distance a b ≤ n.
Proof. intros H. rewrite edit_distance_lev. by apply lev_minimal, edits_reverse. Qed.
End edit_distance.

(** C35: the two-row dynamic programme computes the Levenshtein distance: it
    terminates in a distance some edit script achieves and no script beats. *)
Theorem edit_distance_correct (a b : list char) :
  edits a b (edit_distance a b) ∧ ∀ n, edits a b n → edit_distance a b ≤ n.
Proof. split; [apply edit_distance_reached|apply edit_distance_minimal]. Qed.

(** ** Suggestions *)

(** [(len / 2).clamp(1, 3)] *)
Definition max_distance (len : nat) : nat := ((len / 2) `max` 1) `min` 3.

Definition key_distance (key c : str) : nat := edit_distance (chars key) (chars c).

Definition closest (key : str) (candidates : list str) : option str :=
  fst <$> min_by_key snd
            (List.filter (λ p, p.2 <=? max_distance (length key))
               ((λ c, (c, key_distance key c)) <$> candidates)).

(** The suggested key is a known one within the typo budget and no known
    key is nearer; there is no suggestion exactly when none is within it. *)
Theorem closest_spec key candidates :
  match closest key candidates with
  | Some c => c ∈ candidates ∧ key_distance key c ≤ max_distance (length key) ∧
              ∀ c', c' ∈ candidates → key_distance key c ≤ key_distance key c'
  | None => ∀ c', c' ∈ candidates → max_distance (length key) < key_distance key c'
  end.
Proof.
  unfold closest.
  set (l := List.filter _ _).
  assert (∀ p, p ∈ l ↔ p.1 ∈ candidates ∧ p.2 = key_distance key p.1
                        ∧ p.2 ≤ max_distance (length key)) as Hl.
  { intros p. unfold l. rewrite elem_of_filter_bool, Nat.leb_le, list_elem_of_fmap.
    split; [intros [(c & -> & Hc) Hd]; done|]. intros (Hc & Hd & Hm). split; [|done].
    exists p.1. split; [|done]. rewrite <- Hd. by destruct p. }
  destruct (min_by_key snd l) as [[c d]|] eqn:E; simpl.
  - apply min_by_key_spec in E as [Hin Hmin].
    apply Hl in Hin as (Hc & He & Hd); simpl in *; subst d. split; [done|]. split; [done|].
    intros c' Hc'. destruct (decide (key_distance key c' ≤ max_distance (length key))); [|lia].
    apply (Hmin (c', key_distance key c')). by apply Hl.
  - apply min_by_key_none in E. intros c' Hc'.
    destruct (decide (key_distance key c' ≤ max_distance (length key))); [|lia].
    assert ((c', key_distance key c') ∈ l) as H by by apply Hl.
    rewrite E in H. by apply not_elem_of_nil in H.
Qed.

(** ** Unknown keys *)

Definition SECTIONS : list (str * list str) :=
  [("sandbox" : str, strs ["name"; "isolation"]);
   ("env" : str, strs ["provider"; "vars"]);
   ("filesystem" : str, strs ["allow"; "read"; "deny"]);
   ("network" : str, strs ["default"; "allow"; "ports"]);
   ("ssh" : str, strs ["forward_agent"]);
   ("hooks" : str, strs ["post_create"; "post_start"])].
#[global] Arguments SECTIONS : simpl never.

Definition section_names : list str := SECTIONS.*1.

Definition find_section (key : str) : option (str * list str) :=
  find (λ p : str * list str, bool_decide (p.1 = key)) SECTIONS.

(** The inner loop over [sub.keys()]. *)
Definition check_sub_key (key : str) (fields : list str) (sub_key : str) : result ConfigError unit :=
  if member sub_key fields then Ok tt
  else Err (UnknownKey (key ++ "." ++ sub_key) (closest sub_key fields)).

Definition check_entry (entry : str * toml) : result ConfigError unit :=
  let '(key, value) := entry in
  match find_section key with
  | None => Err (UnknownKey key (closest key section_names))
  | Some (_, fields) =>
      if bool_decide (key = ("env" : str)) then Ok tt
      else match toml_as_table value with
           | Some sub => try_for_each (check_sub_key key fields) sub.*1
           | None => Ok tt
           end
  end.

Definition check_unknown_keys (table : list (str * toml)) : result ConfigError unit :=
  try_for_each check_entry table.

(** The schema as a predicate: known section, and in every section but [env]
    only known fields. *)
Definition known_entry (entry : str * toml) : Prop :=
  ∃ fields, (entry.1, fields) ∈ SECTIONS ∧
    (entry.1 = ("env" : str) ∨
     ∀ sub, toml_as_table entry.2 = Some sub → ∀ k, k ∈ sub.*1 → k ∈ fields).

Lemma section_find key s fields :
  find_section key = Some (s, fields) → s = key ∧ (key, fields) ∈ SECTIONS.
Proof. intros [Hin Hk]%find_some. apply bool_decide_eq_true in Hk as <-. done. Qed.

Lemma section_unique key f1 f2 : (key, f1) ∈ SECTIONS → (key, f2) ∈ SECTIONS → f1 = f2.
Proof.
  unfold SECTIONS. rewrite !elem_of_cons, !elem_of_nil.
  intros H1 H2. destruct_or! H1; destruct_or! H2; by simplify_eq.
Qed.

Lemma section_find_none key :
  find_section key = None → ∀ fields, (key, fields) ∉ SECTIONS.
Proof.
  unfold find_section. rewrite find_none. intros H fields Hin. specialize (H _ Hin). simpl in H.
  by rewrite bool_decide_eq_false in H.
Qed.

Lemma check_entry_ok entry : check_entry entry = Ok tt ↔ known_entry entry.
Proof.
  destruct entry as [key value]. unfold check_entry, known_entry. simpl.
  destruct (find_section key) as [[s fields]|] eqn:E.
  - apply section_find in E as [-> Hin]. case_bool_decide as Henv.
    + split; [|done]. eauto.
    + split.
      * intros H. exists fields. split; [done|]. right. intros sub Hsub k Hk.
        rewrite Hsub in H. rewrite try_for_each_ok in H. specialize (H k Hk).
        unfold check_sub_key in H. destruct (member k fields) eqn:Em; [|done].
        by apply member_spec.
      * intros (f & Hf & [?|H]); [done|]. rewrite (section_unique _ _ _ Hin Hf) in *.
        destruct (toml_as_table value) as [sub|]; [|done].
        apply try_for_each_ok. intros k Hk. unfold check_sub_key.
        assert (member k f = true) as ->; [|done]. apply member_spec. eauto.
  - split; [done|]. intros (fields & Hf & _). by apply section_find_none with (fields := fields) in E.
Qed.

(** The schema check accepts a manifest exactly when every section is
    known and every field of a checked section is; [env] is never descended
    into, so [env.vars] may hold any names. *)
Theorem check_unknown_keys_ok table :
  check_unknown_keys table = Ok tt ↔ ∀ entry, entry ∈ table → known_entry entry.
Proof. unfold check_unknown_keys. rewrite try_for_each_ok. by setoid_rewrite check_entry_ok. Qed.

(** ** The [filesystem] section *)

Definition bad_path (value : str) : bool :=
  bool_decide (value = []) || contains_char NUL value || has_traversal value.

Definition check_paths (field : str) (values : list str) : result ConfigError unit :=
  try_for_each (λ value, if bad_path value then Err (InvalidPath field value) else Ok tt) values.

Definition check_deny (granted : list str) (deny : str) : result ConfigError unit :=
  if existsb (is_within deny) granted then Ok tt else Err (UselessDeny deny).

Definition check_filesystem (fs : Filesystem) : result ConfigError unit :=
  match try_for_each (λ p : str * list str, check_paths p.1 p.2)
          [("allow" : str, fs_allow fs); ("read" : str, fs_read fs); ("deny" : str, fs_deny fs)] with
  | Err e => Err e
  | Ok _ => try_for_each (check_deny (fs_allow fs ++ fs_read fs)) (fs_deny fs)
  end.

Definition fs_paths (fs : Filesystem) : list str := fs_allow fs ++ fs_read fs ++ fs_deny fs.

Lemma check_paths_ok field values :
  check_paths field values = Ok tt ↔ ∀ v, v ∈ values → bad_path v = false.
Proof.
  unfold check_paths. rewrite try_for_each_ok.
  split; intros H v Hv; specialize (H v Hv); simpl in *; by destruct (bad_path v).
Qed.

(** A [filesystem] section passes exactly when no path is empty, holds a
    NUL byte or a [..] segment, and every deny lies inside some grant. *)
Theorem check_filesystem_ok fs :
  check_filesystem fs = Ok tt ↔
  (∀ v, v ∈ fs_paths fs → v ≠ [] ∧ NUL ∉ v ∧ has_traversal v = false) ∧
  (∀ d, d ∈ fs_deny fs → ∃ g, g ∈ fs_allow fs ++ fs_read fs ∧ is_within d g = true).
Proof.
  assert (∀ v, bad_path v = false ↔ v ≠ [] ∧ NUL ∉ v ∧ has_traversal v = false) as Hbad.
  { intros v. unfold bad_path. rewrite !orb_false_iff, bool_decide_eq_false.
    change (contains_char NUL v) with (member NUL v). rewrite member_false. tauto. }
  assert (try_for_each (λ p : str * list str, check_paths p.1 p.2)
            [("allow" : str, fs_allow fs); ("read" : str, fs_read fs); ("deny" : str, fs_deny fs)] = Ok tt
          ↔ ∀ v, v ∈ fs_paths fs → bad_path v = false) as Hpaths.
  { rewrite try_for_each_ok. unfold fs_paths. split.
    - intros H v. rewrite !elem_of_app. intros [Hv|[Hv|Hv]];
        [specialize (H ("allow" : str, fs_allow fs))|specialize (H ("read" : str, fs_read fs))
        |specialize (H ("deny" : str, fs_deny fs))];
        (eapply check_paths_ok; [apply H; set_solver|done]).
    - intros H p Hp. apply check_paths_ok. intros v Hv. apply H.
      rewrite !elem_of_cons, elem_of_nil in Hp.
      destruct_or! Hp; subst; simpl in Hv; set_solver. }
  assert (try_for_each (check_deny (fs_allow fs ++ fs_read fs)) (fs_deny fs) = Ok tt ↔
          ∀ d, d ∈ fs_deny fs → ∃ g, g ∈ fs_allow fs ++ fs_read fs ∧ is_within d g = true) as Hdeny.
  { rewrite try_for_each_ok. split; intros H d Hd; specialize (H d Hd); unfold check_deny in *.
    - destruct (existsb _ _) eqn:E; [|done]. by apply existsb_elem in E.
    - by apply existsb_elem in H as ->. }
  unfold check_filesystem. match goal with |- context [try_for_each ?f [?a; ?b; ?c]] => set (ps := try_for_each f [a; b; c]) in * end.
  destruct ps as [[]|e].
  - rewrite Hdeny. setoid_rewrite <- Hbad. tauto.
  - split; [done|]. intros [H _]. setoid_rewrite <- Hbad in H. by apply Hpaths in H.
Qed.

(** ** Warnings *)

Definition DOLLAR : ascii := "$".

Definition collect_warnings (env : Env) (filesystem : Filesystem) : list Warning :=
  flat_map (λ path,
    if existsb (λ sensitive, is_within sensitive path) SENSITIVE_PATHS
    then [SensitivePath "allow" path] else []) (fs_allow filesystem)
  ++ (if existsb (contains_char DOLLAR) ((map_to_list (vars env)).*2) then [NoInterpolation] else []).
