(* ===== verification/Config.v ===== *)
(** * Loading the manifest ([src/config/mod.rs], [src/config/discovery.rs])

    [discover] walks up to the nearest [devcroft.toml] without crossing a
    [.git] boundary; [parse] turns its text into a validated [Manifest].  The
    [toml] crate's parser and the serde-derived deserialiser are parameters;
    everything devcroft itself checks is translated. *)

From S2P Require Import Prelude Slug Paths ProviderKind Manifest Validate.

(** ** Discovery

    A directory is its list of components; the file system is the pair of
    tests the code makes. *)
Section discovery.
Context (is_file exists_path : list str → bool).

(** The loop, on the reversed components: [parent] drops the head. *)
Fixpoint discover_from (rdir : list str) : option (list str) :=
  let dir := reverse rdir in
  if is_file (dir ++ [MANIFEST_FILE_NAME]) then Some (dir ++ [MANIFEST_FILE_NAME])
  else if exists_path (dir ++ [".git" : str]) then None
  else match rdir with
       | [] => None
       | _ :: parent => discover_from parent
       end.

Definition discover (start : list str) : option (list str) := discover_from (reverse start).

Lemma discover_snoc start c :
  discover (start ++ [c]) =
  if is_file ((start ++ [c]) ++ [MANIFEST_FILE_NAME]) then Some ((start ++ [c]) ++ [MANIFEST_FILE_NAME])
  else if exists_path ((start ++ [c]) ++ [".git" : str]) then None else discover start.
Proof.
  unfold discover. rewrite reverse_snoc. simpl. by rewrite reverse_cons, reverse_involutive.
Qed.

(** [take k start] is the nearest ancestor with a manifest, and no ancestor
    strictly below it has a manifest or a [.git]. *)
Definition nearest (start : list str) (k : nat) : Prop :=
  k ≤ length start ∧ is_file (take k start ++ [MANIFEST_FILE_NAME]) = true ∧
  ∀ j, k < j → j ≤ length start →
    is_file (take j start ++ [MANIFEST_FILE_NAME]) = false ∧
    exists_path (take j start ++ [".git" : str]) = false.

(** Discovery returns the manifest of the nearest ancestor that has one,
    provided no directory strictly below it is a [.git] boundary, and fails
    in every other case; the walk always ends at the file-system root. *)
Theorem discover_spec start p :
  discover start = Some p ↔ ∃ k, nearest start k ∧ p = take k start ++ [MANIFEST_FILE_NAME].
Proof.
  induction start as [|c start IH] using rev_ind.
  { unfold discover, nearest. simpl. split.
    - destruct (is_file _) eqn:E; [|by case_match]. intros [= <-]. exists 0.
      repeat split; auto; simpl in *; lia.
    - intros (k & (Hk & Hf & _) & ->). destruct k; [|simpl in Hk; lia].
      simpl in *. by rewrite Hf. }
  rewrite discover_snoc.
  assert (take (S (length start)) (start ++ [c]) = start ++ [c]) as Hfull.
  { apply take_ge. rewrite length_app. simpl. lia. }
  assert (∀ j, j ≤ length start → take j (start ++ [c]) = take j start) as Hlow.
  { intros j Hj. by apply take_app_le. }
  destruct (is_file ((start ++ [c]) ++ _)) eqn:Ef.
  - split.
    + intros [= <-]. exists (S (length start)). rewrite Hfull. split; [|done].
      unfold nearest. rewrite Hfull, length_app. simpl. repeat split; auto; lia.
    + intros (k & (Hk & Hf & Hn) & ->). rewrite length_app in Hk. simpl in Hk.
      destruct (decide (k = S (length start))) as [->|]; [by rewrite Hfull|].
      destruct (Hn (S (length start))) as [Hn' _]; [lia|rewrite length_app; simpl; lia|].
      rewrite Hfull in Hn'. congruence.
  - destruct (exists_path ((start ++ [c]) ++ _)) eqn:Eg.
    + split; [done|]. intros (k & (Hk & Hf & Hn) & ->). rewrite length_app in Hk. simpl in Hk.
      destruct (decide (k = S (length start))) as [->|]; [rewrite Hfull in Hf; congruence|].
      destruct (Hn (S (length start))) as [_ Hn']; [lia|rewrite length_app; simpl; lia|].
      rewrite Hfull in Hn'. congruence.
    + rewrite IH. split; intros (k & (Hk & Hf & Hn) & ->).
      * exists k. rewrite Hlow by done. split; [|done]. unfold nearest.
        rewrite Hlow, length_app by done. simpl. repeat split; [lia|done|..];
        destruct (decide (j = S (length start))) as [->|];
          rewrite ?Hfull, ?Hlow by lia; try done; apply Hn; lia.
      * rewrite length_app in Hk. simpl in Hk.
        destruct (decide (k = S (length start))) as [->|]; [rewrite Hfull in Hf; congruence|].
        rewrite Hlow in * by lia. exists k. split; [|done]. split; [lia|]. split; [done|].
        intros j Hj1 Hj2. destruct (Hn j) as [H1 H2]; [lia|rewrite length_app; simpl; lia|].
        rewrite Hlow in H1, H2 by lia. done.
Qed.
End discovery.

(** ** Parsing *)
Section parse.
(** [str::parse::<toml::Table>] and [toml::Value::try_into::<RawManifest>]. *)
Context (parse_table : str → result str (list (str * toml)))
        (try_into : list (str * toml) → result str RawManifest).

Definition check_isolation (isolation : option str) : result ConfigError unit :=
  match isolation with
  | None => Ok tt
  | Some t =>
      if bool_decide (t = ISOLATION_TIER) then Ok tt
      else if bool_decide (t = ("hardened" : str)) then Err (RemovedIsolationTier "hardened")
      else Err (InvalidIsolationTier t)
  end.

Definition parse (text : str) : result ConfigError (Manifest * list Warning) :=
  table ← map_err Parse (parse_table text);
  _ ← check_unknown_keys table;
  raw ← map_err Parse (try_into table);
  name ← ok_or MissingName (raw_name (raw_sandbox raw));
  if negb (is_valid_name name) then Err (InvalidName name (slugify name))
  else
    _ ← map_err InvalidProvider (validate_provider (provider (raw_env raw)));
    _ ← check_isolation (raw_isolation (raw_sandbox raw));
    _ ← check_filesystem (raw_filesystem raw);
    let warnings := collect_warnings (raw_env raw) (raw_filesystem raw) in
    let env := {| provider := normalize_provider_name (provider (raw_env raw));
                  vars := vars (raw_env raw) |} in
    Ok ({| m_sandbox := {| sandbox_name := name |};
           m_env := env;
           m_filesystem := raw_filesystem raw;
           m_network := raw_network raw;
           m_ssh := raw_ssh raw;
           m_hooks := raw_hooks raw |}, warnings).

(** [load]: the file system supplies the discovered path's text. *)
Definition load (discover : option (list str)) (read_to_string : list str → result str str)
  : result ConfigError (Manifest * list Warning) :=
  manifest_path ← ok_or NotFound discover;
  text ← map_err Io (read_to_string manifest_path);
  parse text.

(** What every manifest that reaches the rest of the program satisfies. *)
Record manifest_wf (m : Manifest) : Prop := {
  wf_name : is_valid_name (sandbox_name (m_sandbox m)) = true;
  wf_provider : ∃ k, from_name (provider (m_env m)) = Ok k;
  wf_filesystem : check_filesystem (m_filesystem m) = Ok tt;
}.

Lemma parse_inv text m w :
  parse text = Ok (m, w) →
  ∃ table raw,
    parse_table text = Ok table ∧ try_into table = Ok raw ∧ check_unknown_keys table = Ok tt ∧
    raw_name (raw_sandbox raw) = Some (sandbox_name (m_sandbox m)) ∧
    is_valid_name (sandbox_name (m_sandbox m)) = true ∧
    validate_provider (provider (raw_env raw)) = Ok tt ∧
    check_isolation (raw_isolation (raw_sandbox raw)) = Ok tt ∧
    check_filesystem (raw_filesystem raw) = Ok tt ∧
    m_env m = {| provider := normalize_provider_name (provider (raw_env raw)); vars := vars (raw_env raw) |} ∧
    m_filesystem m = raw_filesystem raw ∧ m_network m = raw_network raw ∧
    m_ssh m = raw_ssh raw ∧ m_hooks m = raw_hooks raw ∧
    w = collect_warnings (raw_env raw) (raw_filesystem raw).
Proof.
  unfold parse. unfold mbind, result_bind.
  destruct (parse_table text) as [table|] eqn:E1; simpl; [|done].
  destruct (check_unknown_keys table) as [[]|] eqn:E2; simpl; [|done].
  destruct (try_into table) as [raw|] eqn:E3; simpl; [|done].
  destruct (raw_name (raw_sandbox raw)) as [name|] eqn:E4; simpl; [|done].
  destruct (is_valid_name name) eqn:E5; simpl; [|done].
  destruct (validate_provider _) as [[]|] eqn:E6; simpl; [|done].
  destruct (check_isolation _) as [[]|] eqn:E7; simpl; [|done].
  destruct (check_filesystem _) as [[]|] eqn:E8; simpl; [|done].
  intros [= <- <-]. exists table, raw. simpl. by repeat split.
Qed.

(** A manifest that parses is well formed: its name is valid as a host
    label and directory name, its provider dispatches, and its [filesystem]
    section passed every path check. *)
Theorem parse_wf text m w : parse text = Ok (m, w) → manifest_wf m.
Proof.
  intros (table & raw & _ & _ & _ & _ & Hn & Hp & _ & Hf & He & Hfs & _)%parse_inv.
  split; [done|..].
  - rewrite He. by apply normalized_dispatches.
  - by rewrite Hfs.
Qed.

(** No manifest naming an isolation tier other than the supported one
    parses; the removed tier gets its own error, once everything checked
    before it is in order. *)
Theorem parse_isolation text table raw name t :
  parse_table text = Ok table → check_unknown_keys table = Ok tt → try_into table = Ok raw →
  raw_name (raw_sandbox raw) = Some name → is_valid_name name = true →
  validate_provider (provider (raw_env raw)) = Ok tt →
  raw_isolation (raw_sandbox raw) = Some t → t ≠ ISOLATION_TIER →
  parse text = Err (if decide (t = ("hardened" : str)) then RemovedIsolationTier "hardened"
                    else InvalidIsolationTier t).
Proof.
  intros H1 H2 H3 H4 H5 H6 H7 H8. unfold parse, mbind, result_bind.
  rewrite H1. simpl. rewrite H2, H3. simpl. rewrite H4. simpl. rewrite H5. simpl. rewrite H6. simpl.
  unfold check_isolation. rewrite H7, bool_decide_false by done.
  destruct (decide _); [rewrite bool_decide_true by done|rewrite bool_decide_false by done]; done.
Qed.
End parse.

(** ** Witnesses: a concrete parser and deserialiser for one document *)

Definition sample_table : list (str * toml) :=
  [("sandbox" : str, TTable [("name" : str, TStr "myproj")]);
   ("filesystem" : str, TTable [("deny" : str, TArray [TStr "secrets"])])].
Definition sample_raw (isolation : option str) : RawManifest :=
  {| raw_sandbox := {| raw_name := Some ("myproj" : str); raw_isolation := isolation |};
     raw_env := Env_default;
     raw_filesystem := {| fs_allow := strs ["."]; fs_read := []; fs_deny := strs ["secrets"] |};
     raw_network := Network_default; raw_ssh := Ssh_default; raw_hooks := Hooks_default |}.
Definition sample_parse (isolation : option str) : str → result ConfigError (Manifest * list Warning) :=
  parse (λ _, Ok sample_table) (λ _, Ok (sample_raw isolation)).

Lemma parse_wf_witness :
  ∃ m w, sample_parse None [] = Ok (m, w) ∧ manifest_wf m.
Proof.
  destruct (sample_parse None []) as [[m w]|e] eqn:E; [|vm_compute in E; discriminate E].
  exists m, w. split; [reflexivity|]. exact (parse_wf _ _ _ _ _ E).
Defined.

Lemma parse_isolation_witness :
  sample_parse (Some ("hardened" : str)) [] = Err (RemovedIsolationTier "hardened").
Proof.
  refine (parse_isolation (λ _, Ok sample_table) (λ _, Ok (sample_raw (Some ("hardened" : str))))
            [] sample_table (sample_raw (Some ("hardened" : str))) "myproj" "hardened" _ _ _ _ _ _ _ _);
    try (vm_compute; reflexivity).
  vm_compute. discriminate.
Defined.

Lemma discover_spec_witness :
  discover (λ p, bool_decide (p = strs ["proj"; "devcroft.toml"])) (λ _, false) (strs ["proj"; "src"])
  = Some (strs ["proj"; "devcroft.toml"]).
Proof.
  apply (discover_spec (λ p, bool_decide (p = strs ["proj"; "devcroft.toml"])) (λ _, false)).
  exists 1. split; [|reflexivity]. split; [vm_compute; lia|]. split; [vm_compute; reflexivity|].
  intros [|[|[|j]]] H1 H2; try lia; [split; vm_compute; reflexivity|vm_compute in H2; lia].
Defined.
