(* ===== verification/Policy.v ===== *)
(** * The policy compiler ([src/policy/mod.rs], [why.rs], [render.rs], [degraded.rs])

    [compile] turns a manifest into origin-annotated rules; the [with_*]
    functions fold in what only [up] knows.  [why_path]/[why_host] answer from
    the same rules and [render] prints them.  The [cfg(target_os)] constants
    are indexed by the operating system. *)

From S2P Require Import Prelude Paths Manifest.

(** ** Compiled rules *)

Inductive Os := Linux | Macos.

Inductive Origin :=
| OManifest (key : str)
| OProvider (name : str)
| OBaseline.

#[export] Instance Origin_eq_dec : EqDecision Origin.
Proof. solve_decision. Defined.

(** [impl Display for Origin]. *)
Definition show_origin (o : Origin) : str :=
  match o with
  | OManifest key => "manifest:" ++ key
  | OProvider name => "provider:" ++ name
  | OBaseline => "baseline"
  end.

Record AnnotatedValue := annotated { av_value : str; av_origin : Origin }.
Record AnnotatedPort := annotated_port { ap_value : N; ap_origin : Origin }.

Record CompiledPolicy := {
  policy_name : str;
  filesystem_allow : list AnnotatedValue;
  filesystem_read : list AnnotatedValue;
  filesystem_deny : list AnnotatedValue;
  network_block : bool;
  network_allow_domain : list AnnotatedValue;
  network_ports : list AnnotatedPort;
  network_proxy_port : option N;
  unix_socket_bind : list AnnotatedValue;
  signal_mode : str;
}.

Definition DEVCROFT_DATA_DIR : str := "~/.local/share/devcroft".

Definition KEEPER_SYSTEM_READ (os : Os) : list str :=
  match os with
  | Linux => strs ["/lib"; "/lib64"; "/lib/x86_64-linux-gnu"; "/lib/aarch64-linux-gnu";
                   "/usr/lib"; "/usr/lib64"; "/usr/lib/x86_64-linux-gnu";
                   "/usr/lib/aarch64-linux-gnu"; "/etc/ld.so.cache"; "/dev/urandom"]
  | Macos => strs ["/usr/lib"; "/System/Library"; "/private/var/db/dyld"; "/var/db/dyld"; "/dev/urandom"]
  end.

Definition KEEPER_SYSTEM_READWRITE (os : Os) : list str :=
  match os with
  | Linux => strs ["/dev/pts"; "/dev/ptmx"; "/dev/null"]
  | Macos => strs ["/dev"]
  end.

Definition SIGNAL_MODE : str := "isolated".

#[global] Arguments KEEPER_SYSTEM_READ : simpl never.
#[global] Arguments KEEPER_SYSTEM_READWRITE : simpl never.
#[global] Arguments SENSITIVE_PATHS : simpl never.

Definition annotate (o : Origin) (l : list str) : list AnnotatedValue := (λ p, annotated p o) <$> l.

(** ** [compile] *)

Definition baseline_deny (granted : list str) : list AnnotatedValue :=
  annotated DEVCROFT_DATA_DIR OBaseline ::
  annotate OBaseline (List.filter (λ sensitive, negb (existsb (is_within sensitive) granted)) SENSITIVE_PATHS).

Definition compile (os : Os) (m : Manifest) : CompiledPolicy :=
  let fs := m_filesystem m in
  let granted := fs_allow fs ++ fs_read fs in
  {| policy_name := sandbox_name (m_sandbox m);
     filesystem_allow := annotate (OManifest "filesystem.allow") (fs_allow fs)
                           ++ annotate OBaseline (KEEPER_SYSTEM_READWRITE os);
     filesystem_read := annotate (OManifest "filesystem.read") (fs_read fs)
                          ++ annotate OBaseline (KEEPER_SYSTEM_READ os);
     filesystem_deny := annotate (OManifest "filesystem.deny") (fs_deny fs) ++ baseline_deny granted;
     network_block := bool_decide (net_default (m_network m) = Deny);
     network_allow_domain := annotate (OManifest "network.allow") (net_allow (m_network m));
     network_ports := (λ p, annotated_port p (OManifest "network.ports")) <$> net_ports (m_network m);
     network_proxy_port := None;
     unix_socket_bind := [];
     signal_mode := SIGNAL_MODE |}.

(** ** Post-hoc grants *)

Definition with_provider_grants (provider : str) (grants : list str) (c : CompiledPolicy) : CompiledPolicy :=
  {| policy_name := policy_name c; filesystem_allow := filesystem_allow c;
     filesystem_read := filesystem_read c ++ annotate (OProvider provider) grants;
     filesystem_deny := filesystem_deny c; network_block := network_block c;
     network_allow_domain := network_allow_domain c; network_ports := network_ports c;
     network_proxy_port := network_proxy_port c; unix_socket_bind := unix_socket_bind c;
     signal_mode := signal_mode c |}.

Definition with_proxy_port (port : N) (c : CompiledPolicy) : CompiledPolicy :=
  {| policy_name := policy_name c; filesystem_allow := filesystem_allow c;
     filesystem_read := filesystem_read c;
     filesystem_deny := filesystem_deny c; network_block := network_block c;
     network_allow_domain := network_allow_domain c; network_ports := network_ports c;
     network_proxy_port := Some port; unix_socket_bind := unix_socket_bind c;
     signal_mode := signal_mode c |}.

Definition with_services_socket_grant (provider socket : str) (c : CompiledPolicy) : CompiledPolicy :=
  {| policy_name := policy_name c; filesystem_allow := filesystem_allow c;
     filesystem_read := filesystem_read c;
     filesystem_deny := filesystem_deny c; network_block := network_block c;
     network_allow_domain := network_allow_domain c; network_ports := network_ports c;
     network_proxy_port := network_proxy_port c;
     unix_socket_bind := unix_socket_bind c ++ [annotated socket (OProvider provider)];
     signal_mode := signal_mode c |}.

Definition with_keeper_exe_grant (exe_dir : str) (c : CompiledPolicy) : CompiledPolicy :=
  {| policy_name := policy_name c; filesystem_allow := filesystem_allow c;
     filesystem_read := filesystem_read c ++ [annotated exe_dir OBaseline];
     filesystem_deny := filesystem_deny c; network_block := network_block c;
     network_allow_domain := network_allow_domain c; network_ports := network_ports c;
     network_proxy_port := network_proxy_port c; unix_socket_bind := unix_socket_bind c;
     signal_mode := signal_mode c |}.

Definition wants_egress_proxy (c : CompiledPolicy) : bool :=
  network_block c && negb (bool_decide (length (network_allow_domain c) = 0)).

Definition wants_network_isolation (c : CompiledPolicy) (_services_declared : bool) : bool := network_block c.

Definition proxy_port_collides_with_declared_ports (c : CompiledPolicy) (proxy_port : N) : bool :=
  existsb (λ p, (ap_value p =? proxy_port)%N) (network_ports c).

(** ** [why] *)

Inductive Op := Read | Write | ReadWrite.

Record Explanation := { allowed : bool; origin : option Origin; detail : str }.

Definition matching (rules : list AnnotatedValue) (path : str) : option AnnotatedValue :=
  find (λ r, is_within path (av_value r)) rules.

Definition or_else {A} (a b : option A) : option A := match a with Some _ => a | None => b end.

Definition why_path (c : CompiledPolicy) (path : str) (op : Op) : Explanation :=
  match matching (filesystem_deny c) path with
  | Some rule => {| allowed := false; origin := Some (av_origin rule);
                    detail := "denied by rule " ++ show_origin (av_origin rule) |}
  | None =>
      let allow := match op with
                   | Write | ReadWrite => matching (filesystem_allow c) path
                   | Read => or_else (matching (filesystem_allow c) path) (matching (filesystem_read c) path)
                   end in
      match allow with
      | Some rule => {| allowed := true; origin := Some (av_origin rule);
                        detail := "allowed by rule " ++ show_origin (av_origin rule) |}
      | None => {| allowed := false; origin := None; detail := "denied: not granted by any rule" |}
      end
  end.

(** [nono::HostFilter::new_strict(allow).check_host(host, &[])]: its verdict
    and the reason it gives. *)
Section why_host.
Context (check_host : list str → str → bool * str).

Definition why_host (c : CompiledPolicy) (host : str) : Explanation :=
  if negb (network_block c) then
    {| allowed := true; origin := Some (OManifest "network.default");
       detail := "allowed by rule manifest:network.default" |}
  else
    let '(is_allowed, reason) := check_host (av_value <$> network_allow_domain c) host in
    if is_allowed then
      let rule :=
        or_else (find (λ d, eq_ignore_ascii_case (av_value d) host) (network_allow_domain c))
          (find (λ d, match strip_prefix "*" (av_value d) with
                      | Some suffix =>
                          match strip_suffix suffix (to_ascii_lowercase <$> host) with
                          | Some _ => true | None => false end
                      | None => false
                      end) (network_allow_domain c)) in
      match rule with
      | Some rule => {| allowed := true; origin := Some (av_origin rule);
                        detail := "allowed by rule " ++ show_origin (av_origin rule) |}
      | None => {| allowed := true; origin := None;
                   detail := "allowed by the egress proxy's host filter" |}
      end
    else {| allowed := false; origin := Some (OManifest "network.default");
            detail := "denied by rule manifest:network.default (" ++ reason ++ ")" |}.

(** The static answer is the filter's: with blocking on, [why] allows a host
    exactly when the filter the proxy runs does. *)
Lemma why_host_filter c host :
  allowed (why_host c host) =
  negb (network_block c) || (check_host (av_value <$> network_allow_domain c) host).1.
Proof.
  unfold why_host. destruct (network_block c); [|done]. simpl.
  destruct (check_host _ _) as [[] reason]; [|done]. simpl. by destruct (or_else _ _).
Qed.
End why_host.

(** ** [policy --render] *)

(** [{:<40}] pads on the right to forty characters. *)
Definition pad40 (s : str) : str := s ++ replicate (40 - length (chars s)) " "%char.

Definition render_rule (value : str) (o : Origin) : str := "  " ++ pad40 value ++ " " ++ show_origin o.

Definition render_section (title : str) (values : list AnnotatedValue) : list str :=
  (title ++ ":") ::
  match values with
  | [] => ["  (none)" : str]
  | _ => (λ v, render_rule (av_value v) (av_origin v)) <$> values
  end.

Definition QUOTE : str := ["034"%char].

Definition namespace_summary (c : CompiledPolicy) : str :=
  if negb (network_block c) then
    "shared with the host (network.default = " ++ QUOTE ++ "allow" ++ QUOTE ++ ")"
  else match network_ports c with
       | _ :: _ => "own (declared ports are reachable inside the sandbox and via `ssh -L <local>:127.0.0.1:<port> <name>.devcroft`, not on the host's loopback)"
       | [] => "own (denies UDP, which Landlock's TCP-only network rules do not)"
       end.

Definition show_bool (b : bool) : str := if b then "true" else "false".

Definition render_lines (c : CompiledPolicy) : list str :=
  [("sandbox: " ++ policy_name c); [] : str]
  ++ render_section "filesystem.allow" (filesystem_allow c)
  ++ render_section "filesystem.read" (filesystem_read c)
  ++ render_section "filesystem.deny" (filesystem_deny c)
  ++ [([] : str); "network.block: " ++ show_bool (network_block c)]
  ++ render_section "network.allow_domain" (network_allow_domain c)
  ++ ["network.ports:" : str]
  ++ (match network_ports c with
      | [] => ["  (none)" : str]
      | ports => (λ p, render_rule (show_N (ap_value p)) (ap_origin p)) <$> ports
      end)
  ++ ["network.namespace: " ++ namespace_summary c]
  ++ (match unix_socket_bind c with
      | [] => []
      | socks => ("unix_socket.bind:" : str) :: ((λ s, render_rule (av_value s) (av_origin s)) <$> socks)
      end)
  ++ [match network_proxy_port c with
      | Some port => "network.proxy: 127.0.0.1:" ++ show_N port ++ " (running)"
      | None => if wants_egress_proxy c then "network.proxy: requested, not yet started (run `up`)"
                else "network.proxy: not requested"
      end].

Definition render (c : CompiledPolicy) : str := mjoin ((λ l, l ++ [NL]) <$> render_lines c).

(** ** Degraded capabilities *)

Record DegradedCapability := { aspect : str; reason : str; fallback : str }.
Record HostCapabilities := { domain_filtering : bool; port_scoped_bind : bool; exec_mediation : bool }.

Definition host_current (os : Os) : HostCapabilities :=
  match os with
  | Macos => {| domain_filtering := false; port_scoped_bind := false; exec_mediation := false |}
  | Linux => {| domain_filtering := true; port_scoped_bind := true; exec_mediation := true |}
  end.

Definition degraded_domains : DegradedCapability :=
  {| aspect := "network.allow (domain-level filtering)";
     reason := "macOS Seatbelt cannot enforce domain-level network allowlists without a cooperative proxy";
     fallback := "network access is not filtered by domain on this host; a process that bypasses the proxy can reach any host" |}.
Definition degraded_ports : DegradedCapability :=
  {| aspect := "network.ports (binding is not limited to the declared ports)";
     reason := "macOS Seatbelt has no port-scoped bind rule, so any local port can be bound";
     fallback := "the declared ports work; treat the list as documentation of intent rather than a limit" |}.
Definition degraded_exec : DegradedCapability :=
  {| aspect := "exec is not mediated by path";
     reason := "macOS Seatbelt allows process-exec unconditionally, so a command naming an absolute host path runs even though reads of that path are denied";
     fallback := "anything resolved through PATH still comes from the closure; an absolute host path does not" |}.

Definition detect_for_host (c : CompiledPolicy) (host : HostCapabilities) : list DegradedCapability :=
  let requests_domain_filtering := network_block c && negb (bool_decide (length (network_allow_domain c) = 0)) in
  (if requests_domain_filtering && negb (domain_filtering host) then [degraded_domains] else [])
  ++ (if negb (bool_decide (length (network_ports c) = 0)) && negb (port_scoped_bind host)
      then [degraded_ports] else []).

Definition detect (os : Os) (c : CompiledPolicy) : list DegradedCapability := detect_for_host c (host_current os).

Definition host_limitations (os : Os) : list DegradedCapability :=
  if negb (exec_mediation (host_current os)) then [degraded_exec] else [].

(** ** Lemmas *)

Definition covered (rules : list AnnotatedValue) (path : str) : Prop :=
  ∃ r, r ∈ rules ∧ is_within path (av_value r) = true.

Lemma matching_some rules path r :
  matching rules path = Some r → r ∈ rules ∧ is_within path (av_value r) = true.
Proof. intros H. by apply find_some in H. Qed.

Lemma matching_none rules path : matching rules path = None ↔ ¬ covered rules path.
Proof.
  unfold matching. rewrite find_none. unfold covered. split.
  - intros H (r & Hr & Hw). by rewrite H in Hw.
  - intros H r Hr. apply not_true_iff_false. intros Hw. apply H. eauto.
Qed.

Lemma covered_matching rules path : covered rules path ↔ ∃ r, matching rules path = Some r.
Proof.
  split.
  - intros H. destruct (matching rules path) as [r|] eqn:E; [by exists r|].
    by apply matching_none in E.
  - intros (r & Hr). apply matching_some in Hr. by exists r.
Qed.

Lemma covered_app l1 l2 path : covered (l1 ++ l2) path ↔ covered l1 path ∨ covered l2 path.
Proof. unfold covered. setoid_rewrite elem_of_app. naive_solver. Qed.

Lemma elem_of_annotate o l r : r ∈ annotate o l ↔ av_origin r = o ∧ av_value r ∈ l.
Proof.
  unfold annotate. rewrite list_elem_of_fmap. destruct r as [v o']; simpl. split.
  - intros (p & [= -> ->] & ?). done.
  - intros [<- ?]. by exists v.
Qed.

(** The fold-ins of [up] and [policy --render], in any order and number. *)
Inductive fold_in :=
| KeeperExe (dir : str)
| ProviderGrants (provider : str) (grants : list str)
| ProxyPort (port : N)
| ServicesSocket (provider socket : str).

Definition apply_fold (c : CompiledPolicy) (f : fold_in) : CompiledPolicy :=
  match f with
  | KeeperExe dir => with_keeper_exe_grant dir c
  | ProviderGrants p gs => with_provider_grants p gs c
  | ProxyPort port => with_proxy_port port c
  | ServicesSocket p s => with_services_socket_grant p s c
  end.

Lemma apply_folds_deny folds c : filesystem_deny (foldl apply_fold c folds) = filesystem_deny c.
Proof. revert c. induction folds as [|f folds IH]; intros c; simpl; [done|]. rewrite IH. by destruct f. Qed.

Lemma apply_folds_allow folds c : filesystem_allow (foldl apply_fold c folds) = filesystem_allow c.
Proof. revert c. induction folds as [|f folds IH]; intros c; simpl; [done|]. rewrite IH. by destruct f. Qed.

Lemma data_dir_in_deny os m : annotated DEVCROFT_DATA_DIR OBaseline ∈ filesystem_deny (compile os m).
Proof. simpl. rewrite elem_of_app. right. by left. Qed.

(** ** Properties *)

(** The verdict of [why] on a path is exactly: no deny rule covers it, and
    some rule of the right strength does ([filesystem.allow] for any
    operation, [filesystem.read] for reads only). *)
Theorem why_path_spec c path op :
  allowed (why_path c path op) = true ↔
  ¬ covered (filesystem_deny c) path ∧
  (covered (filesystem_allow c) path ∨ op = Read ∧ covered (filesystem_read c) path).
Proof.
  unfold why_path. destruct (matching (filesystem_deny c) path) as [d|] eqn:Ed.
  - split; [done|]. intros [Hd _]. exfalso. apply Hd. apply covered_matching. by exists d.
  - apply matching_none in Ed.
    rewrite !covered_matching.
    destruct (matching (filesystem_allow c) path) as [a|] eqn:Ea; simpl.
    + split; [|by destruct op]. intros _. split; [by rewrite <- covered_matching|]. left. by exists a.
    + destruct op, (matching (filesystem_read c) path) as [r|] eqn:Er; simpl;
        (split; [|naive_solver]); intros H; try done;
        (split; [by rewrite <- covered_matching|]); right; split; eauto.
Qed.

(** Devcroft's own data directory is denied to every sandbox: no manifest
    and no later fold-in makes [why] allow any operation on a path inside it. *)
Theorem data_dir_always_denied os m folds path op :
  is_within path DEVCROFT_DATA_DIR = true →
  allowed (why_path (foldl apply_fold (compile os m) folds) path op) = false.
Proof.
  intros H. apply not_true_iff_false. rewrite why_path_spec, apply_folds_deny.
  intros [Hn _]. apply Hn. eexists. split; [apply data_dir_in_deny|]. done.
Qed.

Definition sample_manifest (allow read : list str) : Manifest :=
  {| m_sandbox := {| sandbox_name := "myproj" |}; m_env := Env_default;
     m_filesystem := {| fs_allow := allow; fs_read := read; fs_deny := [] |};
     m_network := {| net_default := Deny; net_allow := strs ["crates.io"]; net_ports := [5432%N] |};
     m_ssh := Ssh_default; m_hooks := Hooks_default |}.

Lemma data_dir_always_denied_witness :
  is_within "~/.local/share/devcroft/id_ed25519" DEVCROFT_DATA_DIR = true ∧
  allowed (why_path (foldl apply_fold (compile Linux (sample_manifest (strs ["~"]) [])) [KeeperExe "/usr/bin"])
             "~/.local/share/devcroft/id_ed25519" Read) = false.
Proof.
  split; [vm_compute; reflexivity|].
  apply data_dir_always_denied. vm_compute. reflexivity.
Defined.

(** A credential directory is denied by default and the deny is dropped
    exactly when some grant of the manifest covers it. *)
Theorem sensitive_denied_unless_granted os m s :
  s ∈ SENSITIVE_PATHS →
  annotated s OBaseline ∈ filesystem_deny (compile os m) ↔
  ¬ ∃ g, g ∈ fs_allow (m_filesystem m) ++ fs_read (m_filesystem m) ∧ is_within s g = true.
Proof.
  intros Hs. unfold compile, baseline_deny. cbn [filesystem_deny].
  rewrite elem_of_app, elem_of_cons, !elem_of_annotate. cbn [av_value av_origin].
  assert (s ≠ DEVCROFT_DATA_DIR) as Hne.
  { intros ->. unfold SENSITIVE_PATHS, strs in Hs. simpl in Hs.
    rewrite !elem_of_cons in Hs. destruct_or! Hs; try discriminate Hs. by apply not_elem_of_nil in Hs. }
  rewrite elem_of_filter_bool, negb_true_iff.
  assert (existsb (is_within s) (fs_allow (m_filesystem m) ++ fs_read (m_filesystem m)) = false
          ↔ ¬ ∃ g, g ∈ fs_allow (m_filesystem m) ++ fs_read (m_filesystem m) ∧ is_within s g = true) as <-.
  { rewrite <- not_true_iff_false. by rewrite existsb_elem. }
  naive_solver.
Qed.

Lemma sensitive_denied_unless_granted_witness :
  ("~/.ssh" : str) ∈ SENSITIVE_PATHS ∧
  (annotated "~/.ssh" OBaseline ∈ filesystem_deny (compile Linux (sample_manifest (strs ["."]) (strs ["~"]))) ↔
   ¬ ∃ g, g ∈ strs ["."] ++ strs ["~"] ∧ is_within "~/.ssh" g = true).
Proof.
  assert (("~/.ssh" : str) ∈ SENSITIVE_PATHS) as H by (by left).
  split; [exact H|]. exact (sensitive_denied_unless_granted Linux (sample_manifest (strs ["."]) (strs ["~"])) _ H).
Defined.

(** A policy that needs the egress proxy is also one that wants its own
    network namespace: the two are not mutually exclusive. *)
Lemma egress_proxy_implies_isolation c sd :
  wants_egress_proxy c = true → wants_network_isolation c sd = true.
Proof. unfold wants_egress_proxy, wants_network_isolation. by intros [? _]%andb_true_iff. Qed.

(** What [render] prints for a rule, and where: [shown c v o] is the line. *)
Definition shown (c : CompiledPolicy) (value : str) (o : Origin) : Prop := render_rule value o ∈ render_lines c.

Lemma render_section_elem title values v :
  v ∈ values → render_rule (av_value v) (av_origin v) ∈ render_section title values.
Proof.
  intros Hv. unfold render_section. right. destruct values; [by apply not_elem_of_nil in Hv|].
  by apply (list_elem_of_fmap_2 (λ v, render_rule (av_value v) (av_origin v))).
Qed.

(** Nothing reaches the backend that [policy --render] cannot show: every
    path, port, domain and socket rule of the policy is printed with its
    origin, and a running proxy's port with it. *)
Theorem render_complete c :
  (∀ v, v ∈ filesystem_allow c ∨ v ∈ filesystem_read c ∨ v ∈ filesystem_deny c
        ∨ v ∈ network_allow_domain c ∨ v ∈ unix_socket_bind c →
        shown c (av_value v) (av_origin v)) ∧
  (∀ p, p ∈ network_ports c → shown c (show_N (ap_value p)) (ap_origin p)) ∧
  (∀ port, network_proxy_port c = Some port →
     ("network.proxy: 127.0.0.1:" ++ show_N port ++ " (running)") ∈ render_lines c).
Proof.
  unfold shown, render_lines. split; [|split].
  - intros v Hv. rewrite !elem_of_app. destruct_or! Hv;
      try (pose proof (λ t, render_section_elem t _ _ Hv); naive_solver).
    do 9 right. left. destruct (unix_socket_bind c) as [|x l]; [by apply not_elem_of_nil in Hv|].
    right. by apply (list_elem_of_fmap_2 (λ s, render_rule (av_value s) (av_origin s))).
  - intros p Hp. rewrite !elem_of_app. do 7 right. left.
    destruct (network_ports c) as [|x l]; [by apply not_elem_of_nil in Hp|].
    by apply (list_elem_of_fmap_2 (λ p, render_rule (show_N (ap_value p)) (ap_origin p))).
  - intros port Hport. rewrite !elem_of_app. do 10 right. rewrite Hport. by left.
Qed.
