(* ===== verification/Capability.v ===== *)
(** * From policy to capability set ([src/policy/capability_set.rs])

    [to_capability_plan] drops the origins; [to_capability_set] replays a plan
    through the [nono] library's builder, refusing a plan that denies
    something inside a grant and a project grant that symlinks out of the
    project.  The builder is an interface ([CapBuilder]); the theorems are
    proved for every implementation of it, through the recording one. *)

From S2P Require Import Prelude Paths ProviderKind Manifest Validate Policy.

#[local] Set Default Proof Using "Type".

(** ** The plan *)

Record CapabilityPlan := {
  plan_allow : list str;
  plan_read : list str;
  plan_deny : list str;
  plan_block : bool;
  plan_ports : list N;
  plan_proxy_port : option N;
  plan_sockets : list str;
  plan_signal_mode : str;
}.

Definition to_capability_plan (c : CompiledPolicy) : CapabilityPlan :=
  {| plan_allow := av_value <$> filesystem_allow c;
     plan_read := av_value <$> filesystem_read c;
     plan_deny := av_value <$> filesystem_deny c;
     plan_block := network_block c;
     plan_ports := ap_value <$> network_ports c;
     plan_proxy_port := network_proxy_port c;
     plan_sockets := av_value <$> unix_socket_bind c;
     plan_signal_mode := signal_mode c |}.

(** ** The [nono] builder *)

Inductive AccessMode := ModeRead | ModeReadWrite.

(** The calls the program makes on a [CapabilitySet]. *)
Inductive cap_call :=
| AllowPath (path : str) (mode : AccessMode)
| AllowFile (path : str) (mode : AccessMode)
| ProxyOnly (port : N)
| BlockNetwork
| NetworkAllowAll
| AllowLocalhostPort (port : N)
| AllowUnixSocket (path : str)
| SetSignalIsolated.

(** A builder: the empty set and the effect of each call, which may fail. *)
Class CapBuilder (caps : Type) := {
  cap_new : caps;
  cap_apply : caps → cap_call → result str caps;
}.

(** The builder that records the calls. *)
#[export] Instance recorder : CapBuilder (list cap_call) :=
  {| cap_new := []; cap_apply cs c := Ok (cs ++ [c]) |}.

Inductive CapabilitySetError :=
| DenyOverlapsAllow (deny allow : str)
| SymlinkEscapesProjectRoot (value canonical_target : str)
| Canonicalize (value source : str)
| Backend (e : str)
| UnreachableSignalMode (mode : str).

(** [Path::starts_with]: by components. *)
Definition std_components (p : str) : bool * list str :=
  (starts_with "/" p, List.filter keep_segment (split_on SLASH p)).
Definition path_starts_with (p base : str) : bool :=
  let '(pa, pc) := std_components p in
  let '(ba, bc) := std_components base in
  bool_decide (pa = ba) && bool_decide (take (length bc) pc = bc).

Section to_capability_set.
(** [HOME] ([unwrap_or_default]) and the file-system queries of [grant]. *)
Context (home : str) (exists_path is_dir : str → bool) (canonicalize : str → result str str).

(** [resolve]: the path on this host, and whether it is project-relative. *)
Definition resolve (value project_root : str) : str * bool :=
  if bool_decide (value = ("~" : str)) then (home, false)
  else match strip_prefix "~/" value with
       | Some rest => (path_join home rest, false)
       | None => if starts_with "/" value then (value, false)
                 else (path_join project_root value, true)
       end.

Definition check_no_deny_overlaps_allow (plan : CapabilityPlan) : result CapabilitySetError unit :=
  try_for_each (λ deny,
    try_for_each (λ allow,
      if is_within deny allow then Err (DenyOverlapsAllow deny allow) else Ok tt)
      (plan_allow plan ++ plan_read plan)) (plan_deny plan).

(** The symlink check of [grant]: [Some e] is its early return. *)
Definition escape_check (value resolved project_root : str) : result CapabilitySetError unit :=
  match canonicalize resolved with
  | Err source => Err (Canonicalize value source)
  | Ok canonical_target =>
      match canonicalize project_root with
      | Err source => Err (Canonicalize DOT source)
      | Ok canonical_root =>
          if path_starts_with canonical_target canonical_root then Ok tt
          else Err (SymlinkEscapesProjectRoot value canonical_target)
      end
  end.

Section builder.
Context {caps : Type} `{CapBuilder caps}.

Definition call (c : caps) (k : cap_call) : result CapabilitySetError caps := map_err Backend (cap_apply c k).

Definition grant (mode : AccessMode) (project_root : str) (c : caps) (value : str)
  : result CapabilitySetError caps :=
  let '(resolved, is_project_relative) := resolve value project_root in
  if negb (exists_path resolved) then Ok c
  else
    match (if is_project_relative then escape_check value resolved project_root else Ok tt) with
    | Err e => Err e
    | Ok _ => call c (if is_dir resolved then AllowPath resolved mode else AllowFile resolved mode)
    end.

Definition network_call (plan : CapabilityPlan) : cap_call :=
  match plan_proxy_port plan with
  | Some port => ProxyOnly port
  | None => if plan_block plan then BlockNetwork else NetworkAllowAll
  end.

Definition to_capability_set (plan : CapabilityPlan) (project_root : str) : result CapabilitySetError caps :=
  _ ← check_no_deny_overlaps_allow plan;
  c ← try_fold (grant ModeReadWrite project_root) cap_new (plan_allow plan);
  c ← try_fold (grant ModeRead project_root) c (plan_read plan);
  c ← call c (network_call plan);
  c ← try_fold (λ c port, call c (AllowLocalhostPort port)) c (plan_ports plan);
  c ← try_fold (λ c socket, call c (AllowUnixSocket socket)) c (plan_sockets plan);
  if bool_decide (plan_signal_mode plan = SIGNAL_MODE) then call c SetSignalIsolated
  else Err (UnreachableSignalMode (plan_signal_mode plan)).
End builder.

(** ** Every builder sees the recorded calls *)

Fixpoint replay {caps} `{CapBuilder caps} (c : caps) (ks : list cap_call) : result str caps :=
  match ks with
  | [] => Ok c
  | k :: ks => match cap_apply c k with Ok c' => replay c' ks | Err e => Err e end
  end.

(** The body of [to_capability_set] as one loop over steps. *)
Inductive cap_step := GrantStep (mode : AccessMode) (value : str) | CallStep (k : cap_call).

Definition plan_steps (plan : CapabilityPlan) : list cap_step :=
  (GrantStep ModeReadWrite <$> plan_allow plan) ++ (GrantStep ModeRead <$> plan_read plan)
  ++ [CallStep (network_call plan)]
  ++ ((λ p, CallStep (AllowLocalhostPort p)) <$> plan_ports plan)
  ++ ((λ s, CallStep (AllowUnixSocket s)) <$> plan_sockets plan) ++ [CallStep SetSignalIsolated].

(** What a step does, whatever the builder: an error of devcroft's own, no
    call, or one call. *)
Definition step_effect (root : str) (s : cap_step) : result CapabilitySetError (option cap_call) :=
  match s with
  | CallStep k => Ok (Some k)
  | GrantStep mode value =>
      let '(resolved, rel) := resolve value root in
      if negb (exists_path resolved) then Ok None
      else match (if rel then escape_check value resolved root else Ok tt) with
           | Err e => Err e
           | Ok _ => Ok (Some (if is_dir resolved then AllowPath resolved mode else AllowFile resolved mode))
           end
  end.

Section refinement.
Context {caps : Type} `{CapBuilder caps}.
Implicit Types c : caps.

Definition do_step (root : str) (c : caps) (s : cap_step) : result CapabilitySetError caps :=
  match s with CallStep k => call c k | GrantStep mode value => grant mode root c value end.

Lemma do_step_effect root c s :
  do_step root c s =
  match step_effect root s with Ok (Some k) => call c k | Ok None => Ok c | Err e => Err e end.
Proof.
  destruct s as [mode value|k]; [|done]. simpl. unfold grant.
  destruct (resolve value root) as [resolved rel]. destruct (negb _); [done|].
  by destruct (if rel then _ else _).
Qed.

Lemma try_fold_app {E S A} (f : S → A → result E S) s l1 l2 :
  try_fold f s (l1 ++ l2) = try_fold f s l1 ≫= (λ s', try_fold f s' l2).
Proof. revert s. induction l1 as [|x l1 IH]; intros s; simpl; [done|]. by destruct (f s x). Qed.

Lemma try_fold_map {E S A B} (f : S → B → result E S) (g : A → B) s l :
  try_fold f s (g <$> l) = try_fold (λ s x, f s (g x)) s l.
Proof. revert s. induction l as [|x l IH]; intros s; simpl; [done|]. by destruct (f s (g x)). Qed.

Lemma try_fold_err {E S A} (f : S → A → result E S) s l e : try_fold f s l = Err e → ∃ s' x, x ∈ l ∧ f s' x = Err e.
Proof.
  revert s. induction l as [|x l IH]; intros s; simpl; [done|]. destruct (f s x) as [s1|e1] eqn:Ef.
  - intros (s2 & y & Hy & Hf)%IH. exists s2, y. split; [by right|done].
  - intros [= ->]. exists s, x. split; [by left|done].
Qed.

Lemma try_fold_stops {E S A} (f : S → A → result E S) s l e :
  try_fold f s l = Err e ↔ ∃ l1 x l2 s', l = l1 ++ x :: l2 ∧ try_fold f s l1 = Ok s' ∧ f s' x = Err e.
Proof.
  revert s. induction l as [|x l IH]; intros s; simpl; [split; [done|by intros ([] & ? & ? & ? & ? & _)]|].
  destruct (f s x) as [s1|e1] eqn:Ef.
  - rewrite IH. split.
    + intros (l1 & y & l2 & s' & -> & H1 & H2). exists (x :: l1), y, l2, s'. simpl. by rewrite Ef.
    + intros ([|x' l1] & y & l2 & s' & [= <- ->] & H1 & H2); simpl in H1; [simplify_eq; congruence|].
      rewrite Ef in H1. by exists l1, y, l2, s'.
  - split.
    + intros [= ->]. by exists [], x, l, s.
    + intros ([|x' l1] & y & l2 & s' & [= <- ->] & H1 & H2); simpl in H1; [simplify_eq; congruence|]. by rewrite Ef in H1.
Qed.

Lemma try_fold_one {E S A} (f : S → A → result E S) s x : try_fold f s [x] = f s x.
Proof. simpl. by destruct (f s x). Qed.

Lemma bind_ok {E S A} (s : S) (f : S → result E A) : (Ok s ≫= f) = f s.
Proof. done. Qed.

Lemma to_capability_set_steps plan root :
  plan_signal_mode plan = SIGNAL_MODE →
  to_capability_set plan root =
  check_no_deny_overlaps_allow plan ≫= λ _, try_fold (do_step root) cap_new (plan_steps plan).
Proof.
  intros Hs. unfold to_capability_set, plan_steps. rewrite bool_decide_true by done.
  destruct (check_no_deny_overlaps_allow plan); [|done].
  rewrite (bind_ok (S := unit)). rewrite (bind_ok (S := unit)).
  do 5 (rewrite try_fold_app; rewrite ?try_fold_map, ?try_fold_one;
        match goal with
        | |- ?r ≫= _ = ?r' ≫= _ => change r' with r; destruct r; [|done]; rewrite !bind_ok
        end).
  by rewrite try_fold_one.
Qed.

(** The calls of a list of steps, up to the first error. *)
Fixpoint step_calls (root : str) (l : list cap_step) : result CapabilitySetError (list cap_call) :=
  match l with
  | [] => Ok []
  | s :: l => match step_effect root s with
              | Err e => Err e
              | Ok o => (λ ks, option_list o ++ ks) <$> step_calls root l
              end
  end.

Lemma steps_replay root c l c' :
  try_fold (do_step root) c l = Ok c' ↔ ∃ ks, step_calls root l = Ok ks ∧ replay c ks = Ok c'.
Proof.
  revert c. induction l as [|s l IH]; intros c; simpl.
  { split; [intros [= ->]; by exists []|]. intros (ks & [= <-] & Hr). simpl in Hr. by injection Hr as ->. }
  rewrite do_step_effect. destruct (step_effect root s) as [[k|]|e]; simpl.
  - unfold call. destruct (cap_apply c k) as [c1|e] eqn:E; simpl.
    + rewrite IH. split.
      * intros (ks & -> & Hr). exists (k :: ks). simpl. by rewrite E.
      * intros (ks & Hk & Hr). destruct (step_calls root l) as [ks'|]; simplify_eq/=.
        rewrite E in Hr. eauto.
    + split; [done|]. intros (ks & Hk & Hr). destruct (step_calls root l) as [ks'|]; simplify_eq/=.
      by rewrite E in Hr.
  - rewrite IH. destruct (step_calls root l) as [ks'|]; simpl; [done|].
    split; by intros (? & ? & _).
  - split; [done|]. by intros (? & ? & _).
Qed.
End refinement.

Lemma recorder_replay cs ks : replay cs ks = Ok (cs ++ ks).
Proof.
  revert cs. induction ks as [|k ks IH]; intros cs; simpl; [by rewrite app_nil_r|].
  rewrite IH. by rewrite <- app_assoc.
Qed.

(** What success means, for any builder. *)
Lemma to_capability_set_inv {caps} `{CapBuilder caps} plan root (c : caps) :
  to_capability_set plan root = Ok c ↔
  plan_signal_mode plan = SIGNAL_MODE ∧ check_no_deny_overlaps_allow plan = Ok tt ∧
  ∃ ks, step_calls root (plan_steps plan) = Ok ks ∧ replay cap_new ks = Ok c.
Proof.
  destruct (decide (plan_signal_mode plan = SIGNAL_MODE)) as [Hs|Hs].
  - rewrite to_capability_set_steps by done.
    destruct (check_no_deny_overlaps_allow plan) as [[]|e]; simpl.
    + rewrite steps_replay. naive_solver.
    + naive_solver.
  - split; [|naive_solver]. unfold to_capability_set. rewrite bool_decide_false by done.
    unfold mbind, result_bind. repeat case_match; naive_solver.
Qed.

(** The one way to panic: a plan of another signal mode, all else being fine. *)
Lemma to_capability_set_unreachable {caps} `{CapBuilder caps} plan root mode :
  to_capability_set (caps := caps) plan root = Err (UnreachableSignalMode mode) → plan_signal_mode plan ≠ SIGNAL_MODE.
Proof.
  intros He Hs. rewrite to_capability_set_steps in He by done.
  assert (check_no_deny_overlaps_allow plan ≠ Err (UnreachableSignalMode mode)) as Hcheck.
  { intros (l1 & d & l2 & _ & Hd & _)%try_for_each_err. apply try_for_each_err in Hd as (m1 & g & m2 & _ & Hg & _). by destruct (is_within d g). }
  destruct (check_no_deny_overlaps_allow plan); [|naive_solver]. rewrite (bind_ok (S := unit)) in He.
  apply try_fold_err in He as (c & s & _ & Hd). rewrite do_step_effect in Hd.
  assert (∀ k, call c k ≠ Err (UnreachableSignalMode mode)) as Hcall by (intros k; unfold call; by destruct (cap_apply c k)).
  destruct (step_effect root s) as [[k|]|e] eqn:E; [by apply (Hcall k)|done|]. injection Hd as ->.
  destruct s as [m v|k]; [|done]. cbn in E. destruct (resolve v root) as [p rel]. destruct (negb _); [done|].
  destruct rel; [|done]. unfold escape_check in E. by repeat case_match; simplify_eq.
Qed.

(** A grant that [grant] lets through: absent from the host, not
    project-relative, or inside the project once symlinks are followed. *)
Definition may_grant (root value : str) : Prop :=
  exists_path (resolve value root).1 = true → (resolve value root).2 = true →
  escape_check value (resolve value root).1 root = Ok tt.

(** The calls that grant [values], in their order: one for each that exists. *)
Definition grant_calls (root : str) (mode : AccessMode) (values : list str) : list cap_call :=
  omap (λ value, let resolved := (resolve value root).1 in
    if exists_path resolved then Some (if is_dir resolved then AllowPath resolved mode else AllowFile resolved mode)
    else None) values.

(** Everything a plan asks of a builder, in order. *)
Definition plan_calls (root : str) (plan : CapabilityPlan) : list cap_call :=
  grant_calls root ModeReadWrite (plan_allow plan) ++ grant_calls root ModeRead (plan_read plan)
  ++ [network_call plan] ++ (AllowLocalhostPort <$> plan_ports plan)
  ++ (AllowUnixSocket <$> plan_sockets plan) ++ [SetSignalIsolated].

Lemma step_calls_app root l1 l2 ks :
  step_calls root (l1 ++ l2) = Ok ks ↔
  ∃ ks1 ks2, step_calls root l1 = Ok ks1 ∧ step_calls root l2 = Ok ks2 ∧ ks = ks1 ++ ks2.
Proof.
  revert ks. induction l1 as [|s l1 IH]; intros ks; simpl.
  { split; [by eauto|]. by intros (? & ? & [= <-] & ? & ->). }
  destruct (step_effect root s) as [o|e]; [|by split; [|intros (? & ? & ? & _)]].
  transitivity (∃ ks', step_calls root (l1 ++ l2) = Ok ks' ∧ ks = option_list o ++ ks').
  { destruct (step_calls root (l1 ++ l2)); simpl; [|by split; [|intros (? & ? & _)]].
    split; [intros [= <-]; eauto|by intros (? & [= ->] & ->)]. }
  setoid_rewrite IH. destruct (step_calls root l1) as [ks1|e]; simpl.
  - split; [intros (ks' & (? & ks2 & [= <-] & H2 & ->) & ->)|intros (? & ks2 & [= <-] & H2 & ->)].
    + exists (option_list o ++ ks1), ks2. by rewrite <- app_assoc.
    + exists (ks1 ++ ks2). split; [by exists ks1, ks2|]. by rewrite <- app_assoc.
  - split; [by intros (? & (? & ? & ? & _) & _)|by intros (? & ? & ? & _)].
Qed.

Lemma step_calls_calls root (cs : list cap_call) : step_calls root (CallStep <$> cs) = Ok cs.
Proof. induction cs as [|k cs IH]; simpl; [done|]. unfold fmap in IH. by rewrite IH. Qed.

Lemma grant_step_calls root mode values ks :
  step_calls root (GrantStep mode <$> values) = Ok ks ↔
  Forall (may_grant root) values ∧ ks = grant_calls root mode values.
Proof.
  revert ks. induction values as [|v values IH]; intros ks; simpl.
  { split; [intros [= <-]; split; [by constructor|done]|by intros [_ ->]]. }
  rewrite Forall_cons.
  assert (may_grant root v ↔ ∃ o, step_effect root (GrantStep mode v) = Ok o) as ->.
  { unfold may_grant. simpl. destruct (resolve v root) as [resolved rel]. simpl.
    destruct (exists_path resolved); simpl; [|by split; [eauto|]].
    destruct rel; simpl; [|by split; [eauto|]].
    destruct (escape_check v resolved root) as [[]|]; split; [by eauto|done|intros H; by specialize (H eq_refl eq_refl)|by intros [? ?]]. }
  simpl. destruct (resolve v root) as [resolved rel]. simpl.
  assert (∀ o, (λ ks, option_list o ++ ks) <$> step_calls root (GrantStep mode <$> values) = Ok ks ↔
    Forall (may_grant root) values ∧ ks = option_list o ++ grant_calls root mode values) as Ho.
  { intros o. destruct (step_calls root _) as [ks'|e]; simpl.
    - destruct (proj1 (IH ks') eq_refl) as [Hf ->]. split; [by intros [= <-]|by intros [_ ->]].
    - split; [done|]. intros [Hf _]. pose proof (proj2 (IH _) (conj Hf eq_refl)) as Hd. discriminate Hd. }
  destruct (negb (exists_path resolved)) eqn:Ex.
  - apply negb_true_iff in Ex. rewrite Ex. etrans; [apply (Ho None)|]. naive_solver.
  - apply negb_false_iff in Ex. rewrite Ex. destruct (if rel then _ else _) as [[]|e].
    + etrans; [apply (Ho (Some _))|]. naive_solver.
    + split; [done|]. by intros [[[? ?] _] _].
Qed.

Lemma plan_step_calls root plan ks :
  step_calls root (plan_steps plan) = Ok ks ↔
  (∀ v, v ∈ plan_allow plan ++ plan_read plan → may_grant root v) ∧ ks = plan_calls root plan.
Proof.
  unfold plan_steps, plan_calls. rewrite <- Forall_forall, Forall_app. set (tail := [network_call plan] ++ _).
  replace ([CallStep (network_call plan)] ++ _) with (CallStep <$> tail)
    by (unfold tail; by rewrite !fmap_app, <- !list_fmap_compose).
  rewrite step_calls_app. setoid_rewrite step_calls_app. setoid_rewrite grant_step_calls.
  setoid_rewrite step_calls_calls. split.
  - intros (? & ? & [? ->] & (? & ? & [? ->] & [= <-] & ->) & ->). done.
  - intros [[H1 H2] ->]. eexists _, _. split; [done|]. split; [|done]. eexists _, _. split; [done|]. done.
Qed.

(** The first pair of a denied and a granted value that overlap. *)
Definition first_overlap (plan : CapabilityPlan) (d g : str) : Prop :=
  ∃ ds1 ds2 gs1 gs2, plan_deny plan = ds1 ++ d :: ds2 ∧ plan_allow plan ++ plan_read plan = gs1 ++ g :: gs2 ∧
    is_within d g = true ∧ (∀ g', g' ∈ gs1 → is_within d g' = false) ∧
    ∀ d' g', d' ∈ ds1 → g' ∈ plan_allow plan ++ plan_read plan → is_within d' g' = false.

Lemma overlap_checked d g : (if is_within d g then Err (DenyOverlapsAllow d g) else Ok tt) = Ok tt ↔ is_within d g = false.
Proof. by destruct (is_within d g). Qed.

Lemma check_overlaps_ok plan :
  check_no_deny_overlaps_allow plan = Ok tt ↔
  ∀ d g, d ∈ plan_deny plan → g ∈ plan_allow plan ++ plan_read plan → is_within d g = false.
Proof.
  unfold check_no_deny_overlaps_allow. rewrite try_for_each_ok. setoid_rewrite try_for_each_ok.
  setoid_rewrite overlap_checked.
  split; [intros H d g Hd Hg; by apply (H d Hd)|intros H d Hd g Hg; by apply H].
Qed.

Lemma check_overlaps_err plan e :
  check_no_deny_overlaps_allow plan = Err e ↔ ∃ d g, first_overlap plan d g ∧ e = DenyOverlapsAllow d g.
Proof.
  unfold check_no_deny_overlaps_allow, first_overlap. rewrite try_for_each_err.
  setoid_rewrite try_for_each_err. setoid_rewrite try_for_each_ok. setoid_rewrite overlap_checked. split.
  - intros (l1 & d & l2 & Hd & (m1 & g & m2 & Hg & He & Hm) & Hl).
    destruct (is_within d g) eqn:Ew; [|done]. injection He as <-. exists d, g. split; [|done].
    exists l1, l2, m1, m2. repeat split; [done..|]. intros d' g' Hd' Hg'. by apply (Hl d' Hd').
  - intros (d & g & (ds1 & ds2 & gs1 & gs2 & Hd & Hg & Hw & Hg1 & Hd1) & ->).
    exists ds1, d, ds2. split; [done|]. split; [|intros d' Hd' g' Hg'; by apply (Hd1 d' g')].
    exists gs1, g, gs2. by rewrite Hw.
Qed.

Lemma steps_stop {caps} `{CapBuilder caps} root (c : caps) l e :
  try_fold (do_step root) c l = Err e ↔
  ∃ l1 s l2 ks c', l = l1 ++ s :: l2 ∧ step_calls root l1 = Ok ks ∧ replay c ks = Ok c' ∧
    (step_effect root s = Err e ∨
     ∃ k message, step_effect root s = Ok (Some k) ∧ cap_apply c' k = Err message ∧ e = Backend message).
Proof.
  split.
  - intros (l1 & s & l2 & c' & -> & Hl1 & Hs)%try_fold_stops. apply steps_replay in Hl1 as (ks & Hks & Hr).
    exists l1, s, l2, ks, c'. do 3 (split; [done|]). rewrite do_step_effect in Hs.
    destruct (step_effect root s) as [[k|]|e']; [right; exists k|done|left; congruence].
    unfold call in Hs. destruct (cap_apply c' k) as [c1|m]; [done|]. exists m. simpl in Hs. naive_solver.
  - intros (l1 & s & l2 & ks & c' & -> & Hks & Hr & Hs). apply try_fold_stops.
    exists l1, s, l2, c'. split; [done|]. split; [apply steps_replay; eauto|]. rewrite do_step_effect.
    destruct Hs as [->|(k & m & -> & Hk & ->)]; [done|]. unfold call. by rewrite Hk.
Qed.

(** C2: building a capability set succeeds exactly when no deny lies in a
    grant and no project-relative grant leaves the project; the set is then
    what the builder makes of the read-write grants, the read grants, the
    network mode, the loopback ports, the sockets and the signal mode, in
    this order, the grants that do not exist on the host left out.  It fails
    with the first overlap, else with the error of the first step that has
    one, every step before it done. *)
Theorem to_capability_set_refines {caps} `{CapBuilder caps} plan root :
  plan_signal_mode plan = SIGNAL_MODE →
  (∀ c : caps, to_capability_set plan root = Ok c ↔
     (∀ d g, d ∈ plan_deny plan → g ∈ plan_allow plan ++ plan_read plan → is_within d g = false) ∧
     (∀ v, v ∈ plan_allow plan ++ plan_read plan → may_grant root v) ∧
     replay cap_new
       (grant_calls root ModeReadWrite (plan_allow plan) ++ grant_calls root ModeRead (plan_read plan)
        ++ [network_call plan] ++ (AllowLocalhostPort <$> plan_ports plan)
        ++ (AllowUnixSocket <$> plan_sockets plan) ++ [SetSignalIsolated]) = Ok c) ∧
  ∀ e, to_capability_set (caps := caps) plan root = Err e ↔
    (∃ d g, first_overlap plan d g ∧ e = DenyOverlapsAllow d g) ∨
    (∀ d g, d ∈ plan_deny plan → g ∈ plan_allow plan ++ plan_read plan → is_within d g = false) ∧
    ∃ l1 s l2 ks c, plan_steps plan = l1 ++ s :: l2 ∧ step_calls root l1 = Ok ks ∧ replay (caps := caps) cap_new ks = Ok c ∧
      (step_effect root s = Err e ∨
       ∃ k message, step_effect root s = Ok (Some k) ∧ cap_apply c k = Err message ∧ e = Backend message).
Proof.
  intros Hs. split.
  - intros c. rewrite to_capability_set_inv, check_overlaps_ok. setoid_rewrite plan_step_calls.
    fold (plan_calls root plan). naive_solver.
  - intros e. rewrite to_capability_set_steps by done. rewrite <- check_overlaps_err, <- check_overlaps_ok, <- steps_stop.
    destruct (check_no_deny_overlaps_allow plan) as [[]|e']; naive_solver.
Qed.

(** ** What the accepted plans grant *)

Lemma step_calls_elem root l ks k :
  step_calls root l = Ok ks → k ∈ ks ↔ ∃ s, s ∈ l ∧ step_effect root s = Ok (Some k).
Proof.
  revert ks. induction l as [|s l IH]; simpl; intros ks.
  - intros [= <-]. split; [by intros ?%not_elem_of_nil|]. by intros (s & ?%not_elem_of_nil & _).
  - destruct (step_effect root s) as [o|e] eqn:E; simpl; [|done].
    destruct (step_calls root l) as [ks'|]; simpl; [|done]. intros [= <-].
    rewrite elem_of_app, (IH ks' eq_refl). split.
    + intros [Ho|(s' & Hs & He)].
      * destruct o as [k'|]; simpl in Ho; [|by apply not_elem_of_nil in Ho].
        apply list_elem_of_singleton in Ho as ->. exists s. split; [by left|done].
      * exists s'. split; [by right|done].
    + intros (s' & [->|Hs]%elem_of_cons & He); [left|right; by exists s'].
      rewrite E in He. injection He as ->. by left.
Qed.

(** A path call comes from a grant of the plan of that mode. *)
Definition path_call (k : cap_call) : option (str * AccessMode) :=
  match k with AllowPath p m => Some (p, m) | AllowFile p m => Some (p, m) | _ => None end.

Definition plan_values (plan : CapabilityPlan) (mode : AccessMode) : list str :=
  match mode with ModeReadWrite => plan_allow plan | ModeRead => plan_read plan end.

Lemma grant_effect root mode v k p m :
  step_effect root (GrantStep mode v) = Ok (Some k) → path_call k = Some (p, m) →
  m = mode ∧ p = (resolve v root).1 ∧ exists_path p = true ∧
  ((resolve v root).2 = true → escape_check v p root = Ok tt).
Proof.
  simpl. destruct (resolve v root) as [resolved rel]. simpl.
  destruct (exists_path resolved) eqn:E; simpl; [|done].
  destruct (if rel then escape_check v resolved root else Ok tt) as [[]|] eqn:Ec; [|done].
  intros [= <-] Hk. assert (m = mode ∧ p = resolved) as [-> ->].
  { destruct (is_dir resolved); by injection Hk as -> ->. }
  repeat split; [done|]. by intros ->.
Qed.

Lemma plan_steps_path root plan s k p m :
  s ∈ plan_steps plan → step_effect root s = Ok (Some k) → path_call k = Some (p, m) →
  ∃ v, s = GrantStep m v ∧ v ∈ plan_values plan m.
Proof.
  unfold plan_steps. rewrite !elem_of_app, !list_elem_of_fmap, !list_elem_of_singleton.
  intros Hs He Hk. destruct_or! Hs.
  - destruct Hs as (v & -> & Hv). destruct (grant_effect _ _ _ _ _ _ He Hk) as (-> & _). by exists v.
  - destruct Hs as (v & -> & Hv). destruct (grant_effect _ _ _ _ _ _ He Hk) as (-> & _). by exists v.
  - subst s. simpl in He. injection He as <-. unfold network_call in Hk. by repeat case_match.
  - destruct Hs as (v & -> & _). simpl in He. by injection He as <-.
  - destruct Hs as (v & -> & _). simpl in He. by injection He as <-.
  - subst s. simpl in He. by injection He as <-.
Qed.

Lemma escape_check_ok value p root :
  escape_check value p root = Ok tt →
  ∃ target croot, canonicalize p = Ok target ∧ canonicalize root = Ok croot ∧
    path_starts_with target croot = true.
Proof.
  unfold escape_check. destruct (canonicalize p) as [t|]; [|done].
  destruct (canonicalize root) as [r|]; [|done]. destruct (path_starts_with t r) eqn:E; [|done].
  intros _. by exists t, r.
Qed.

Lemma recorded_calls plan root (ks : list cap_call) :
  to_capability_set plan root = Ok ks → step_calls root (plan_steps plan) = Ok ks.
Proof.
  rewrite to_capability_set_inv. setoid_rewrite recorder_replay. simpl.
  intros (_ & _ & ks' & H & [= ->]). done.
Qed.

Lemma path_call_grant plan root (ks : list cap_call) k p m :
  to_capability_set plan root = Ok ks → k ∈ ks → path_call k = Some (p, m) →
  ∃ v, v ∈ plan_values plan m ∧ p = (resolve v root).1 ∧ exists_path p = true ∧
    ((resolve v root).2 = true → escape_check v p root = Ok tt).
Proof.
  intros Hok Hk Hp. apply recorded_calls in Hok. rewrite (step_calls_elem _ _ _ _ Hok) in Hk.
  destruct Hk as (s & Hs & He).
  destruct (plan_steps_path _ _ _ _ _ _ Hs He Hp) as (v & -> & Hv). exists v.
  by destruct (grant_effect _ _ _ _ _ _ He Hp) as (_ & Heq & Hex & Hesc).
Qed.

(** C1: every path the backend is asked to allow as a directory or a file
    (the sockets aside, which need not exist) is a value of the plan,
    granted with that value's mode, exists on the host, and — when it is
    project-relative — lies inside the project once symlinks are followed. *)
Theorem path_grants_sound plan root (ks : list cap_call) k p m :
  to_capability_set plan root = Ok ks → k ∈ ks → path_call k = Some (p, m) →
  ∃ v, v ∈ plan_values plan m ∧ p = (resolve v root).1 ∧ exists_path p = true ∧
    ((resolve v root).2 = true →
     ∃ target croot, canonicalize p = Ok target ∧ canonicalize root = Ok croot ∧
       path_starts_with target croot = true).
Proof.
  intros Hok Hk Hp. destruct (path_call_grant _ _ _ _ _ _ Hok Hk Hp) as (v & Hv & Heq & Hex & Hesc). exists v.
  repeat split; auto. intros Hrel. by eapply escape_check_ok, Hesc.
Qed.

(** The network side of a set that was built: exactly one network mode,
    the proxy's port if there is one, else blocked if the policy blocks,
    else open; and the loopback ports allowed are exactly the declared. *)
Theorem network_grants_exact plan root (ks : list cap_call) :
  to_capability_set plan root = Ok ks →
  (∀ k, k ∈ ks → (∃ port, k = ProxyOnly port) ∨ k = BlockNetwork ∨ k = NetworkAllowAll →
     k = network_call plan) ∧
  network_call plan ∈ ks ∧
  (∀ port, AllowLocalhostPort port ∈ ks ↔ port ∈ plan_ports plan).
Proof.
  intros Hok%recorded_calls.
  assert (∀ root mode v k, step_effect root (GrantStep mode v) = Ok (Some k) →
            ∃ p, path_call k = Some (p, mode)) as Hg.
  { intros r mode v k. simpl. destruct (resolve v r) as [q rel]. destruct (negb _); [done|].
    destruct (if rel then _ else _); [|done]. intros [= <-]. by destruct (is_dir q); eexists. }
  repeat setoid_rewrite (step_calls_elem _ _ _ _ Hok).
  unfold plan_steps. repeat setoid_rewrite elem_of_app. repeat setoid_rewrite list_elem_of_fmap.
  repeat setoid_rewrite list_elem_of_singleton. split; [|split].
  - intros k (s & Hs & He) Hk. destruct_or! Hs.
    + destruct Hs as (v & -> & _). apply Hg in He as [p ?]. destruct_or! Hk; naive_solver.
    + destruct Hs as (v & -> & _). apply Hg in He as [p ?]. destruct_or! Hk; naive_solver.
    + subst s. simpl in He. congruence.
    + destruct Hs as (v & -> & _). simpl in He. naive_solver.
    + destruct Hs as (v & -> & _). simpl in He. naive_solver.
    + subst s. simpl in He. naive_solver.
  - exists (CallStep (network_call plan)). naive_solver.
  - intros port. split.
    + intros (s & Hs & He). destruct_or! Hs.
      * destruct Hs as (v & -> & _). by apply Hg in He as [p ?].
      * destruct Hs as (v & -> & _). by apply Hg in He as [p ?].
      * subst s. simpl in He. unfold network_call in He. repeat case_match; simplify_eq.
      * destruct Hs as (v & -> & Hv). simpl in He. by simplify_eq.
      * destruct Hs as (v & -> & _). simpl in He. by simplify_eq.
      * subst s. simpl in He. by simplify_eq.
    + intros Hport. exists (CallStep (AllowLocalhostPort port)). naive_solver.
Qed.

Lemma overlap_find d l :
  try_for_each (λ allow, if is_within d allow then Err (DenyOverlapsAllow d allow) else Ok tt) l =
  match find (is_within d) l with Some g => Err (DenyOverlapsAllow d g) | None => Ok tt end.
Proof. induction l as [|x l IH]; simpl; [done|]. by destruct (is_within d x). Qed.

Lemma apply_folds_read folds os m v :
  v ∈ fs_read (m_filesystem m) → v ∈ av_value <$> filesystem_read (foldl apply_fold (compile os m) folds).
Proof.
  intros Hv.
  assert (v ∈ av_value <$> filesystem_read (compile os m)) as H.
  { unfold compile. cbn [filesystem_read]. rewrite fmap_app, elem_of_app. left.
    unfold annotate. by rewrite <- list_fmap_compose, list_fmap_id. }
  revert H. generalize (compile os m). induction folds as [|f folds IH]; intros c H; simpl; [done|].
  apply IH. destruct f; simpl; try done; rewrite fmap_app, elem_of_app; by left.
Qed.

Lemma step_calls_ok root l ks s :
  step_calls root l = Ok ks → s ∈ l → ∃ o, step_effect root s = Ok o.
Proof.
  revert ks. induction l as [|s' l IH]; intros ks; simpl; [by intros _ ?%not_elem_of_nil|].
  destruct (step_effect root s') as [o|] eqn:E; [|done].
  destruct (step_calls root l) as [ks'|]; [|done]. intros _ [->|Hs]%elem_of_cons; eauto.
Qed.

(** C5: a manifest that passes validation and has a [filesystem.deny] entry
    can never be enforced: validation demands that each deny lie inside a
    grant, and the capability set refuses exactly that. *)
Theorem valid_deny_never_enforceable {caps} `{CapBuilder caps} os m folds root :
  check_filesystem (m_filesystem m) = Ok tt → fs_deny (m_filesystem m) ≠ [] →
  ∃ d g, d ∈ fs_deny (m_filesystem m) ∧
    to_capability_set (to_capability_plan (foldl apply_fold (compile os m) folds)) root
    = Err (DenyOverlapsAllow d g).
Proof.
  intros Hfs Hne. apply check_filesystem_ok in Hfs as [_ Hfs].
  destruct (fs_deny (m_filesystem m)) as [|d ds] eqn:Hd; [done|].
  destruct (Hfs d) as (g & Hg & Hw); [by left|].
  set (plan := to_capability_plan _).
  assert (∃ ds', plan_deny plan = d :: ds') as [ds' Hds].
  { unfold plan, to_capability_plan. cbn [plan_deny]. rewrite apply_folds_deny.
    unfold compile. cbn [filesystem_deny]. rewrite Hd. by eexists. }
  assert (g ∈ plan_allow plan ++ plan_read plan) as Hin.
  { unfold plan, to_capability_plan. cbn [plan_allow plan_read]. rewrite apply_folds_allow.
    rewrite !elem_of_app in Hg |- *. destruct Hg as [Hg|Hg]; [left|right].
    - unfold compile. cbn [filesystem_allow]. rewrite fmap_app, elem_of_app. left.
      unfold annotate. by rewrite <- list_fmap_compose, list_fmap_id.
    - by apply (apply_folds_read folds). }
  unfold to_capability_set, check_no_deny_overlaps_allow. rewrite Hds. simpl.
  rewrite overlap_find. destruct (find (is_within d) _) as [g'|] eqn:E.
  - exists d, g'. split; [by left|done].
  - rewrite find_none in E. rewrite (E g Hin) in Hw. done.
Qed.

(** Every value of the plan that exists on the host is granted, with its
    mode: a set that was built leaves no declared grant out. *)
Lemma grants_complete plan root (ks : list cap_call) mode v :
  to_capability_set plan root = Ok ks → v ∈ plan_values plan mode →
  exists_path (resolve v root).1 = true →
  ∃ k, k ∈ ks ∧ path_call k = Some ((resolve v root).1, mode).
Proof.
  intros Hok%recorded_calls Hv Hex.
  assert (GrantStep mode v ∈ plan_steps plan) as Hs.
  { unfold plan_steps. rewrite !elem_of_app, !list_elem_of_fmap. destruct mode; naive_solver. }
  destruct (step_calls_ok _ _ _ _ Hok Hs) as [o Ho]. pose proof Ho as Ho'.
  simpl in Ho. destruct (resolve v root) as [resolved rel]; simpl in *. rewrite Hex in Ho. simpl in Ho.
  destruct (if rel then _ else _); [|done]. injection Ho as <-.
  exists (if is_dir resolved then AllowPath resolved mode else AllowFile resolved mode). split.
  - rewrite (step_calls_elem _ _ _ _ Hok). eauto.
  - by destruct (is_dir resolved).
Qed.

(** The operations a grant of a mode serves. *)
Definition serves (mode : AccessMode) (op : Op) : bool :=
  match mode, op with ModeReadWrite, _ => true | ModeRead, Read => true | ModeRead, _ => false end.

Lemma covered_values rules path : covered rules path ↔ ∃ v, v ∈ av_value <$> rules ∧ is_within path v = true.
Proof.
  unfold covered. split; [intros (r & Hr & Hw); exists (av_value r); split; [by apply list_elem_of_fmap_2|done]|].
  intros (v & (r & -> & Hr)%list_elem_of_fmap & Hw). eauto.
Qed.

Lemma why_grants c path op :
  allowed (why_path c path op) = true ↔
  ¬ covered (filesystem_deny c) path ∧
  ∃ mode v, serves mode op = true ∧ v ∈ plan_values (to_capability_plan c) mode ∧ is_within path v = true.
Proof.
  rewrite why_path_spec, !(covered_values (filesystem_allow c)), !(covered_values (filesystem_read c)).
  apply and_iff_compat_l. split.
  - intros [(v & Hv & Hw)|[-> (v & Hv & Hw)]]; [by exists ModeReadWrite, v|by exists ModeRead, v].
  - intros ([|] & v & Hm & Hv & Hw); [right|left; eauto]. destruct op; try done. eauto.
Qed.

(** C4: [why] against the set the backend is given.  Once the set is built,
    an operation [why] allows on a path is covered by a grant of a mode that
    serves it, and the backend holds that grant's call if the granted path
    exists on the host.  Conversely each path call comes from a grant, and
    [why] allows what its mode serves anywhere within it, unless the grant
    itself lies in a denied directory. *)
Theorem why_agrees_with_grants c root (ks : list cap_call) :
  to_capability_set (to_capability_plan c) root = Ok ks →
  (∀ path op, allowed (why_path c path op) = true →
     ∃ mode v, serves mode op = true ∧ v ∈ plan_values (to_capability_plan c) mode ∧ is_within path v = true ∧
       (exists_path (resolve v root).1 = true →
        ∃ k, k ∈ ks ∧ path_call k = Some ((resolve v root).1, mode))) ∧
  ∀ k p mode, k ∈ ks → path_call k = Some (p, mode) →
    ∃ v, v ∈ plan_values (to_capability_plan c) mode ∧ p = (resolve v root).1 ∧
      ((∀ d, d ∈ filesystem_deny c → is_within v (av_value d) = false) →
       ∀ path op, serves mode op = true → is_within path v = true → allowed (why_path c path op) = true).
Proof.
  intros Hok. split.
  - intros path op (_ & mode & v & Hm & Hv & Hw)%why_grants. exists mode, v. do 3 (split; [done|]).
    by apply (grants_complete _ _ _ _ _ Hok).
  - intros k p mode Hk Hp.
    destruct (path_call_grant _ _ _ _ _ _ Hok Hk Hp) as (v & Hv & -> & _ & _). exists v. do 2 (split; [done|]).
    intros Hnest path op Hm Hw. apply why_grants. split; [|by exists mode, v].
    apply to_capability_set_inv in Hok as (_ & Hov & _). rewrite check_overlaps_ok in Hov.
    intros (d & Hd & Hwd). destruct (is_within_comparable _ _ _ Hwd Hw) as [H|H]; [|by rewrite Hnest in H].
    rewrite (Hov (av_value d) v) in H; [done|by apply list_elem_of_fmap_2|].
    rewrite elem_of_app. destruct mode; auto.
Qed.
End to_capability_set.

(** The set depends on the file system only through what the queries answer. *)
Lemma to_capability_set_ext {caps : Type} `{CapBuilder caps} home ex ex' dir dir' can can' plan root :
  (∀ p, ex p = ex' p) → (∀ p, dir p = dir' p) → (∀ p, can p = can' p) →
  to_capability_set (caps := caps) home ex dir can plan root = to_capability_set home ex' dir' can' plan root.
Proof.
  intros He Hd Hc.
  assert (∀ mode c value, grant home ex dir can mode root c value = grant (caps := caps) home ex' dir' can' mode root c value) as Hg.
  { intros mode c value. unfold grant, escape_check. destruct (resolve home value root) as [p rel]. by rewrite He, Hd, !Hc. }
  assert (∀ mode l c, try_fold (grant home ex dir can mode root) c l = try_fold (grant (caps := caps) home ex' dir' can' mode root) c l) as Hf.
  { intros mode l. induction l as [|v l IH]; intros c; [done|]. cbn [try_fold]. rewrite Hg. destruct (grant _ _ _ _ _ _ _ _); [apply IH|done]. }
  unfold to_capability_set. destruct (check_no_deny_overlaps_allow plan); [|done]. cbn [mbind result_bind].
  rewrite Hf. destruct (try_fold _ _ _); [|done]. cbn [mbind result_bind]. by rewrite Hf.
Qed.

(** ** Witnesses and the gap the agreement theorem excludes *)

(** A host where every path exists and is a directory and nothing is a symlink. *)
Definition plain_build (plan : CapabilityPlan) : result CapabilitySetError (list cap_call) :=
  to_capability_set "/home/u" (λ _, true) (λ _, true) Ok plan "/home/u/p".

Definition deny_manifest : Manifest :=
  {| m_sandbox := {| sandbox_name := "myproj" |}; m_env := Env_default;
     m_filesystem := {| fs_allow := strs ["."]; fs_read := []; fs_deny := strs ["secrets"] |};
     m_network := Network_default; m_ssh := Ssh_default; m_hooks := Hooks_default |}.

Definition plain_plan (allow : list str) : CapabilityPlan :=
  to_capability_plan (compile Linux (sample_manifest allow [])).

(** Devcroft's data directory is not out of reach: a manifest that passes
    validation and grants a directory inside it gets a real read-write grant
    there, although [why] reports every operation on that path denied. *)
Theorem data_dir_grant_bypass :
  ∃ ks, check_filesystem (m_filesystem (sample_manifest (strs ["."; "~/.local/share/devcroft/other"]) [])) = Ok tt ∧
    plain_build (plain_plan (strs ["."; "~/.local/share/devcroft/other"])) = Ok ks ∧
    AllowPath "/home/u/.local/share/devcroft/other" ModeReadWrite ∈ ks ∧
    ∀ op, allowed (why_path (compile Linux (sample_manifest (strs ["."; "~/.local/share/devcroft/other"]) []))
                     "~/.local/share/devcroft/other" op) = false.
Proof.
  destruct (plain_build (plain_plan (strs ["."; "~/.local/share/devcroft/other"]))) as [ks|] eqn:E;
    [|vm_compute in E; discriminate E].
  exists ks. split; [vm_compute; reflexivity|]. split; [done|]. split.
  - vm_compute in E. injection E as <-. right. by left.
  - intros []; vm_compute; reflexivity.
Qed.

Lemma to_capability_set_refines_witness :
  plain_build (plain_plan (strs ["."])) =
    Ok (plan_calls "/home/u" (λ _, true) (λ _, true) "/home/u/p" (plain_plan (strs ["."]))) ∧
  plain_build (to_capability_plan (compile Linux deny_manifest)) = Err (DenyOverlapsAllow "secrets" ".").
Proof.
  split.
  - destruct (plain_build (plain_plan (strs ["."]))) as [ks|] eqn:E; [|vm_compute in E; discriminate E]. unfold plain_build in E.
    destruct (to_capability_set_refines (caps := list cap_call) "/home/u" (λ _, true) (λ _, true) Ok
                (plain_plan (strs ["."])) "/home/u/p") as [H _]; [vm_compute; reflexivity|].
    apply H in E as (_ & _ & Hr). rewrite recorder_replay in Hr. by injection Hr as <-.
  - apply (to_capability_set_refines "/home/u" (λ _, true) (λ _, true) Ok (caps := list cap_call)); [vm_compute; reflexivity|]. left.
    exists "secrets", ".". split; [|reflexivity].
    exists [], (tail (plan_deny (to_capability_plan (compile Linux deny_manifest)))), [],
      (tail (plan_allow (to_capability_plan (compile Linux deny_manifest)) ++ plan_read (to_capability_plan (compile Linux deny_manifest)))).
    split; [vm_compute; reflexivity|]. split; [vm_compute; reflexivity|]. split; [vm_compute; reflexivity|].
    split; [intros g'; by intros ?%not_elem_of_nil|intros d' g'; by intros ?%not_elem_of_nil].
Defined.

Lemma path_grants_sound_witness :
  ∃ ks, plain_build (plain_plan (strs ["."])) = Ok ks ∧
    ∃ v, v ∈ plan_values (plain_plan (strs ["."])) ModeReadWrite ∧ ("/home/u/p/." : str) = (resolve "/home/u" v "/home/u/p").1.
Proof.
  destruct (plain_build (plain_plan (strs ["."]))) as [ks|] eqn:E; [|vm_compute in E; discriminate E]. pose proof E as E'; unfold plain_build in E.
  exists ks. split; [reflexivity|].
  destruct (path_grants_sound _ _ _ _ _ _ _ (AllowPath "/home/u/p/." ModeReadWrite) "/home/u/p/." ModeReadWrite E)
    as (v & Hv & Hr & _); [|reflexivity|by exists v].
  vm_compute in E'. injection E' as <-. by left.
Defined.

Lemma network_grants_exact_witness :
  ∃ ks, plain_build (plain_plan (strs ["."])) = Ok ks ∧ BlockNetwork ∈ ks ∧ AllowLocalhostPort 5432 ∈ ks.
Proof.
  destruct (plain_build (plain_plan (strs ["."]))) as [ks|] eqn:E; [|vm_compute in E; discriminate E]. pose proof E as E'; unfold plain_build in E.
  exists ks. split; [reflexivity|].
  destruct (network_grants_exact _ _ _ _ _ _ _ E) as (_ & Hm & Hp). split; [exact Hm|].
  apply Hp. by left.
Defined.

Lemma valid_deny_never_enforceable_witness :
  check_filesystem (m_filesystem deny_manifest) = Ok tt ∧
  ∃ d g, d ∈ strs ["secrets"] ∧
    plain_build (to_capability_plan (foldl apply_fold (compile Linux deny_manifest) []))
    = Err (DenyOverlapsAllow d g).
Proof.
  assert (check_filesystem (m_filesystem deny_manifest) = Ok tt) as H by (vm_compute; reflexivity).
  split; [exact H|].
  exact (valid_deny_never_enforceable "/home/u" (λ _, true) (λ _, true) Ok Linux deny_manifest [] "/home/u/p" H
           ltac:(discriminate)).
Defined.

Lemma why_agrees_with_grants_witness :
  ∃ ks, plain_build (plain_plan (strs ["."])) = Ok ks ∧
    (∃ k, k ∈ ks ∧ path_call k = Some ("/home/u/p/." : str, ModeReadWrite)) ∧
    allowed (why_path (compile Linux (sample_manifest (strs ["."]) [])) "src/main.rs" Write) = true.
Proof.
  destruct (plain_build (plain_plan (strs ["."]))) as [ks|] eqn:E; [|vm_compute in E; discriminate E]. pose proof E as E'; unfold plain_build in E.
  exists ks. split; [reflexivity|].
  assert (AllowPath "/home/u/p/." ModeReadWrite ∈ ks) as Hk by (vm_compute in E'; injection E' as <-; by left).
  split; [by exists (AllowPath "/home/u/p/." ModeReadWrite)|].
  assert (allowed (why_path (compile Linux (sample_manifest (strs ["."]) [])) "src/main.rs" Write) = true) as Hw by (vm_compute; reflexivity).
  destruct (why_agrees_with_grants _ _ _ _ _ _ _ E) as [H _]. destruct (H _ _ Hw) as (mode & v & _ & _ & _ & _). exact Hw.
Defined.
