(* ===== verification/Protocol.v ===== *)
(** * The keeper's wire protocol ([src/keeper/protocol.rs])

    Frames are [1-byte tag][4-byte big-endian length][payload].  Structured
    payloads are JSON; [serde_json] is the [Json] interface with its one
    documented law, that parsing what was printed gives the value back.  A
    reader is the bytes still to come and a writer is the bytes written. *)

From stdpp Require Import countable.
From S2P Require Import Prelude.

#[local] Set Default Proof Using "Type".

(** ** Data *)

Record PtySize := { rows : N; cols : N }.

Record SpawnRequest := {
  cmd : str;
  args : list str;
  cwd : str;
  req_env : gmap str str;
  pty : option PtySize;
}.

Inductive SessionSignal := Int | Term | Hup.

(** [SessionSignal::as_libc]. *)
Definition as_libc (s : SessionSignal) : Z := match s with Int => 2 | Term => 15 | Hup => 1 end%Z.

Record ExitStatus := { exit_code : option Z; exit_signal : option Z }.

Record SessionSummary := { sum_id : N; sum_command : str; started_unix : N }.
Record QueryResult := { uptime_secs : N; sessions : list SessionSummary }.

Inductive Frame :=
| FSpawn (req : SpawnRequest)
| FSpawnOk (session_id : N)
| FSpawnErr (message : str)
| FStdin (bytes : str)
| FStdinClosed
| FStdout (bytes : str)
| FStderr (bytes : str)
| FResize (size : PtySize)
| FSignal (sig : SessionSignal)
| FExit (status : ExitStatus)
| FQuery
| FQueryResult (r : QueryResult).

Record SpawnOkPayload := { ok_session_id : N }.
Record SpawnErrPayload := { err_message : str }.

Definition MAX_FRAME_LEN : N := 16777216.

Definition TAG_SPAWN : ascii := "001".
Definition TAG_SPAWN_OK : ascii := "002".
Definition TAG_SPAWN_ERR : ascii := "003".
Definition TAG_STDIN : ascii := "004".
Definition TAG_STDIN_CLOSED : ascii := "005".
Definition TAG_STDOUT : ascii := "006".
Definition TAG_STDERR : ascii := "007".
Definition TAG_RESIZE : ascii := "008".
Definition TAG_SIGNAL : ascii := "009".
Definition TAG_EXIT : ascii := "010".
Definition TAG_QUERY : ascii := "011".
Definition TAG_QUERY_RESULT : ascii := "012".

(** The kinds of [io::Error] the codec produces. *)
Inductive io_error :=
| UnexpectedEof
| InvalidData (msg : str).

(** ** [serde_json] *)
Class Json (T : Type) := {
  to_vec : T → result str str;
  from_slice : str → result str T;
}.

Class JsonLaw (T : Type) `{Json T} := from_to_vec (x : T) b : to_vec x = Ok b → from_slice b = Ok x.

(** ** Byte-level input and output *)

(** [read_exact]. *)
Definition read_exact (n : nat) (s : str) : result io_error (str * str) :=
  if n <=? length s then Ok (take n s, drop n s) else Err UnexpectedEof.

(** [u32::to_be_bytes] / [u32::from_be_bytes]. *)
Definition to_be_bytes (n : N) : str :=
  [ascii_of_N (n / 16777216 mod 256); ascii_of_N (n / 65536 mod 256);
   ascii_of_N (n / 256 mod 256); ascii_of_N (n mod 256)].
Definition from_be_bytes (s : str) : N := foldl (λ acc c, acc * 256 + byte c)%N 0%N s.

Definition len (s : str) : N := N.of_nat (length s).

Definition too_long (n : N) : io_error :=
  InvalidData ("frame of " ++ show_N n ++ " bytes exceeds max " ++ show_N MAX_FRAME_LEN).

Section codec.
Context `{Json SpawnRequest, Json SpawnOkPayload, Json SpawnErrPayload, Json PtySize,
          Json SessionSignal, Json ExitStatus, Json QueryResult}.

Definition from_json {T} `{Json T} (payload : str) : result io_error T :=
  map_err InvalidData (from_slice payload).

Definition decode_payload (tag : ascii) (payload : str) : result io_error Frame :=
  if decide (tag = TAG_SPAWN) then FSpawn <$> from_json payload
  else if decide (tag = TAG_SPAWN_OK) then (λ p, FSpawnOk (ok_session_id p)) <$> from_json payload
  else if decide (tag = TAG_SPAWN_ERR) then (λ p, FSpawnErr (err_message p)) <$> from_json payload
  else if decide (tag = TAG_STDIN) then Ok (FStdin payload)
  else if decide (tag = TAG_STDIN_CLOSED) then Ok FStdinClosed
  else if decide (tag = TAG_STDOUT) then Ok (FStdout payload)
  else if decide (tag = TAG_STDERR) then Ok (FStderr payload)
  else if decide (tag = TAG_RESIZE) then FResize <$> from_json payload
  else if decide (tag = TAG_SIGNAL) then FSignal <$> from_json payload
  else if decide (tag = TAG_EXIT) then FExit <$> from_json payload
  else if decide (tag = TAG_QUERY) then Ok FQuery
  else if decide (tag = TAG_QUERY_RESULT) then FQueryResult <$> from_json payload
  else Err (InvalidData ("unknown frame tag " ++ show_N (byte tag))).

(** [read_frame]: the frame and the bytes left in the reader. *)
Definition read_frame (s : str) : result io_error (Frame * str) :=
  '(tag_buf, s) ← read_exact 1 s;
  '(len_buf, s) ← read_exact 4 s;
  let n := from_be_bytes len_buf in
  if (MAX_FRAME_LEN <? n)%N then Err (too_long n)
  else
    '(payload, s) ← read_exact (N.to_nat n) s;
    (λ f, (f, s)) <$> decode_payload (default NUL (head tag_buf)) payload.

(** [write_raw]: the bytes handed to the writer. *)
Definition write_raw (tag : ascii) (payload : str) : result io_error str :=
  if (MAX_FRAME_LEN <? len payload)%N then Err (too_long (len payload))
  else Ok ([tag] ++ to_be_bytes (len payload) ++ payload).

Definition write_json {T} `{Json T} (tag : ascii) (value : T) : result io_error str :=
  payload ← map_err InvalidData (to_vec value);
  write_raw tag payload.

Definition write_frame (frame : Frame) : result io_error str :=
  match frame with
  | FSpawn req => write_json TAG_SPAWN req
  | FSpawnOk session_id => write_json TAG_SPAWN_OK {| ok_session_id := session_id |}
  | FSpawnErr message => write_json TAG_SPAWN_ERR {| err_message := message |}
  | FStdin bytes => write_raw TAG_STDIN bytes
  | FStdinClosed => write_raw TAG_STDIN_CLOSED []
  | FStdout bytes => write_raw TAG_STDOUT bytes
  | FStderr bytes => write_raw TAG_STDERR bytes
  | FResize size => write_json TAG_RESIZE size
  | FSignal sig => write_json TAG_SIGNAL sig
  | FExit status => write_json TAG_EXIT status
  | FQuery => write_raw TAG_QUERY []
  | FQueryResult r => write_json TAG_QUERY_RESULT r
  end.

(** A peer's whole stream: frames until the first one that does not read. *)
Fixpoint read_frames (fuel : nat) (s : str) : list Frame * str :=
  match fuel with
  | 0 => ([], s)
  | S fuel => match read_frame s with
              | Ok (f, s') => let '(fs, rest) := read_frames fuel s' in (f :: fs, rest)
              | Err _ => ([], s)
              end
  end.

Definition write_frames (fs : list Frame) : result io_error str := (λ bs : list str, (mjoin bs : str)) <$> try_map write_frame fs.

(** The law of every structured payload. *)
Class FrameLaws : Prop := {
  law_spawn : JsonLaw SpawnRequest;
  law_spawn_ok : JsonLaw SpawnOkPayload;
  law_spawn_err : JsonLaw SpawnErrPayload;
  law_pty : JsonLaw PtySize;
  law_signal : JsonLaw SessionSignal;
  law_exit : JsonLaw ExitStatus;
  law_query : JsonLaw QueryResult;
}.

(** ** Lemmas *)

Lemma length_to_be_bytes n : length (to_be_bytes n) = 4.
Proof. done. Qed.

Lemma from_to_be_bytes n : (n < 4294967296)%N → from_be_bytes (to_be_bytes n) = n.
Proof.
  intros Hn. unfold from_be_bytes, to_be_bytes. simpl.
  rewrite !byte_of_N by (apply N.mod_lt; lia).
  assert (n / 16777216 < 256)%N as Hd by (apply N.Div0.div_lt_upper_bound; lia).
  rewrite (N.mod_small (n / 16777216)) by done.
  assert (n / 65536 = n / 256 / 256)%N as E1 by by rewrite N.Div0.div_div.
  assert (n / 16777216 = n / 256 / 256 / 256)%N as E2 by by rewrite !N.Div0.div_div.
  pose proof (N.div_mod n 256 ltac:(done)). pose proof (N.div_mod (n / 256) 256 ltac:(done)).
  pose proof (N.div_mod (n / 256 / 256) 256 ltac:(done)).
  rewrite E1, E2 in *. lia.
Qed.

Lemma len_bound payload : (MAX_FRAME_LEN <? len payload)%N = false → (len payload < 4294967296)%N.
Proof. rewrite N.ltb_ge. unfold MAX_FRAME_LEN. lia. Qed.

Lemma read_exact_app n a b : length a = n → read_exact n (a ++ b) = Ok (a, b).
Proof.
  intros <-. unfold read_exact. rewrite length_app.
  destruct (_ <=? _) eqn:E; [|apply Nat.leb_gt in E; lia].
  by rewrite take_app_length, drop_app_length.
Qed.

Lemma read_exact_ok n s a b : read_exact n s = Ok (a, b) → s = a ++ b ∧ length a = n.
Proof.
  unfold read_exact. destruct (n <=? length s) eqn:E; [|done]. intros [= <- <-].
  apply Nat.leb_le in E. rewrite take_drop, length_take. split; [done|lia].
Qed.

Lemma read_frame_raw tag payload rest :
  (MAX_FRAME_LEN <? len payload)%N = false →
  read_frame ([tag] ++ to_be_bytes (len payload) ++ payload ++ rest) =
  (λ f, (f, rest)) <$> decode_payload tag payload.
Proof.
  intros Hlen. unfold read_frame. rewrite (read_exact_app 1 [tag]) by done.
  unfold mbind, result_bind. rewrite (read_exact_app 4) by done.
  rewrite from_to_be_bytes by by apply len_bound. rewrite Hlen.
  rewrite read_exact_app by (unfold len; by rewrite Nat2N.id). done.
Qed.

(** A written frame is a raw frame whose payload decodes back to it. *)
Lemma write_frame_raw f b :
  FrameLaws → write_frame f = Ok b →
  ∃ tag payload, b = [tag] ++ to_be_bytes (len payload) ++ payload ∧
    (MAX_FRAME_LEN <? len payload)%N = false ∧ decode_payload tag payload = Ok f.
Proof.
  intros [L1 L2 L3 L4 L5 L6 L7].
  assert (∀ tag payload, write_raw tag payload = Ok b → decode_payload tag payload = Ok f →
    ∃ tag payload, b = [tag] ++ to_be_bytes (len payload) ++ payload ∧
      (MAX_FRAME_LEN <? len payload)%N = false ∧ decode_payload tag payload = Ok f) as Hraw.
  { intros tag payload. unfold write_raw. destruct (MAX_FRAME_LEN <? len payload)%N eqn:E; [done|].
    intros [= <-] Hd. by exists tag, payload. }
  assert (∀ T (J : Json T) (L : JsonLaw T) tag (x : T) (k : T → Frame),
    write_json tag x = Ok b → k x = f →
    (∀ payload, decode_payload tag payload = k <$> from_json payload) →
    ∃ tag payload, b = [tag] ++ to_be_bytes (len payload) ++ payload ∧
      (MAX_FRAME_LEN <? len payload)%N = false ∧ decode_payload tag payload = Ok f) as Hjson.
  { intros T J L tag x k Hw Hf Hd. unfold write_json in Hw.
    destruct (to_vec x) as [payload|] eqn:E; [|done]. simpl in Hw.
    apply (Hraw tag payload); [done|]. rewrite Hd. unfold from_json.
    rewrite (L x payload) by done. simpl. by rewrite Hf. }
  destruct f; simpl; intros Hw;
    first [ by apply (Hraw _ _ Hw) | by eapply (Hjson _ _ _ _ _ _ Hw) | idtac ].
  - by apply (Hjson _ _ _ _ _ (λ p, FSpawnOk (ok_session_id p)) Hw).
  - by apply (Hjson _ _ _ _ _ (λ p, FSpawnErr (err_message p)) Hw).
Qed.

Lemma read_frame_written f b rest :
  FrameLaws → write_frame f = Ok b → read_frame (b ++ rest) = Ok (f, rest).
Proof.
  intros L Hw. destruct (write_frame_raw f b L Hw) as (tag & payload & -> & Hlen & Hd).
  rewrite <- !app_assoc. rewrite read_frame_raw by done. by rewrite Hd.
Qed.

Lemma write_frames_cons f fs b :
  write_frames (f :: fs) = Ok b →
  ∃ b1 b2, write_frame f = Ok b1 ∧ write_frames fs = Ok b2 ∧ b = b1 ++ b2.
Proof.
  unfold write_frames. simpl. destruct (write_frame f) as [b1|]; [|done]. simpl.
  destruct (try_map write_frame fs) as [bs|]; [|done]. simpl. intros [= <-]. eauto.
Qed.


Lemma read_exact_short n s : length s < n → read_exact n s = Err UnexpectedEof.
Proof. unfold read_exact. intros Hs. destruct (_ <=? _) eqn:E; [apply Nat.leb_le in E; lia|done]. Qed.

(** A raw frame cut anywhere before its end does not read. *)
Lemma read_frame_raw_cut tag payload k :
  (MAX_FRAME_LEN <? len payload)%N = false → k < 5 + length payload →
  read_frame (take k ([tag] ++ to_be_bytes (len payload) ++ payload)) = Err UnexpectedEof.
Proof.
  intros Hlen Hk. unfold read_frame. destruct k as [|k]; [done|].
  cbn [take app]. change (tag :: ?x) with ([tag] ++ x).
  rewrite (read_exact_app 1) by done. unfold mbind, result_bind.
  destruct (decide (k < 4)) as [Hk4|Hk4].
  - rewrite read_exact_short; [done|]. rewrite length_take. lia.
  - assert (k = length (to_be_bytes (len payload)) + (k - 4)) as ->
      by (rewrite length_to_be_bytes; lia).
    rewrite take_app_add. rewrite (read_exact_app 4) by done.
    rewrite from_to_be_bytes by by apply len_bound. rewrite Hlen.
    rewrite read_exact_short; [done|]. rewrite length_take. unfold len. rewrite Nat2N.id. lia.
Qed.

Lemma write_frame_shape f b :
  write_frame f = Ok b →
  ∃ tag payload, b = [tag] ++ to_be_bytes (len payload) ++ payload ∧
    (MAX_FRAME_LEN <? len payload)%N = false.
Proof.
  assert (∀ tag payload, write_raw tag payload = Ok b →
    ∃ tag payload, b = [tag] ++ to_be_bytes (len payload) ++ payload ∧
      (MAX_FRAME_LEN <? len payload)%N = false) as Hraw.
  { intros tag payload. unfold write_raw. destruct (MAX_FRAME_LEN <? len payload)%N eqn:E; [done|].
    intros [= <-]. by exists tag, payload. }
  destruct f; cbn [write_frame]; unfold write_json, mbind, result_bind;
    repeat (match goal with |- context [to_vec ?x] => destruct (to_vec x); [|done] end); apply Hraw.
Qed.

(** ** Properties *)

(** C6: what one end writes the other reads back, frame by frame and in
    order, consuming exactly the written bytes: reading the concatenation of
    any sequence of written frames followed by arbitrary bytes yields that
    sequence and leaves those bytes. *)
Theorem frames_roundtrip (L : FrameLaws) fs b rest (Hw : write_frames fs = Ok b) :
  read_frames (length fs) (b ++ rest) = (fs, rest).
Proof.
  revert b Hw. induction fs as [|f fs IH]; intros b Hw.
  - by injection Hw as <-.
  - apply write_frames_cons in Hw as (b1 & b2 & Hw1 & Hw2 & ->). simpl.
    rewrite <- app_assoc, (read_frame_written f b1) by done. by rewrite (IH b2).
Qed.

(** A frame is never read from part of its bytes: every strict prefix of
    a written frame (a connection cut anywhere inside it) reads as
    [UnexpectedEof], never as another, shorter frame. *)
Theorem truncated_frame_is_eof f b k (Hw : write_frame f = Ok b) (Hk : k < length b) :
  read_frame (take k b) = Err UnexpectedEof.
Proof.
  apply write_frame_shape in Hw as (tag & payload & -> & Hlen).
  apply read_frame_raw_cut; [done|].
  rewrite !length_app, length_to_be_bytes in Hk. simpl in Hk. lia.
Qed.

(** C40: a peer cannot make the reader buffer more than [MAX_FRAME_LEN] bytes
    of payload: a longer announced length is refused before any payload byte
    is looked at, a frame that reads consumed at most 5 + [MAX_FRAME_LEN]
    bytes (and its remaining input is a suffix), and the writer never
    produces a frame the reader would refuse for its length. *)
Theorem frame_length_bounded :
  (∀ tag n s, (MAX_FRAME_LEN < n < 4294967296)%N →
    read_frame ([tag] ++ to_be_bytes n ++ s) = Err (too_long n)) ∧
  (∀ s f rest, read_frame s = Ok (f, rest) →
    ∃ used, s = used ++ rest ∧ (5 ≤ len used ≤ 5 + MAX_FRAME_LEN)%N) ∧
  (∀ f b, write_frame f = Ok b → (5 ≤ len b ≤ 5 + MAX_FRAME_LEN)%N).
Proof.
  split; [|split].
  - intros tag n s Hn. unfold read_frame. rewrite (read_exact_app 1 [tag]) by done.
    unfold mbind, result_bind. rewrite (read_exact_app 4) by done.
    rewrite from_to_be_bytes by lia. destruct (_ <? _)%N eqn:E; [done|].
    apply N.ltb_ge in E. lia.
  - intros s f rest. unfold read_frame, mbind, result_bind.
    destruct (read_exact 1 s) as [[t s1]|] eqn:E1; [|done].
    destruct (read_exact 4 s1) as [[l s2]|] eqn:E2; [|done].
    destruct (_ <? _)%N eqn:E; [done|].
    destruct (read_exact _ s2) as [[p s3]|] eqn:E3; [|done].
    destruct (decode_payload _ p); [|done]. intros [= -> ->].
    apply read_exact_ok in E1 as [-> Hw1], E2 as [-> Hw2], E3 as [-> Hw3].
    apply N.ltb_ge in E. exists (t ++ l ++ p). split; [by rewrite !app_assoc|].
    unfold len. rewrite !length_app, Hw1, Hw2, Hw3. lia.
  - intros f b Hw. apply write_frame_shape in Hw as (tag & payload & -> & Hlen).
    apply N.ltb_ge in Hlen. unfold len in *.
    rewrite !length_app, length_to_be_bytes. simpl. lia.
Qed.
End codec.

(** ** A concrete payload codec

    Any injective printing satisfies the [JsonLaw]s; this one writes the bits
    of stdpp's [encode]. *)
Module BitsCodec.
Fixpoint bits (p : positive) : str :=
  match p with xH => [] | xO p => "0"%char :: bits p | xI p => "1"%char :: bits p end.
Fixpoint unbits (s : str) : positive :=
  match s with [] => xH | c :: s => if decide (c = "1"%char) then xI (unbits s) else xO (unbits s) end.

Lemma unbits_bits p : unbits (bits p) = p.
Proof. induction p as [p IH|p IH|]; simpl; by rewrite ?IH. Qed.

Definition bits_json {T} `{Countable T} : Json T :=
  {| to_vec x := Ok (bits (encode x));
     from_slice s := ok_or [] (decode (unbits s)) |}.

Lemma bits_json_law {T} `{Countable T} : @JsonLaw T bits_json.
Proof. intros x b [= <-]. simpl. by rewrite unbits_bits, decode_encode. Qed.

#[export] Instance PtySize_dec : EqDecision PtySize. Proof. solve_decision. Defined.
#[export] Instance PtySize_countable : Countable PtySize.
Proof. apply (inj_countable' (λ p, (rows p, cols p)) (λ '(r, c), {| rows := r; cols := c |})). by intros []. Defined.

#[export] Instance SpawnRequest_dec : EqDecision SpawnRequest. Proof. solve_decision. Defined.
#[export] Instance SpawnRequest_countable : Countable SpawnRequest.
Proof.
  apply (inj_countable' (λ r, (cmd r, args r, cwd r, req_env r, pty r))
    (λ '(a, b, c, d, e), {| cmd := a; args := b; cwd := c; req_env := d; pty := e |})). by intros [].
Defined.

#[export] Instance SessionSignal_dec : EqDecision SessionSignal. Proof. solve_decision. Defined.
#[export] Instance SessionSignal_countable : Countable SessionSignal.
Proof.
  apply (inj_countable' as_libc (λ z, if (z =? 2)%Z then Int else if (z =? 15)%Z then Term else Hup)).
  by intros [].
Defined.

#[export] Instance ExitStatus_dec : EqDecision ExitStatus. Proof. solve_decision. Defined.
#[export] Instance ExitStatus_countable : Countable ExitStatus.
Proof.
  apply (inj_countable' (λ s, (exit_code s, exit_signal s))
    (λ '(c, s), {| exit_code := c; exit_signal := s |})). by intros [].
Defined.

#[export] Instance SessionSummary_dec : EqDecision SessionSummary. Proof. solve_decision. Defined.
#[export] Instance SessionSummary_countable : Countable SessionSummary.
Proof.
  apply (inj_countable' (λ s, (sum_id s, sum_command s, started_unix s))
    (λ '(a, b, c), {| sum_id := a; sum_command := b; started_unix := c |})). by intros [].
Defined.

#[export] Instance QueryResult_dec : EqDecision QueryResult. Proof. solve_decision. Defined.
#[export] Instance QueryResult_countable : Countable QueryResult.
Proof.
  apply (inj_countable' (λ q, (uptime_secs q, sessions q))
    (λ '(a, b), {| uptime_secs := a; sessions := b |})). by intros [].
Defined.

#[export] Instance SpawnOkPayload_dec : EqDecision SpawnOkPayload. Proof. solve_decision. Defined.
#[export] Instance SpawnOkPayload_countable : Countable SpawnOkPayload.
Proof. apply (inj_countable' ok_session_id (λ i, {| ok_session_id := i |})). by intros []. Defined.

#[export] Instance SpawnErrPayload_dec : EqDecision SpawnErrPayload. Proof. solve_decision. Defined.
#[export] Instance SpawnErrPayload_countable : Countable SpawnErrPayload.
Proof. apply (inj_countable' err_message (λ i, {| err_message := i |})). by intros []. Defined.

#[export] Existing Instance bits_json.

Lemma bits_laws : FrameLaws.
Proof. split; apply bits_json_law. Qed.
End BitsCodec.

Import BitsCodec.

Definition sample_request : SpawnRequest :=
  {| cmd := "ls"; args := strs ["-l"]; cwd := "/"; req_env := {[ ("A" : str) := ("b" : str) ]};
     pty := Some {| rows := 24; cols := 80 |} |}.
Definition sample_frames : list Frame :=
  [FSpawn sample_request; FStdin "hi"; FResize {| rows := 10; cols := 20 |}; FSignal Int;
   FExit {| exit_code := Some 0%Z; exit_signal := None |}].

Lemma frames_roundtrip_witness :
  ∃ b, write_frames sample_frames = Ok b ∧ read_frames 5 (b ++ "rest") = (sample_frames, "rest" : str).
Proof.
  destruct (write_frames sample_frames) as [b|e] eqn:E; [|vm_compute in E; discriminate E].
  exists b. split; [done|]. apply (frames_roundtrip bits_laws sample_frames b "rest" E).
Defined.

Lemma truncated_frame_is_eof_witness :
  ∃ b, write_frame (FSpawn sample_request) = Ok b ∧ 7 < length b ∧ read_frame (take 7 b) = Err UnexpectedEof.
Proof.
  destruct (write_frame (FSpawn sample_request)) as [b|e] eqn:E; [|vm_compute in E; discriminate E].
  assert (7 < length b) as Hk by (vm_compute in E; injection E as <-; vm_compute; lia).
  exists b. split; [done|]. split; [done|]. exact (truncated_frame_is_eof _ b 7 E Hk).
Defined.
