(* ===== verification/Registry.v ===== *)
(** * The keeper's session registry ([src/keeper/registry.rs])

    The registry is a map behind a mutex plus an atomic counter.  An insertion
    is two atomic actions, the increment of the counter and, later and under
    the mutex, the entry; a removal and the queries are one each.  The actions
    of concurrent connection threads are the interleavings of these functions. *)

From S2P Require Import Prelude.

Record SessionInfo := { info_pgid : Z; info_command : str; info_started : N }.

Record Registry := { reg_sessions : gmap N SessionInfo; next_id : N }.

Definition registry_new : Registry := {| reg_sessions := ∅; next_id := 0 |}.

(** [fetch_add] on an [AtomicU64] wraps, and so does the [+ 1] of a release build. *)
Definition u64_succ (n : N) : N := ((n + 1) mod (U64_MAX + 1))%N.

(** [Registry::insert]: the session's number, taken outside the mutex ... *)
Definition registry_number (r : Registry) : Registry * N :=
  let id := u64_succ (next_id r) in ({| reg_sessions := reg_sessions r; next_id := id |}, id).

(** ... and its entry, with the time at which the mutex is held. *)
Definition registry_put (id : N) (pgid : Z) (command : str) (now : N) (r : Registry) : Registry :=
  {| reg_sessions := <[ id := {| info_pgid := pgid; info_command := command; info_started := now |} ]> (reg_sessions r);
     next_id := next_id r |}.

(** The whole of it, where nobody else acts in between: the new registry and the id. *)
Definition registry_insert (pgid : Z) (command : str) (now : N) (r : Registry) : Registry * N :=
  let '(r, id) := registry_number r in (registry_put id pgid command now r, id).

Definition registry_remove (id : N) (r : Registry) : Registry * option SessionInfo :=
  ({| reg_sessions := delete id (reg_sessions r); next_id := next_id r |}, reg_sessions r !! id).

Definition registry_contains (id : N) (r : Registry) : bool := bool_decide (is_Some (reg_sessions r !! id)).

Definition registry_len (r : Registry) : nat := size (reg_sessions r).

Definition registry_is_empty (r : Registry) : bool := registry_len r =? 0.

Definition snapshot (r : Registry) : list (N * SessionInfo) := map_to_list (reg_sessions r).

(** ** Any interleaving of the actions *)
Inductive reg_op := OpNumber | OpPut (id : N) (pgid : Z) (command : str) (now : N) | OpRemove (id : N).

(** One action; a number taken is reported. *)
Definition reg_apply (r : Registry) (op : reg_op) : Registry * list N :=
  match op with
  | OpNumber => let '(r', id) := registry_number r in (r', [id])
  | OpPut id pgid command now => (registry_put id pgid command now r, [])
  | OpRemove id => ((registry_remove id r).1, [])
  end.

Fixpoint reg_run (r : Registry) (ops : list reg_op) : Registry * list N :=
  match ops with
  | [] => (r, [])
  | op :: ops => let '(r1, ids1) := reg_apply r op in
                 let '(r2, ids2) := reg_run r1 ops in (r2, ids1 ++ ids2)
  end.

(** Every registered session was numbered by the counter. *)
Definition registry_wf (r : Registry) : Prop :=
  ∀ id, is_Some (reg_sessions r !! id) → (1 ≤ id ≤ next_id r)%N.

Lemma registry_new_wf : registry_wf registry_new.
Proof. intros id [x Hx]. cbn in Hx. by rewrite lookup_empty in Hx. Qed.

Lemma u64_succ_small n : (n < U64_MAX)%N → u64_succ n = (n + 1)%N.
Proof. intros H. unfold u64_succ. apply N.mod_small. lia. Qed.

Lemma registry_number_fresh r :
  registry_wf r → (next_id r < U64_MAX)%N →
  (registry_number r).2 = (next_id r + 1)%N ∧ next_id (registry_number r).1 = (next_id r + 1)%N ∧
  reg_sessions (registry_number r).1 !! (registry_number r).2 = None.
Proof.
  intros Hwf Hn. simpl. rewrite u64_succ_small by done. do 2 (split; [done|]).
  destruct (_ !! _) eqn:E; [|done]. assert (next_id r + 1 ≤ next_id r)%N; [|lia].
  apply Hwf. by rewrite E.
Qed.

Lemma registry_number_wf r : registry_wf r → (next_id r < U64_MAX)%N → registry_wf (registry_number r).1.
Proof.
  intros Hwf Hn id. simpl. rewrite u64_succ_small by done. intros Hx.
  assert (1 ≤ id ≤ next_id r)%N; [by apply Hwf|lia].
Qed.

Lemma registry_put_wf id pgid command now r :
  registry_wf r → (1 ≤ id ≤ next_id r)%N → registry_wf (registry_put id pgid command now r).
Proof.
  intros Hwf Hn id'. simpl. intros [x Hx]. apply lookup_insert_Some in Hx as [[<- _]|[_ Hx]]; [done|]. apply Hwf. by eexists.
Qed.

Lemma registry_remove_wf id r : registry_wf r → registry_wf (registry_remove id r).1.
Proof. intros Hwf id' [x Hx]. simpl in *. apply Hwf. apply lookup_delete_Some in Hx as [_ Hx]. by eexists. Qed.

Lemma registry_contains_spec id r : registry_contains id r = true ↔ is_Some (reg_sessions r !! id).
Proof. apply bool_decide_eq_true. Qed.

Lemma registry_contains_false id r : registry_contains id r = false ↔ reg_sessions r !! id = None.
Proof. unfold registry_contains. rewrite bool_decide_eq_false. by rewrite eq_None_not_Some. Qed.

#[export] Hint Resolve registry_new_wf registry_number_wf registry_put_wf registry_remove_wf : devcroft.

Lemma reg_run_ids r ops :
  (next_id r + N.of_nat (length ops) ≤ U64_MAX)%N →
  let '(r', ids) := reg_run r ops in
  ids = (λ k, next_id r + 1 + N.of_nat k)%N <$> seq 0 (length ids) ∧ next_id r' = (next_id r + N.of_nat (length ids))%N.
Proof.
  revert r. induction ops as [|op ops IH]; intros r Hn; simpl.
  - split; [done|lia].
  - destruct op as [|id pgid command now|id]; simpl in *.
    + rewrite u64_succ_small by lia.
      specialize (IH (registry_number r).1). simpl in IH.
      rewrite u64_succ_small in IH by lia.
      destruct (reg_run _ ops) as [r2 ids2]. destruct IH as [IH1 IH2]; [lia|].
      simpl. rewrite IH2. split; [|lia]. rewrite IH1 at 1. f_equal; [lia|].
      rewrite <- seq_shift.
      change (map S ?l) with (S <$> l). rewrite <- list_fmap_compose.
      apply list_fmap_ext. intros i k _. simpl. lia.
    + specialize (IH (registry_put id pgid command now r)). simpl in IH.
      destruct (reg_run _ ops) as [r2 ids2]. simpl. apply IH. lia.
    + specialize (IH (registry_remove id r).1). simpl in IH.
      destruct (reg_run _ ops) as [r2 ids2]. simpl. apply IH. lia.
Qed.

(** In any interleaving of the actions of concurrent connections (fewer than
    2^64 of them), starting from the keeper's empty registry, the numbers taken
    are 1, 2, 3, … in order, hence never reused, even after removals. *)
Theorem registry_ids_sequential ops r' ids
    (Hlen : (N.of_nat (length ops) < U64_MAX)%N) (Hrun : reg_run registry_new ops = (r', ids)) :
  ids = (λ k, 1 + N.of_nat k)%N <$> seq 0 (length ids) ∧ NoDup ids.
Proof.
  pose proof (reg_run_ids registry_new ops) as H. rewrite Hrun in H. simpl in H.
  destruct H as [Hids Hnext]; [lia|]. split; [done|].
  rewrite Hids. apply NoDup_fmap_2; [intros a b; lia|]. apply NoDup_seq.
Qed.

Lemma registry_ids_sequential_witness :
  ∃ r', reg_run registry_new [OpNumber; OpNumber; OpPut 2 7 "a" 0; OpPut 1 8 "b" 0; OpRemove 1; OpNumber] = (r', [1; 2; 3]%N) ∧
    NoDup [1; 2; 3]%N.
Proof.
  destruct (reg_run registry_new [OpNumber; OpNumber; OpPut 2 7 "a" 0; OpPut 1 8 "b" 0; OpRemove 1; OpNumber]) as [r' ids] eqn:E.
  assert (ids = [1; 2; 3]%N) as -> by (vm_compute in E; by injection E).
  exists r'. split; [done|]. refine (proj2 (registry_ids_sequential _ _ _ _ E)). vm_compute. reflexivity.
Defined.
