(* ===== verification/Session.v ===== *)
(** * Spawning a session ([src/keeper/session.rs], [src/keeper/pty.rs])

    The process and terminal system calls are parameters; what the code decides
    (the command it builds, the calls it makes between [fork] and [exec], the
    handles it keeps and the descriptors it closes on every path) is modelled
    as data. *)

From S2P Require Import Prelude Protocol.

Inductive Stdio := Piped | Null.

(** The calls of a [pre_exec] closure, in order. *)
Inductive PreExec :=
| SetpgidSelf
| Setsid
| SetControllingTty (fd : Z)
| Dup2 (fd target : Z)
| CloseFd (fd : Z)
| ResetSignals (default_and_unblock : list Z).

Record Command := {
  program : str; cmd_args : list str; current_dir : str; envs : gmap str str;
  stdin_cfg : Stdio; stdout_cfg : Stdio; stderr_cfg : Stdio;
  pre_exec : list PreExec;
}.

(** Which descriptor a handle of the spawned session refers to. *)
Inductive Handle := ChildStdin | ChildStdout | ChildStderr | PtyMaster.
#[export] Instance Handle_dec : EqDecision Handle.
Proof. solve_decision. Defined.

Record SpawnedSession := {
  sp_child : Z; sp_pgid : Z;
  sp_stdin : option Handle; sp_stdout : Handle; sp_stderr : option Handle;
  sp_resize : option Handle;
}.

Definition FORWARDED : list Z := [2; 3; 15; 1]%Z.
Definition reset_forwarded_signal_dispositions : PreExec := ResetSignals FORWARDED.

Definition piped_command (req : SpawnRequest) : Command :=
  {| program := cmd req; cmd_args := args req; current_dir := cwd req; envs := req_env req;
     stdin_cfg := Piped; stdout_cfg := Piped; stderr_cfg := Piped;
     pre_exec := [SetpgidSelf; reset_forwarded_signal_dispositions] |}.

Definition pty_command (req : SpawnRequest) (slave_fd : Z) : Command :=
  {| program := cmd req; cmd_args := args req; current_dir := cwd req; envs := req_env req;
     stdin_cfg := Null; stdout_cfg := Null; stderr_cfg := Null;
     pre_exec := [Setsid; SetControllingTty slave_fd; Dup2 slave_fd 0; Dup2 slave_fd 1; Dup2 slave_fd 2]
       ++ (if (2 <? slave_fd)%Z then [CloseFd slave_fd] else [])
       ++ [reset_forwarded_signal_dispositions] |}.

Section spawn.
(** [Command::spawn] gives the child's process id; [openpty] the two descriptors. *)
Context (command_spawn : Command → result str Z)
        (openpty : PtySize → result str (Z * Z))
        (set_cloexec : Z → result str unit)
        (try_clone : nat → Z → result str unit).

(** [pty::open_pty]: the two descriptors, or the error and the descriptors closed. *)
Definition open_pty (size : PtySize) : result (str * list Z) (Z * Z) :=
  match openpty size with
  | Err e => Err (e, [])
  | Ok (master_fd, slave_fd) =>
      match (set_cloexec master_fd ≫= λ _, set_cloexec slave_fd) with
      | Err e => Err (e, [master_fd; slave_fd])
      | Ok _ => Ok (master_fd, slave_fd)
      end
  end.

Definition spawn_piped (req : SpawnRequest) : result str SpawnedSession :=
  pid ← command_spawn (piped_command req);
  Ok {| sp_child := pid; sp_pgid := pid; sp_stdin := Some ChildStdin; sp_stdout := ChildStdout;
        sp_stderr := Some ChildStderr; sp_resize := None |}.

(** With the descriptors explicitly closed on the way ([master] is an owned
    [File], closed when it is dropped; the slave is a raw descriptor). *)
Definition spawn_pty (req : SpawnRequest) (size : PtySize) : result str SpawnedSession * list Z :=
  match open_pty size with
  | Err (e, closed) => (Err e, closed)
  | Ok (master_fd, slave_fd) =>
      match try_clone 0 master_fd with
      | Err e => (Err e, [master_fd])
      | Ok _ =>
          match try_clone 1 master_fd with
          | Err e => (Err e, [master_fd])
          | Ok _ =>
              match command_spawn (pty_command req slave_fd) with
              | Err e => (Err e, [slave_fd; master_fd])
              | Ok pid =>
                  (Ok {| sp_child := pid; sp_pgid := pid; sp_stdin := Some PtyMaster; sp_stdout := PtyMaster;
                         sp_stderr := None; sp_resize := Some PtyMaster |}, [slave_fd])
              end
          end
      end
  end.

Definition spawn (req : SpawnRequest) : result str SpawnedSession :=
  match pty req with
  | Some size => (spawn_pty req size).1
  | None => spawn_piped req
  end.

(** ** Lemmas *)

(** The command run for a request: what makes the child a group leader. *)
Definition group_leader (c : Command) : Prop :=
  head (pre_exec c) = Some SetpgidSelf ∨ head (pre_exec c) = Some Setsid.

Lemma piped_command_leader req : group_leader (piped_command req).
Proof. by left. Qed.

Lemma pty_command_leader req fd : group_leader (pty_command req fd).
Proof. by right. Qed.

(** Every spawned session is a process group of its own: the process id
    the session is later signalled by (as a group) is that of a child that was
    made a group or session leader, with the forwarded signals back at their
    defaults, before its program ran, and it is the request's program,
    arguments, directory and environment.  A terminal session has one
    combined output and can be resized; a piped one has both outputs and
    cannot. *)
Theorem spawn_leads_its_group req sp (H : spawn req = Ok sp) :
  ∃ c, command_spawn c = Ok (sp_pgid sp) ∧ group_leader c ∧ last (pre_exec c) = Some (ResetSignals FORWARDED) ∧
    (program c, cmd_args c, current_dir c, envs c) = (cmd req, args req, cwd req, req_env req) ∧
    match pty req with
    | Some _ => sp_stderr sp = None ∧ sp_resize sp = Some PtyMaster ∧
                stdin_cfg c = Null ∧ stdout_cfg c = Null ∧ stderr_cfg c = Null
    | None => sp_stderr sp = Some ChildStderr ∧ sp_resize sp = None ∧
              stdin_cfg c = Piped ∧ stdout_cfg c = Piped ∧ stderr_cfg c = Piped
    end.
Proof.
  unfold spawn in H. destruct (pty req) as [size|].
  - unfold spawn_pty in H. destruct (open_pty size) as [[m s]|[e cl]]; [|done].
    destruct (try_clone 0 m); [|done]. destruct (try_clone 1 m); [|done].
    destruct (command_spawn (pty_command req s)) as [pid|] eqn:E; [|done].
    injection H as <-. exists (pty_command req s).
    split; [done|]. split; [apply pty_command_leader|]. split; [|done].
    unfold pty_command, pre_exec. by rewrite app_assoc, last_snoc.
  - unfold spawn_piped, mbind, result_bind in H.
    destruct (command_spawn (piped_command req)) as [pid|] eqn:E; [|done].
    injection H as <-. exists (piped_command req).
    split; [done|]. split; [apply piped_command_leader|]. done.
Qed.

(** The slave side of a terminal never stays open in the keeper once the
    child's command was tried; it is left open when duplicating the master fails. *)
Lemma spawn_pty_closes_slave req size m s :
  open_pty size = Ok (m, s) →
  s ∈ (spawn_pty req size).2 ∨ m = s ∨ is_ok (try_clone 0 m) = false ∨ is_ok (try_clone 1 m) = false.
Proof.
  intros H. unfold spawn_pty. rewrite H.
  destruct (try_clone 0 m); [|by right; right; left]. destruct (try_clone 1 m); [|by right; right; right].
  left. destruct (command_spawn _); by left.
Qed.
End spawn.

Lemma spawn_leads_its_group_witness :
  ∃ sp, spawn (λ _, Ok 42%Z) (λ _, Ok (5, 6)%Z) (λ _, Ok tt) (λ _ _, Ok tt) sample_request = Ok sp ∧ sp_pgid sp = 42%Z ∧
    ∃ c, group_leader c ∧ program c = "ls".
Proof.
  destruct (spawn (λ _, Ok 42%Z) (λ _, Ok (5, 6)%Z) (λ _, Ok tt) (λ _ _, Ok tt) sample_request) as [sp|] eqn:E;
    [|vm_compute in E; discriminate E].
  exists sp. split; [done|]. destruct (spawn_leads_its_group _ _ _ _ _ _ E) as (c & H1 & H2 & _ & H4 & _).
  injection H1 as <-. split; [done|]. exists c. split; [done|]. by injection H4.
Defined.
