(* ===== verification/Connection.v ===== *)
(** * One client connection of the keeper ([src/keeper/connection.rs])

    The opening exchange is a function.  The threads of a running session
    (the reader loop of [handle_with_grace], the two output pumps, the waiter
    and the writer, plus the other connections that share the registry) are a
    step relation in which every step is one shared-state action of one
    thread, so that its runs are all their interleavings.  A step that waits
    for the client or the child (a read, a write, the reaping of the child) is
    taken when they do their part, which they may never do; [waits] says what
    each thread waits for. *)

From S2P Require Import Prelude Protocol Registry.

#[local] Set Default Proof Using "Type".

(** [describe]. *)
Definition describe (req : SpawnRequest) : str :=
  if bool_decide (args req = []) then cmd req else cmd req ++ " " ++ join " " (args req).

(** [to_exit_status]: what [wait] returned, as the code/signal pair of the status. *)
Definition to_exit_status (r : result str (option Z * option Z)) : ExitStatus :=
  match r with
  | Ok (code, signal) => {| exit_code := code; exit_signal := signal |}
  | Err _ => {| exit_code := None; exit_signal := None |}
  end.

(** What a [read] on an output pipe returns. *)
Inductive read_result := ReadBytes (b : str) | ReadErr (eio : bool).

(** The loop of [pump], for one read result: the frame payload to send, or stop. *)
Definition pump_read (r : read_result) : option str :=
  match r with
  | ReadBytes [] => None
  | ReadBytes b => Some b
  | ReadErr _ => None
  end.

(** Everything a pump forwards from a sequence of reads. *)
Fixpoint pump_all (reads : list read_result) : str :=
  match reads with
  | [] => []
  | r :: reads => match pump_read r with Some b => b ++ pump_all reads | None => [] end
  end.

(** ** The opening exchange *)

(** A spawned session as the connection sees it. *)
Record Session := {
  ses_pgid : Z;
  ses_stdin : bool;
  ses_stdout : list read_result;
  ses_stderr : option (list read_result);
  ses_resizable : bool;
  ses_wait : result str (option Z * option Z);
}.

(** The phases of the threads. *)
Inductive main_phase := MLoop | MFrame (f : Frame) | MCheck | MEscalate | MGrace | MJoinWait | MJoinWriter | MDone.
Inductive wait_phase := WJoinStdout | WJoinStderr | WWait | WRemove | WSend | WDone.
Inductive writer_phase := Writing | WriterStopped.

Record Conn := {
  c_id : N; c_session : Session;
  c_reg : Registry;
  c_main : main_phase; c_input : list Frame;
  c_stdin : bool; c_stdin_bytes : str; c_resizes : list PtySize; c_signals : list Z;
  c_out : option (list read_result); c_err : option (list read_result);
  c_waiter : wait_phase; c_status : option ExitStatus;
  c_writer : writer_phase; c_receiver : bool; c_queue : list Frame;
  c_written : list Frame; c_sent : list Frame;
}.

Inductive opening := Closed | ReplyAndClose (f : Frame) | Start (req : SpawnRequest) (s : Session).

Definition summary (e : N * SessionInfo) : SessionSummary :=
  {| sum_id := e.1; sum_command := info_command e.2; started_unix := info_started e.2 |}.

Definition EXPECTED_SPAWN : str := "expected Spawn or Query as the first frame".

(** [handle_with_grace] up to the spawn; the session of a [Start] is numbered
    and registered next ([Registry::insert]). *)
Definition handle_first (spawn : SpawnRequest → result str Session) (reg : Registry) (uptime : N)
    (first : result io_error Frame) : opening :=
  match first with
  | Ok (FSpawn req) =>
      match spawn req with
      | Ok s => Start req s
      | Err e => ReplyAndClose (FSpawnErr e)
      end
  | Ok FQuery => ReplyAndClose (FQueryResult {| uptime_secs := uptime; sessions := summary <$> snapshot reg |})
  | Ok _ => ReplyAndClose (FSpawnErr EXPECTED_SPAWN)
  | Err _ => Closed
  end.

(** The state once the threads run: the registry [reg] found when the mutex was
    taken also holds the session, under the number [id] taken before, and
    [SpawnOk] is in the channel (its receiver is alive: the writer only drops
    it after a write failed or the channel ended).  [input] is what the rest of
    the client's stream reads as, up to its first read error. *)
Definition start_session (id : N) (reg : Registry) (now : N) (s : Session) (req : SpawnRequest) (input : list Frame) : Conn :=
  {| c_id := id; c_session := s; c_reg := registry_put id (ses_pgid s) (describe req) now reg; c_main := MLoop; c_input := input;
     c_stdin := ses_stdin s; c_stdin_bytes := []; c_resizes := []; c_signals := [];
     c_out := Some (ses_stdout s); c_err := ses_stderr s;
     c_waiter := WJoinStdout; c_status := None; c_writer := Writing; c_receiver := true;
     c_queue := [FSpawnOk id]; c_written := []; c_sent := [FSpawnOk id] |}.

(** ** Field updates *)
Definition upd_reg (f : Registry → Registry) (c : Conn) : Conn :=
  {| c_id := c_id c; c_session := c_session c; c_reg := f (c_reg c); c_main := c_main c; c_input := c_input c;
     c_stdin := c_stdin c; c_stdin_bytes := c_stdin_bytes c; c_resizes := c_resizes c; c_signals := c_signals c;
     c_out := c_out c; c_err := c_err c; c_waiter := c_waiter c; c_status := c_status c; c_writer := c_writer c;
     c_receiver := c_receiver c; c_queue := c_queue c; c_written := c_written c; c_sent := c_sent c |}.
Definition set_main (p : main_phase) (input : list Frame) (c : Conn) : Conn :=
  {| c_id := c_id c; c_session := c_session c; c_reg := c_reg c; c_main := p; c_input := input;
     c_stdin := c_stdin c; c_stdin_bytes := c_stdin_bytes c; c_resizes := c_resizes c; c_signals := c_signals c;
     c_out := c_out c; c_err := c_err c; c_waiter := c_waiter c; c_status := c_status c; c_writer := c_writer c;
     c_receiver := c_receiver c; c_queue := c_queue c; c_written := c_written c; c_sent := c_sent c |}.
Definition set_client (stdin : bool) (bytes : str) (resizes : list PtySize) (signals : list Z) (c : Conn) : Conn :=
  {| c_id := c_id c; c_session := c_session c; c_reg := c_reg c; c_main := c_main c; c_input := c_input c;
     c_stdin := stdin; c_stdin_bytes := bytes; c_resizes := resizes; c_signals := signals;
     c_out := c_out c; c_err := c_err c; c_waiter := c_waiter c; c_status := c_status c; c_writer := c_writer c;
     c_receiver := c_receiver c; c_queue := c_queue c; c_written := c_written c; c_sent := c_sent c |}.
Definition set_pumps (out err : option (list read_result)) (c : Conn) : Conn :=
  {| c_id := c_id c; c_session := c_session c; c_reg := c_reg c; c_main := c_main c; c_input := c_input c;
     c_stdin := c_stdin c; c_stdin_bytes := c_stdin_bytes c; c_resizes := c_resizes c; c_signals := c_signals c;
     c_out := out; c_err := err; c_waiter := c_waiter c; c_status := c_status c; c_writer := c_writer c;
     c_receiver := c_receiver c; c_queue := c_queue c; c_written := c_written c; c_sent := c_sent c |}.
Definition set_waiter (p : wait_phase) (st : option ExitStatus) (c : Conn) : Conn :=
  {| c_id := c_id c; c_session := c_session c; c_reg := c_reg c; c_main := c_main c; c_input := c_input c;
     c_stdin := c_stdin c; c_stdin_bytes := c_stdin_bytes c; c_resizes := c_resizes c; c_signals := c_signals c;
     c_out := c_out c; c_err := c_err c; c_waiter := p; c_status := st; c_writer := c_writer c;
     c_receiver := c_receiver c; c_queue := c_queue c; c_written := c_written c; c_sent := c_sent c |}.
Definition set_writer (p : writer_phase) (rx : bool) (queue written : list Frame) (c : Conn) : Conn :=
  {| c_id := c_id c; c_session := c_session c; c_reg := c_reg c; c_main := c_main c; c_input := c_input c;
     c_stdin := c_stdin c; c_stdin_bytes := c_stdin_bytes c; c_resizes := c_resizes c; c_signals := c_signals c;
     c_out := c_out c; c_err := c_err c; c_waiter := c_waiter c; c_status := c_status c; c_writer := p;
     c_receiver := rx; c_queue := queue; c_written := written; c_sent := c_sent c |}.
(** [tx.send]: fails when the receiver is gone. *)
Definition send (f : Frame) (c : Conn) : Conn :=
  if c_receiver c then
    {| c_id := c_id c; c_session := c_session c; c_reg := c_reg c; c_main := c_main c; c_input := c_input c;
       c_stdin := c_stdin c; c_stdin_bytes := c_stdin_bytes c; c_resizes := c_resizes c; c_signals := c_signals c;
       c_out := c_out c; c_err := c_err c; c_waiter := c_waiter c; c_status := c_status c; c_writer := c_writer c;
       c_receiver := true; c_queue := c_queue c ++ [f]; c_written := c_written c; c_sent := c_sent c ++ [f] |}
  else c.

(** ** The threads *)

Definition SIGTERM : Z := 15.
Definition SIGKILL : Z := 9.

(** The [match] of the reader loop on a frame that read; writing to the child's
    standard input succeeds, or fails after some of the bytes. *)
Definition on_client_frame (failed : option nat) (f : Frame) (c : Conn) : Conn :=
  match f with
  | FStdin bytes =>
      if c_stdin c then
        match failed with
        | None => set_client true (c_stdin_bytes c ++ bytes) (c_resizes c) (c_signals c) c
        | Some n => set_client false (c_stdin_bytes c ++ take n bytes) (c_resizes c) (c_signals c) c
        end
      else c
  | FStdinClosed => set_client false (c_stdin_bytes c) (c_resizes c) (c_signals c) c
  | FResize size =>
      if ses_resizable (c_session c) then
        set_client (c_stdin c) (c_stdin_bytes c) (c_resizes c ++ [size]) (c_signals c) c
      else c
  | FSignal sig => set_client (c_stdin c) (c_stdin_bytes c) (c_resizes c) (c_signals c ++ [as_libc sig]) c
  | _ => c
  end.

(** [kill(-pgid, sig)]. *)
Definition kill_group (sig : Z) (c : Conn) : Conn :=
  set_client (c_stdin c) (c_stdin_bytes c) (c_resizes c) (c_signals c ++ [sig]) c.

Definition contains_me (c : Conn) : bool := registry_contains (c_id c) (c_reg c).

(** One step of the connection's own threads. *)
Inductive internal : Conn → Conn → Prop :=
(* the reader loop *)
| main_read c f fs : c_main c = MLoop → c_input c = f :: fs → internal c (set_main (MFrame f) fs c)
| main_frame c f failed :
    c_main c = MFrame f → internal c (set_main MCheck (c_input c) (on_client_frame failed f c))
| main_eof c : c_main c = MLoop → c_input c = [] → internal c (set_main MEscalate [] c)
| main_check c :
    c_main c = MCheck →
    internal c (set_main (if contains_me c then MLoop else MEscalate) (c_input c) c)
| main_escalate c :
    c_main c = MEscalate →
    internal c (if contains_me c then set_main MGrace (c_input c) (kill_group SIGTERM c)
                else set_main MJoinWait (c_input c) c)
| main_grace c :
    c_main c = MGrace →
    internal c (set_main MJoinWait (c_input c) (if contains_me c then kill_group SIGKILL c else c))
| main_join_wait c : c_main c = MJoinWait → c_waiter c = WDone → internal c (set_main MJoinWriter (c_input c) c)
| main_join_writer c : c_main c = MJoinWriter → c_writer c = WriterStopped → internal c (set_main MDone (c_input c) c)
(* the pumps *)
| pump_out_send c r rs b :
    c_out c = Some (r :: rs) → pump_read r = Some b → c_receiver c = true →
    internal c (send (FStdout b) (set_pumps (Some rs) (c_err c) c))
| pump_out_stop c r rs :
    c_out c = Some (r :: rs) → (pump_read r = None ∨ c_receiver c = false) →
    internal c (set_pumps None (c_err c) c)
| pump_err_send c r rs b :
    c_err c = Some (r :: rs) → pump_read r = Some b → c_receiver c = true →
    internal c (send (FStderr b) (set_pumps (c_out c) (Some rs) c))
| pump_err_stop c r rs :
    c_err c = Some (r :: rs) → (pump_read r = None ∨ c_receiver c = false) →
    internal c (set_pumps (c_out c) None c)
(* the waiter *)
| wait_join_stdout c : c_waiter c = WJoinStdout → c_out c = None → internal c (set_waiter WJoinStderr None c)
| wait_join_stderr c : c_waiter c = WJoinStderr → c_err c = None → internal c (set_waiter WWait None c)
| wait_reap c :
    c_waiter c = WWait →
    internal c (set_waiter WRemove (Some (to_exit_status (ses_wait (c_session c)))) c)
| wait_remove c :
    c_waiter c = WRemove →
    internal c (set_waiter WSend (c_status c) (upd_reg (λ r, (registry_remove (c_id c) r).1) c))
| wait_send c st :
    c_waiter c = WSend → c_status c = Some st →
    internal c (send (FExit st) (set_waiter WDone (c_status c) c))
(* the writer *)
| writer_write c f fs :
    c_writer c = Writing → c_queue c = f :: fs →
    internal c (set_writer Writing true fs (c_written c ++ [f]) c)
| writer_fail c f fs :
    c_writer c = Writing → c_queue c = f :: fs →
    internal c (set_writer WriterStopped false [] (c_written c) c)
| writer_end c :
    c_writer c = Writing → c_queue c = [] → c_out c = None → c_err c = None → c_waiter c = WDone →
    internal c (set_writer WriterStopped false [] (c_written c) c).

(** A step of another connection on the shared registry. *)
Inductive other : Conn → Conn → Prop :=
| other_number c : (next_id (c_reg c) < U64_MAX)%N → other c (upd_reg (λ r, (registry_number r).1) c)
| other_put c id pgid command now :
    id ≠ c_id c → (1 ≤ id ≤ next_id (c_reg c))%N → other c (upd_reg (registry_put id pgid command now) c)
| other_remove c id : id ≠ c_id c → other c (upd_reg (λ r, (registry_remove id r).1) c).

Definition step (c c' : Conn) : Prop := internal c c' ∨ other c c'.

(** ** The conversation on the channel *)

Definition is_output (f : Frame) : Prop := match f with FStdout _ | FStderr _ => True | _ => False end.

Fixpoint stdout_of (fs : list Frame) : str :=
  match fs with [] => [] | FStdout b :: fs => b ++ stdout_of fs | _ :: fs => stdout_of fs end.
Fixpoint stderr_of (fs : list Frame) : str :=
  match fs with [] => [] | FStderr b :: fs => b ++ stderr_of fs | _ :: fs => stderr_of fs end.

(** What a pump in a given state will still forward. *)
Definition remaining (p : option (list read_result)) : str := match p with Some rs => pump_all rs | None => [] end.

Definition registered (p : wait_phase) : bool := match p with WSend | WDone => false | _ => true end.
Definition reaped (p : wait_phase) : bool := match p with WRemove | WSend | WDone => true | _ => false end.

(** A conversation: [SpawnOk], outputs, and possibly the final [Exit]. *)
Record conversation (c : Conn) (outs tail : list Frame) : Prop := {
  conv_sent : c_sent c = FSpawnOk (c_id c) :: outs ++ tail;
  conv_outs : Forall is_output outs;
  conv_tail : tail = [] ∨
    (c_waiter c = WDone ∧ tail = [FExit (to_exit_status (ses_wait (c_session c)))]);
  conv_complete : c_receiver c = true ∨ tail ≠ [] →
    stdout_of outs ++ remaining (c_out c) = pump_all (ses_stdout (c_session c)) ∧
    stderr_of outs ++ remaining (c_err c) = remaining (ses_stderr (c_session c));
}.

Record conn_inv (c : Conn) : Prop := {
  inv_wf : registry_wf (c_reg c);
  inv_id : (c_id c ≤ next_id (c_reg c))%N;
  inv_contains : contains_me c = registered (c_waiter c);
  inv_stdout : c_waiter c ≠ WJoinStdout → c_out c = None;
  inv_stderr : c_waiter c ≠ WJoinStdout → c_waiter c ≠ WJoinStderr → c_err c = None;
  inv_status : reaped (c_waiter c) = true → c_status c = Some (to_exit_status (ses_wait (c_session c)));
  inv_receiver : c_receiver c = true ↔ c_writer c = Writing;
  inv_fifo : if c_receiver c then c_sent c = c_written c ++ c_queue c
             else c_queue c = [] ∧ c_written c `prefix_of` c_sent c;
  inv_main : c_main c = MJoinWriter ∨ c_main c = MDone → c_waiter c = WDone;
  inv_done : c_main c = MDone → c_writer c = WriterStopped;
  inv_conv : ∃ outs tail, conversation c outs tail;
}.

Lemma pump_read_some r rs b : pump_read r = Some b → (b ++ []) ++ pump_all rs = pump_all (r :: rs).
Proof. simpl. intros ->. by rewrite app_nil_r. Qed.
Lemma pump_read_none r rs : pump_read r = None → pump_all (r :: rs) = [].
Proof. simpl. by intros ->. Qed.

Lemma stdout_of_app a b : stdout_of (a ++ b) = stdout_of a ++ stdout_of b.
Proof. induction a as [|[] a IH]; simpl; rewrite ?IH, ?app_assoc; done. Qed.
Lemma stderr_of_app a b : stderr_of (a ++ b) = stderr_of a ++ stderr_of b.
Proof. induction a as [|[] a IH]; simpl; rewrite ?IH, ?app_assoc; done. Qed.

Lemma start_inv id reg now s req input :
  registry_wf reg → (1 ≤ id ≤ next_id reg)%N → conn_inv (start_session id reg now s req input).
Proof.
  intros Hwf Hn. split; simpl; try done; try tauto.
  - by apply registry_put_wf.
  - unfold contains_me. simpl. apply registry_contains_spec. simpl. rewrite lookup_insert_eq. by eexists.
  - by intros [].
  - exists [], []. split; simpl; [done|constructor|by left|by destruct (ses_stderr s)].
Qed.

(** The client's frames and the other threads' phases do not touch the channel. *)
Lemma on_client_frame_frame failed f c :
  let c' := on_client_frame failed f c in
  (c_id c', c_session c', c_reg c', c_main c', c_out c', c_err c', c_waiter c', c_status c') =
  (c_id c, c_session c, c_reg c, c_main c, c_out c, c_err c, c_waiter c, c_status c) ∧
  (c_writer c', c_receiver c', c_queue c', c_written c', c_sent c') =
  (c_writer c, c_receiver c, c_queue c, c_written c, c_sent c).
Proof. destruct f; simpl; try done; repeat case_match; done. Qed.

(** A step that only moves the reader loop (and the client-visible state). *)
Lemma inv_set_main p input c :
  conn_inv c → (p = MJoinWriter ∨ p = MDone → c_waiter c = WDone) → (p = MDone → c_writer c = WriterStopped) →
  conn_inv (set_main p input c).
Proof.
  intros [] Hp Hd. split; try done. destruct inv_conv0 as (outs & tail & []).
  exists outs, tail. by split.
Qed.

Lemma inv_set_client a b r s c : conn_inv c → conn_inv (set_client a b r s c).
Proof.
  intros []. split; try done. destruct inv_conv0 as (outs & tail & []).
  exists outs, tail. by split.
Qed.

Lemma inv_on_client_frame failed f c : conn_inv c → conn_inv (on_client_frame failed f c).
Proof. intros H. destruct f; simpl; repeat case_match; try done; by apply inv_set_client. Qed.

(** Sending an output frame while the pump advances. *)
Lemma conversation_output c outs tail f o e :
  conversation c outs tail → c_waiter c ≠ WDone → c_receiver c = true → is_output f →
  stdout_of [f] ++ remaining o = remaining (c_out c) →
  stderr_of [f] ++ remaining e = remaining (c_err c) →
  conversation (send f (set_pumps o e c)) (outs ++ [f]) [].
Proof.
  intros [Hs Ho Ht Hc] Hw Hr Hf H1 H2. destruct Ht as [->|[? _]]; [|done].
  unfold send. simpl. rewrite Hr. split; simpl.
  - by rewrite Hs, !app_nil_r.
  - apply Forall_app. split; [done|]. by constructor.
  - by left.
  - intros _. destruct Hc as [Hc1 Hc2]; [by left|].
    rewrite stdout_of_app, stderr_of_app, <- !app_assoc, H1, H2. done.
Qed.

Lemma inv_pump_send c f o e :
  conn_inv c → c_waiter c ≠ WDone → c_receiver c = true → is_output f →
  stdout_of [f] ++ remaining o = remaining (c_out c) →
  stderr_of [f] ++ remaining e = remaining (c_err c) →
  (c_waiter c ≠ WJoinStdout → o = None) → (c_waiter c ≠ WJoinStdout → c_waiter c ≠ WJoinStderr → e = None) →
  conn_inv (send f (set_pumps o e c)).
Proof.
  intros Hi Hw Hr Hf H1 H2 Ho He. pose proof (inv_fifo _ Hi) as Hq. rewrite Hr in Hq.
  destruct (inv_conv _ Hi) as (outs & tail & Hc).
  pose proof (conversation_output _ _ _ _ _ _ Hc Hw Hr Hf H1 H2) as Hc'.
  destruct Hi. unfold send in *. simpl in *. rewrite Hr in *.
  split; simpl; try done.
  - by rewrite Hq, app_assoc.
  - by eauto.
Qed.

Lemma inv_pump_stop c o e :
  conn_inv c → c_waiter c ≠ WDone →
  (c_receiver c = true → remaining o = remaining (c_out c) ∧ remaining e = remaining (c_err c)) →
  (c_waiter c ≠ WJoinStdout → o = None) → (c_waiter c ≠ WJoinStdout → c_waiter c ≠ WJoinStderr → e = None) →
  conn_inv (set_pumps o e c).
Proof.
  intros Hi Hw Hr Ho He. destruct (inv_conv _ Hi) as (outs & tail & [Hs Hf Ht Hc]). destruct Hi.
  split; try done. exists outs, tail. split; try done. simpl.
  intros [Hrx|Htail]; [|by destruct Ht as [->|[? _]]].
  destruct (Hr Hrx) as [-> ->]. apply Hc. by left.
Qed.

(** The waiter's steps before its [Exit]. *)
Lemma inv_set_waiter p st c :
  conn_inv c → p ≠ WDone → c_waiter c ≠ WDone → registered p = registered (c_waiter c) →
  (p ≠ WJoinStdout → c_out c = None) → (p ≠ WJoinStdout → p ≠ WJoinStderr → c_err c = None) →
  (reaped p = true → st = Some (to_exit_status (ses_wait (c_session c)))) →
  conn_inv (set_waiter p st c).
Proof.
  intros Hi Hp Hw Hr Ho He Hst. destruct (inv_conv _ Hi) as (outs & tail & [Hs Hf Ht Hc]). destruct Hi.
  split; try done; simpl.
  - unfold contains_me. simpl. by rewrite Hr.
  - intros [H|H]; exfalso; apply Hw; apply inv_main0; [by left|by right].
  - exists outs, tail. split; try done. simpl. destruct Ht as [Ht|[? _]]; [by left|done].
Qed.

Lemma inv_wait_remove c :
  conn_inv c → c_waiter c = WRemove →
  conn_inv (set_waiter WSend (c_status c) (upd_reg (λ r, (registry_remove (c_id c) r).1) c)).
Proof.
  intros Hi Hw. destruct (inv_conv _ Hi) as (outs & tail & [Hs Hf Ht Hc]). destruct Hi.
  rewrite Hw in *. split; try done; simpl.
  - by apply registry_remove_wf.
  - apply registry_contains_false. simpl. apply lookup_delete_eq.
  - intros _. by apply inv_stdout0.
  - intros _ _. by apply inv_stderr0.
  - intros Hm. apply inv_main0 in Hm. done.
  - exists outs, tail. split; try done. simpl. destruct Ht as [Ht|[? _]]; [by left|congruence].
Qed.

Lemma inv_wait_send c st :
  conn_inv c → c_waiter c = WSend → c_status c = Some st →
  conn_inv (send (FExit st) (set_waiter WDone (c_status c) c)).
Proof.
  intros Hi Hw Hst. destruct (inv_conv _ Hi) as (outs & tail & [Hs Hf Ht Hc]). destruct Hi.
  rewrite Hw in *. rewrite (inv_status0 eq_refl) in Hst. injection Hst as <-.
  destruct Ht as [->|[? _]]; [|done].
  unfold send. simpl. destruct (c_receiver c) eqn:Hr.
  - split; simpl; try done.
    + intros _. by apply inv_stdout0.
    + intros _ _. by apply inv_stderr0.
    + by rewrite inv_fifo0, app_assoc.
    + exists outs, [FExit (to_exit_status (ses_wait (c_session c)))]. split; simpl; try done.
      * by rewrite Hs, app_nil_r.
      * by right.
      * intros _. apply Hc. by left.
  - split; simpl; rewrite ?Hr; try done.
    + intros _. by apply inv_stdout0.
    + intros _ _. by apply inv_stderr0.
    + exists outs, []. split; simpl; rewrite ?Hr; try done; by left.
Qed.

Lemma inv_writer_write c f fs :
  conn_inv c → c_writer c = Writing → c_queue c = f :: fs →
  conn_inv (set_writer Writing true fs (c_written c ++ [f]) c).
Proof.
  intros Hi Hw Hq. destruct (inv_conv _ Hi) as (outs & tail & [Hs Hf Ht Hc]). destruct Hi.
  assert (c_receiver c = true) as Hr by by apply inv_receiver0.
  rewrite Hr in *. split; simpl; try done.
  - by rewrite inv_fifo0, Hq, <- app_assoc.
  - intros Hm. specialize (inv_done0 Hm). congruence.
  - exists outs, tail. by split.
Qed.

Lemma inv_writer_stop c :
  conn_inv c → c_writer c = Writing → conn_inv (set_writer WriterStopped false [] (c_written c) c).
Proof.
  intros Hi Hw. destruct (inv_conv _ Hi) as (outs & tail & [Hs Hf Ht Hc]). destruct Hi.
  assert (c_receiver c = true) as Hr by by apply inv_receiver0.
  rewrite Hr in *. split; simpl; try done.
  - split; [done|]. rewrite inv_fifo0. by apply prefix_app_r.
  - exists outs, tail. split; try done. simpl. intros _. apply Hc. by left.
Qed.

(** A pump that still runs keeps the waiter from its last phases. *)
Lemma pump_running c rs : conn_inv c → c_out c = Some rs → c_waiter c = WJoinStdout.
Proof.
  intros Hi Ho. destruct (c_waiter c) eqn:E; [done|..]; exfalso;
    pose proof (inv_stdout _ Hi) as H; rewrite E, Ho in H; by discriminate H.
Qed.

Lemma pump_err_running c rs : conn_inv c → c_err c = Some rs → c_waiter c = WJoinStdout ∨ c_waiter c = WJoinStderr.
Proof.
  intros Hi He. destruct (c_waiter c) eqn:E; [by left|by right|..]; exfalso;
    pose proof (inv_stderr _ Hi) as H; rewrite E, He in H; by discriminate H.
Qed.

Lemma internal_inv c c' : internal c c' → conn_inv c → conn_inv c'.
Proof.
  intros Hstep Hi. destruct Hstep.
  - apply inv_set_main; [done|by intros [|]|done].
  - apply inv_set_main; [by apply inv_on_client_frame|by intros [|]|done].
  - apply inv_set_main; [done|by intros [|]|done].
  - apply inv_set_main; [done|by case_match; intros [|]|by case_match].
  - case_match; apply inv_set_main; try done; try by intros [|]. by apply inv_set_client.
  - apply inv_set_main; [case_match; [by apply inv_set_client|done]|by intros [|]|done].
  - by apply inv_set_main.
  - apply inv_set_main; [done|intros _; apply (inv_main _ Hi); by left|done].
  - pose proof (pump_running _ _ Hi H) as Hw.
    apply inv_pump_send; rewrite ?Hw, ?H; try done. by apply pump_read_some.
  - pose proof (pump_running _ _ Hi H) as Hw.
    apply inv_pump_stop; rewrite ?Hw, ?H; try done.
    intros Hr. destruct H0 as [Hn|]; [|congruence]. split; [|done].
    symmetry. by apply pump_read_none.
  - pose proof (pump_err_running _ _ Hi H) as Hw.
    apply inv_pump_send; rewrite ?H; try done; try (by destruct Hw as [-> | ->]).
    + by apply pump_read_some.
    + apply (inv_stdout _ Hi).
  - pose proof (pump_err_running _ _ Hi H) as Hw.
    apply inv_pump_stop; rewrite ?H; try done; try (by destruct Hw as [-> | ->]).
    + intros Hr. destruct H0 as [Hn|]; [|congruence]. split; [done|].
      symmetry. by apply pump_read_none.
    + apply (inv_stdout _ Hi).
  - apply inv_set_waiter; rewrite ?H; try done.
  - pose proof (inv_stdout _ Hi) as Ho. rewrite H in Ho.
    apply inv_set_waiter; rewrite ?H; try done. intros _. by apply Ho.
  - pose proof (inv_stdout _ Hi) as Ho. pose proof (inv_stderr _ Hi) as He. rewrite H in Ho, He.
    apply inv_set_waiter; rewrite ?H; try done; intros; [by apply Ho|by apply He].
  - by apply inv_wait_remove.
  - by apply inv_wait_send.
  - by eapply inv_writer_write.
  - by apply inv_writer_stop.
  - by apply inv_writer_stop.
Qed.

Lemma inv_upd_reg f c :
  conn_inv c → registry_wf (f (c_reg c)) → (next_id (c_reg c) ≤ next_id (f (c_reg c)))%N →
  registry_contains (c_id c) (f (c_reg c)) = contains_me c → conn_inv (upd_reg f c).
Proof.
  intros Hi Hwf Hn Hc. destruct Hi. split; try done; simpl.
  - lia.
  - unfold contains_me. simpl. by rewrite Hc.
  - destruct inv_conv0 as (outs & tail & []). exists outs, tail. by split.
Qed.

Lemma other_inv c c' : other c c' → conn_inv c → conn_inv c'.
Proof.
  intros Hstep Hi. destruct Hstep as [c Hn|c id pgid command now Hne Hid|c id Hne].
  - apply inv_upd_reg; [done|apply registry_number_wf; [apply Hi|done]| |done].
    simpl. rewrite u64_succ_small by done. lia.
  - apply inv_upd_reg; [done|apply registry_put_wf; [apply Hi|done]|done|].
    unfold contains_me, registry_contains. simpl. by rewrite lookup_insert_ne.
  - apply inv_upd_reg; [done|apply registry_remove_wf, Hi|done|].
    unfold contains_me, registry_contains. simpl. by rewrite lookup_delete_ne.
Qed.

Lemma reach_inv c c' : rtc step c c' → conn_inv c → conn_inv c'.
Proof.
  induction 1 as [|c1 c2 c3 [Hs|Hs] _ IH]; [done|..]; intros Hi; apply IH;
    [by eapply internal_inv|by eapply other_inv].
Qed.

Lemma step_fixed c c' : step c c' → c_id c' = c_id c ∧ c_session c' = c_session c.
Proof.
  intros [Hs|Hs]; destruct Hs; try done; unfold send; simpl; repeat case_match; try done.
  destruct (on_client_frame_frame failed f c) as [He _]. by injection He as -> -> _.
Qed.

Lemma reach_fixed c c' : rtc step c c' → c_id c' = c_id c ∧ c_session c' = c_session c.
Proof.
  induction 1 as [|c1 c2 c3 Hs _ [IH1 IH2]]; [done|]. destruct (step_fixed _ _ Hs) as [H1 H2].
  split; congruence.
Qed.

(** ** What the client's frames amount to *)

Fixpoint signals_of (fs : list Frame) : list Z :=
  match fs with [] => [] | FSignal s :: fs => as_libc s :: signals_of fs | _ :: fs => signals_of fs end.
Fixpoint stdin_of (fs : list Frame) : str :=
  match fs with [] => [] | FStdin b :: fs => b ++ stdin_of fs | _ :: fs => stdin_of fs end.

Lemma signals_of_app a b : signals_of (a ++ b) = signals_of a ++ signals_of b.
Proof. induction a as [|[] a IH]; simpl; rewrite ?IH; done. Qed.
Lemma stdin_of_app a b : stdin_of (a ++ b) = stdin_of a ++ stdin_of b.
Proof. induction a as [|[] a IH]; simpl; rewrite ?IH, ?app_assoc; done. Qed.

(** The signals of the disconnect escalation possible in a phase of the reader. *)
Definition escalation (p : main_phase) (esc : list Z) : Prop :=
  match p with
  | MLoop | MFrame _ | MCheck | MEscalate => esc = []
  | MGrace => esc = [SIGTERM]
  | _ => esc ∈ [[]; [SIGTERM]; [SIGTERM; SIGKILL]]
  end.

(** The reader in its loop, and the frame it has read and not acted upon. *)
Definition in_loop (p : main_phase) : bool := match p with MLoop | MFrame _ | MCheck => true | _ => false end.
Definition pending (p : main_phase) : list Frame := match p with MFrame f => [f] | _ => [] end.

Record client_inv (input : list Frame) (c : Conn) (consumed : list Frame) (esc : list Z) : Prop := {
  ci_input : consumed `prefix_of` input;
  ci_rest : in_loop (c_main c) = true → input = consumed ++ pending (c_main c) ++ c_input c;
  ci_signals : c_signals c = signals_of consumed ++ esc;
  ci_esc : escalation (c_main c) esc;
  ci_stdin : if c_stdin c then c_stdin_bytes c = stdin_of consumed
             else c_stdin_bytes c `prefix_of` stdin_of consumed;
}.

Lemma client_inv_read input c f fs consumed :
  client_inv input c consumed [] → c_main c = MLoop → c_input c = f :: fs →
  client_inv input (set_main (MFrame f) fs c) consumed [].
Proof.
  intros [Hp Hr Hs He Hi] Hm Hin. rewrite Hm, Hin in Hr. by split.
Qed.

Lemma client_inv_frame input c f failed consumed :
  client_inv input c consumed [] → c_main c = MFrame f →
  client_inv input (set_main MCheck (c_input c) (on_client_frame failed f c)) (consumed ++ [f]) [].
Proof.
  intros [Hp Hr Hs He Hi] Hm. rewrite Hm in Hr. specialize (Hr eq_refl). simpl in Hr.
  assert (input = (consumed ++ [f]) ++ c_input c) as Hr' by by rewrite Hr, <- app_assoc.
  split; simpl; try done.
  - by exists (c_input c).
  - rewrite signals_of_app, app_nil_r. rewrite app_nil_r in Hs.
    destruct f; simpl; repeat case_match; simpl; rewrite ?Hs, ?app_nil_r; done.
  - rewrite stdin_of_app.
    destruct f; simpl; repeat case_match; simplify_eq/=; rewrite ?app_nil_r; try done;
      rewrite ?Hi; try done; try congruence; try (by apply prefix_app_r); try (by apply prefix_app, prefix_take).
Qed.

Lemma client_inv_phase input c consumed esc p esc' sigs :
  client_inv input c consumed esc → (in_loop p = true → in_loop (c_main c) = true ∧ pending p = pending (c_main c)) →
  sigs = signals_of consumed ++ esc' → escalation p esc' →
  client_inv input (set_main p (c_input c) (set_client (c_stdin c) (c_stdin_bytes c) (c_resizes c) sigs c)) consumed esc'.
Proof.
  intros [Hp Hr Hs He Hi] Hph -> Hesc. split; simpl; try done. intros Hl. destruct (Hph Hl) as [Hl' ->]. by apply Hr.
Qed.

Lemma set_client_id c : set_client (c_stdin c) (c_stdin_bytes c) (c_resizes c) (c_signals c) c = c.
Proof. by destruct c. Qed.

Lemma client_inv_move input c consumed esc p :
  client_inv input c consumed esc → (in_loop p = true → in_loop (c_main c) = true ∧ pending p = pending (c_main c)) →
  escalation p esc → client_inv input (set_main p (c_input c) c) consumed esc.
Proof.
  intros Hc Hp He. rewrite <- (set_client_id c) at 2. eapply client_inv_phase; try done. apply Hc.
Qed.

Lemma client_inv_kill input c consumed esc p sig :
  client_inv input c consumed esc → in_loop p = false → escalation p (esc ++ [sig]) →
  client_inv input (set_main p (c_input c) (kill_group sig c)) consumed (esc ++ [sig]).
Proof.
  intros Hc Hp He. apply (client_inv_phase input c consumed esc p (esc ++ [sig])); try done; [by rewrite Hp|].
  by rewrite (ci_signals _ _ _ _ Hc), app_assoc.
Qed.

(** Steps that leave the reader's fields alone keep its invariant. *)
Lemma client_inv_same input c c' consumed esc :
  client_inv input c consumed esc →
  (c_main c', c_input c', c_signals c', c_stdin c', c_stdin_bytes c') =
  (c_main c, c_input c, c_signals c, c_stdin c, c_stdin_bytes c) →
  client_inv input c' consumed esc.
Proof. intros [Hp Hr Hs He Hi] [= E1 E2 E3 E4 E5]. split; rewrite ?E1, ?E2, ?E3, ?E4, ?E5; done. Qed.

Lemma escalation_more p esc : escalation p esc → esc ∈ [[]; [SIGTERM]; [SIGTERM; SIGKILL]].
Proof. destruct p; simpl; intros H; try done; subst; rewrite !elem_of_cons; auto. Qed.

Lemma internal_client input c c' consumed esc :
  internal c c' → client_inv input c consumed esc → ∃ consumed' esc', client_inv input c' consumed' esc'.
Proof.
  intros Hs Hc. pose proof (ci_esc _ _ _ _ Hc) as He.
  destruct Hs; try (exists consumed, esc; apply (client_inv_same _ c); [done|unfold send; simpl; by repeat case_match]).
  - rewrite H in He. simpl in He. subst esc. eexists _, _. by eapply client_inv_read.
  - rewrite H in He. simpl in He. subst esc. eexists _, _. by eapply client_inv_frame.
  - exists consumed, esc. replace [] with (c_input c) by done. apply client_inv_move; [done|done|]. by rewrite H in He.
  - exists consumed, esc. apply client_inv_move; [done|rewrite H; by case_match|]. rewrite H in He. by case_match.
  - rewrite H in He. simpl in He. subst esc. case_match.
    + eexists consumed, _. by apply (client_inv_kill input c consumed [] MGrace SIGTERM).
    + exists consumed, []. apply client_inv_move; [done|done|]. simpl. by left.
  - rewrite H in He. simpl in He. subst esc. case_match.
    + eexists consumed, _. apply (client_inv_kill input c consumed [SIGTERM] MJoinWait SIGKILL); try done.
      simpl. rewrite !elem_of_cons. auto.
    + exists consumed, [SIGTERM]. apply client_inv_move; [done|done|]. simpl. rewrite !elem_of_cons. auto.
  - exists consumed, esc. apply client_inv_move; [done|done|]. by rewrite H in He.
  - exists consumed, esc. apply client_inv_move; [done|done|]. by rewrite H in He.
Qed.

Lemma reach_client input c c' consumed esc :
  rtc step c c' → client_inv input c consumed esc → ∃ consumed' esc', client_inv input c' consumed' esc'.
Proof.
  intros Hr. revert consumed esc. induction Hr as [|c1 c2 c3 [Hs|Hs] _ IH]; intros consumed esc Hc.
  - by exists consumed, esc.
  - destruct (internal_client _ _ _ _ _ Hs Hc) as (? & ? & ?). by eapply IH.
  - apply (IH consumed esc). apply (client_inv_same _ c1); [done|]. by destruct Hs.
Qed.

(** ** Progress *)

Definition main_rank (p : main_phase) : nat :=
  match p with
  | MFrame _ => 7 | MCheck => 6 | MLoop => 5 | MEscalate => 4 | MGrace => 3 | MJoinWait => 2 | MJoinWriter => 1 | MDone => 0
  end.
Definition wait_rank (p : wait_phase) : nat :=
  match p with WJoinStdout => 6 | WJoinStderr => 5 | WWait => 4 | WRemove => 3 | WSend => 2 | WDone => 0 end.
Definition pump_rank (p : option (list read_result)) : nat := match p with Some rs => S (2 * length rs) | None => 0 end.

(** What the connection's own threads still have to do. *)
Definition work (c : Conn) : nat :=
  main_rank (c_main c) + 3 * length (c_input c) + wait_rank (c_waiter c) + pump_rank (c_out c) + pump_rank (c_err c)
  + length (c_queue c) + (match c_writer c with Writing => 1 | WriterStopped => 0 end).

Lemma internal_work c c' : internal c c' → work c' < work c.
Proof.
  destruct 1.
  2: { destruct (on_client_frame_frame failed f c) as [E1 E2]. injection E1 as _ _ _ _ E3 E4 E5 _. injection E2 as E6 _ E7 _ _.
       unfold work. simpl. rewrite E3, E4, E5, E6, E7, H. simpl. lia. }
  all: unfold work, send, kill_group; simpl; repeat case_match; simplify_eq/=; try congruence; repeat match goal with H : _ _ = _ |- _ => rewrite ?H; clear H end; rewrite ?length_app; simpl; lia.
Qed.

Lemma other_work c c' : other c c' → work c' = work c.
Proof. by destruct 1. Qed.

(** What the next operation of a thread waits for.  [Ready]: for nothing but
    the registry's mutex, a fixed delay, or room in an unbounded queue.  The
    client is waited for to send and to receive, the child to write, read or
    exit; neither has to. *)
Inductive ConnThread := ReaderLoop | StdoutPump | StderrPump | Waiter | Writer.
Inductive Peer := Client | Child.
Inductive Waiting := Ended | Ready | OnPeer (p : Peer) | OnThread (th : ConnThread).
#[export] Instance conn_thread_eq_dec : EqDecision ConnThread.
Proof. solve_decision. Defined.

Definition pump_waits (p : option (list read_result)) : Waiting := match p with Some _ => OnPeer Child | None => Ended end.
Definition waiter_waits (c : Conn) : Waiting :=
  match c_waiter c with
  | WJoinStdout => match c_out c with Some _ => OnThread StdoutPump | None => Ready end
  | WJoinStderr => match c_err c with Some _ => OnThread StderrPump | None => Ready end
  | WWait => OnPeer Child
  | WRemove | WSend => Ready
  | WDone => Ended
  end.
(** The writer's [recv] waits for a frame or for the last sender to go. *)
Definition writer_waits (c : Conn) : Waiting :=
  match c_writer c, c_queue c with
  | WriterStopped, _ => Ended
  | Writing, _ :: _ => OnPeer Client
  | Writing, [] => match waiter_waits c with Ended => Ready | _ => OnThread Waiter end
  end.

Definition waits (c : Conn) (th : ConnThread) : Waiting :=
  match th with
  | ReaderLoop =>
      match c_main c with
      | MLoop => OnPeer Client
      | MFrame (FStdin _) => if c_stdin c then OnPeer Child else Ready
      | MFrame _ | MCheck | MEscalate | MGrace => Ready
      | MJoinWait => match waiter_waits c with Ended => Ready | _ => OnThread Waiter end
      | MJoinWriter => match c_writer c with WriterStopped => Ready | Writing => OnThread Writer end
      | MDone => Ended
      end
  | StdoutPump => pump_waits (c_out c)
  | StderrPump => pump_waits (c_err c)
  | Waiter => waiter_waits c
  | Writer => writer_waits c
  end.

(** Where a thread is. *)
Inductive ThreadState :=
| ReaderAt (p : main_phase) (rest : list Frame)
| PumpAt (p : option (list read_result))
| WaiterAt (p : wait_phase)
| WriterAt (p : writer_phase) (written : list Frame).

Definition thread_state (c : Conn) (th : ConnThread) : ThreadState :=
  match th with
  | ReaderLoop => ReaderAt (c_main c) (c_input c)
  | StdoutPump => PumpAt (c_out c)
  | StderrPump => PumpAt (c_err c)
  | Waiter => WaiterAt (c_waiter c)
  | Writer => WriterAt (c_writer c) (c_written c)
  end.

(** A step of one thread: the others stay where they are. *)
Definition moves (th : ConnThread) (c c' : Conn) : Prop :=
  internal c c' ∧ thread_state c' th ≠ thread_state c th ∧ ∀ th', th' ≠ th → thread_state c' th' = thread_state c th'.

Definition finished (c : Conn) : Prop :=
  c_main c = MDone ∧ c_waiter c = WDone ∧ c_writer c = WriterStopped ∧ contains_me c = false.

(** A pump of a child that neither writes more nor closes the pipe. *)
Definition silent (st : ThreadState) : Prop := st = PumpAt (Some []).

Lemma list_neq_cons {A} (x : A) l : l ≠ x :: l.
Proof. intros E. by apply (f_equal length), Nat.neq_succ_diag_r in E. Qed.
Lemma list_neq_snoc {A} (x : A) l : l ++ [x] ≠ l.
Proof. intros E. apply (f_equal length) in E. rewrite length_app in E. simpl in E. lia. Qed.

Lemma pump_out_moves c r rs : c_out c = Some (r :: rs) → ∃ c', moves StdoutPump c c'.
Proof.
  intros Ho. destruct (pump_read r) eqn:Er; [destruct (c_receiver c) eqn:Hr|]; eexists;
    (split; [first [by eapply pump_out_send|eapply pump_out_stop; eauto]|]).
  - split; [unfold send; simpl; rewrite Hr, Ho; simpl; intros [= E]; by apply list_neq_cons in E|].
    intros [] Hne; unfold send; simpl; rewrite ?Hr; done.
  - split; [simpl; by rewrite Ho|]. by intros [].
  - split; [simpl; by rewrite Ho|]. by intros [].
Qed.

Lemma pump_err_moves c r rs : c_err c = Some (r :: rs) → ∃ c', moves StderrPump c c'.
Proof.
  intros Ho. destruct (pump_read r) eqn:Er; [destruct (c_receiver c) eqn:Hr|]; eexists;
    (split; [first [by eapply pump_err_send|eapply pump_err_stop; eauto]|]).
  - split; [unfold send; simpl; rewrite Hr, Ho; simpl; intros [= E]; by apply list_neq_cons in E|].
    intros [] Hne; unfold send; simpl; rewrite ?Hr; done.
  - split; [simpl; by rewrite Ho|]. by intros [].
  - split; [simpl; by rewrite Ho|]. by intros [].
Qed.

Lemma waiter_moves c : conn_inv c → waiter_waits c = Ready ∨ c_waiter c = WWait → ∃ c', moves Waiter c c'.
Proof.
  intros Hi Hw. unfold waiter_waits in Hw. destruct (c_waiter c) eqn:Ew; try (destruct Hw; discriminate).
  - destruct (c_out c) eqn:Eo; [by destruct Hw|]. eexists. split; [by eapply wait_join_stdout|].
    split; [simpl; by rewrite Ew|by intros []].
  - destruct (c_err c) eqn:Eo; [by destruct Hw|]. eexists. split; [by eapply wait_join_stderr|].
    split; [simpl; by rewrite Ew|by intros []].
  - eexists. split; [by eapply wait_reap|]. split; [simpl; by rewrite Ew|by intros []].
  - eexists. split; [by eapply wait_remove|]. split; [simpl; by rewrite Ew|by intros []].
  - eexists. split; [eapply wait_send; [done|]; apply (inv_status _ Hi); by rewrite Ew|].
    split; [unfold send; simpl; case_match; simpl; by rewrite Ew|]. intros [] Hne; unfold send; simpl; case_match; done.
Qed.

Lemma waiter_ended c : waiter_waits c = Ended → c_waiter c = WDone.
Proof. unfold waiter_waits. by repeat case_match. Qed.

Lemma writer_moves c : conn_inv c → writer_waits c = Ready ∨ writer_waits c = OnPeer Client → ∃ c', moves Writer c c'.
Proof.
  intros Hi Hw. unfold writer_waits in Hw. destruct (c_writer c) eqn:Ew; [|by destruct Hw]. destruct (c_queue c) eqn:Eq.
  - destruct (waiter_waits c) eqn:He; try (by destruct Hw). apply waiter_ended in He. eexists. split.
    + eapply writer_end; try done; [apply (inv_stdout _ Hi)|apply (inv_stderr _ Hi)]; by rewrite He.
    + split; [simpl; by rewrite Ew|by intros []].
  - eexists. split; [by eapply writer_write|]. split; [simpl; rewrite Ew; intros [= E]; by apply list_neq_snoc in E|by intros []].
Qed.

Lemma reader_moves c : waits c ReaderLoop = Ready ∨ (∃ p, waits c ReaderLoop = OnPeer p) → ∃ c', moves ReaderLoop c c'.
Proof.
  intros Hw. destruct (c_main c) as [|f| | | | | |] eqn:Em.
  - destruct (c_input c) as [|f fs] eqn:Ei.
    + eexists. split; [by eapply main_eof|]. split; [simpl; by rewrite Em|by intros []].
    + eexists. split; [by eapply main_read|]. split; [simpl; by rewrite Em|by intros []].
  - eexists. split; [by apply (main_frame c f None)|].
    destruct (on_client_frame_frame None f c) as [E1 E2]. injection E1 as _ _ _ _ E3 E4 E5 _. injection E2 as E6 _ _ E7 _.
    split; [simpl; by rewrite Em|]. intros [] Hne; simpl; congruence.
  - eexists. split; [by eapply main_check|]. split; [simpl; rewrite Em; by case_match|by intros []].
  - eexists. split; [by eapply main_escalate|]. split; [simpl; rewrite Em; by case_match|intros [] Hne; simpl; (done || by case_match)].
  - eexists. split; [by eapply main_grace|]. split; [simpl; by rewrite Em|intros [] Hne; simpl; (done || by case_match)].
  - simpl in Hw. rewrite Em in Hw. destruct (waiter_waits c) eqn:Ew; try (by destruct Hw as [|[? ?]]).
    apply waiter_ended in Ew. eexists. split; [by eapply main_join_wait|]. split; [simpl; by rewrite Em|by intros []].
  - simpl in Hw. rewrite Em in Hw. destruct (c_writer c) eqn:Ew; [by destruct Hw as [|[? ?]]|].
    eexists. split; [by eapply main_join_writer|]. split; [simpl; by rewrite Em|by intros []].
  - simpl in Hw. rewrite Em in Hw. by destruct Hw as [|[? ?]].
Qed.

(** A thread that waits for nothing can move, and so can one whose client or
    child does its part. *)
Lemma thread_moves_on c th :
  conn_inv c → waits c th = Ready ∨ (∃ p, waits c th = OnPeer p) → (∃ c', moves th c c') ∨ silent (thread_state c th).
Proof.
  intros Hi Hw. destruct th; simpl in Hw.
  - left. by apply reader_moves.
  - unfold pump_waits in Hw. destruct (c_out c) as [[|r rs]|] eqn:Eo; [right; unfold silent; simpl; by rewrite Eo|left|by destruct Hw as [|[? ?]]].
    by eapply pump_out_moves.
  - unfold pump_waits in Hw. destruct (c_err c) as [[|r rs]|] eqn:Eo; [right; unfold silent; simpl; by rewrite Eo|left|by destruct Hw as [|[? ?]]].
    by eapply pump_err_moves.
  - left. apply waiter_moves; [done|]. destruct Hw as [|[p Hp]]; [by left|right].
    unfold waiter_waits in Hp. by repeat case_match.
  - left. apply writer_moves; [done|]. destruct Hw as [|[p Hp]]; [by left|right].
    unfold writer_waits in *. by repeat case_match; simplify_eq/=.
Qed.

(** Threads wait for each other in one direction only. *)
Definition waits_for (c : Conn) (th th' : ConnThread) : Prop := waits c th = OnThread th'.

Lemma waiter_joins c th : waiter_waits c = OnThread th → waits c th = OnPeer Child.
Proof.
  unfold waiter_waits. destruct (c_waiter c); try done.
  - destruct (c_out c) eqn:E; [|done]. intros [= <-]. simpl. by rewrite E.
  - destruct (c_err c) eqn:E; [|done]. intros [= <-]. simpl. by rewrite E.
Qed.

Lemma waits_rooted c th :
  waits c th = Ended ∨ ∃ th', rtc (waits_for c) th th' ∧ (waits c th' = Ready ∨ ∃ p, waits c th' = OnPeer p).
Proof.
  assert (∀ th, (waits c th = Ready ∨ ∃ p, waits c th = OnPeer p) →
    ∃ th', rtc (waits_for c) th th' ∧ (waits c th' = Ready ∨ ∃ p, waits c th' = OnPeer p)) as Hself.
  { intros th0 Hw. exists th0. split; [apply rtc_refl|done]. }
  assert (∀ th th1, waits c th = OnThread th1 → (∃ th', rtc (waits_for c) th1 th' ∧ (waits c th' = Ready ∨ ∃ p, waits c th' = OnPeer p)) →
    ∃ th', rtc (waits_for c) th th' ∧ (waits c th' = Ready ∨ ∃ p, waits c th' = OnPeer p)) as Hnext.
  { intros th0 th1 Hw (th' & Hr & Ht). exists th'. split; [by eapply rtc_l|done]. }
  assert (waiter_waits c = Ended ∨ ∃ th', rtc (waits_for c) Waiter th' ∧ (waits c th' = Ready ∨ ∃ p, waits c th' = OnPeer p)) as Hwaiter.
  { destruct (waiter_waits c) as [| |p|th1] eqn:Ew; [by left|right..].
    - apply Hself. by left.
    - apply Hself. right. by exists p.
    - apply (Hnext Waiter th1 Ew), Hself. right. exists Child. by apply (waiter_joins c th1 Ew). }
  assert (writer_waits c = Ended ∨ ∃ th', rtc (waits_for c) Writer th' ∧ (waits c th' = Ready ∨ ∃ p, waits c th' = OnPeer p)) as Hwriter.
  { destruct (writer_waits c) as [| |p|th1] eqn:Ew; [by left|right..].
    - apply Hself. by left.
    - apply Hself. right. by exists p.
    - apply (Hnext Writer th1 Ew). unfold writer_waits in Ew. repeat case_match; simplify_eq; by destruct Hwaiter. }
  destruct (waits c th) as [| |p|th1] eqn:Ew; [by left|right..].
  - apply Hself. by left.
  - apply Hself. right. by exists p.
  - apply (Hnext _ th1 Ew). destruct th; simpl in Ew.
    + repeat case_match; simplify_eq; try (by destruct Hwaiter). destruct Hwriter as [Hw|]; [|done].
      unfold writer_waits in Hw. by repeat case_match; simplify_eq.
    + by destruct (c_out c).
    + by destruct (c_err c).
    + apply Hself. right. exists Child. by apply waiter_joins.
    + unfold writer_waits in Ew. repeat case_match; simplify_eq; by destruct Hwaiter.
Qed.

Lemma all_ended c : conn_inv c → (∀ th, waits c th = Ended) ↔ finished c.
Proof.
  intros Hi. split.
  - intros Ha. pose proof (waiter_ended c (Ha Waiter)) as Hw. split; [|split; [done|split]].
    + pose proof (Ha ReaderLoop) as Hr. simpl in Hr. by repeat case_match.
    + pose proof (Ha Writer) as Hr. simpl in Hr. unfold writer_waits in Hr. by repeat case_match.
    + by rewrite (inv_contains _ Hi), Hw.
  - intros (Hm & Hw & Hwr & _). intros []; simpl.
    + by rewrite Hm.
    + by rewrite (inv_stdout _ Hi) by by rewrite Hw.
    + by rewrite (inv_stderr _ Hi) by by rewrite Hw.
    + unfold waiter_waits. by rewrite Hw.
    + unfold writer_waits. by rewrite Hwr.
Qed.

(** A thread that waits for nothing goes on waiting for nothing until it moves. *)
Lemma ended_stays c c' : step c c' → waiter_waits c = Ended → waiter_waits c' = Ended.
Proof.
  intros Hs He%waiter_ended. assert (c_waiter c' = WDone) as E; [|unfold waiter_waits; by rewrite E].
  destruct Hs as [Hs|Hs]; destruct Hs; try (unfold send; simpl; repeat case_match; simplify_eq/=; congruence).
  destruct (on_client_frame_frame failed f c) as [[= _ _ _ _ _ _ Ew _] _]. simpl. congruence.
Qed.

Lemma waiter_stays_ready c c' : step c c' → c_waiter c' = c_waiter c → waiter_waits c = Ready → waiter_waits c' = Ready.
Proof.
  unfold waiter_waits. intros Hs ->.
  assert ((c_out c = None → c_out c' = None) ∧ (c_err c = None → c_err c' = None)) as [Ho He].
  { destruct Hs as [Hs|Hs]; destruct Hs; unfold send; simpl; try (repeat case_match; simpl; split; congruence).
    destruct (on_client_frame_frame failed f c) as [[= _ _ _ _ Eo Ee _ _] _]. by rewrite Eo, Ee. }
  repeat case_match; intros; simplify_eq/=; try done; try (by discriminate Ho); try (by discriminate He).
Qed.

Lemma writer_stays_ready c c' :
  conn_inv c → step c c' → (c_writer c', c_written c') = (c_writer c, c_written c) → writer_waits c = Ready → writer_waits c' = Ready.
Proof.
  unfold writer_waits. intros Hi Hs [= -> _] Hw. destruct (c_writer c) eqn:Ew; [|done].
  destruct (c_queue c) eqn:Eq; [|done]. destruct (waiter_waits c) eqn:Ed; try done.
  rewrite (ended_stays _ _ Hs Ed). apply waiter_ended in Ed.
  assert (c_queue c' = []) as ->; [|done].
  pose proof (inv_stdout _ Hi) as Ho. pose proof (inv_stderr _ Hi) as He. rewrite Ed in Ho, He.
  specialize (Ho ltac:(done)). specialize (He ltac:(done) ltac:(done)).
  destruct Hs as [Hs|Hs]; destruct Hs; unfold send; simpl; try (repeat case_match; simplify_eq/=; congruence).
  destruct (on_client_frame_frame failed f c) as [_ [= _ _ Eqq _ _]]. congruence.
Qed.

Lemma reader_stays_ready c c' :
  step c c' → (c_main c', c_input c') = (c_main c, c_input c) → waits c ReaderLoop = Ready → waits c' ReaderLoop = Ready.
Proof.
  simpl. intros Hs [= Em Ei] Hw. rewrite Em. destruct (c_main c) as [|f| | | | | |] eqn:Ec; try done.
  - destruct f; try done. destruct (c_stdin c) eqn:Es; [done|].
    assert (c_stdin c' = false) as ->; [|done].
    destruct Hs as [Hs|Hs]; destruct Hs; unfold send; simpl in *; try (repeat case_match; simplify_eq/=; congruence).
  - destruct (waiter_waits c) eqn:Ed; try done. by rewrite (ended_stays _ _ Hs Ed).
  - destruct (c_writer c) eqn:Ed; [done|]. assert (c_writer c' = WriterStopped) as ->; [|done].
    destruct Hs as [Hs|Hs]; destruct Hs; unfold send; simpl in *; try (repeat case_match; simplify_eq/=; congruence).
Qed.

Lemma stays_ready c c' th :
  conn_inv c → step c c' → thread_state c' th = thread_state c th → waits c th = Ready → waits c' th = Ready.
Proof.
  intros Hi Hs. destruct th; intros [= E] Hw.
  - apply (reader_stays_ready c); [done|congruence|done].
  - simpl in Hw. by destruct (c_out c).
  - simpl in Hw. by destruct (c_err c).
  - by apply (waiter_stays_ready c).
  - apply (writer_stays_ready c); [done|done|congruence|done].
Qed.

(** ** Properties *)

(** C9: whatever the interleaving of the connection's threads with each other
    and with other connections, what the client has been sent is a prefix of
    one conversation: [SpawnOk] with the session's id first, then only output
    frames, and at most one [Exit], last, carrying the child's status.  When
    the [Exit] is part of it, the outputs before it are everything the child
    wrote to each pipe, complete and in order. *)
Theorem client_sees_conversation id reg now s req input c
    (Hwf : registry_wf reg) (Hn : (1 ≤ id ≤ next_id reg)%N)
    (Hr : rtc step (start_session id reg now s req input) c) :
  ∃ outs tail,
    c_written c `prefix_of` FSpawnOk (c_id c) :: outs ++ tail ∧ Forall is_output outs ∧
    (tail = [] ∨
     tail = [FExit (to_exit_status (ses_wait s))] ∧
     stdout_of outs = pump_all (ses_stdout s) ∧ stderr_of outs = remaining (ses_stderr s)).
Proof.
  pose proof (reach_inv _ _ Hr (start_inv id reg now s req input Hwf Hn)) as Hi.
  destruct (reach_fixed _ _ Hr) as [_ Hs]. simpl in Hs.
  destruct (inv_conv _ Hi) as (outs & tail & [Hsent Houts Htail Hc]). rewrite Hs in Htail, Hc.
  exists outs, tail. split; [|split; [done|]].
  - rewrite <- Hsent. pose proof (inv_fifo _ Hi) as Hq. destruct (c_receiver c); [|apply Hq].
    rewrite Hq. by apply prefix_app_r.
  - destruct Htail as [->|[Hw ->]]; [by left|]. right. split; [done|].
    destruct Hc as [H1 H2]; [by right|].
    rewrite (inv_stdout _ Hi), app_nil_r in H1 by by rewrite Hw.
    rewrite (inv_stderr _ Hi), app_nil_r in H2 by by rewrite Hw. done.
Qed.

(** The session is in the registry exactly from its [SpawnOk] until its
    waiter removed it after the child was reaped and all its output forwarded,
    whatever other connections do to the registry meanwhile; [Exit] is only
    ever sent after the removal. *)
Theorem registered_until_reaped id reg now s req input c
    (Hwf : registry_wf reg) (Hn : (1 ≤ id ≤ next_id reg)%N)
    (Hr : rtc step (start_session id reg now s req input) c) :
  (registry_contains (c_id c) (c_reg c) = true ↔ c_waiter c ≠ WSend ∧ c_waiter c ≠ WDone) ∧
  (registry_contains (c_id c) (c_reg c) = false → c_out c = None ∧ c_err c = None) ∧
  (∀ st, FExit st ∈ c_sent c → registry_contains (c_id c) (c_reg c) = false).
Proof.
  pose proof (reach_inv _ _ Hr (start_inv id reg now s req input Hwf Hn)) as Hi.
  pose proof (inv_contains _ Hi) as Hc. unfold contains_me in Hc.
  split; [|split].
  - rewrite Hc. destruct (c_waiter c); simpl; naive_solver.
  - rewrite Hc. intros Hw. split; [apply (inv_stdout _ Hi)|apply (inv_stderr _ Hi)]; intros E; by rewrite E in Hw.
  - intros st Hst. rewrite Hc. destruct (inv_conv _ Hi) as (outs & tail & [Hsent Houts Htail _]).
    rewrite Hsent in Hst. destruct Htail as [->|[-> _]]; [|done].
    apply elem_of_cons in Hst as [|Hst]; [done|]. rewrite app_nil_r in Hst.
    rewrite Forall_forall in Houts. by apply Houts in Hst.
Qed.

(** The child's group only ever receives the signals the client asked for,
    in order, followed after the client is gone by nothing, by SIGTERM, or by
    SIGTERM then SIGKILL; and the child's standard input only ever holds a
    prefix of the bytes the client sent for it. *)
Theorem signals_and_stdin id reg now s req input c
    (Hr : rtc step (start_session id reg now s req input) c) :
  ∃ consumed esc, consumed `prefix_of` input ∧
    c_signals c = signals_of consumed ++ esc ∧ esc ∈ [[]; [SIGTERM]; [SIGTERM; SIGKILL]] ∧
    (in_loop (c_main c) = true → esc = []) ∧
    c_stdin_bytes c `prefix_of` stdin_of consumed.
Proof.
  assert (client_inv input (start_session id reg now s req input) [] []) as H0.
  { split; simpl; try done; [apply prefix_nil|]. by destruct (ses_stdin s). }
  destruct (reach_client _ _ _ _ _ Hr H0) as (consumed & esc & [Hp _ Hs He Hi]).
  exists consumed, esc. split; [done|]. split; [done|]. split; [by eapply escalation_more|]. split.
  - intros H. by destruct (c_main c).
  - destruct (c_stdin c); [by rewrite Hi|done].
Qed.

(** The first frame decides: only a [Spawn] that the backend accepts starts
    a session, a [Query] is answered with one summary per registered session,
    a refused spawn or any other frame is answered with [SpawnErr], and an
    unreadable first frame gets no answer. *)
Theorem handle_first_spec spawn reg uptime first :
  match handle_first spawn reg uptime first with
  | Start req s => first = Ok (FSpawn req) ∧ spawn req = Ok s
  | ReplyAndClose (FQueryResult q) => first = Ok FQuery ∧ uptime_secs q = uptime ∧
      ∀ id command t, {| sum_id := id; sum_command := command; started_unix := t |} ∈ sessions q ↔
        ∃ pgid, reg_sessions reg !! id = Some {| info_pgid := pgid; info_command := command; info_started := t |}
  | ReplyAndClose (FSpawnErr e) =>
      (∃ req, first = Ok (FSpawn req) ∧ spawn req = Err e) ∨
      (e = EXPECTED_SPAWN ∧ ∃ f, first = Ok f ∧ f ≠ FQuery ∧ ∀ req, f ≠ FSpawn req)
  | ReplyAndClose _ => False
  | Closed => ∃ e, first = Err e
  end.
Proof.
  unfold handle_first. destruct first as [f|e]; [|by eexists].
  destruct f; try (right; split; [done|]; eexists; split; [done|]; split; [done|]; by intros ?).
  - destruct (spawn req) as [s|e] eqn:E; [done|left; by eexists].
  - split; [done|]. split; [done|]. intros id command t. simpl. rewrite list_elem_of_fmap. split.
    + intros ([id' [pgid command' t']] & [= -> -> ->] & Hin). exists pgid.
      by apply elem_of_map_to_list in Hin.
    + intros [pgid Hl]. exists (id, {| info_pgid := pgid; info_command := command; info_started := t |}).
      split; [done|]. by apply elem_of_map_to_list.
Qed.

(** ** A sample run: a child that prints [hi] and exits, its client gone at once *)

Definition sample_session : Session :=
  {| ses_pgid := 42; ses_stdin := true; ses_stdout := [ReadBytes "hi"; ReadBytes []];
     ses_stderr := Some [ReadErr true]; ses_resizable := false; ses_wait := Ok (Some 0%Z, None) |}.

Definition sample_start : Conn := start_session 1 (registry_number registry_new).1 0 sample_session sample_request [FSignal Int].

Definition sample_conversation : list Frame :=
  [FSpawnOk 1; FStdout "hi"; FExit {| exit_code := Some 0%Z; exit_signal := None |}].

Lemma sample_run :
  ∃ c, rtc step sample_start c ∧ c_sent c = sample_conversation ∧ c_signals c = [2; 15]%Z ∧ c_main c = MJoinWait.
Proof.
  eexists. split.
  - eapply rtc_l; [left; by eapply main_read|].
    eapply rtc_l; [left; by eapply (main_frame _ _ None)|].
    eapply rtc_l; [left; by eapply main_check|].
    eapply rtc_l; [left; by eapply main_eof|].
    eapply rtc_l; [left; by eapply main_escalate|].
    eapply rtc_l; [left; by eapply pump_out_send|].
    eapply rtc_l; [left; eapply pump_out_stop; [done|by left]|].
    eapply rtc_l; [left; eapply pump_err_stop; [done|by left]|].
    eapply rtc_l; [left; by eapply wait_join_stdout|].
    eapply rtc_l; [left; by eapply wait_join_stderr|].
    eapply rtc_l; [left; by eapply wait_reap|].
    eapply rtc_l; [left; by eapply wait_remove|].
    eapply rtc_l; [left; by eapply wait_send|].
    eapply rtc_l; [left; by eapply main_grace|].
    apply rtc_refl.
  - vm_compute. done.
Qed.

Lemma sample_registry_wf : registry_wf (registry_number registry_new).1.
Proof. apply registry_number_wf; [apply registry_new_wf|by vm_compute]. Qed.

Lemma client_sees_conversation_witness :
  ∃ c outs tail, c_sent c = sample_conversation ∧
    c_written c `prefix_of` FSpawnOk (c_id c) :: outs ++ tail ∧ Forall is_output outs.
Proof.
  destruct sample_run as (c & Hr & Hs & _).
  destruct (client_sees_conversation 1 (registry_number registry_new).1 0 _ _ _ c sample_registry_wf ltac:(by vm_compute) Hr)
    as (outs & tail & H1 & H2 & _).
  by exists c, outs, tail.
Defined.

Lemma registered_until_reaped_witness :
  ∃ c, c_sent c = sample_conversation ∧ registry_contains (c_id c) (c_reg c) = false.
Proof.
  destruct sample_run as (c & Hr & Hs & _). exists c. split; [done|].
  destruct (registered_until_reaped 1 (registry_number registry_new).1 0 _ _ _ c sample_registry_wf ltac:(by vm_compute) Hr)
    as (_ & _ & H).
  apply (H {| exit_code := Some 0%Z; exit_signal := None |}). rewrite Hs. right. right. by left.
Defined.

Lemma signals_and_stdin_witness :
  ∃ c consumed esc, c_signals c = [2; 15]%Z ∧ c_signals c = signals_of consumed ++ esc ∧ consumed `prefix_of` [FSignal Int].
Proof.
  destruct sample_run as (c & Hr & _ & Hs & _).
  destruct (signals_and_stdin 1 (registry_number registry_new).1 0 _ _ _ c Hr) as (consumed & esc & H1 & H2 & _).
  by exists c, consumed, esc.
Defined.
