(* ===== verification/Proxy.v ===== *)
(** * The egress proxy ([src/proxy/server.rs])

    One proxied connection.  The client's socket is the sequence of its read
    results; name resolution, dialling, base64 and the [nono] host filter are
    parameters.  What the connection does is the list of its actions in order. *)

From S2P Require Import Prelude.

#[local] Set Default Proof Using "Type".

Definition MAX_HEADER_BYTES : nat := N.to_nat 65536.

Definition CRLF : str := ["013"; "010"]%char.
Definition SPACE : ascii := " ".
Definition COLON : ascii := ":".

(** ** Reading the request ([BufReader] over the client socket) *)

(** What is buffered, and the results of the [read]s still to come (each at
    most a buffer's worth; [Ok []] is end of file). *)
Record reader := { rd_buf : str; rd_chunks : list (result str str) }.

Definition is_nl (c : ascii) : bool := bool_decide (c = NL).

(** [reader.take(limit).read_line(..)], before the UTF-8 check: up to and
    including the first newline, [limit] bytes, or end of file. *)
Fixpoint read_until_nl (limit : nat) (buf : str) (chunks : list (result str str)) : result str (str * reader) :=
  match position is_nl (take limit buf) with
  | Some i => Ok (take (S i) buf, {| rd_buf := drop (S i) buf; rd_chunks := chunks |})
  | None =>
      if limit <=? length buf then Ok (take limit buf, {| rd_buf := drop limit buf; rd_chunks := chunks |})
      else
        match chunks with
        | [] => Ok (buf, {| rd_buf := []; rd_chunks := [] |})
        | Err e :: _ => Err e
        | Ok c :: chunks =>
            match c with
            | [] => Ok (buf, {| rd_buf := []; rd_chunks := chunks |})
            | _ => match read_until_nl (limit - length buf) c chunks with
                   | Ok (l, r) => Ok (buf ++ l, r)
                   | Err e => Err e
                   end
            end
        end
  end.

Definition NOT_UTF8 : str := "stream did not contain valid UTF-8".

(** [read_capped_line]: the line, the reader and the budget after it. *)
Definition read_capped_line (r : reader) (budget : nat) : result str (str * reader * nat) :=
  if bool_decide (budget = 0) then Err ("request headers exceed the size limit" : str)
  else
    match read_until_nl budget (rd_buf r) (rd_chunks r) with
    | Err e => Err ("reading request: " ++ e)
    | Ok (out, r) =>
        if negb (utf8_valid out) then Err ("reading request: " ++ NOT_UTF8)
        else
          let n := length out in
          if (n =? budget) && negb (last_is NL out) then Err ("request line exceeds the header size limit" : str)
          else Ok (out, r, budget - n)
    end.

Record Target := {
  is_connect : bool; host : str; port : N; header_bytes : str; proxy_auth : option str;
}.

(** The headers seen so far. *)
Record headers := { h_bytes : str; h_host : option str; h_auth : option str }.

Definition header_line (line : str) (h : headers) : headers :=
  match split_once COLON line with
  | Some (name, value) =>
      let name := trim name in
      if eq_ignore_ascii_case name "host" then
        {| h_bytes := h_bytes h; h_host := Some (trim value); h_auth := h_auth h |}
      else if eq_ignore_ascii_case name "proxy-authorization" then
        {| h_bytes := h_bytes h; h_host := h_host h; h_auth := Some (trim value) |}
      else h
  | None => h
  end.

(** The header loop.  [None] is a spent fuel; every turn but the last consumes
    at least one byte of the budget. *)
Fixpoint read_headers (fuel : nat) (r : reader) (budget : nat) (h : headers) : option (result str (headers * reader)) :=
  match fuel with
  | 0 => None
  | S fuel =>
      match read_capped_line r budget with
      | Err e => Some (Err e)
      | Ok (line, r, budget) =>
          let h := {| h_bytes := h_bytes h ++ line; h_host := h_host h; h_auth := h_auth h |} in
          if (length line =? 0) || bool_decide (trim_end line = []) then Some (Ok (h, r))
          else read_headers fuel r budget (header_line line h)
      end
  end.

Definition bad_host_port : str := "invalid host:port".

Definition parse_port (p : str) : result str N := ok_or bad_host_port (parse_unsigned U16_MAX p).

Definition split_host_port (authority : str) (default_port : N) : result str (str * N) :=
  match strip_prefix "[" authority with
  | Some rest =>
      '(host, rest) ← ok_or bad_host_port (split_once "]" rest);
      port ← match strip_prefix ":" rest with Some p => parse_port p | None => Ok default_port end;
      Ok (host, port)
  | None =>
      match rsplit_once COLON authority with
      | Some (host, p) =>
          if bool_decide (host = []) then Ok (authority, default_port)
          else port ← parse_port p; Ok (host, port)
      | None => Ok (authority, default_port)
      end
  end.

(** [request_line.trim_end().splitn(3, ' ')]: the method and the target. *)
Definition request_parts (line : str) : str * option str :=
  match split_once SPACE line with
  | None => (line, None)
  | Some (method, rest) =>
      (method, Some (match split_once SPACE rest with Some (t, _) => t | None => rest end))
  end.

(** [rest.split(['/', '?']).next()]. *)
Fixpoint until_path (s : str) : str :=
  match s with
  | [] => []
  | c :: s => if bool_decide (c = "/"%char) || bool_decide (c = "?"%char) then [] else c :: until_path s
  end.

Definition authority_of (target_str : str) (host_header : option str) : result str str :=
  match strip_prefix "http://" target_str with
  | Some rest => Ok (until_path rest)
  | None =>
      match strip_prefix "https://" target_str with
      | Some rest => Ok (until_path rest)
      | None => ok_or ("origin-form request with no Host header" : str) host_header
      end
  end.

(** [read_target]: the request and what is left of the client's stream. *)
Definition read_target (client : list (result str str)) : option (result str (option (Target * reader))) :=
  match read_capped_line {| rd_buf := []; rd_chunks := client |} MAX_HEADER_BYTES with
  | Err e => Some (Err e)
  | Ok (request_line, r, budget) =>
      if length request_line =? 0 then Some (Ok None)
      else
        let '(method, target) := request_parts (trim_end request_line) in
        match target with
        | None => Some (Err ("missing request target" : str))
        | Some target_str =>
            hs ← read_headers (S budget) r budget {| h_bytes := request_line; h_host := None; h_auth := None |};
            Some
              ('(h, r) ← hs;
               if eq_ignore_ascii_case method "CONNECT" then
                 '(host, port) ← split_host_port target_str 443;
                 Ok (Some ({| is_connect := true; host := host; port := port;
                              header_bytes := h_bytes h; proxy_auth := h_auth h |}, r))
               else
                 authority ← authority_of target_str (h_host h);
                 '(host, port) ← split_host_port authority 80;
                 Ok (Some ({| is_connect := false; host := host; port := port;
                              header_bytes := h_bytes h; proxy_auth := h_auth h |}, r)))
        end
  end.

(** ** Authorization *)

(** [constant_time_eq]: the accumulated differences of two equally long strings. *)
Definition constant_time_eq (a b : str) : bool :=
  if negb (length a =? length b) then false
  else (foldl (λ acc '(x, y), N.lor acc (N.lxor (byte x) (byte y))) 0 (zip a b) =? 0)%N.

Section proxy.
Context (b64_decode : str → option str).

Definition authorized (header : option str) (token : str) : bool :=
  match header with
  | None => false
  | Some header =>
      match strip_prefix "Basic " header with
      | None => false
      | Some encoded =>
          match b64_decode (trim encoded) with
          | None => false
          | Some decoded =>
              if negb (utf8_valid decoded) then false
              else constant_time_eq (default decoded (head (split_on COLON decoded))) token
          end
      end
  end.

(** ** One connection *)

Definition AUTH_DETAIL : str := "devcroft: proxy authentication required".
Definition QUOT : str := ["034"%char].

Definition auth_required_reply (is_connect : bool) : str :=
  "HTTP/1.1 407 Proxy Authentication Required" ++ CRLF ++
  "Proxy-Authenticate: Basic realm=" ++ QUOT ++ "devcroft" ++ QUOT ++ CRLF ++
  (if is_connect then "Connection: close" ++ CRLF ++ CRLF ++ AUTH_DETAIL ++ CRLF
   else "Content-Type: text/plain" ++ CRLF ++ "Connection: close" ++ CRLF ++
        "Content-Length: " ++ show_nat (length AUTH_DETAIL) ++ CRLF ++ CRLF ++ AUTH_DETAIL).

Definition refusal_reply (is_connect : bool) (detail : str) : str :=
  "HTTP/1.1 502 Bad Gateway" ++ CRLF ++
  (if is_connect then "Connection: close" ++ CRLF ++ CRLF ++ detail ++ CRLF
   else "Content-Type: text/plain" ++ CRLF ++ "Connection: close" ++ CRLF ++
        "Content-Length: " ++ show_nat (length detail) ++ CRLF ++ CRLF ++ detail).

Definition ESTABLISHED : str := "HTTP/1.1 200 Connection Established" ++ CRLF ++ CRLF.

Context {IpAddr Decision : Type}.

Inductive action :=
| Log (line : str)
| Reply (bytes : str)
| Lookup (host : str) (port : N)
| Dial (ip : IpAddr) (port : N)
| SendUpstream (ip : IpAddr) (bytes : str)
| Splice (ip : IpAddr) (client : list (result str str)).

Context (to_socket_addrs : str → N → option (list IpAddr))
        (check_host : str → list IpAddr → Decision)
        (is_allowed : Decision → bool) (reason : Decision → str)
        (connect : IpAddr → N → bool)
        (client_write_ok upstream_write_ok : bool).

(** The dial loop: the addresses tried, and the first that answered. *)
Fixpoint dial (ips : list IpAddr) (port : N) : list action * option IpAddr :=
  match ips with
  | [] => ([], None)
  | ip :: ips =>
      if connect ip port then ([Dial ip port], Some ip)
      else let '(tried, up) := dial ips port in (Dial ip port :: tried, up)
  end.

Definition log_target (verb peer : str) (t : Target) : str :=
  verb ++ " peer=" ++ peer ++ " host=" ++ host t ++ " port=" ++ show_N (port t).

(** After the request is known. *)
Definition handle_target (peer token : str) (t : Target) (rest : list (result str str)) : list action :=
  if negb (authorized (proxy_auth t) token) then
    [Log ("refuse peer=" ++ peer ++ " reason=unauthenticated"); Reply (auth_required_reply (is_connect t))]
  else
    let resolved := default [] (to_socket_addrs (host t) (port t)) in
    let decision := check_host (host t) resolved in
    Lookup (host t) (port t) ::
    if negb (is_allowed decision) then
      [Log (log_target "refuse" peer t ++ " reason=" ++ reason decision);
       Reply (refusal_reply (is_connect t) ("devcroft: egress denied for " ++ host t ++ ": " ++ reason decision))]
    else
      let '(tried, upstream) := dial resolved (port t) in
      tried ++
      match upstream with
      | None =>
          [Log (log_target "refuse" peer t ++ " reason=connect-failed");
           Reply (refusal_reply (is_connect t) ("could not connect to " ++ host t))]
      | Some ip =>
          Log (log_target "allow" peer t) ::
          (if is_connect t then Reply ESTABLISHED :: (if client_write_ok then [Splice ip rest] else [])
           else SendUpstream ip (header_bytes t) :: (if upstream_write_ok then [Splice ip rest] else []))
      end.

(** [handle_connection].  The request's [BufReader] is dropped with
    [read_target]: the relay starts from the reads still to come. *)
Definition handle_connection (peer token : str) (client : list (result str str)) : list action :=
  match read_target client with
  | None => []
  | Some (Err e) =>
      [Log ("refuse peer=" ++ peer ++ " reason=malformed-request detail=" ++ e);
       Reply (refusal_reply true "malformed request")]
  | Some (Ok None) => []
  | Some (Ok (Some (t, r))) => handle_target peer token t (rd_chunks r)
  end.
End proxy.

Arguments action : clear implicits.

(** ** The request reader *)

(** The bytes a sequence of reads delivers. *)
Fixpoint stream (chunks : list (result str str)) : str :=
  match chunks with [] => [] | Ok c :: chunks => c ++ stream chunks | Err _ :: chunks => stream chunks end.

Definition pending (r : reader) : str := rd_buf r ++ stream (rd_chunks r).

Lemma position_lt {A} (f : A → bool) l i : position f l = Some i → i < length l.
Proof.
  revert i. induction l as [|x l IH]; intros i; simpl; [done|]. destruct (f x); [intros [= <-]; lia|].
  destruct (position f l); [|done]. simpl. intros [= <-]. specialize (IH _ eq_refl). lia.
Qed.

Lemma take_drop_app {A} n (a b : list A) : take n a ++ drop n a ++ b = a ++ b.
Proof. by rewrite app_assoc, take_drop. Qed.

Lemma read_until_nl_ok limit buf chunks l r :
  read_until_nl limit buf chunks = Ok (l, r) →
  buf ++ stream chunks = l ++ pending r ∧ length l ≤ limit.
Proof.
  revert limit buf l. induction chunks as [|[c|e] chunks IH]; intros limit buf l; cbn [read_until_nl stream];
    destruct (position is_nl (take limit buf)) as [i|] eqn:Ei.
  1, 3, 5: apply position_lt in Ei; rewrite length_take in Ei; intros [= <- <-]; unfold pending; cbn [rd_buf rd_chunks stream];
    rewrite take_drop_app, length_take; split; [done|lia].
  all: destruct (limit <=? length buf) eqn:El;
    [intros [= <- <-]; unfold pending; cbn [rd_buf rd_chunks stream]; rewrite take_drop_app, length_take; split; [done|lia]|];
    apply Nat.leb_gt in El.
  - intros [= <- <-]. split; [done|lia].
  - destruct c as [|x c]; [intros [= <- <-]; split; [done|lia]|].
    destruct (read_until_nl (limit - length buf) (x :: c) chunks) as [[l' r']|] eqn:Er; [|done].
    intros [= <- <-]. apply IH in Er as [He Hl]. rewrite <- app_assoc, <- He, length_app. split; [done|lia].
  - done.
Qed.

Lemma read_capped_line_ok r budget line r' budget' :
  read_capped_line r budget = Ok (line, r', budget') →
  pending r = line ++ pending r' ∧ length line + budget' = budget.
Proof.
  unfold read_capped_line. case_bool_decide; [done|].
  destruct (read_until_nl _ _ _) as [[out r1]|] eqn:E; [|done]. case_match; [done|]. case_match; [done|].
  intros [= <- <- <-]. apply read_until_nl_ok in E as [He Hl]. split; [done|lia].
Qed.

Lemma header_line_bytes line h : h_bytes (header_line line h) = h_bytes h.
Proof. unfold header_line. by repeat case_match. Qed.

(** The header loop ends within its fuel and accumulates exactly the bytes it consumed. *)
Lemma read_headers_ok fuel r budget h :
  budget < fuel →
  ∃ res, read_headers fuel r budget h = Some res ∧
    ∀ h' r', res = Ok (h', r') → ∃ used, h_bytes h' = h_bytes h ++ used ∧ pending r = used ++ pending r' ∧
      length used ≤ budget.
Proof.
  revert r budget h. induction fuel as [|fuel IH]; intros r budget h Hf; [lia|]. simpl.
  destruct (read_capped_line r budget) as [[[line r1] budget1]|e] eqn:E; [|by eexists].
  apply read_capped_line_ok in E as [He Hb].
  destruct ((length line =? 0) || _) eqn:Hend.
  - eexists. split; [done|]. intros h' r' [= <- <-]. exists line. split; [done|]. split; [done|lia].
  - apply orb_false_iff in Hend as [Hl%Nat.eqb_neq _].
    edestruct (IH r1 budget1) as (res & Hres & Hok); [lia|]. exists res. split; [exact Hres|].
    intros h' r' ->. destruct (Hok h' r' eq_refl) as (used & Hu & Hp & Hlen).
    rewrite header_line_bytes in Hu. simpl in Hu. exists (line ++ used).
    rewrite Hu, He, Hp, <- !app_assoc, length_app. split; [done|]. split; [done|lia].
Qed.

Lemma parse_unsigned_max max s n : parse_unsigned max s = Some n → (n ≤ max)%N.
Proof. unfold parse_unsigned. intros H. repeat case_match; simplify_eq; try done; by apply N.leb_le. Qed.

Lemma split_host_port_port authority d h p :
  (d ≤ U16_MAX)%N → split_host_port authority d = Ok (h, p) → (p ≤ U16_MAX)%N.
Proof.
  intros Hd. unfold split_host_port, parse_port, mbind, result_bind, ok_or. intros H.
  repeat case_match; simplify_eq; try done; by eapply parse_unsigned_max.
Qed.

(** Reading a proxied request always ends with an answer; a request that is
    accepted consumed at most 64 KiB of the client's bytes, its recorded header
    bytes are exactly the bytes consumed, in order (nothing of the stream is
    reordered or duplicated), and its port fits 16 bits. *)
Theorem read_target_bounded client :
  ∃ res, read_target client = Some res ∧
    ∀ t r, res = Ok (Some (t, r)) →
      stream client = header_bytes t ++ pending r ∧ length (header_bytes t) ≤ MAX_HEADER_BYTES ∧
      (port t ≤ U16_MAX)%N.
Proof.
  unfold read_target.
  destruct (read_capped_line _ _) as [[[line r] budget]|e] eqn:E; [|by eexists].
  apply read_capped_line_ok in E as [He Hb]. change (pending {| rd_buf := []; rd_chunks := client |}) with (stream client) in He.
  destruct (length line =? 0); [by eexists|].
  destruct (request_parts _) as [method [target|]]; [|by eexists].
  destruct (read_headers_ok (S budget) r budget {| h_bytes := line; h_host := None; h_auth := None |})
    as (hs & -> & Hok); [lia|].
  eexists. split; [done|]. intros t r' Hres.
  destruct hs as [[h r1]|]; [|done]. destruct (Hok h r1 eq_refl) as (used & Hu & Hp & Hlen). simpl in Hu.
  unfold mbind, result_bind in Hres.
  assert (header_bytes t = h_bytes h ∧ r' = r1 ∧ (port t ≤ U16_MAX)%N) as (-> & -> & ?).
  { destruct (eq_ignore_ascii_case _ _).
    - destruct (split_host_port target 443) as [[h0 p]|] eqn:Es; [|done]. injection Hres as <- <-.
      split; [done|]. split; [done|]. by eapply split_host_port_port in Es.
    - destruct (authority_of _ _); [|done].
      destruct (split_host_port _ 80) as [[h0 p]|] eqn:Es; [|done]. injection Hres as <- <-.
      split; [done|]. split; [done|]. by eapply split_host_port_port in Es. }
  rewrite He, Hu, Hp, <- app_assoc, length_app. split; [done|]. split; [lia|done].
Qed.

(** ** Authorization *)

Lemma lor_fold_zero l acc :
  foldl (λ acc '(x, y), N.lor acc (N.lxor (byte x) (byte y))) acc l = 0%N ↔
  acc = 0%N ∧ ∀ x y, (x, y) ∈ l → x = y.
Proof.
  revert acc. induction l as [|[x y] l IH]; intros acc; simpl.
  - split; [intros ->; split; [done|]; intros ? ? H; by apply not_elem_of_nil in H|by intros [? _]].
  - rewrite IH, N.lor_eq_0_iff, N.lxor_eq_0_iff. split.
    + intros [[Ha Hx%byte_inj] Hl]. subst. split; [done|].
      intros a b [[= -> ->]|Hin]%elem_of_cons; [done|by apply Hl].
    + intros [Ha Hl]. split; [split; [done|]|].
      * f_equal. apply Hl. by left.
      * intros a b Hin. apply Hl. by right.
Qed.

Lemma constant_time_eq_spec a b : constant_time_eq a b = true ↔ a = b.
Proof.
  unfold constant_time_eq. destruct (length a =? length b) eqn:E; simpl.
  - rewrite N.eqb_eq, lor_fold_zero. apply Nat.eqb_eq in E. split.
    + intros [_ Hl]. apply list_eq_same_length with (length a); [done|done|].
      intros i x y _ Hx Hy. apply Hl. apply list_elem_of_lookup. exists i.
      by apply lookup_zip_with_Some; eauto.
    + intros ->. split; [done|]. intros x y Hin.
      apply list_elem_of_lookup in Hin as [i Hi].
      apply lookup_zip_with_Some in Hi as (x' & y' & [= -> ->] & H1 & H2). congruence.
  - split; [done|]. intros ->. by rewrite Nat.eqb_refl in E.
Qed.

(** A request is authorized exactly when it carries a [Basic] credential
    whose decoded text, up to its first colon, is this session's token; the
    accumulating comparison decides equality. *)
Theorem authorized_spec b64_decode header token :
  authorized b64_decode header token = true ↔
  ∃ encoded decoded rest, header = Some ("Basic " ++ encoded) ∧ b64_decode (trim encoded) = Some decoded ∧
    utf8_valid decoded = true ∧ split_on COLON decoded = token :: rest.
Proof.
  assert (∀ p s r, strip_prefix p s = Some r ↔ s = p ++ r) as Hstrip.
  { clear. induction p as [|x p IH]; intros s r; simpl; [naive_solver|]. destruct s as [|y s]; [naive_solver|].
    destruct (decide (x = y)); [rewrite IH; naive_solver|naive_solver]. }
  assert (∀ s, split_on COLON s ≠ []) as Hsplit.
  { clear. intros [|c s]; simpl; [done|]. repeat case_match; done. }
  unfold authorized. destruct header as [header|]; [|naive_solver].
  destruct (strip_prefix "Basic " header) as [encoded|] eqn:E.
  - apply Hstrip in E as ->. destruct (b64_decode (trim encoded)) as [decoded|] eqn:Ed; [|naive_solver].
    destruct (utf8_valid decoded) eqn:Eu; [|naive_solver]. simpl.
    specialize (Hsplit decoded). destruct (split_on COLON decoded) as [|w ws] eqn:Es; [done|]. simpl.
    rewrite constant_time_eq_spec. split.
    + intros <-. by exists encoded, decoded, ws.
    + intros (? & decoded' & rest & [= <-] & Hd & _ & Hs). rewrite Ed in Hd. injection Hd as <-. congruence.
  - split; [done|]. intros (encoded & ? & ? & Hh & _). apply (inj Some) in Hh.
    pose proof (proj2 (Hstrip "Basic " header encoded) Hh). congruence.
Qed.

(** ** Mediation *)

(** Case analysis on membership in a literal list of actions. *)
Ltac in_list H := repeat (apply elem_of_cons in H as [->|H]; [try done|]); try (by apply not_elem_of_nil in H).


Section mediation.
Context (b64_decode : str → option str) {IpAddr Decision : Type}.
Context (to_socket_addrs : str → N → option (list IpAddr)) (check_host : str → list IpAddr → Decision)
        (is_allowed : Decision → bool) (reason : Decision → str) (connect : IpAddr → N → bool)
        (client_write_ok upstream_write_ok : bool).

Lemma dial_spec ips p :
  let '(tried, up) := dial connect ips p in
  ∃ failed rest, Forall (λ ip, connect ip p = false) failed ∧
    match up with
    | Some ip => ips = failed ++ ip :: rest ∧ connect ip p = true ∧ tried = (λ ip, Dial ip p) <$> failed ++ [ip]
    | None => ips = failed ∧ tried = (λ ip, Dial ip p) <$> failed
    end.
Proof using Type.
  clear. induction ips as [|ip ips IH]; simpl.
  - by exists [], [].
  - destruct (connect ip p) eqn:E; [by exists [], ips|].
    destruct (dial connect ips p) as [tried [up|]]; destruct IH as (failed & rest & Hf & IH).
    + destruct IH as (-> & Hc & ->). exists (ip :: failed), rest. split; [by constructor|done].
    + destruct IH as (-> & ->). exists (ip :: failed), rest. split; [by constructor|done].
Qed.

(** An action that leaves the proxy: the resolution of a name, which comes
    before the filter, or contact with an address. *)
Definition outward (a : action IpAddr) : bool :=
  match a with Lookup _ _ | Dial _ _ | SendUpstream _ _ | Splice _ _ => true | _ => false end.

(** The address a connection-level action talks to. *)
Definition upstream_of (a : action IpAddr) : option IpAddr :=
  match a with Dial ip _ | SendUpstream ip _ | Splice ip _ => Some ip | _ => None end.

Definition run (peer token : str) (client : list (result str str)) : list (action IpAddr) :=
  handle_connection b64_decode to_socket_addrs check_host is_allowed reason connect
    client_write_ok upstream_write_ok peer token client.

(** What is behind an action that leaves the proxy. *)
Lemma outward_mediated peer token client a
    (Hin : a ∈ run peer token client) (Hout : outward a = true) :
  ∃ t r, read_target client = Some (Ok (Some (t, r))) ∧ authorized b64_decode (proxy_auth t) token = true ∧
    (∀ h p, a = Lookup h p → h = host t ∧ p = port t) ∧
    (∀ ip, upstream_of a = Some ip →
      ∃ ips, to_socket_addrs (host t) (port t) = Some ips ∧ ip ∈ ips ∧
        is_allowed (check_host (host t) ips) = true ∧
        (∀ p, a = Dial ip p → p = port t) ∧
        (∀ bs, a = SendUpstream ip bs → connect ip (port t) = true ∧ is_connect t = false ∧ bs = header_bytes t) ∧
        (∀ rest, a = Splice ip rest → connect ip (port t) = true ∧ rest = rd_chunks r)).
Proof using Type.
  unfold run, handle_connection in Hin.
  destruct (read_target client) as [[[[t r]|]|e]|] eqn:Er; try (by in_list Hin).
  exists t, r. split; [done|]. unfold handle_target in Hin.
  destruct (authorized b64_decode (proxy_auth t) token) eqn:Ea; simpl in Hin; [|by in_list Hin].
  split; [done|]. apply elem_of_cons in Hin as [->|Hin]; [naive_solver|].
  destruct (is_allowed _) eqn:Hal; simpl in Hin; [|by in_list Hin].
  pose proof (dial_spec (default [] (to_socket_addrs (host t) (port t))) (port t)) as Hd.
  destruct (dial connect _ (port t)) as [tried up].
  destruct Hd as (failed & rest & Hf & Hd).
  assert (∀ ip, ip ∈ default [] (to_socket_addrs (host t) (port t)) →
    ∃ ips, to_socket_addrs (host t) (port t) = Some ips ∧ ip ∈ ips ∧ is_allowed (check_host (host t) ips) = true) as Hips.
  { intros ip Hip. destruct (to_socket_addrs (host t) (port t)) as [ips|]; simpl in *; [by exists ips|].
    by apply not_elem_of_nil in Hip. }
  assert (∀ ip, a = Dial ip (port t) → ip ∈ default [] (to_socket_addrs (host t) (port t)) →
    (∀ h p, a = Lookup h p → h = host t ∧ p = port t) ∧
    (∀ ip', upstream_of a = Some ip' →
      ∃ ips, to_socket_addrs (host t) (port t) = Some ips ∧ ip' ∈ ips ∧ is_allowed (check_host (host t) ips) = true ∧
        (∀ p, a = Dial ip' p → p = port t) ∧
        (∀ bs, a = SendUpstream ip' bs → connect ip' (port t) = true ∧ is_connect t = false ∧ bs = header_bytes t) ∧
        (∀ rest, a = Splice ip' rest → connect ip' (port t) = true ∧ rest = rd_chunks r))) as Hdial.
  { intros ip -> Hip. split; [done|]. intros ip' [= <-]. destruct (Hips ip Hip) as (ips & H1 & H2 & H3).
    exists ips. naive_solver. }
  destruct up as [ip|].
  - destruct Hd as (Heq & Hc & ->). apply elem_of_app in Hin as [Hin|Hin].
    + apply list_elem_of_fmap in Hin as (ip' & -> & Hip'). apply (Hdial ip'); [done|].
      rewrite Heq. set_solver.
    + destruct (Hips ip) as (ips & H1 & H2 & H3); [rewrite Heq; set_solver|].
      destruct (is_connect t) eqn:Et, client_write_ok, upstream_write_ok; in_list Hin; naive_solver.
  - destruct Hd as (Heq & ->). apply elem_of_app in Hin as [Hin|Hin].
    + apply list_elem_of_fmap in Hin as (ip' & -> & Hip'). apply (Hdial ip'); [done|]. by rewrite Heq.
    + by in_list Hin.
Qed.

Definition is_lookup (a : action IpAddr) : bool := match a with Lookup _ _ => true | _ => false end.

Lemma one_lookup peer token client : length (List.filter is_lookup (run peer token client)) ≤ 1.
Proof using Type.
  unfold run, handle_connection. destruct (read_target client) as [[[[t r]|]|e]|]; simpl; [|lia..].
  unfold handle_target. destruct (authorized _ _ _); simpl; [|lia]. destruct (is_allowed _); simpl; [|lia].
  pose proof (dial_spec (default [] (to_socket_addrs (host t) (port t))) (port t)) as Hd.
  destruct (dial connect _ (port t)) as [tried up]. destruct Hd as (failed & rest & _ & Hd).
  assert (∀ l : list IpAddr, List.filter is_lookup ((λ ip, Dial ip (port t)) <$> l) = []) as Hnil.
  { clear. by induction l. }
  rewrite List.filter_app, length_app.
  destruct up; destruct_and?; subst; rewrite Hnil; simpl; repeat case_match; simpl; lia.
Qed.

(** C7: the proxy contacts nothing on behalf of a caller it should not.  It
    resolves a name only for a request that read completely and presented this
    session's token, only the name and port requested, and once; this
    resolution, which precedes the filter, is made for denied hosts too.  It
    contacts an address (a dial, bytes upstream, a relay) only for such a
    request, only after the filter allowed its host together with the very
    addresses resolved, of which it is one; it dials only the requested port,
    and sends the recorded header bytes or relays only to an address it dialled
    successfully. *)
Theorem egress_mediated peer token client :
  (∀ h p, Lookup h p ∈ run peer token client →
     ∃ t r, read_target client = Some (Ok (Some (t, r))) ∧ authorized b64_decode (proxy_auth t) token = true ∧
       h = host t ∧ p = port t) ∧
  length (List.filter is_lookup (run peer token client)) ≤ 1 ∧
  ∀ a ip, a ∈ run peer token client → upstream_of a = Some ip →
    ∃ t r ips, read_target client = Some (Ok (Some (t, r))) ∧ authorized b64_decode (proxy_auth t) token = true ∧
      to_socket_addrs (host t) (port t) = Some ips ∧ ip ∈ ips ∧ is_allowed (check_host (host t) ips) = true ∧
      (∀ p, a = Dial ip p → p = port t) ∧
      (∀ bs, a = SendUpstream ip bs → connect ip (port t) = true ∧ is_connect t = false ∧ bs = header_bytes t) ∧
      (∀ rest, a = Splice ip rest → connect ip (port t) = true ∧ rest = rd_chunks r).
Proof using Type.
  split; [|split; [apply one_lookup|]].
  - intros h p Hin. destruct (outward_mediated _ _ _ _ Hin eq_refl) as (t & r & Hr & Ha & Hl & _).
    exists t, r. destruct (Hl h p eq_refl) as [-> ->]. done.
  - intros a ip Hin Hup.
    assert (outward a = true) as Hout by (by destruct a).
    destruct (outward_mediated _ _ _ _ Hin Hout) as (t & r & Hr & Ha & _ & Hu).
    destruct (Hu ip Hup) as (ips & Hu'). by exists t, r, ips.
Qed.

(** Every connection that presented a request gets exactly one reply from
    the proxy, or has its header bytes sent upstream instead: never both,
    never silence. *)
Theorem one_answer peer token client t r
    (Hr : read_target client = Some (Ok (Some (t, r)))) :
  length (List.filter (λ a, match a with Reply _ | SendUpstream _ _ => true | _ => false end)
    (run peer token client)) = 1.
Proof using Type.
  unfold run, handle_connection. rewrite Hr. unfold handle_target.
  destruct (authorized _ _ _); [|done]. destruct (is_allowed _); [|done].
  pose proof (dial_spec (default [] (to_socket_addrs (host t) (port t))) (port t)) as Hd.
  destruct (dial connect _ (port t)) as [tried up]. destruct Hd as (failed & rest & _ & Hd).
  assert (∀ l : list IpAddr, List.filter (λ a : action IpAddr,
    match a with Reply _ | SendUpstream _ _ => true | _ => false end) ((λ ip, Dial ip (port t)) <$> l) = []) as Hnil.
  { clear. by induction l. }
  simpl. rewrite List.filter_app, length_app.
  destruct up; destruct_and?; subst; rewrite Hnil; simpl; repeat case_match; done.
Qed.
End mediation.

(** ** Concrete connections *)

Definition sample_b64 (s : str) : option str := if decide (s = "dG9r") then Some ("tok:" : str) else None.

Definition connect_request : str :=
  "CONNECT ex.com:443 HTTP/1.1" ++ CRLF ++ "Proxy-Authorization: Basic dG9r" ++ CRLF ++ CRLF.

Definition plain_request : str :=
  "POST http://ex.com/p HTTP/1.1" ++ CRLF ++ "Proxy-Authorization: Basic dG9r" ++ CRLF ++
  "Content-Length: 2" ++ CRLF ++ CRLF.

(** A host with one address (1), allowed, that answers. *)
Definition sample_run (client : list (result str str)) : list (action N) :=
  run sample_b64 (λ _ _, Some [1%N]) (λ _ _, true) (λ b : bool, b) (λ _, "no" : str) (λ _ _, true) true true
    "peer" "tok" client.

(** The relay of a request whose tunnel bytes or body arrived in the same read
    as its headers starts after them: they were buffered by the request reader
    and are dropped with it. *)
Lemma early_bytes_dropped :
  sample_run [Ok (connect_request ++ "hello"); Ok ("more" : str)] =
    [Lookup "ex.com" 443%N; Dial 1%N 443%N; Log "allow peer=peer host=ex.com port=443"; Reply ESTABLISHED;
     Splice 1%N [Ok ("more" : str)]] ∧
  sample_run [Ok (plain_request ++ "ab")] =
    [Lookup "ex.com" 80%N; Dial 1%N 80%N; Log "allow peer=peer host=ex.com port=80"; SendUpstream 1%N plain_request;
     Splice 1%N []].
Proof. by vm_compute. Qed.

(** The headers sent upstream for a plain request include the session's own
    [Proxy-Authorization] credential. *)
Lemma credential_sent_upstream :
  ∃ ip bs, SendUpstream ip bs ∈ sample_run [Ok plain_request] ∧ contains_str "Basic dG9r" bs = true.
Proof. exists 1%N, plain_request. split; [|by vm_compute]. vm_compute. do 3 right. by left. Qed.

Lemma egress_mediated_witness :
  Dial 1%N 443%N ∈ sample_run [Ok connect_request] ∧
  ∃ t r ips, read_target [Ok connect_request] = Some (Ok (Some (t, r))) ∧
    authorized sample_b64 (proxy_auth t) "tok" = true ∧ 1%N ∈ (ips : list N).
Proof.
  assert (Dial 1%N 443%N ∈ sample_run [Ok connect_request]) as Hin by (vm_compute; right; by left).
  split; [done|].
  destruct (egress_mediated sample_b64 (λ _ _, Some [1%N]) (λ _ _, true) (λ b : bool, b) (λ _, "no" : str)
    (λ _ _, true) true true "peer" "tok" [Ok connect_request]) as (_ & _ & H).
  destruct (H _ _ Hin eq_refl) as (t & r & ips & H1 & H2 & _ & H3 & _). by exists t, r, ips.
Defined.

Lemma one_answer_witness :
  length (List.filter (λ a, match a with Reply _ | SendUpstream _ _ => true | _ => false end)
    (sample_run [Ok connect_request])) = 1.
Proof.
  destruct (read_target [Ok connect_request]) as [[[[t r]|]|e]|] eqn:E; [|vm_compute in E; discriminate E..].
  exact (one_answer sample_b64 (λ _ _, Some [1%N]) (λ _ _, true) (λ b : bool, b) (λ _, "no" : str)
    (λ _ _, true) true true "peer" "tok" _ t r E).
Defined.

(** ** Authorities *)

(** [split_host_port] inverts the usual ways of writing a host and a port. *)
Lemma split_host_port_forms h p d :
  (p ≤ U16_MAX)%N →
  (h ≠ [] → strip_prefix "[" h = None → split_host_port (h ++ COLON :: show_N p) d = Ok (h, p)) ∧
  ("]"%char ∉ h → split_host_port ("["%char :: h ++ "]"%char :: COLON :: show_N p) d = Ok (h, p)) ∧
  ("]"%char ∉ h → split_host_port ("["%char :: h ++ ["]"%char]) d = Ok (h, d)) ∧
  (COLON ∉ h → strip_prefix "[" h = None → split_host_port h d = Ok (h, d)).
Proof.
  intros Hp. split; [|split; [|split]].
  - intros Hne Hb. unfold split_host_port.
    assert (strip_prefix "[" (h ++ COLON :: show_N p) = None) as ->.
    { destruct h as [|c h]; [done|]. revert Hb. simpl. by destruct (decide _). }
    rewrite rsplit_once_app by by apply show_N_not_in.
    rewrite bool_decide_false by done. unfold parse_port. by rewrite parse_show_N.
  - intros Hn. unfold split_host_port. simpl. rewrite split_once_app by done. simpl.
    unfold parse_port. by rewrite parse_show_N.
  - intros Hn. unfold split_host_port. simpl. by rewrite split_once_app.
  - intros Hn Hb. unfold split_host_port. rewrite Hb.
    assert (split_once COLON (reverse h) = None) as Hs.
    { assert (COLON ∉ reverse h) as Hr by by rewrite elem_of_reverse. revert Hr.
      induction (reverse h) as [|c l IH]; [done|]. intros Hr. apply not_elem_of_cons in Hr as [Hc Hl].
      simpl. destruct (decide (COLON = c)); [done|]. by rewrite IH. }
    unfold rsplit_once. by rewrite Hs.
Qed.
