(* ===== verification/State.v ===== *)
(** * On-disk state of a sandbox ([src/lifecycle/state.rs])

    Paths, pidfiles, the metadata file, the identity check on recorded
    processes, health, and termination.  The file system is a finite map from
    paths to contents (sockets included); the process table is observed
    through [/proc] at every step, so it may change between two steps. *)

From S2P Require Import Prelude Slug Paths.

#[local] Set Default Proof Using "Type".

(** ** Paths *)

Record StatePaths := {
  root : str; socket : str; pidfile : str; profile : str; log : str; meta : str;
  ssh_socket : str; ssh_host_key : str; proxy_pidfile : str; proxy_log : str; proxy_socket : str;
  lifecycle_lock : str;
}.

Inductive state_error := NotFoundHome | InvalidInput (name : str) | IoFailure (e : str) | BadData (e : str).

Definition DATA_SUBDIR : str := ".local/share/devcroft".

Definition data_dir (home : option str) : result state_error str :=
  match home with None => Err NotFoundHome | Some home => Ok (path_join home DATA_SUBDIR) end.

Definition in_dir (root : str) : StatePaths :=
  {| root := root;
     socket := path_join root "control.sock"; pidfile := path_join root "keeper.pid";
     profile := path_join root "profile.json"; log := path_join root "keeper.log"; meta := path_join root "meta.json";
     ssh_socket := path_join root "ssh.sock"; ssh_host_key := path_join root "ssh_host_ed25519_key";
     proxy_pidfile := path_join root "proxy.pid"; proxy_log := path_join root "proxy.log";
     proxy_socket := path_join root "proxy.sock"; lifecycle_lock := path_join root "lifecycle.lock" |}.

Definition with_lock (lock : str) (p : StatePaths) : StatePaths :=
  {| root := root p; socket := socket p; pidfile := pidfile p; profile := profile p; log := log p; meta := meta p;
     ssh_socket := ssh_socket p; ssh_host_key := ssh_host_key p; proxy_pidfile := proxy_pidfile p;
     proxy_log := proxy_log p; proxy_socket := proxy_socket p; lifecycle_lock := lock |}.

(** [StatePaths::new]. *)
Definition state_paths (home : option str) (sandbox_name : str) : result state_error StatePaths :=
  if negb (is_valid_name sandbox_name) then Err (InvalidInput sandbox_name)
  else
    dir ← data_dir home;
    Ok (with_lock (path_join dir (sandbox_name ++ ".lock")) (in_dir (path_join dir sandbox_name))).

Definition client_key_paths (home : option str) : result state_error (str * str) :=
  (λ dir, (path_join dir "id_ed25519", path_join dir "id_ed25519.pub")) <$> data_dir home.

(** ** Files *)

Abbreviation fs := (gmap str str).

(** [read_to_string]: [None] is [NotFound]. *)
Definition read_to_string (f : fs) (path : str) : result state_error (option str) :=
  match f !! path with
  | None => Ok None
  | Some s => if utf8_valid s then Ok (Some s) else Err (BadData "stream did not contain valid UTF-8")
  end.

Record Meta := {
  project_root : str; env_fingerprint : str; read_only_grants : list str; resolved_backend : str;
  declared_services : list str; ran_activation_hook : bool; shell : option str;
  proxy_port : option N; proxy_token : option str;
}.

#[export] Instance Meta_dec : EqDecision Meta.
Proof. solve_decision. Defined.

Definition default_resolved_backend : str := "process".

Section metafile.
(** [serde_json] on [Meta]. *)
Context (to_string_pretty : Meta → result str str) (from_str : str → result str Meta).

Definition meta_tmp (path : str) : str :=
  match strip_suffix ".json" path with Some stem => stem ++ ".json.tmp" | None => path ++ ".json.tmp" end.

(** The states [write_meta] takes the file system through: the temporary file
    created and filled, byte by byte, then renamed over the target. *)
Definition write_meta (f : fs) (path : str) (m : Meta) : result state_error (list fs) :=
  match to_string_pretty m with
  | Err e => Err (BadData e)
  | Ok json =>
      let tmp := meta_tmp path in
      Ok (((λ k, <[tmp := take k json]> f) <$> seq 0 (S (length json)))
          ++ [<[path := json]> (delete tmp f)])
  end.

Definition read_meta (f : fs) (path : str) : result state_error (option Meta) :=
  contents ← read_to_string f path;
  match contents with
  | None => Ok None
  | Some s => match from_str s with Ok m => Ok (Some m) | Err e => Err (BadData e) end
  end.
End metafile.

(** ** Pidfiles *)

Definition read_pidfile (f : fs) (path : str) : result state_error (option (Z * N)) :=
  contents ← read_to_string f path;
  match contents with
  | None => Ok None
  | Some s =>
      let parts := split_whitespace s in
      let pid := head parts ≫= parse_i32 in
      let start_time := head (tail parts) ≫= parse_unsigned U64_MAX in
      Ok (match pid, start_time with Some pid, Some start => Some (pid, start) | _, _ => None end)
  end.

(** ** Process identity *)

(** What the operating system answers about a pid at one moment: the text of
    [/proc/<pid>/stat] (where there is a [/proc]) and whether signal 0 is
    deliverable ([Ok] or [EPERM]). *)
Record ProcView := { proc_stat : Z → option str; kill0_ok : Z → bool; kill0_eperm : Z → bool }.

Definition is_process_alive (v : ProcView) (pid : Z) : bool := kill0_ok v pid || kill0_eperm v pid.

Definition RPAREN : ascii := ")".

(** [process_start_time]: [linux] is [cfg(target_os = linux)]. *)
Definition process_start_time (linux : bool) (v : ProcView) (pid : Z) : result state_error N :=
  if negb linux then Ok 0%N
  else
    match proc_stat v pid with
    | None => Err (IoFailure "read")
    | Some stat =>
        match rsplit_once RPAREN stat with
        | None => Err (BadData ("unexpected /proc/" ++ show_Z pid ++ "/stat format: no ')' found"))
        | Some (_, after_comm) =>
            match split_whitespace after_comm !! 19 ≫= parse_unsigned U64_MAX with
            | Some start => Ok start
            | None => Err (BadData ("/proc/" ++ show_Z pid ++ "/stat has no parseable starttime field"))
            end
        end
    end.

Definition write_pidfile (linux : bool) (v : ProcView) (f : fs) (path : str) (pid : Z) : result state_error fs :=
  start ← process_start_time linux v pid;
  Ok (<[path := show_Z pid ++ " " ++ show_N start]> f).

Definition is_same_process (linux : bool) (v : ProcView) (pid : Z) (recorded_start_time : N) : bool :=
  if (recorded_start_time =? 0)%N then is_process_alive v pid
  else match process_start_time linux v pid with
       | Ok current => (current =? recorded_start_time)%N
       | Err _ => false
       end.

(** ** Health *)

Inductive Health := HealthNone | Healthy (pid : Z) | Stale (pid : Z).

(** [accepts] is whether connecting to a socket path succeeds. *)
Definition health (linux : bool) (v : ProcView) (accepts : str → bool) (f : fs) (p : StatePaths) : result state_error Health :=
  entry ← read_pidfile f (pidfile p);
  match entry with
  | None => Ok HealthNone
  | Some (pid, start_time) =>
      if negb (is_same_process linux v pid start_time) then Ok (Stale pid)
      else if accepts (socket p) then Ok (Healthy pid) else Ok (Stale pid)
  end.

Definition clear_runtime_state (p : StatePaths) (f : fs) : fs :=
  delete (proxy_socket p) (delete (ssh_socket p) (delete (proxy_pidfile p) (delete (socket p) (delete (pidfile p) f)))).

(** ** Termination *)

Definition SIGTERM : Z := 15.
Definition SIGKILL : Z := 9.

(** A signal sent, with the moment (the number of observations made before it). *)
Record Kill := { kill_pid : Z; kill_sig : Z; kill_at : nat }.

Section terminate.
Context (linux : bool).

(** The polling loop: [polls] turns fit before the deadline.  Returns the
    moment it stopped at and whether the process was seen gone. *)
Fixpoint poll_gone (view : nat → ProcView) (pid : Z) (start : N) (polls t : nat) : nat * bool :=
  match polls with
  | 0 => (t, false)
  | S polls => if negb (is_same_process linux (view t) pid start) then (S t, true)
               else poll_gone view pid start polls (S t)
  end.

Definition terminate_and_wait_pid (view : nat → ProcView) (polls : nat) (pid : Z) (start_time : N) (t : nat) : list Kill * nat :=
  let term := {| kill_pid := pid; kill_sig := SIGTERM; kill_at := t |} in
  let '(t, gone) := poll_gone view pid start_time polls t in
  if gone then ([term], t)
  else if is_same_process linux (view t) pid start_time
       then ([term; {| kill_pid := pid; kill_sig := SIGKILL; kill_at := S t |}], S t)
       else ([term], S t).

(** [terminate_and_wait]: [view t] is what the system answers to the [t]-th observation. *)
Definition terminate_and_wait (view : nat → ProcView) (polls : nat) (f : fs) (path : str) (t : nat) : list Kill * nat :=
  match read_pidfile f path with
  | Ok (Some (pid, start_time)) =>
      if negb (is_same_process linux (view t) pid start_time) then ([], S t)
      else terminate_and_wait_pid view polls pid start_time (S t)
  | _ => ([], t)
  end.
End terminate.

(** ** Lemmas: paths *)

Definition LEAVES : list str :=
  strs ["control.sock"; "keeper.pid"; "profile.json"; "keeper.log"; "meta.json"; "ssh.sock";
        "ssh_host_ed25519_key"; "proxy.pid"; "proxy.log"; "proxy.sock"].

Lemma leaf_relative s : s ∈ LEAVES → starts_with "/" s = false.
Proof.
  intros Hs. unfold LEAVES, strs in Hs. repeat (apply elem_of_cons in Hs as [->|Hs]; [by vm_compute|]).
  by apply not_elem_of_nil in Hs.
Qed.

(** The files of a sandbox, its lock apart. *)
Definition files_of (p : StatePaths) : list str :=
  [socket p; pidfile p; profile p; log p; meta p; ssh_socket p; ssh_host_key p; proxy_pidfile p; proxy_log p; proxy_socket p].

Lemma files_of_leaves r : files_of (in_dir r) = path_join r <$> LEAVES.
Proof. done. Qed.

Lemma leaf_plain s : s ∈ LEAVES → plain_segment s.
Proof.
  intros Hs. unfold plain_segment.
  assert (bool_decide (SLASH ∈ s) = false ∧ keep_segment s = true ∧ bool_decide (s = "~") = false) as (H1 & H2 & H3).
  { unfold LEAVES, strs in Hs. repeat (apply elem_of_cons in Hs as [->|Hs]; [by vm_compute|]).
    by apply not_elem_of_nil in Hs. }
  apply bool_decide_eq_false in H1, H3. done.
Qed.

(** The files of a sandbox, its lock apart, are distinct whatever [HOME] is. *)
Lemma files_distinct home name p : state_paths home name = Ok p → NoDup (files_of p).
Proof.
  unfold state_paths. destruct (is_valid_name name); [|done]. cbn [negb].
  destruct (data_dir home) as [dir|]; [|done]. simpl. intros [= <-].
  destruct (path_join_prefix (path_join dir name)) as [r Hr].
  change (NoDup (path_join (path_join dir name) <$> LEAVES)).
  apply NoDup_fmap_2_strong; [|apply (bool_decide_unpack _); by vm_compute].
  intros a b Ha Hb. rewrite !Hr by (by apply leaf_relative). apply app_inv_head.
Qed.

Definition DATA_COMPS : list str := strs [".local"; "share"; "devcroft"].

Lemma data_dir_components home :
  path_root home = Absolute → components (path_join home DATA_SUBDIR) = (Absolute, path_comps home ++ DATA_COMPS).
Proof. intros Hh. by rewrite components_join. Qed.

Lemma valid_name_plain name : is_valid_name name = true → plain_segment name ∧ "."%char ∉ name.
Proof.
  intros Hv. assert ("."%char ∉ name) as Hdot by (by apply is_valid_name_no_byte).
  assert ("~"%char ∉ name) as Ht by (by apply is_valid_name_no_byte).
  split; [|done]. split; [by apply is_valid_name_no_byte|]. split.
  - unfold keep_segment. rewrite !bool_decide_false; [done|..].
    + intros ->. apply Hdot. by left.
    + by apply is_valid_name_spec in Hv as (? & _).
  - intros ->. apply Ht. by left.
Qed.

Lemma lock_name_plain name : is_valid_name name = true → plain_segment (name ++ ".lock").
Proof.
  intros Hv. destruct (valid_name_plain name Hv) as [(Hs & _ & _) _]. split; [|split].
  - rewrite elem_of_app. intros [H|H]; [done|]. revert H. apply (bool_decide_eq_false_1 _). by vm_compute.
  - unfold keep_segment. rewrite !bool_decide_false; [done|..]; intros H; apply (f_equal length) in H;
      rewrite length_app in H; simpl in H; lia.
  - intros H. apply (f_equal length) in H. rewrite length_app in H. simpl in H. lia.
Qed.

(** Everything about the paths of a valid name, as components. *)
Lemma state_paths_components home name p :
  path_root home = Absolute → state_paths (Some home) name = Ok p →
  is_valid_name name = true ∧
  let dir := path_comps home ++ DATA_COMPS in
  components (root p) = (Absolute, dir ++ [name]) ∧
  components (lifecycle_lock p) = (Absolute, dir ++ [name ++ ".lock"]) ∧
  files_of p = path_join (root p) <$> LEAVES ∧
  ∀ s, s ∈ LEAVES → components (path_join (root p) s) = (Absolute, dir ++ [name; s]).
Proof.
  intros Hh. unfold state_paths. destruct (is_valid_name name) eqn:Hv; [|done]. cbn [negb].
  unfold data_dir, mbind, result_bind. intros [= <-]. split; [done|].
  pose proof (data_dir_components home Hh) as Hd.
  assert (path_root (path_join home DATA_SUBDIR) = Absolute) as Hdr by (unfold path_root; by rewrite Hd).
  assert (path_comps (path_join home DATA_SUBDIR) = path_comps home ++ DATA_COMPS) as Hdc by (unfold path_comps at 1; by rewrite Hd).
  assert (components (path_join (path_join home DATA_SUBDIR) name) =
    (Absolute, (path_comps home ++ DATA_COMPS) ++ [name])) as Hroot.
  { rewrite join_segment; [by rewrite Hdc|done|]. by apply valid_name_plain. }
  cbn [root lifecycle_lock with_lock in_dir]. split; [done|]. split; [|split; [done|]].
  - rewrite join_segment; [by rewrite Hdc|done|]. by apply lock_name_plain.
  - intros s Hs. rewrite join_segment; [|unfold path_root; by rewrite Hroot|by apply leaf_plain].
    unfold path_comps at 1. rewrite Hroot. cbn [snd]. by rewrite <- app_assoc.
Qed.

Lemma is_within_components a b ca cb :
  components a = (Absolute, ca) → components b = (Absolute, cb) → is_within a b = true ↔ cb `prefix_of` ca.
Proof. intros Ha Hb. rewrite is_within_iff. unfold path_root, path_comps. rewrite Ha, Hb. simpl. naive_solver. Qed.

Lemma prefix_same_head {A} (d : list A) a b l : d ++ [a] `prefix_of` d ++ b :: l → a = b.
Proof. intros H%prefix_app_inv. by apply prefix_cons_inv_1 in H. Qed.

(** C24: a sandbox's state never leaves its own directory: for a valid name (the
    only kind [StatePaths::new] accepts) all its files lie strictly inside its
    root below the data directory and are pairwise distinct; no file of one
    sandbox lies inside the root of another; and lock files lie inside no
    sandbox's root, so that removing a root never removes the lock held while
    doing it. *)
Theorem state_paths_confined home name p
    (Hh : path_root home = Absolute) (Hp : state_paths (Some home) name = Ok p) :
  is_valid_name name = true ∧
  (∀ f, f ∈ files_of p → is_within f (root p) = true ∧ is_within (root p) f = false) ∧
  NoDup (files_of p) ∧
  ∀ name' p', state_paths (Some home) name' = Ok p' →
    is_within (lifecycle_lock p) (root p') = false ∧
    (name ≠ name' → lifecycle_lock p ≠ lifecycle_lock p' ∧ ∀ f, f ∈ files_of p → is_within f (root p') = false).
Proof.
  destruct (state_paths_components _ _ _ Hh Hp) as (Hv & Hroot & Hlock & Hfiles & Hleaf).
  set (dir := path_comps home ++ DATA_COMPS) in *.
  split; [done|]. split; [|split].
  - intros f Hf. rewrite Hfiles in Hf. apply list_elem_of_fmap in Hf as (s & -> & Hs).
    specialize (Hleaf s Hs). split.
    + rewrite is_within_components by done. exists [s]. by rewrite <- app_assoc.
    + apply not_true_iff_false. rewrite is_within_components by done.
      intros H%prefix_length. rewrite !length_app in H. simpl in H. lia.
  - rewrite Hfiles. apply NoDup_fmap_2_strong.
    + intros a b Ha Hb Heq. pose proof (Hleaf a Ha) as H1. rewrite Heq, (Hleaf b Hb) in H1.
      injection H1 as H1. apply app_inj_1 in H1 as [_ [= ->]]; done.
    + apply (bool_decide_unpack _). by vm_compute.
  - intros name' p' Hp'.
    destruct (state_paths_components _ _ _ Hh Hp') as (Hv' & Hroot' & Hlock' & _ & _). fold dir in Hroot', Hlock'.
    split.
    + apply not_true_iff_false. rewrite is_within_components by done. intros H%prefix_same_head.
      destruct (valid_name_plain name' Hv') as [_ Hdot]. apply Hdot. rewrite H, elem_of_app. right. by left.
    + intros Hne. split.
      * intros Heq. rewrite Heq, Hlock' in Hlock. injection Hlock as Hlock.
        apply app_inj_1 in Hlock as [_ [= Hn]]; [|done]. apply Hne. by apply app_inj_2 in Hn as [-> _].
      * intros f Hf. rewrite Hfiles in Hf. apply list_elem_of_fmap in Hf as (s & -> & Hs).
        apply not_true_iff_false. rewrite is_within_components by eauto. intros H%prefix_same_head. done.
Qed.

Lemma state_paths_confined_witness :
  ∃ p, state_paths (Some ("/home/u" : str)) "web" = Ok p ∧ NoDup (files_of p).
Proof.
  destruct (state_paths (Some ("/home/u" : str)) "web") as [p|] eqn:E; [|vm_compute in E; discriminate E].
  exists p. split; [done|]. exact (proj1 (proj2 (proj2 (state_paths_confined "/home/u" "web" p eq_refl E)))).
Defined.

(** ** Lemmas: processes *)

Lemma process_start_time_max v pid n linux : process_start_time linux v pid = Ok n → (n ≤ U64_MAX)%N.
Proof.
  unfold process_start_time. destruct linux; simpl; [|intros [= <-]; done].
  destruct (proc_stat v pid); [|done]. destruct (rsplit_once _ _) as [[a b]|]; [|done].
  destruct (split_whitespace b !! 19) as [w|]; simpl; [|done].
  destruct (parse_unsigned U64_MAX w) eqn:E; [|done]. intros [= <-].
  unfold parse_unsigned in E. repeat case_match; simplify_eq; by apply N.leb_le.
Qed.

Lemma read_pidfile_written f path pid start :
  (start ≤ U64_MAX)%N → (0 ≤ pid ≤ 2147483647)%Z →
  read_pidfile (<[path := show_Z pid ++ " " ++ show_N start]> f) path = Ok (Some (pid, start)).
Proof.
  intros Hs Hp. unfold read_pidfile, read_to_string. rewrite lookup_insert_eq.
  replace pid with (Z.of_N (Z.to_N pid)) by lia. set (n := Z.to_N pid).
  assert (show_Z (Z.of_N n) ++ " " ++ show_N start = join " " [show_Z (Z.of_N n); show_N start]) as -> by done.
  assert (Forall ascii_word [show_Z (Z.of_N n); show_N start]) as Hw.
  { rewrite show_Z_of_N. repeat constructor; apply show_N_word. }
  rewrite utf8_valid_ascii.
  - unfold mbind, result_bind. rewrite split_whitespace_words by done. cbn [head tail mbind option_bind].
    rewrite parse_i32_show by lia. simpl. by rewrite parse_show_N.
  - cbn [join]. rewrite show_Z_of_N. apply Forall_app. split; [apply show_N_ascii|].
    apply Forall_app. split; [by repeat constructor|apply show_N_ascii].
Qed.

(** The command name is skipped whatever it contains: only the text after the
    last parenthesis counts, and its twentieth field is the start time. *)
Lemma start_time_of_stat v pid comm fields start :
  proc_stat v pid = Some (show_Z pid ++ " (" ++ comm ++ ")" ++ " " ++ join " " fields) →
  Forall ascii_word fields → RPAREN ∉ join " " fields → fields !! 19 = Some (show_N start) → (start ≤ U64_MAX)%N →
  process_start_time true v pid = Ok start.
Proof.
  intros Hst Hf Hr H19 Hmax. unfold process_start_time. rewrite Hst. cbn [negb].
  assert (show_Z pid ++ " (" ++ comm ++ ")" ++ " " ++ join " " fields =
    (show_Z pid ++ " (" ++ comm) ++ RPAREN :: (" "%char :: join " " fields)) as -> by by rewrite <- !app_assoc.
  rewrite rsplit_once_app by (rewrite not_elem_of_cons; split; done).
  assert (split_whitespace (" "%char :: join " " fields) = split_whitespace (join " " fields)) as ->.
  { unfold split_whitespace. assert (chars (" "%char :: join " " fields) = byte " " :: chars (join " " fields)) as -> by done.
    done. }
  rewrite split_whitespace_words, H19 by done. simpl. by rewrite parse_show_N.
Qed.

(** A recorded process is recognised by its start time and never confused
    with another one that reuses its pid: after the pidfile was written for a
    process, at any later moment [health] answers [Healthy] or [Stale] for that
    pid, it is [Healthy] exactly when [/proc] still shows the recorded start
    time (or, where there is none, the pid is alive) and the control socket
    accepts, and a pid now held by a process with another start time is
    [Stale].  [/proc/<pid>/stat] is read correctly whatever the command name
    contains ({!start_time_of_stat}). *)
Theorem pidfile_identity linux v v' accepts f f' p pid start
    (Hpid : (0 ≤ pid ≤ 2147483647)%Z) (Hst : process_start_time linux v pid = Ok start)
    (Hw : write_pidfile linux v f (pidfile p) pid = Ok f') :
  read_pidfile f' (pidfile p) = Ok (Some (pid, start)) ∧
  (health linux v' accepts f' p = Ok (Healthy pid) ∨ health linux v' accepts f' p = Ok (Stale pid)) ∧
  (health linux v' accepts f' p = Ok (Healthy pid) ↔ is_same_process linux v' pid start = true ∧ accepts (socket p) = true) ∧
  (∀ other, start ≠ 0%N → process_start_time linux v' pid = Ok other → other ≠ start →
    health linux v' accepts f' p = Ok (Stale pid)).
Proof.
  unfold write_pidfile in Hw. rewrite Hst in Hw. apply ok_inj in Hw as <-.
  pose proof (process_start_time_max _ _ _ _ Hst) as Hmax.
  pose proof (read_pidfile_written f (pidfile p) pid start Hmax Hpid) as Hr.
  split; [done|]. unfold health. rewrite Hr. unfold mbind, result_bind. split; [|split].
  - repeat case_match; auto.
  - destruct (is_same_process _ _ _ _); simpl; [|naive_solver]. destruct (accepts _); naive_solver.
  - intros other H0 Ho Hne. unfold is_same_process. apply N.eqb_neq in H0. rewrite H0, Ho.
    apply N.eqb_neq in Hne. by rewrite Hne.
Qed.

(** A process table with one process. *)
Definition one_process (pid : Z) (stat : str) : ProcView :=
  {| proc_stat p := if decide (p = pid) then Some stat else None;
     kill0_ok p := bool_decide (p = pid); kill0_eperm _ := false |}.

Definition sample_stat : str := "42 (a) b) S 1 2 3 4 5 6 7 8 9 10 11 12 13 14 15 16 17 18 777 20".
Definition sample_view : ProcView := one_process 42 sample_stat.

Lemma pidfile_identity_witness :
  process_start_time true sample_view 42 = Ok 777%N ∧
  ∃ f', write_pidfile true sample_view ∅ "/r/keeper.pid" 42 = Ok f' ∧
    health true sample_view (λ _, true) f' (in_dir "/r") = Ok (Healthy 42).
Proof.
  assert (process_start_time true sample_view 42 = Ok 777%N) as Hs by (vm_compute; reflexivity).
  split; [done|]. eexists.
  assert (write_pidfile true sample_view ∅ "/r/keeper.pid" 42 = Ok _) as E by (unfold write_pidfile; rewrite Hs; reflexivity).
  split; [exact E|].
  apply (pidfile_identity true sample_view sample_view (λ _, true) ∅ _ (in_dir "/r") 42 777 ltac:(lia) Hs E).
  split; vm_compute; reflexivity.
Defined.

(** ** Lemmas: termination *)

Lemma poll_gone_spec linux view pid start polls t :
  let '(t', gone) := poll_gone linux view pid start polls t in
  t ≤ t' ≤ t + polls ∧ (gone = false → t' = t + polls ∧ ∀ k, t ≤ k < t' → is_same_process linux (view k) pid start = true).
Proof.
  revert t. induction polls as [|polls IH]; intros t; simpl; [split; [lia|]; intros _; split; lia|].
  destruct (is_same_process linux (view t) pid start) eqn:E; simpl; [|split; [lia|done]].
  specialize (IH (S t)). destruct (poll_gone _ _ _ _ _ _) as [t' gone]. destruct IH as [H1 H2].
  split; [lia|]. intros Hg. destruct (H2 Hg) as [-> Hk]. split; [lia|]. intros k Hk'.
  destruct (decide (k = t)) as [->|]; [done|]. apply Hk. lia.
Qed.

(** C23: termination only ever signals the recorded process.  Each signal is
    sent to the pid of the pidfile, directly after an observation in which that
    pid still had the recorded start time; the signals are none, SIGTERM, or
    SIGTERM then SIGKILL, the latter only when the process was seen alive at
    every poll of the grace period; and it ends after at most two more
    observations than the polls that fit the grace period. *)
Theorem terminate_only_recorded linux view polls f path t kills t'
    (H : terminate_and_wait linux view polls f path t = (kills, t')) :
  t' ≤ t + polls + 2 ∧
  (kills = [] ∨ ∃ pid start, read_pidfile f path = Ok (Some (pid, start)) ∧
    Forall (λ k, kill_pid k = pid ∧ 0 < kill_at k ∧ is_same_process linux (view (pred (kill_at k))) pid start = true) kills ∧
    (kill_sig <$> kills = [SIGTERM] ∨
     kill_sig <$> kills = [SIGTERM; SIGKILL] ∧
     ∀ k, t ≤ k ≤ t + polls + 1 → is_same_process linux (view k) pid start = true)).
Proof.
  unfold terminate_and_wait in H. destruct (read_pidfile f path) as [[[pid start]|]|e] eqn:Hr;
    [|injection H as <- <-; split; [lia|by left]..].
  destruct (is_same_process linux (view t) pid start) eqn:E0; simpl in H; [|injection H as <- <-; split; [lia|by left]].
  unfold terminate_and_wait_pid in H. pose proof (poll_gone_spec linux view pid start polls (S t)) as Hp.
  destruct (poll_gone _ _ _ _ _ _) as [t1 gone]. destruct Hp as [Ht Hg].
  destruct gone; [|destruct (is_same_process linux (view t1) pid start) eqn:E1]; injection H as <- <-;
    (split; [lia|right; exists pid, start; split; [done|]]).
  - split; [|by left]. apply Forall_singleton. split; [done|]. split; [simpl; lia|done].
  - split; [apply Forall_cons; split; [|apply Forall_singleton]; (split; [done|]; split; [simpl; lia|done])|]. right. split; [done|].
    destruct (Hg eq_refl) as [-> Hk]. intros k Hkb.
    destruct (decide (k = t)) as [->|]; [done|]. destruct (decide (k = S t + polls)) as [->|]; [done|].
    apply Hk. lia.
  - split; [|by left]. apply Forall_singleton. split; [done|]. split; [simpl; lia|done].
Qed.

Lemma terminate_only_recorded_witness :
  ∃ kills t', terminate_and_wait true (λ _, sample_view) 3 {[ ("/p" : str) := ("42 777" : str) ]} "/p" 0 = (kills, t') ∧
    kill_sig <$> kills = [SIGTERM; SIGKILL] ∧ t' ≤ 5.
Proof.
  destruct (terminate_and_wait true (λ _, sample_view) 3 {[ ("/p" : str) := ("42 777" : str) ]} "/p" 0) as [kills t'] eqn:E.
  exists kills, t'. split; [done|]. split; [vm_compute in E; by injection E as <- <-|].
  exact (proj1 (terminate_only_recorded _ _ _ _ _ _ _ _ E)).
Defined.

(** ** Lemmas: the metadata file *)

Lemma meta_tmp_ne path : meta_tmp path ≠ path.
Proof.
  unfold meta_tmp. destruct (strip_suffix ".json" path) as [stem|] eqn:E; intros H; apply (f_equal length) in H.
  - assert (length path = length stem + 5) as Hl.
    { unfold strip_suffix in E. destruct (strip_prefix (reverse ".json") (reverse path)) as [r|] eqn:E2; [|done].
      injection E as <-. assert (∀ p s r, strip_prefix p s = Some r → length s = length p + length r) as Hs.
      { clear. induction p as [|x p IH]; intros s r; simpl; [by intros [= ->]|]. destruct s as [|y s]; [done|].
        destruct (decide (x = y)); [|done]. intros Hr. simpl. by rewrite (IH s r). }
      apply Hs in E2. rewrite !length_reverse in E2. rewrite length_reverse, E2. simpl. lia. }
    rewrite length_app in H. simpl in H. lia.
  - rewrite length_app in H. simpl in H. lia.
Qed.

(** The metadata file is replaced atomically: in every state the file
    system goes through while it is written (a crash or a concurrent reader may
    see any of them), reading it gives either what it gave before or exactly
    the new metadata, never a partial file; the last state has the new one and
    no temporary file. *)
Theorem write_meta_atomic to_json from_json f path m states
    (Hlaw : ∀ s, to_json m = Ok s → from_json s = Ok m ∧ utf8_valid s = true)
    (Hw : write_meta to_json f path m = Ok states) :
  (∀ g, g ∈ states → read_meta from_json g path = read_meta from_json f path ∨ read_meta from_json g path = Ok (Some m)) ∧
  ∃ g, last states = Some g ∧ read_meta from_json g path = Ok (Some m) ∧ g !! meta_tmp path = None.
Proof.
  unfold write_meta in Hw. destruct (to_json m) as [json|] eqn:E; [|done]. apply ok_inj in Hw as <-.
  destruct (Hlaw json eq_refl) as [Hj Hu]. pose proof (meta_tmp_ne path) as Hne.
  assert (read_meta from_json (<[path:=json]> (delete (meta_tmp path) f)) path = Ok (Some m)) as Hlast.
  { unfold read_meta, read_to_string. rewrite lookup_insert_eq, Hu. simpl. by rewrite Hj. }
  split.
  - intros g [Hg|Hg]%elem_of_app.
    + apply list_elem_of_fmap in Hg as (k & -> & _). left.
      unfold read_meta, read_to_string. by rewrite lookup_insert_ne by done.
    + apply list_elem_of_singleton in Hg as ->. by right.
  - eexists. split; [by rewrite last_snoc|]. split; [done|]. rewrite lookup_insert_ne by done. apply lookup_delete_eq.
Qed.

Definition sample_meta : Meta :=
  {| project_root := "/p"; env_fingerprint := "f"; read_only_grants := []; resolved_backend := default_resolved_backend;
     declared_services := []; ran_activation_hook := false; shell := None; proxy_port := None; proxy_token := None |}.

Lemma write_meta_atomic_witness :
  ∃ states, write_meta (λ m, Ok (project_root m)) ∅ "/r/meta.json" sample_meta = Ok states ∧ length states = 4 ∧
    ∃ g, last states = Some g ∧
      read_meta (λ s, if decide (s = "/p") then Ok sample_meta else Err ([] : str)) g "/r/meta.json" = Ok (Some sample_meta).
Proof.
  eexists. assert (write_meta (λ m, Ok (project_root m)) ∅ "/r/meta.json" sample_meta = Ok _) as E by reflexivity.
  split; [exact E|]. split; [reflexivity|].
  destruct (write_meta_atomic (λ m, Ok (project_root m)) (λ s, if decide (s = "/p") then Ok sample_meta else Err ([] : str))
    ∅ "/r/meta.json" sample_meta _ ltac:(intros s [= <-]; split; vm_compute; reflexivity) E) as (_ & g & H1 & H2 & _).
  by exists g.
Defined.

(** ** Lemmas: runtime state *)

(** Clearing removes exactly the pidfiles and sockets, and leaves the logs, the
    profile, the metadata and the host key. *)
Lemma clear_runtime_state_spec p f x :
  clear_runtime_state p f !! x =
    if decide (x ∈ [pidfile p; socket p; proxy_pidfile p; ssh_socket p; proxy_socket p]) then None else f !! x.
Proof.
  unfold clear_runtime_state. destruct (decide (x ∈ _)) as [Hx|Hx].
  - rewrite !lookup_delete. repeat case_decide; try done. exfalso. set_solver.
  - rewrite !not_elem_of_cons in Hx. destruct Hx as (? & ? & ? & ? & ? & _). by rewrite !lookup_delete_ne by done.
Qed.

Lemma cleared_is_none linux v accepts p f : health linux v accepts (clear_runtime_state p f) p = Ok HealthNone.
Proof.
  unfold health, read_pidfile, read_to_string. rewrite clear_runtime_state_spec.
  rewrite decide_True by (by left). done.
Qed.
