(* ===== verification/Exec.v ===== *)
(** * The client side of a session ([src/exec.rs])

    [devcroft exec] and [devcroft shell] against a keeper.  One connection
    attempt is what the state directory, the socket and the keeper answer to
    it; a running session is the frames its stream yields before the first
    read error. *)

From S2P Require Import Prelude Protocol Registry Connection State.

#[local] Set Default Proof Using "Type".

Record ExecRequest := { ex_cmd : str; ex_args : list str; ex_cwd : str }.
Record ShellRequest := { sh_cwd : str }.

Inductive ExecError :=
| NotRunning
| Connect (e : state_error)
| SpawnErr (message : str)
| ProtocolErr (e : io_error).

(** What the environment answers to one attempt: the sandbox's state paths and
    health, [connect], the write of the [Spawn] frame, and the frames then read
    ([at_end] is the read error after them). *)
Record Attempt := {
  at_paths : result state_error StatePaths;
  at_health : result state_error Health;
  at_connect : result state_error unit;
  at_write : result io_error unit;
  at_frames : list Frame;
  at_end : io_error;
}.

Definition expected_spawn_ok : io_error := InvalidData "expected SpawnOk".

(** [connect_and_spawn]: the frames of the session that started. *)
Definition connect_and_spawn (env : SpawnRequest → Attempt) (spawn_req : SpawnRequest) : result ExecError (list Frame) :=
  let a := env spawn_req in
  _ ← map_err Connect (at_paths a);
  h ← map_err Connect (at_health a);
  match h with
  | Healthy _ =>
      _ ← map_err Connect (at_connect a);
      _ ← map_err ProtocolErr (at_write a);
      match at_frames a with
      | [] => Err (ProtocolErr (at_end a))
      | FSpawnOk _ :: rest => Ok rest
      | FSpawnErr message :: _ => Err (SpawnErr message)
      | _ :: _ => Err (ProtocolErr expected_spawn_ok)
      end
  | Stale _ | HealthNone => Err NotRunning
  end.

(** [i32] addition of a release build. *)
Definition wrap_i32 (z : Z) : Z := ((z + 2147483648) mod 4294967296 - 2147483648)%Z.

Definition exit_code_from (status : ExitStatus) : Z :=
  match Protocol.exit_code status with
  | Some code => code
  | None => match exit_signal status with Some signal => wrap_i32 (128 + signal) | None => 1%Z end
  end.

(** What the user sees of a session. *)
Record Seen := { seen_stdout : str; seen_stderr : str; seen_code : Z }.

(** The reading loop of [stream_session]. *)
Fixpoint stream_session (frames : list Frame) : Seen :=
  match frames with
  | [] => {| seen_stdout := []; seen_stderr := []; seen_code := 1 |}
  | FStdout bytes :: frames =>
      let s := stream_session frames in
      {| seen_stdout := bytes ++ seen_stdout s; seen_stderr := seen_stderr s; seen_code := seen_code s |}
  | FStderr bytes :: frames =>
      let s := stream_session frames in
      {| seen_stdout := seen_stdout s; seen_stderr := bytes ++ seen_stderr s; seen_code := seen_code s |}
  | FExit status :: _ => {| seen_stdout := []; seen_stderr := []; seen_code := exit_code_from status |}
  | _ :: frames => stream_session frames
  end.

Definition exec_request (req : ExecRequest) : SpawnRequest :=
  {| cmd := ex_cmd req; args := ex_args req; cwd := ex_cwd req; req_env := ∅; pty := None |}.

Definition exec (env : SpawnRequest → Attempt) (req : ExecRequest) : result ExecError Seen :=
  stream_session <$> connect_and_spawn env (exec_request req).

Definition FALLBACK_SHELL : str := "sh".

(** [recorded_shell]: every failure on the way is [None]. *)
Definition recorded_shell (paths : result state_error StatePaths) (read_meta : str → result state_error (option Meta)) : option str :=
  match paths with
  | Err _ => None
  | Ok p => match read_meta (meta p) with Ok (Some m) => shell m | _ => None end
  end.

Definition shell_request (cwd : str) (size : PtySize) (cmd : str) : SpawnRequest :=
  {| cmd := cmd; args := []; cwd := cwd; req_env := ∅; pty := Some size |}.

(** [shell]: the session, and the commands tried (the environment may answer
    the second attempt differently from the first). *)
Definition shell (env : nat → SpawnRequest → Attempt) (recorded shell_var : option str) (terminal : option PtySize)
    (req : ShellRequest) : result ExecError Seen * list str :=
  let fallback := default FALLBACK_SHELL recorded in
  let requested_shell := default fallback shell_var in
  let size := default {| rows := 24; cols := 80 |} terminal in
  let spawn_req := shell_request (sh_cwd req) size in
  match connect_and_spawn (env 0) (spawn_req requested_shell) with
  | Err (SpawnErr e) =>
      if bool_decide (requested_shell ≠ fallback) then
        (stream_session <$> connect_and_spawn (env 1) (spawn_req fallback), [requested_shell; fallback])
      else (Err (SpawnErr e), [requested_shell])
  | result => (stream_session <$> result, [requested_shell])
  end.

(** ** What the client sends *)

(** [spawn_stdin_pump]: one turn per read result ([ReadBytes []] is end of file). *)
Fixpoint stdin_pump (reads : list read_result) : list Frame :=
  match reads with
  | [] => []
  | ReadBytes [] :: _ | ReadErr _ :: _ => [FStdinClosed]
  | ReadBytes bytes :: reads => FStdin bytes :: stdin_pump reads
  end.

Definition SIGINT : Z := 2.
Definition SIGHUP : Z := 1.
Definition SIGWINCH : Z := 28.

(** [block_forwarded_signals]. *)
Definition forwarded_set (pty : bool) : list Z := [SIGINT; SIGTERM; SIGHUP] ++ (if pty then [SIGWINCH] else []).

(** One turn of [spawn_signal_forwarder]: the frame sent for a received signal. *)
Definition forward_signal (pty : bool) (terminal : option PtySize) (received : Z) : option Frame :=
  if pty && (received =? SIGWINCH)%Z then FResize <$> terminal
  else if (received =? SIGINT)%Z then Some (FSignal Int)
  else if (received =? SIGTERM)%Z then Some (FSignal Term)
  else if (received =? SIGHUP)%Z then Some (FSignal Hup)
  else None.

(** [terminal_size]: the window size unless it is unknown or degenerate. *)
Definition terminal_size (ws : option (N * N)) : option PtySize :=
  match ws with
  | None => None
  | Some (r, c) => if (r =? 0)%N || (c =? 0)%N then None else Some {| rows := r; cols := c |}
  end.

(** ** Lemmas *)

Lemma stream_outputs outs rest :
  Forall is_output outs →
  stream_session (outs ++ rest) =
    {| seen_stdout := stdout_of outs ++ seen_stdout (stream_session rest);
       seen_stderr := stderr_of outs ++ seen_stderr (stream_session rest);
       seen_code := seen_code (stream_session rest) |}.
Proof.
  induction 1 as [|f outs Hf _ IH]; [simpl; by destruct (stream_session rest)|].
  destruct f; try done; simpl; rewrite IH; simpl; by rewrite ?app_assoc.
Qed.

Lemma stream_unfinished outs : Forall is_output outs → seen_code (stream_session outs) = 1%Z.
Proof. intros H. rewrite <- (app_nil_r outs), stream_outputs by done. done. Qed.

(** The code reported for what waiting on the child returned. *)
Lemma exit_code_reported r :
  match r with
  | Ok (Some code, _) => exit_code_from (to_exit_status r) = code
  | Ok (None, Some signal) => (0 < signal ≤ 64)%Z → exit_code_from (to_exit_status r) = (128 + signal)%Z
  | _ => exit_code_from (to_exit_status r) = 1%Z
  end.
Proof.
  destruct r as [[[code|] [signal|]]|e]; try done. intros Hs.
  unfold exit_code_from, wrap_i32. simpl. rewrite Z.mod_small by lia. lia.
Qed.

(** [exec] against a keeper that accepted the spawn. *)
Definition keeper_attempt (frames : list Frame) (e : io_error) : Attempt :=
  {| at_paths := Ok (in_dir []); at_health := Ok (Healthy 0); at_connect := Ok tt; at_write := Ok tt;
     at_frames := frames; at_end := e |}.

Lemma stdin_of_pump reads : stdin_of (stdin_pump reads) = pump_all reads.
Proof. induction reads as [|[[|c b]|eio] reads IH]; simpl; rewrite ?IH; done. Qed.

(** ** Properties *)

(** C14: end to end, [exec] reports what the command did: against a keeper
    connection that ran the session in any interleaving and whose stream then
    ends, if the client received the [Exit] it printed all the child wrote to
    each output, complete and in order, and returns the child's exit code, or
    128 plus the signal that killed it; if the stream broke earlier it returns
    1 and never a code the child did not produce. *)
Theorem exec_end_to_end id reg now s req input c e
    (Hwf : registry_wf reg) (Hn : (1 ≤ id ≤ next_id reg)%N)
    (Hr : rtc step (start_session id reg now s (exec_request req) input) c)
    (Hne : c_written c ≠ []) :
  ∃ seen, exec (λ _, keeper_attempt (c_written c) e) req = Ok seen ∧
    ((∃ st, FExit st ∈ c_written c) →
      seen_stdout seen = pump_all (ses_stdout s) ∧ seen_stderr seen = remaining (ses_stderr s) ∧
      match ses_wait s with
      | Ok (Some code, _) => seen_code seen = code
      | Ok (None, Some signal) => (0 < signal ≤ 64)%Z → seen_code seen = (128 + signal)%Z
      | _ => seen_code seen = 1%Z
      end) ∧
    ((∀ st, FExit st ∉ c_written c) → seen_code seen = 1%Z).
Proof.
  pose proof (reach_inv _ _ Hr (start_inv id reg now s (exec_request req) input Hwf Hn)) as Hi.
  destruct (reach_fixed _ _ Hr) as [_ Hs]. simpl in Hs.
  destruct (inv_conv _ Hi) as (outs & tail & [Hsent Houts Htail Hc]). rewrite Hs in Htail, Hc.
  assert (c_written c `prefix_of` FSpawnOk (c_id c) :: outs ++ tail) as [rest Hpre].
  { rewrite <- Hsent. pose proof (inv_fifo _ Hi) as Hq. destruct (c_receiver c); [|apply Hq].
    rewrite Hq. by apply prefix_app_r. }
  destruct (c_written c) as [|f fs] eqn:Ew; [done|]. simpl in Hpre. injection Hpre as <- Hfs.
  exists (stream_session fs). split; [done|].
  assert (∀ st, FExit st ∉ outs) as Hno.
  { intros st Hin. rewrite Forall_forall in Houts. by apply Houts in Hin. }
  destruct Htail as [->|[Hw ->]].
  - rewrite app_nil_r in Hfs. split.
    + intros [st [|Hin]%elem_of_cons]; [done|]. exfalso. apply (Hno st). rewrite Hfs. set_solver.
    + intros _. apply stream_unfinished. rewrite Hfs in Houts. by apply Forall_app in Houts as [? _].
  - destruct Hc as [H1 H2]; [by right|].
    rewrite (inv_stdout _ Hi), app_nil_r in H1 by by rewrite Hw.
    rewrite (inv_stderr _ Hi), app_nil_r in H2 by by rewrite Hw.
    destruct rest as [|x rest _] using rev_ind.
    + rewrite app_nil_r in Hfs. subst fs. split.
      * intros _. rewrite stream_outputs by done. simpl. rewrite !app_nil_r, H1, H2.
        split; [done|]. split; [done|]. apply exit_code_reported.
      * intros Hnot. exfalso. eapply Hnot. right. apply elem_of_app. right. by left.
    + rewrite app_assoc in Hfs. apply app_inj_tail in Hfs as [-> _]. split.
      * intros [st [|Hin]%elem_of_cons]; [done|]. exfalso. apply (Hno st). set_solver.
      * intros _. apply stream_unfinished. by apply Forall_app in Houts as [? _].
Qed.

(** [shell] tries the user's shell first and at most one other command: the
    sandbox's own shell (or [sh]), only when the keeper refused to spawn the
    first and it is a different one; no other failure is retried, and the
    result is that of the last attempt. *)
Theorem shell_falls_back_once env recorded shell_var terminal req :
  let fallback := default FALLBACK_SHELL recorded in
  let requested := default fallback shell_var in
  let request := shell_request (sh_cwd req) (default {| rows := 24; cols := 80 |} terminal) in
  let first := connect_and_spawn (env 0) (request requested) in
  match shell env recorded shell_var terminal req with
  | (r, [c]) => c = requested ∧ r = stream_session <$> first ∧
      (requested = fallback ∨ ∀ e, first ≠ Err (SpawnErr e))
  | (r, [c; c']) => c = requested ∧ c' = fallback ∧ requested ≠ fallback ∧ (∃ e, first = Err (SpawnErr e)) ∧
      r = stream_session <$> connect_and_spawn (env 1) (request fallback)
  | _ => False
  end.
Proof.
  unfold shell. simpl. destruct (connect_and_spawn (env 0) _) as [fs|[]] eqn:E; try (split; [done|]; split; [done|]; by right).
  case_bool_decide as Hd; [by eauto 10|]. split; [done|]. split; [done|]. by left.
Qed.

(** The signals that are waited for are exactly those that are forwarded, as
    the same signal number; a window change becomes a resize. *)
Lemma forward_signal_spec pty terminal received :
  received ∈ forwarded_set pty →
  match forward_signal pty terminal received with
  | Some (FSignal s) => as_libc s = received
  | Some (FResize size) => pty = true ∧ received = SIGWINCH ∧ terminal = Some size
  | None => pty = true ∧ received = SIGWINCH ∧ terminal = None
  | _ => False
  end.
Proof.
  unfold forwarded_set. intros Hin. rewrite elem_of_app, !elem_of_cons in Hin.
  destruct Hin as [[->|[->|[->|H]]]|H]; [by destruct pty..|by apply not_elem_of_nil in H|].
  destruct pty; [|by apply not_elem_of_nil in H]. apply list_elem_of_singleton in H as ->.
  simpl. by destruct terminal.
Qed.

(** A complete run: everything was written and the stream ended. *)
Lemma exec_end_to_end_witness :
  ∃ c seen, c_written c = sample_conversation ∧
    exec (λ _, keeper_attempt (c_written c) UnexpectedEof) {| ex_cmd := "ls"; ex_args := []; ex_cwd := "/" |} = Ok seen ∧
    seen_stdout seen = "hi" ∧ seen_code seen = 0%Z.
Proof.
  assert (∃ c, rtc step (start_session 1 (registry_number registry_new).1 0 sample_session
      (exec_request {| ex_cmd := "ls"; ex_args := []; ex_cwd := "/" |}) []) c ∧ c_written c = sample_conversation) as (c & Hr & Hw).
  { eexists. split.
    - eapply rtc_l; [left; by eapply pump_out_send|].
      eapply rtc_l; [left; eapply pump_out_stop; [done|by left]|].
      eapply rtc_l; [left; eapply pump_err_stop; [done|by left]|].
      eapply rtc_l; [left; by eapply wait_join_stdout|].
      eapply rtc_l; [left; by eapply wait_join_stderr|].
      eapply rtc_l; [left; by eapply wait_reap|].
      eapply rtc_l; [left; by eapply wait_remove|].
      eapply rtc_l; [left; by eapply wait_send|].
      do 3 (eapply rtc_l; [left; by eapply writer_write|]).
      apply rtc_refl.
    - vm_compute. done. }
  destruct (exec_end_to_end 1 (registry_number registry_new).1 0 sample_session {| ex_cmd := "ls"; ex_args := []; ex_cwd := "/" |} [] c UnexpectedEof
    sample_registry_wf ltac:(by vm_compute) Hr ltac:(by rewrite Hw)) as (seen & H1 & H2 & _).
  exists c, seen. split; [done|]. split; [done|].
  destruct H2 as (H3 & _ & H4); [|split; [exact H3|exact H4]].
  exists {| exit_code := Some 0%Z; exit_signal := None |}. rewrite Hw. right. right. by left.
Defined.
