(* ===== verification/Hooks.v ===== *)
(** * Lifecycle hooks ([src/lifecycle/hooks.rs])

    Hooks run inside the sandbox, as sessions of its keeper, their output
    appended to the keeper's log.  The keeper's answers are a stream of
    attempts, one per hook run. *)

From S2P Require Import Prelude Manifest Protocol Connection.

#[local] Set Default Proof Using "Type".

Inductive HookError :=
| HookConnect (e : str)
| HookProtocol (e : io_error)
| Failed (name detail : str).

Record HookAttempt := {
  ha_connect : result str unit;
  ha_write : result io_error unit;
  ha_frames : list Frame;
  ha_end : io_error;
  ha_open_log : result str unit;
}.

(** [run_one]'s outcome for the status of a finished hook. *)
Definition hook_outcome (name : str) (status : ExitStatus) : result HookError unit :=
  match Protocol.exit_code status, exit_signal status with
  | Some 0%Z, None => Ok tt
  | Some code, _ => Err (Failed name ("exited with status " ++ show_Z code))
  | None, Some sig => Err (Failed name ("killed by signal " ++ show_Z sig))
  | None, None => Err (Failed name "exited with unknown status")
  end.

(** The output loop: what is appended to the log, and the status. *)
Fixpoint hook_output (frames : list Frame) (at_end : io_error) : str * result HookError ExitStatus :=
  match frames with
  | [] => ([], Err (HookProtocol at_end))
  | FStdout bytes :: frames | FStderr bytes :: frames =>
      let '(log, r) := hook_output frames at_end in (bytes ++ log, r)
  | FExit status :: _ => ([], Ok status)
  | _ :: frames => hook_output frames at_end
  end.

Section hooks.
(** The [n]-th hook's exchange with the keeper. *)
Context (keeper : nat → SpawnRequest → HookAttempt).

(** The commands run so far, and the log. *)
Record HookState := { hs_runs : list (str * str); hs_log : str }.

Definition hook_request (project_root cmd : str) : SpawnRequest :=
  {| Protocol.cmd := "sh"; args := ["-c" : str; cmd]; cwd := project_root; req_env := ∅; pty := None |}.

Definition run_one (name cmd project_root : str) (st : HookState) : result HookError unit * HookState :=
  let a := keeper (length (hs_runs st)) (hook_request project_root cmd) in
  let st := {| hs_runs := hs_runs st ++ [(name, cmd)]; hs_log := hs_log st |} in
  match ha_connect a with
  | Err e => (Err (HookConnect e), st)
  | Ok _ =>
      match ha_write a with
      | Err e => (Err (HookProtocol e), st)
      | Ok _ =>
          match ha_frames a with
          | [] => (Err (HookProtocol (ha_end a)), st)
          | FSpawnErr message :: _ => (Err (Failed name message), st)
          | FSpawnOk _ :: frames =>
              match ha_open_log a with
              | Err e => (Err (HookConnect e), st)
              | Ok _ =>
                  let '(output, r) := hook_output frames (ha_end a) in
                  let log := hs_log st ++ "[hook " ++ name ++ "] $ " ++ cmd ++ [NL] ++ output in
                  let st := {| hs_runs := hs_runs st; hs_log := log |} in
                  match r with
                  | Err e => (Err e, st)
                  | Ok status => (hook_outcome name status, st)
                  end
              end
          | _ :: _ => (Err (HookProtocol (InvalidData "expected SpawnOk")), st)
          end
      end
  end.

Definition run_activation_script (project_root script : str) (st : HookState) : result HookError unit * HookState :=
  run_one "activation" script project_root st.

Definition run (project_root : str) (hooks : Hooks) (run_post_create : bool) (st : HookState) : result HookError unit * HookState :=
  let first :=
    match post_create hooks with
    | Some cmd => if run_post_create then run_one "post_create" cmd project_root st else (Ok tt, st)
    | None => (Ok tt, st)
    end in
  match first with
  | (Err e, st) => (Err e, st)
  | (Ok _, st) =>
      match post_start hooks with
      | Some cmd => run_one "post_start" cmd project_root st
      | None => (Ok tt, st)
      end
  end.

(** ** Lemmas *)

Lemma hook_outcome_ok name st : hook_outcome name st = Ok tt ↔ st = {| exit_code := Some 0%Z; exit_signal := None |}.
Proof. destruct st as [[[|p|p]|] [s|]]; simpl; split; (done || (by intros [=])). Qed.

Lemma run_one_runs name cmd root st : hs_runs (run_one name cmd root st).2 = hs_runs st ++ [(name, cmd)].
Proof. unfold run_one. repeat case_match; done. Qed.

(** A hook that succeeded ran to an [Exit] with status 0. *)
Lemma run_one_ok name cmd root st :
  (run_one name cmd root st).1 = Ok tt →
  ∃ id frames output, ha_frames (keeper (length (hs_runs st)) (hook_request root cmd)) = FSpawnOk id :: frames ∧
    hook_output frames (ha_end (keeper (length (hs_runs st)) (hook_request root cmd))) =
      (output, Ok {| exit_code := Some 0%Z; exit_signal := None |}) ∧
    hs_log (run_one name cmd root st).2 = hs_log st ++ "[hook " ++ name ++ "] $ " ++ cmd ++ [NL] ++ output.
Proof.
  unfold run_one. destruct (ha_connect _); [|done]. destruct (ha_write _); [|done].
  destruct (ha_frames _) as [|[] frames]; try done. destruct (ha_open_log _); [|done].
  destruct (hook_output frames _) as [output [status|]] eqn:Eo; [|done].
  intros Hok%hook_outcome_ok. simpl in Hok. subst. by exists session_id, frames, output.
Qed.

Definition hook_due (name : str) (hook : option str) : list (str * str) :=
  match hook with Some cmd => [(name, cmd)] | None => [] end.

(** What a run of the hooks ran: all that were due when it succeeded, a
    beginning of them when it did not. *)
Lemma run_runs root hooks (flag : bool) st :
  let due := hook_due "post_create" (if flag then post_create hooks else None) ++ hook_due "post_start" (post_start hooks) in
  let '(r, st') := run root hooks flag st in
  ∃ ran, hs_runs st' = hs_runs st ++ ran ∧ ran `prefix_of` due ∧ (r = Ok tt → ran = due).
Proof.
  assert (∀ name cmd st, ∃ st1, (run_one name cmd root st).2 = st1 ∧ hs_runs st1 = hs_runs st ++ [(name, cmd)]) as H1.
  { intros. eexists. split; [done|apply run_one_runs]. }
  unfold run. destruct (post_create hooks) as [c1|], flag; simpl.
  1: { destruct (H1 "post_create" c1 st) as (st1 & Hs1 & Hr1). destruct (run_one _ c1 _ _) as [[[]|e] st1']; simpl in Hs1; subst.
       - destruct (post_start hooks) as [c2|]; simpl.
         + destruct (H1 "post_start" c2 st1) as (st2 & Hs2 & Hr2). destruct (run_one _ c2 _ _) as [r st2']; simpl in Hs2; subst.
           exists [("post_create" : str, c1); ("post_start" : str, c2)]. by rewrite Hr2, Hr1, <- app_assoc.
         + by exists [("post_create" : str, c1)].
       - exists [("post_create" : str, c1)]. split; [done|]. split; [|done]. by eexists. }
  all: destruct (post_start hooks) as [c2|]; simpl; [|exists []; by rewrite app_nil_r].
  all: destruct (H1 "post_start" c2 st) as (st2 & Hs2 & Hr2); destruct (run_one _ c2 _ _) as [r st2']; simpl in Hs2; subst;
    by exists [("post_start" : str, c2)].
Qed.

(** Hooks run in order and stop at the first failure: [post_create] only
    when asked for, [post_start] exactly when every earlier hook succeeded, so
    nothing ever runs after a failed hook; overall success means that each hook
    that was due ran to exit status 0 with no signal. *)
Theorem hooks_in_order root hooks (flag : bool) :
  let st0 := {| hs_runs := []; hs_log := [] |} in
  let due := hook_due "post_create" (if flag then post_create hooks else None)
             ++ hook_due "post_start" (post_start hooks) in
  match run root hooks flag st0 with
  | (Ok _, st) => hs_runs st = due ∧
      ∀ (n : nat) (name cmd : str), due !! n = Some (name, cmd) →
        ∃ id frames output, ha_frames (keeper n (hook_request root cmd)) = FSpawnOk id :: frames ∧
          hook_output frames (ha_end (keeper n (hook_request root cmd))) =
            (output, Ok {| exit_code := Some 0%Z; exit_signal := None |})
  | (Err e, st) => hs_runs st `prefix_of` due ∧ hs_runs st ≠ [] ∧
      ∃ (name cmd : str) st1, last (hs_runs st) = Some (name, cmd) ∧ run_one name cmd root st1 = (Err e, st)
  end.
Proof.
  intros st0. unfold run.
  assert (∀ name cmd st, (run_one name cmd root st).1 = Ok tt →
    ∃ id frames output, ha_frames (keeper (length (hs_runs st)) (hook_request root cmd)) = FSpawnOk id :: frames ∧
      hook_output frames (ha_end (keeper (length (hs_runs st)) (hook_request root cmd))) =
        (output, Ok {| exit_code := Some 0%Z; exit_signal := None |})) as Hok.
  { intros name cmd st H. destruct (run_one_ok _ _ _ _ H) as (id & frames & output & H1 & H2 & _). eauto. }
  destruct (post_create hooks) as [c1|], flag; simpl.
  1: { destruct (run_one "post_create" c1 root st0) as [[[]|e] st1] eqn:E1.
       - pose proof (run_one_runs "post_create" c1 root st0) as Hr1. rewrite E1 in Hr1. simpl in Hr1.
         pose proof (Hok "post_create" c1 st0 ltac:(by rewrite E1)) as Hok1. simpl in Hok1.
         destruct (post_start hooks) as [c2|]; simpl.
         + destruct (run_one "post_start" c2 root st1) as [[[]|e] st2] eqn:E2;
             pose proof (run_one_runs "post_start" c2 root st1) as Hr2; rewrite E2, Hr1 in Hr2; simpl in Hr2.
           * split; [done|]. pose proof (Hok "post_start" c2 st1 ltac:(by rewrite E2)) as Hok2.
             rewrite Hr1 in Hok2. simpl in Hok2.
             intros [|[|n]] name cmd [= <- <-]; done.
           * rewrite Hr2. split; [done|]. split; [done|]. by exists "post_start", c2, st1.
         + split; [done|]. intros [|n] name cmd [= <- <-]. done.
       - pose proof (run_one_runs "post_create" c1 root st0) as Hr1. rewrite E1 in Hr1. simpl in Hr1. rewrite Hr1.
         split; [by eexists|]. split; [done|]. by exists "post_create", c1, st0. }
  all: destruct (post_start hooks) as [c2|]; simpl; [|split; [done|]; intros n ? ? H; by rewrite lookup_nil in H].
  all: destruct (run_one "post_start" c2 root st0) as [[[]|e] st2] eqn:E2;
    pose proof (run_one_runs "post_start" c2 root st0) as Hr2; rewrite E2 in Hr2; simpl in Hr2.
  all: try (rewrite Hr2; split; [done|]; split; [done|]; by exists "post_start", c2, st0).
  all: split; [done|]; pose proof (Hok "post_start" c2 st0 ltac:(by rewrite E2)) as Hok2;
    intros [|n] name cmd [= <- <-]; done.
Qed.
End hooks.
