(* ===== verification/Services.v ===== *)
(** * Service supervision ([src/services/mod.rs])

    Where a sandbox's service files live, the supervisor configuration
    rendered from the declared services, the query of the supervisor's socket
    (its response is the supervisor's, JSON parsing [serde_json]'s), and the
    reconciliation of what is declared with what is reported. *)

From S2P Require Import Prelude Paths.

#[local] Set Default Proof Using "Type".

(** [serde_json::Value]; an object keeps its insertion order. *)
Inductive json :=
| JNull
| JBool (b : bool)
| JInt (z : Z)
| JFloat (text : str)
| JStr (s : str)
| JArr (l : list json)
| JObj (m : list (str * json)).

(** [Map::insert]: replaces the value of a key that is present. *)
Fixpoint map_put {V} (k : str) (v : V) (m : list (str * V)) : list (str * V) :=
  match m with
  | [] => [(k, v)]
  | (k', v') :: m => if decide (k = k') then (k', v) :: m else (k', v') :: map_put k v m
  end.

Fixpoint map_find {V} (k : str) (m : list (str * V)) : option V :=
  match m with [] => None | (k', v) :: m => if decide (k = k') then Some v else map_find k m end.

Definition json_get (k : str) (v : json) : option json := match v with JObj m => map_find k m | _ => None end.
Definition json_as_str (v : json) : option str := match v with JStr s => Some s | _ => None end.
Definition json_as_bool (v : json) : option bool := match v with JBool b => Some b | _ => None end.
Definition json_as_array (v : json) : option (list json) := match v with JArr l => Some l | _ => None end.
Definition json_as_i64 (v : json) : option Z :=
  match v with
  | JInt z => if ((-9223372036854775808 <=? z) && (z <=? 9223372036854775807))%Z then Some z else None
  | _ => None
  end.

(** ** Paths *)

Definition ARTIFACT_DIR : str := ".devcroft".
Definition artifact_dir (project_root sandbox_name : str) : str := path_join (path_join project_root ARTIFACT_DIR) sandbox_name.
Definition config_path (project_root sandbox_name : str) : str := path_join (artifact_dir project_root sandbox_name) "services.yaml".
Definition log_path (project_root sandbox_name : str) : str := path_join (artifact_dir project_root sandbox_name) "services.log".
Definition socket_path (project_root sandbox_name : str) : str := path_join (artifact_dir project_root sandbox_name) "services.sock".
Definition MAX_SOCKET_PATH : nat := 103.

(** ** The supervisor configuration *)

(** [ServiceDecl]; its variables in key order. *)
Record ServiceDecl := {
  svc_name : str; svc_command : str; svc_vars : list (str * str); is_daemon : bool; shutdown_command : option str;
}.

Definition SHUTDOWN_TIMEOUT_SECS : Z := 1.

(** One turn of the loop of [render_config]. *)
Definition render_process (svc : ServiceDecl) : json :=
  let proc := map_put "command" (JStr (svc_command svc)) [] in
  let proc :=
    if bool_decide (svc_vars svc = []) then proc
    else map_put "environment" (JArr ((λ '(k, v), JStr (k ++ "=" ++ v)) <$> svc_vars svc)) proc in
  let proc := map_put "availability" (JObj (map_put "restart" (JStr "no") [])) proc in
  let shutdown := map_put "timeout" (JInt SHUTDOWN_TIMEOUT_SECS) [] in
  let proc := if is_daemon svc then map_put "is_daemon" (JBool true) proc else proc in
  let shutdown :=
    if is_daemon svc then
      match shutdown_command svc with Some cmd => map_put "command" (JStr cmd) shutdown | None => shutdown end
    else shutdown in
  JObj (map_put "shutdown" (JObj shutdown) proc).

Definition render_doc (services : list ServiceDecl) (shell : str) : json :=
  let processes := foldl (λ m svc, map_put (svc_name svc) (render_process svc) m) [] services in
  JObj [("version" : str, JStr "0.5");
        ("shell" : str, JObj [("shell_command" : str, JStr shell); ("shell_argument" : str, JStr "-c")]);
        ("processes" : str, JObj processes)].

(** ** Health *)

Inductive ServiceHealth :=
| Running | SvcFailed (code : Z) | Exited | NotStarted | Pending | Skipped.
#[export] Instance ServiceHealth_dec : EqDecision ServiceHealth.
Proof. solve_decision. Defined.

Definition health_label (h : ServiceHealth) : str :=
  match h with
  | Running => "running"
  | SvcFailed code => "failed (exit " ++ show_Z code ++ ")"
  | Exited => "exited"
  | NotStarted => "not started"
  | Pending => "pending"
  | Skipped => "skipped (dependency failed)"
  end.
Definition is_failure (h : ServiceHealth) : bool := match h with SvcFailed _ => true | _ => false end.
Definition is_healthy (h : ServiceHealth) : bool := match h with Running | Exited | Pending => true | _ => false end.

Record ServiceState := { st_name : str; st_health : ServiceHealth; st_pid : option Z }.

(** The classification of [ServiceState::from_json]. *)
Definition classify (status : option str) (is_running : option bool) (exit_code : option Z) : ServiceHealth :=
  if bool_decide (status = Some ("Pending" : str)) then Pending
  else if bool_decide (status = Some ("Skipped" : str)) then Skipped
  else match is_running, exit_code with
       | Some true, _ => Running
       | _, Some code => if negb (code =? 0)%Z then SvcFailed code
                         else match is_running with Some false => Exited | _ => NotStarted end
       | Some false, None => Exited
       | None, None => NotStarted
       end.

Definition state_from_json (v : json) : option ServiceState :=
  name ← json_get "name" v ≫= json_as_str;
  let status := json_get "status" v ≫= json_as_str in
  let is_running := json_get "is_running" v ≫= json_as_bool in
  let exit_code := json_get "exit_code" v ≫= json_as_i64 in
  Some {| st_name := name; st_health := classify status is_running exit_code;
          st_pid := match json_get "pid" v ≫= json_as_i64 with
                    | Some p => if (0 <? p)%Z then Some p else None
                    | None => None
                    end |}.

(** ** Querying the supervisor *)

Inductive Unreachable := NoSocket | Unusable (why : str).

Definition MAX_RESPONSE : N := 4194304.
Definition CRLF2 : str := ["013"; "010"; "013"; "010"]%char.
Definition REQUEST : str :=
  "GET /processes HTTP/1.1" ++ ["013"; "010"]%char ++ "Host: localhost" ++ ["013"; "010"]%char ++ "Connection: close" ++ CRLF2.

(** [text.split_once(pat)] with a string pattern: what follows the first match. *)
Definition after_first (pat s : str) : option str := (λ i, drop (i + length pat) s) <$> find_str pat s.

(** What the system answers to a query. *)
Record Supervisor := {
  sv_metadata : option (bool * N);            (* symlink_metadata: is_socket, uid *)
  sv_uid : N;                                 (* getuid *)
  sv_connect : result str unit;
  sv_timeouts : result str unit;
  sv_write : str → result str unit;
  sv_response : result str str;               (* everything the peer sends *)
  sv_overran : bool;                          (* QUERY_DEADLINE passed *)
}.

Section query.
Context (from_str : str → result str json).

Definition parse_response (raw : str) : result Unreachable (list ServiceState) :=
  body ← ok_or (Unusable "no HTTP body in response") (after_first CRLF2 (from_utf8_lossy raw));
  start ← ok_or (Unusable "no JSON in response body") (position (λ c, bool_decide (c = "{"%char)) body);
  parsed ← map_err (λ e, Unusable ("malformed JSON: " ++ e)) (from_str (drop start body));
  items ← ok_or (Unusable "response JSON has no `data` array") (json_get "data" parsed ≫= json_as_array);
  Ok (sort_by st_name (omap state_from_json items)).

Definition query (socket : str) (s : Supervisor) : result Unreachable (list ServiceState) :=
  match sv_metadata s with
  | None => Err NoSocket
  | Some (is_socket, uid) =>
      if negb is_socket then Err (Unusable (socket ++ " exists but is not a socket"))
      else if negb (uid =? sv_uid s)%N then Err (Unusable (socket ++ " is owned by uid " ++ show_N uid ++ ", not " ++ show_N (sv_uid s)))
      else
        _ ← map_err (λ e, Unusable ("connect: " ++ e)) (sv_connect s);
        _ ← map_err (λ e, Unusable ("socket timeout: " ++ e)) (sv_timeouts s);
        _ ← map_err (λ e, Unusable ("write: " ++ e)) (sv_write s REQUEST);
        raw ← map_err (λ e, Unusable ("read: " ++ e)) (take (N.to_nat MAX_RESPONSE) <$> sv_response s);
        if sv_overran s then Err (Unusable "supervisor did not answer within the deadline")
        else if (MAX_RESPONSE <=? N.of_nat (length raw))%N then
          Err (Unusable ("response exceeded " ++ show_N MAX_RESPONSE ++ " bytes"))
        else parse_response raw
  end.
End query.

Definition show_unreachable (u : Unreachable) : str :=
  match u with NoSocket => "no supervisor socket" | Unusable why => why end.

(** ** Reconciliation *)

Record ServicesReport := { states : list ServiceState; supervisor_error : option str }.

Definition report_is_empty (r : ServicesReport) : bool :=
  bool_decide (states r = []) && bool_decide (supervisor_error r = None).

Definition not_started (name : str) : ServiceState := {| st_name := name; st_health := NotStarted; st_pid := None |}.

Definition has_state (name : str) (l : list ServiceState) : bool := existsb (λ s, bool_decide (st_name s = name)) l.

(** The loop over the declared names. *)
Fixpoint add_missing (declared : list str) (l : list ServiceState) : list ServiceState :=
  match declared with
  | [] => l
  | name :: declared => add_missing declared (if has_state name l then l else l ++ [not_started name])
  end.

Definition reconcile (declared : list str) (queried : result Unreachable (list ServiceState)) : ServicesReport :=
  match queried with
  | Ok l => {| states := sort_by st_name (add_missing declared l); supervisor_error := None |}
  | Err why =>
      if bool_decide (declared = []) && (match why with NoSocket => true | _ => false end)
      then {| states := []; supervisor_error := None |}
      else {| states := not_started <$> declared;
              supervisor_error := Some ("supervisor unreachable: " ++ show_unreachable why) |}
  end.

(** [resolve_in_env]: the first [process-compose] on the sandbox's own [PATH]. *)
Definition resolve_in_env (is_file : str → bool) (env : gmap str str) : option str :=
  path ← env !! ("PATH" : str);
  find is_file ((λ dir, path_join dir "process-compose")
    <$> List.filter (λ d, negb (bool_decide (d = []))) (split_on ":" path)).

(** ** Lemmas *)

Lemma map_find_put {V} k k' (v : V) m : map_find k' (map_put k v m) = if decide (k' = k) then Some v else map_find k' m.
Proof.
  induction m as [|[k0 v0] m IH]; simpl; [done|]. destruct (decide (k = k0)) as [->|Hk]; simpl.
  - by destruct (decide (k' = k0)).
  - rewrite IH. destruct (decide (k' = k0)) as [->|]; [|done]. by destruct (decide (k0 = k)).
Qed.

Lemma has_state_spec name l : has_state name l = true ↔ name ∈ st_name <$> l.
Proof.
  unfold has_state. rewrite existsb_elem, list_elem_of_fmap.
  split; intros (s & H1 & H2); exists s; by rewrite bool_decide_eq_true in *.
Qed.

Lemma add_missing_spec declared l :
  ∃ extra, add_missing declared l = l ++ (not_started <$> extra) ∧ NoDup extra ∧
    (∀ n, n ∈ extra ↔ n ∈ declared ∧ n ∉ st_name <$> l).
Proof.
  revert l. induction declared as [|d declared IH]; intros l; simpl.
  - exists []. rewrite app_nil_r. split; [done|]. split; [constructor|]. set_solver.
  - destruct (has_state d l) eqn:E.
    + apply has_state_spec in E. destruct (IH l) as (extra & -> & Hnd & Hex). exists extra.
      split; [done|]. split; [done|]. intros n. rewrite Hex. set_solver.
    + destruct (IH (l ++ [not_started d])) as (extra & -> & Hnd & Hex). exists (d :: extra).
      assert (d ∉ st_name <$> l) as Hd. { intros Hin. apply has_state_spec in Hin. congruence. }
      assert (∀ n, n ∈ st_name <$> (l ++ [not_started d]) ↔ n ∈ st_name <$> l ∨ n = d) as Happ.
      { intros n. rewrite fmap_app, elem_of_app. simpl. rewrite list_elem_of_singleton. done. }
      split; [by rewrite <- app_assoc|]. split.
      * constructor; [|done]. rewrite Hex, Happ. tauto.
      * intros n. rewrite !elem_of_cons, Hex, Happ. destruct (decide (n = d)) as [->|]; tauto.
Qed.

Lemma reconcile_declared declared queried name :
  name ∈ declared → name ∈ st_name <$> states (reconcile declared queried).
Proof.
  intros Hn. destruct queried as [l|why]; simpl.
  - destruct (add_missing_spec declared l) as (extra & Heq & Hnd & Hex).
    assert (name ∈ st_name <$> add_missing declared l) as Hin.
    { rewrite Heq, fmap_app, elem_of_app. destruct (decide (name ∈ st_name <$> l)); [by left|right].
      rewrite <- list_fmap_compose. apply list_elem_of_fmap. exists name. split; [done|]. by apply Hex. }
    apply list_elem_of_fmap in Hin as (s & -> & Hs). apply list_elem_of_fmap. exists s. split; [done|]. by apply elem_of_sort_by.
  - assert (name ∈ st_name <$> (not_started <$> declared)) as Hall.
    { rewrite <- list_fmap_compose. apply list_elem_of_fmap. by exists name. }
    case_bool_decide as Hd; [subst; by apply not_elem_of_nil in Hn|]. done.
Qed.

(** The services report never hides a declared service and never invents
    one: when the supervisor answered, the report is sorted by name, contains
    every reported state unchanged, adds exactly one [NotStarted] entry for
    each declared name the supervisor did not report, and no other; when it did
    not, every declared service is listed as not started together with the
    reason, and only the absence of a socket with nothing declared is silent. *)
Theorem reconcile_complete declared queried :
  let r := reconcile declared queried in
  (∀ name, name ∈ declared → name ∈ st_name <$> states r) ∧
  match queried with
  | Ok l => supervisor_error r = None ∧ StronglySorted (key_le st_name) (states r) ∧
      ∃ extra, states r ≡ₚ l ++ (not_started <$> extra) ∧ NoDup extra ∧
        ∀ n, n ∈ extra ↔ n ∈ declared ∧ n ∉ st_name <$> l
  | Err why => states r = not_started <$> declared ∧
      (supervisor_error r = None ↔ declared = [] ∧ why = NoSocket)
  end.
Proof.
  cbv zeta. split; [intros name; apply reconcile_declared|]. destruct queried as [l|why]; simpl.
  - destruct (add_missing_spec declared l) as (extra & Heq & Hnd & Hex).
    split; [done|]. split; [apply sort_by_sorted|]. exists extra. rewrite sort_by_perm, Heq. done.
  - case_bool_decide as Hd; [subst; destruct why; simpl; split; done || naive_solver|].
    simpl. split; [done|]. naive_solver.
Qed.

(** A service that stopped with a non-zero code is never shown as cleanly
    exited, healthy or not started: unless the supervisor calls it pending,
    skipped or running, it is a failure with that code; and what is a failure
    is never healthy. *)
Theorem failure_never_hidden v s code
    (Hv : state_from_json v = Some s) (Hc : json_get "exit_code" v ≫= json_as_i64 = Some code) (Hne : code ≠ 0%Z) :
  (st_health s = SvcFailed code ∨ st_health s = Pending ∨ st_health s = Skipped ∨
   st_health s = Running ∧ json_get "is_running" v ≫= json_as_bool = Some true) ∧
  (is_failure (st_health s) = true → is_healthy (st_health s) = false).
Proof.
  unfold state_from_json in Hv. destruct (json_get "name" v ≫= json_as_str); [|done]. injection Hv as <-. simpl.
  rewrite Hc. unfold classify. split.
  - repeat case_bool_decide; [by auto..|]. apply Z.eqb_neq in Hne. rewrite Hne. simpl.
    destruct (json_get "is_running" v ≫= json_as_bool) as [[]|]; auto.
  - by repeat case_match.
Qed.

Lemma fold_put_find services m name :
  (∀ svc, svc ∈ services → svc_name svc = name → ∀ svc', svc' ∈ services → svc_name svc' = name → svc' = svc) →
  map_find name (foldl (λ m svc, map_put (svc_name svc) (render_process svc) m) m services) =
    match find (λ svc, bool_decide (svc_name svc = name)) services with
    | Some svc => Some (render_process svc)
    | None => map_find name m
    end.
Proof.
  revert m. induction services as [|svc services IH]; intros m Hu; [done|]. simpl.
  rewrite IH by (intros; apply Hu; [by right|done|by right|done]).
  case_bool_decide as Hn.
  - destruct (find _ services) as [svc'|] eqn:E.
    + apply find_some in E as [Hin Hn']. apply bool_decide_eq_true in Hn'.
      f_equal. f_equal. apply Hu; [by left|done|by right|done].
    + rewrite map_find_put. by rewrite decide_True by done.
  - destruct (find _ services); [done|]. rewrite map_find_put. by rewrite decide_False by congruence.
Qed.

(** The supervisor's configuration runs exactly what is declared: for
    services with distinct names, each is found under its own name with its
    command, is never restarted by the supervisor, has a bounded shutdown, and
    a shutdown command exactly when it is a daemon that declares one; a name
    that is not declared is not in the configuration. *)
Theorem render_config_faithful services shell name
    (Hu : NoDup (svc_name <$> services)) :
  match json_get "processes" (render_doc services shell) ≫= json_get name with
  | None => name ∉ svc_name <$> services
  | Some proc => ∃ svc, svc ∈ services ∧ svc_name svc = name ∧
      json_get "command" proc = Some (JStr (svc_command svc)) ∧
      json_get "availability" proc ≫= json_get "restart" = Some (JStr "no") ∧
      json_get "shutdown" proc ≫= json_get "timeout" = Some (JInt SHUTDOWN_TIMEOUT_SECS) ∧
      json_get "shutdown" proc ≫= json_get "command" =
        (if is_daemon svc then JStr <$> shutdown_command svc else None) ∧
      json_get "environment" proc =
        (if bool_decide (svc_vars svc = []) then None else Some (JArr ((λ '(k, v), JStr (k ++ "=" ++ v)) <$> svc_vars svc)))
  end.
Proof.
  assert (json_get "processes" (render_doc services shell) ≫= json_get name =
    map_find name (foldl (λ m svc, map_put (svc_name svc) (render_process svc) m) [] services)) as -> by done.
  rewrite fold_put_find.
  - destruct (find _ services) as [svc|] eqn:E.
    + apply find_some in E as [Hin Hn]. apply bool_decide_eq_true in Hn. exists svc.
      split; [done|]. split; [done|]. unfold render_process, json_get. cbn [mbind option_bind].
      rewrite !map_find_put. destruct (is_daemon svc), (shutdown_command svc); case_bool_decide;
        rewrite ?map_find_put; done.
    + rewrite find_none in E. simpl. intros Hin. apply list_elem_of_fmap in Hin as (svc & -> & Hs).
      specialize (E svc Hs). by apply bool_decide_eq_false in E.
  - intros svc Hs Hn svc' Hs' Hn'. apply list_elem_of_lookup in Hs as [i Hi], Hs' as [j Hj].
    assert (i = j) as ->; [|congruence]. eapply NoDup_lookup; [exact Hu| |].
    + rewrite list_lookup_fmap, Hi. simpl. by rewrite Hn.
    + rewrite list_lookup_fmap, Hj. simpl. by rewrite Hn'.
Qed.

Definition crashed : json :=
  JObj [("name" : str, JStr "db"); ("is_running" : str, JBool false); ("exit_code" : str, JInt 3)].

Lemma failure_never_hidden_witness :
  ∃ s, state_from_json crashed = Some s ∧ st_health s = SvcFailed 3 ∧
    (is_failure (st_health s) = true → is_healthy (st_health s) = false).
Proof.
  eexists. assert (state_from_json crashed = Some _) as Hs by reflexivity. split; [exact Hs|].
  split; [reflexivity|]. exact (proj2 (failure_never_hidden crashed _ 3 Hs eq_refl ltac:(lia))).
Defined.

Definition sample_service : ServiceDecl :=
  {| svc_name := "db"; svc_command := "run"; svc_vars := [("K" : str, "v" : str)]; is_daemon := true;
     shutdown_command := Some ("stop" : str) |}.

Lemma render_config_faithful_witness :
  match json_get "processes" (render_doc [sample_service] "/bin/sh") ≫= json_get "db" with
  | None => False
  | Some proc => json_get "command" proc = Some (JStr "run")
  end.
Proof.
  assert (NoDup (svc_name <$> [sample_service])) as Hu by (apply NoDup_singleton).
  pose proof (render_config_faithful [sample_service] "/bin/sh" "db" Hu) as H.
  destruct (json_get "processes" (render_doc [sample_service] "/bin/sh") ≫= json_get "db") as [proc|] eqn:E; [|by vm_compute in E].
  destruct H as (svc & Hin & _ & Hc & _). apply list_elem_of_singleton in Hin as ->. exact Hc.
Defined.
