(* ===== verification/Capture.v ===== *)
(** * Capturing an activated environment ([src/provider/capture.rs]) *)

From S2P Require Import Prelude ProviderKind.

#[local] Set Default Proof Using "Type".

Definition DEFAULT_STORE_ROOT : str := "/nix/store".
Definition CANONICAL_PATH : str := "/usr/local/sbin:/usr/local/bin:/usr/sbin:/usr/bin:/sbin:/bin".

(** [canonical_base_env]. *)
Definition canonical_base_env (home : option str) : result ProviderError (gmap str str) :=
  match home with
  | None => Err (ResolutionFailed "HOME is not set; provider activation needs it")
  | Some home => Ok {[ ("HOME" : str) := home; ("PATH" : str) := CANONICAL_PATH ]}
  end.

(** [collect::<BTreeMap<_, _>>()]: a later entry replaces an earlier one. *)
Definition collect_map (l : list (str * str)) : gmap str str := foldl (λ m '(k, v), <[k := v]> m) ∅ l.

Definition EQUALS : ascii := "=".

Definition parse_env_dump (raw : str) : gmap str str :=
  collect_map (omap (split_once EQUALS)
    (List.filter (λ e, negb (bool_decide (e = []))) (split_on NUL (from_utf8_lossy raw)))).

Definition changed_env (baseline activated : gmap str str) : gmap str str :=
  filter (λ '(k, v), baseline !! k ≠ Some v) activated.

Definition keys (m : gmap str str) : list str := sort_by (λ k, k) ((map_to_list m).*1).

Definition unset_env (baseline activated : gmap str str) : list str :=
  List.filter (λ k, bool_decide (activated !! k = None)) (keys baseline).

(** [store_grants]: the text of the first [PATH] entry naming a store, up to it. *)
Definition store_grants (activated : gmap str str) : list str :=
  let path := default [] (activated !! ("PATH" : str)) in
  match find (contains_str DEFAULT_STORE_ROOT) (split_on ":" path) with
  | Some entry => [take (default 0 (find_str DEFAULT_STORE_ROOT entry) + length DEFAULT_STORE_ROOT) entry]
  | None => [DEFAULT_STORE_ROOT]
  end.

(** [optional_file_part]: a marked present file, or the mark of an absent one. *)
Definition optional_file_part (contents : option str) : str :=
  match contents with Some bytes => "P"%char :: bytes | None => ["A"%char] end.

(** ** The fingerprint (64-bit FNV-1a) *)

Definition U64 : N := 18446744073709551616.
Definition FNV_OFFSET : N := 0xcbf29ce484222325.
Definition FNV_PRIME : N := 0x100000001b3.

Definition fnv_step (hash : N) (byte : N) : N := (N.lxor hash byte * FNV_PRIME) mod U64.

Definition fnv_part (hash : N) (part : str) : N := fnv_step (foldl fnv_step hash (byte <$> part)) 0xff.

Definition fnv (parts : list str) : N := foldl fnv_part FNV_OFFSET parts.

Definition hex_digit (n : N) : ascii := if (n <? 10)%N then ascii_of_N (48 + n) else ascii_of_N (87 + n).

(** [{:016x}]. *)
Fixpoint hex_digits (k : nat) (n : N) : str :=
  match k with 0 => [] | S k => hex_digits k (n / 16) ++ [hex_digit (n mod 16)] end.

Definition fingerprint (parts : list str) : str := hex_digits 16 (fnv parts).

(** ** The environment delta *)

(** Applying a captured delta to the environment it was captured against. *)
Definition apply_delta (baseline changed : gmap str str) (unset : list str) : gmap str str :=
  changed ∪ foldr delete baseline unset.

Lemma elem_of_keys k m : k ∈ keys m ↔ is_Some (m !! k).
Proof.
  unfold keys. rewrite elem_of_sort_by, list_elem_of_fmap. split.
  - intros ([k' v] & -> & Hin). apply elem_of_map_to_list in Hin. by eexists.
  - intros [v Hv]. exists (k, v). split; [done|]. by apply elem_of_map_to_list.
Qed.

Lemma elem_of_unset k baseline activated :
  k ∈ unset_env baseline activated ↔ is_Some (baseline !! k) ∧ activated !! k = None.
Proof. unfold unset_env. by rewrite elem_of_filter_bool, elem_of_keys, bool_decide_eq_true. Qed.

Lemma lookup_foldr_delete (k : str) (l : list str) (m : gmap str str) :
  foldr delete m l !! k = if decide (k ∈ l) then None else m !! k.
Proof.
  induction l as [|x l IH]; simpl; [done|]. destruct (decide (k = x)) as [->|Hne].
  - rewrite lookup_delete_eq. rewrite decide_True by (by left). done.
  - rewrite lookup_delete_ne, IH by done. repeat case_decide; set_solver.
Qed.

Lemma elem_of_changed baseline activated k v :
  changed_env baseline activated !! k = Some v ↔ activated !! k = Some v ∧ baseline !! k ≠ Some v.
Proof. unfold changed_env. by rewrite map_lookup_filter_Some. Qed.

Lemma apply_delta_exact baseline activated :
  apply_delta baseline (changed_env baseline activated) (unset_env baseline activated) = activated.
Proof.
  apply map_eq. intros k. unfold apply_delta. rewrite lookup_union, lookup_foldr_delete.
  destruct (changed_env baseline activated !! k) as [v|] eqn:Ec.
  - apply elem_of_changed in Ec as [-> _]. by destruct (if decide _ then _ else _).
  - assert (∀ o : option str, None ∪ o = o) as -> by (by intros []). destruct (activated !! k) as [v|] eqn:Ea.
    + assert (baseline !! k = Some v) as Hb.
      { destruct (decide (baseline !! k = Some v)); [done|].
        assert (changed_env baseline activated !! k = Some v); [by apply elem_of_changed|congruence]. }
      rewrite decide_False; [done|]. rewrite elem_of_unset. naive_solver.
    + case_decide as Hd; [done|]. rewrite elem_of_unset in Hd. apply eq_None_not_Some. naive_solver.
Qed.

(** The captured delta is exact: applied to the baseline it was captured
    against, the changed variables and the removals give back precisely the
    activated environment, value for value; it is minimal (a variable is
    recorded as changed only when its value differs from the baseline's, as
    removed only when the activation removed it) and no variable is both. *)
Theorem env_delta_exact baseline activated :
  apply_delta baseline (changed_env baseline activated) (unset_env baseline activated) = activated ∧
  (∀ k v, changed_env baseline activated !! k = Some v ↔ activated !! k = Some v ∧ baseline !! k ≠ Some v) ∧
  (∀ k, k ∈ unset_env baseline activated → changed_env baseline activated !! k = None).
Proof.
  split; [apply apply_delta_exact|]. split; [apply elem_of_changed|].
  intros k [_ Ha]%elem_of_unset. apply eq_None_not_Some. intros [v [Hv _]%elem_of_changed]. congruence.
Qed.

(** ** The fingerprint *)

Definition FNV_INVERSE : N := 0xce965057aff6957b.

Lemma fnv_unmultiply h : (h < U64)%N → (((h * FNV_PRIME) mod U64 * FNV_INVERSE) mod U64)%N = h.
Proof.
  intros Hh. rewrite N.Div0.mul_mod_idemp_l, <- N.mul_assoc, <- N.Div0.mul_mod_idemp_r.
  change ((FNV_PRIME * FNV_INVERSE) mod U64)%N with 1%N. rewrite N.mul_1_r. by apply N.mod_small.
Qed.

Lemma lxor_bound h b : (h < U64)%N → (b < 256)%N → (N.lxor h b < U64)%N.
Proof.
  intros Hh Hb. change U64 with (2 ^ 64)%N in *.
  destruct (decide (N.lxor h b = 0)%N) as [->|Hn]; [done|].
  apply N.log2_lt_pow2; [lia|]. eapply N.le_lt_trans; [apply N.log2_lxor|].
  apply N.max_lub_lt.
  - destruct (decide (h = 0)%N) as [->|]; [done|]. apply N.log2_lt_pow2; lia.
  - destruct (decide (b = 0)%N) as [->|]; [done|].
    apply N.log2_lt_pow2; [lia|]. etrans; [exact Hb|]. done.
Qed.

Lemma fnv_step_bound h b : (fnv_step h b < U64)%N.
Proof. apply N.mod_lt. done. Qed.

(** One step is injective in the running hash and in the byte. *)
Lemma fnv_step_inj h h' b b' :
  (h < U64)%N → (h' < U64)%N → (b < 256)%N → (b' < 256)%N →
  fnv_step h b = fnv_step h' b' → N.lxor h b = N.lxor h' b'.
Proof.
  intros Hh Hh' Hb Hb' Heq. unfold fnv_step in Heq.
  rewrite <- (fnv_unmultiply (N.lxor h b)), <- (fnv_unmultiply (N.lxor h' b')) by by apply lxor_bound.
  by rewrite Heq.
Qed.

Lemma lxor_cancel_r a b c : N.lxor a c = N.lxor b c → a = b.
Proof.
  intros H. apply (f_equal (λ x, N.lxor x c)) in H.
  by rewrite !N.lxor_assoc, !N.lxor_nilpotent, !N.lxor_0_r in H.
Qed.

Definition small_bytes (l : list N) : Prop := Forall (λ b, b < 256)%N l.

Lemma fnv_fold_bound l h : (h < U64)%N → (foldl fnv_step h l < U64)%N.
Proof. revert h. induction l as [|b l IH]; intros h Hh; [done|]. apply IH. apply fnv_step_bound. Qed.

Lemma fnv_fold_inj l h h' :
  small_bytes l → (h < U64)%N → (h' < U64)%N → foldl fnv_step h l = foldl fnv_step h' l → h = h'.
Proof.
  intros Hl. revert h h'. induction Hl as [|b l Hb _ IH]; intros h h' Hh Hh' Heq; [done|].
  simpl in Heq. apply IH in Heq; [|apply fnv_step_bound..].
  apply fnv_step_inj in Heq; try done. by apply lxor_cancel_r in Heq.
Qed.

(** The bytes hashed: every part followed by its 0xff separator. *)
Definition hashed (parts : list str) : list N := mjoin ((λ p, (byte <$> p) ++ [0xff%N]) <$> parts).

Lemma fnv_hashed parts : fnv parts = foldl fnv_step FNV_OFFSET (hashed parts).
Proof.
  unfold fnv. generalize FNV_OFFSET. induction parts as [|p parts IH]; intros h; [done|].
  unfold hashed. simpl. rewrite foldl_app, IH. unfold fnv_part. by rewrite foldl_app.
Qed.

Lemma small_bytes_str (s : str) : small_bytes (byte <$> s).
Proof. apply Forall_fmap, Forall_true. intros c. apply byte_lt. Qed.

Lemma small_bytes_hashed parts : small_bytes (hashed parts).
Proof.
  induction parts as [|p parts IH]; [constructor|]. unfold hashed. simpl.
  apply Forall_app. split; [|exact IH]. apply Forall_app. split; [apply small_bytes_str|by repeat constructor].
Qed.

Lemma hex_digit_inj a b : (a < 16)%N → (b < 16)%N → hex_digit a = hex_digit b → a = b.
Proof.
  intros Ha Hb H. apply (f_equal byte) in H. unfold hex_digit in H.
  destruct (N.ltb_spec a 10), (N.ltb_spec b 10); rewrite !byte_of_N in H; lia.
Qed.

Lemma hex_digits_inj k a b : (a < 16 ^ N.of_nat k)%N → (b < 16 ^ N.of_nat k)%N → hex_digits k a = hex_digits k b → a = b.
Proof.
  revert a b. induction k as [|k IH]; intros a b Ha Hb H; [simpl in *; lia|].
  rewrite Nat2N.inj_succ, N.pow_succ_r' in Ha, Hb. simpl in H. apply app_inj_tail in H as [H1 H2].
  apply IH in H1; [|by apply N.Div0.div_lt_upper_bound..].
  apply hex_digit_inj in H2; [|by apply N.mod_lt..].
  rewrite (N.div_mod a 16), (N.div_mod b 16) by done. congruence.
Qed.

Lemma fnv_bound parts : (fnv parts < U64)%N.
Proof. rewrite fnv_hashed. by apply fnv_fold_bound. Qed.

Lemma fingerprint_fnv parts parts' : fingerprint parts = fingerprint parts' ↔ fnv parts = fnv parts'.
Proof.
  unfold fingerprint. split; [|by intros ->].
  apply hex_digits_inj; change (16 ^ N.of_nat 16)%N with U64; apply fnv_bound.
Qed.

Lemma length_hex k n : length (hex_digits k n) = k.
Proof. revert n. induction k as [|k IH]; intros n; [done|]. simpl. rewrite length_app, IH. simpl. lia. Qed.

(** An edit of a fingerprinted file is never missed when it substitutes one
    byte: fingerprints of part lists that differ in a single byte always
    differ, wherever the byte is (each hash step is a bijection of 64-bit
    values, the prime being odd); and every fingerprint is 16 hexadecimal
    digits. *)
Theorem fingerprint_detects_byte_change parts1 pre c c' post parts2 (Hne : c ≠ c') :
  fingerprint (parts1 ++ (pre ++ c :: post) :: parts2) ≠ fingerprint (parts1 ++ (pre ++ c' :: post) :: parts2) ∧
  length (fingerprint (parts1 ++ (pre ++ c :: post) :: parts2)) = 16.
Proof.
  split; [|apply length_hex]. rewrite fingerprint_fnv, !fnv_hashed.
  assert (∀ d, hashed (parts1 ++ (pre ++ d :: post) :: parts2) =
    (hashed parts1 ++ (byte <$> pre)) ++ byte d :: ((byte <$> post) ++ [0xff%N] ++ hashed parts2)) as Hh.
  { intros d. unfold hashed. rewrite fmap_app, join_app. simpl. rewrite !fmap_app. simpl. by rewrite <- !app_assoc. }
  rewrite !Hh, !(foldl_app _ (hashed parts1 ++ (byte <$> pre))). simpl.
  set (h := foldl fnv_step FNV_OFFSET (hashed parts1 ++ (byte <$> pre))).
  assert (h < U64)%N as Hb by by apply fnv_fold_bound.
  intros Heq. apply fnv_fold_inj in Heq; [|..|apply fnv_step_bound|apply fnv_step_bound].
  - apply fnv_step_inj in Heq; try done; try apply byte_lt.
    rewrite !(N.lxor_comm h) in Heq. apply lxor_cancel_r in Heq. by apply byte_inj in Heq.
  - apply Forall_app. split; [apply small_bytes_str|]. constructor; [done|].
    apply small_bytes_hashed.
Qed.

(** The parts are told apart by their separators as long as none contains the
    byte 0xff, which no UTF-8 text does. *)
Lemma hashed_inj parts parts' :
  Forall (λ p : str, "255"%char ∉ p) parts → Forall (λ p : str, "255"%char ∉ p) parts' →
  hashed parts = hashed parts' → parts = parts'.
Proof.
  intros Hp. revert parts'. induction Hp as [|p parts Hp _ IH]; intros parts' Hp' Heq.
  - destruct parts' as [|p' parts']; [done|]. unfold hashed in Heq. simpl in Heq.
    by destruct (byte <$> p').
  - destruct Hp' as [|p' parts' Hp' Hps'].
    { unfold hashed in Heq. simpl in Heq. by destruct (byte <$> p). }
    unfold hashed in Heq. simpl in Heq. rewrite <- !app_assoc in Heq. fold (hashed parts) (hashed parts') in Heq.
    assert (p = p' ∧ hashed parts = hashed parts') as [-> Heq']; [|f_equal; by apply IH].
    clear IH Hps'. revert p' Hp' Heq. induction p as [|c p IHp]; intros [|c' p'] Hp' Heq; simpl in Heq.
    + injection Heq as Heq. done.
    + exfalso. injection Heq as Hc _. rewrite not_elem_of_cons in Hp'. destruct Hp' as [Hp' _].
      apply Hp'. by apply byte_inj.
    + exfalso. injection Heq as Hc _. rewrite not_elem_of_cons in Hp. destruct Hp as [Hp _].
      apply Hp. by apply byte_inj.
    + injection Heq as Hc%byte_inj Heq. subst.
      rewrite not_elem_of_cons in Hp, Hp'. destruct (IHp (proj2 Hp) p' (proj2 Hp') Heq) as [-> ->]. done.
Qed.

Lemma fingerprint_detects_byte_change_witness :
  fingerprint [("ab" : str)] ≠ fingerprint [("ac" : str)].
Proof.
  exact (proj1 (fingerprint_detects_byte_change [] "a" "b" "c" [] [] ltac:(done))).
Defined.

(** Two present files that differ, and a present and an absent one, have different parts. *)
Lemma optional_file_part_inj a b : optional_file_part a = optional_file_part b → a = b.
Proof. by destruct a, b; intros [=]; subst. Qed.
