(* ===== verification/Flox.v ===== *)
(** * The flox provider ([src/provider/flox.rs])

    Reading the flox manifest, deriving the hook-free copy of the environment
    and resolving it.  TOML parsing and printing and running [flox activate]
    are parameters; the file system is a finite map, and an operation that
    writes it yields every state it goes through. *)

From S2P Require Import Prelude Paths ProviderKind Manifest Services Capture.

#[local] Set Default Proof Using "Type".

Abbreviation fs := (gmap str str).

Inductive ServiceSupport := Unsupported | Declared (l : list ServiceDecl).

(** [ServiceSupport::declared]. *)
Definition declared (s : ServiceSupport) : list ServiceDecl := match s with Unsupported => [] | Declared l => l end.

Record Resolution := {
  res_env : gmap str str; res_unset : list str; res_read_only_grants : list str;
  res_activation_script : option str; res_services : ServiceSupport; res_ran_activation_hook : bool;
}.

Definition DERIVED_ENV_PREFIX : str := "flox-env-".

Definition manifest_of (root : str) : str := path_join root ".flox/env/manifest.toml".

(** ** Service declarations *)

(** [vars]: every entry must be a string. *)
Definition service_vars (name : str) (value : toml) : result ProviderError (list (str * str)) :=
  match toml_get value "vars" with
  | None => Ok []
  | Some v =>
      match toml_as_table v with
      | None => Err (ResolutionFailed ("service `" ++ name ++ "`: `vars` is not a table"))
      | Some t =>
          m ← try_map (λ '(k, v), match toml_as_str v with
              | Some s => Ok (k, s)
              | None => Err (ResolutionFailed ("service `" ++ name ++ "`: var `" ++ k ++ "` must be a string"))
              end) t;
          Ok (sort_by fst (map_to_list (collect_map m)))
      end
  end.

Definition service_is_daemon (name : str) (value : toml) : result ProviderError bool :=
  match toml_get value "is-daemon" with
  | None => Ok false
  | Some v => ok_or (ResolutionFailed ("service `" ++ name ++ "`: `is-daemon` must be a boolean")) (toml_as_bool v)
  end.

Definition service_shutdown (name : str) (value : toml) : result ProviderError (option str) :=
  match toml_get value "shutdown" ≫= λ s, toml_get s "command" with
  | None => Ok None
  | Some c => Some <$> ok_or (ResolutionFailed ("service `" ++ name ++ "`: `shutdown.command` must be a string")) (toml_as_str c)
  end.

(** One turn of the loop of [read_service_declarations]. *)
Definition read_service (entry : str * toml) : result ProviderError ServiceDecl :=
  let '(name, value) := entry in
  command ← ok_or (ResolutionFailed ("service `" ++ name ++ "` in the flox manifest has no string `command`"))
    (toml_get value "command" ≫= toml_as_str);
  vars ← service_vars name value;
  is_daemon ← service_is_daemon name value;
  shutdown ← service_shutdown name value;
  if is_daemon && bool_decide (shutdown = None) then
    Err (ResolutionFailed ("service `" ++ name ++ "` sets `is-daemon` but declares no `shutdown.command`; it could not be stopped at teardown"))
  else Ok {| svc_name := name; svc_command := command; svc_vars := vars; Services.is_daemon := is_daemon;
             shutdown_command := shutdown |}.

Section flox.
Context (parse_table : str → result str (list (str * toml))) (toml_to_string : list (str * toml) → result str str).

Definition read_text (f : fs) (path : str) : result ProviderError str :=
  match f !! path with
  | Some text => if utf8_valid text then Ok text else Err (ResolutionFailed ("reading " ++ path))
  | None => Err (ResolutionFailed ("reading " ++ path))
  end.

Definition parse_manifest (path text : str) : result ProviderError (list (str * toml)) :=
  map_err (λ e, ResolutionFailed ("parsing " ++ path ++ ": " ++ e)) (parse_table text).

Definition read_service_declarations (f : fs) (project_root : str) : result ProviderError ServiceSupport :=
  let path := manifest_of project_root in
  text ← read_text f path;
  parsed ← parse_manifest path text;
  match table_get parsed "services" with
  | None => Ok (Declared [])
  | Some v =>
      match toml_as_table v with
      | None => Err (ResolutionFailed "`[services]` in the flox manifest is not a table")
      | Some table => Declared <$> try_map read_service table
      end
  end.

Definition declared_service_names (f : fs) (project_root : str) : list str :=
  match read_service_declarations f project_root with Ok (Declared l) => svc_name <$> l | _ => [] end.

(** ** Hooks *)

(** [Table::remove]. *)
Definition table_remove (k : str) (t : list (str * toml)) : list (str * toml) :=
  List.filter (λ e, negb (bool_decide (e.1 = k))) t.

Definition strip_hook (manifest_text : str) : result ProviderError str :=
  parsed ← map_err (λ e, ResolutionFailed ("parsing the flox manifest: " ++ e)) (parse_table manifest_text);
  map_err (λ e, ResolutionFailed ("serialising the derived manifest: " ++ e)) (toml_to_string (table_remove "hook" parsed)).

Definition hook_script (parsed : list (str * toml)) : option str :=
  s ← table_get parsed "hook" ≫= λ h, toml_get h "on-activate" ≫= toml_as_str;
  if bool_decide (trim s = []) then None else Some s.

Definition activation_hook_script (f : fs) (project_root : str) : result ProviderError (option str) :=
  let path := manifest_of project_root in
  text ← read_text f path;
  parsed ← parse_manifest path text;
  Ok (hook_script parsed).

(** ** The fingerprint *)

(** [dirs] are the directories that exist. *)
Definition ensure_environment_present (is_dir : str → bool) (project_root : str) : result ProviderError unit :=
  if is_dir (path_join project_root ".flox") then Ok tt else Err (NoEnvironment "flox" "flox init").

Definition manifest_fingerprint (is_dir : str → bool) (f : fs) (project_root : str) : result ProviderError str :=
  _ ← ensure_environment_present is_dir project_root;
  manifest ← ok_or (ResolutionFailed ("reading " ++ manifest_of project_root)) (f !! manifest_of project_root);
  let lock := optional_file_part (f !! path_join project_root ".flox/env/manifest.lock") in
  Ok (fingerprint [manifest; lock]).

(** ** The derived, hook-free environment *)

Definition OPTIONAL : list str := strs ["env/manifest.lock"; "env.json"].

(** How writing a file ends: all of it, or with an error, before the file was
    made or after some of its bytes. *)
Inductive WriteEnd := Whole | NotMade | Cut (n : nat).

(** What the system answers to the steps of a derivation: making the
    directory, writing the manifest, and copying each optional file. *)
Record DeriveIo := { io_create : bool; io_manifest : WriteEnd; io_copy : str → WriteEnd }.
Definition io_fine : DeriveIo := {| io_create := true; io_manifest := Whole; io_copy := λ _, Whole |}.

(** The copy loop, from the last state reached: the states it goes through, and
    the file whose copy failed. *)
Fixpoint copy_optional (copy : str → WriteEnd) (source derived : str) (names : list str) (f : fs) : list fs * option str :=
  match names with
  | [] => ([], None)
  | name :: names =>
      match f !! path_join source name with
      | None => copy_optional copy source derived names f
      | Some contents =>
          let to := path_join (path_join derived ".flox") name in
          match copy name with
          | Whole =>
              let f' := <[to := contents]> f in
              let '(states, r) := copy_optional copy source derived names f' in (f' :: states, r)
          | NotMade => ([], Some (path_join source name))
          | Cut n => ([<[to := take n contents]> f], Some (path_join source name))
          end
      end
  end.

(** [derive_hook_free_env]: the directory, or an error, and the states after [f]. *)
Definition derive_hook_free_env (is_dir : str → bool) (io : DeriveIo) (f : fs) (project_root : str) : result ProviderError str * list fs :=
  match manifest_fingerprint is_dir f project_root with
  | Err e => (Err e, [])
  | Ok fp =>
      let derived := path_join (path_join project_root ARTIFACT_DIR) (DERIVED_ENV_PREFIX ++ fp) in
      let env_dir := path_join derived ".flox/env" in
      let marker := path_join env_dir "manifest.toml" in
      if bool_decide (is_Some (f !! marker)) then (Ok derived, [])
      else if negb (io_create io) then (Err (ResolutionFailed ("creating " ++ env_dir)), [])
      else
        let source := path_join project_root ".flox" in
        match f !! path_join source "env/manifest.toml" with
        | None => (Err (ResolutionFailed "reading the flox manifest"), [])
        | Some text =>
            if negb (utf8_valid text) then (Err (ResolutionFailed "reading the flox manifest"), [])
            else
              match strip_hook text with
              | Err e => (Err e, [])
              | Ok stripped =>
                  match io_manifest io with
                  | NotMade => (Err (ResolutionFailed "writing the derived manifest"), [])
                  | Cut n => (Err (ResolutionFailed "writing the derived manifest"), [<[marker := take n stripped]> f])
                  | Whole =>
                      let f1 := <[marker := stripped]> f in
                      let '(states, r) := copy_optional (io_copy io) source derived OPTIONAL f1 in
                      (match r with Some from => Err (ResolutionFailed ("copying " ++ from)) | None => Ok derived end,
                       f1 :: states)
                  end
              end
        end
  end.

(** ** Resolution *)

(** [capture_activated_env]: running [flox activate -- env -0] in a directory
    with a given environment, as [Ok stdout] or an error. *)
Context (flox_bin : option str) (activate : str → str → gmap str str → result str str).

Definition capture_activated_env (dir : str) (base : gmap str str) : result ProviderError (gmap str str) :=
  bin ← ok_or (MissingBinary "flox" "devcroft doctor") flox_bin;
  out ← map_err ResolutionFailed (activate bin dir base);
  Ok (parse_env_dump out).

(** [FloxProvider::resolve]: the resolution and the directory it activated. *)
Definition resolve (is_dir : str → bool) (io : DeriveIo) (home : option str) (f : fs) (project_root : str) : result ProviderError (Resolution * str) :=
  _ ← ensure_environment_present is_dir project_root;
  activation_script ← activation_hook_script f project_root;
  let '(materialize_from, f') :=
    match activation_script with
    | Some _ => let '(r, states) := derive_hook_free_env is_dir io f project_root in (r, default f (last states))
    | None => (Ok project_root, f)
    end in
  dir ← materialize_from;
  baseline ← canonical_base_env home;
  activated ← capture_activated_env dir baseline;
  services ← read_service_declarations f' project_root;
  Ok ({| res_env := changed_env baseline activated; res_unset := unset_env baseline activated;
         res_read_only_grants := store_grants activated; res_services := services;
         res_ran_activation_hook := false; res_activation_script := activation_script |}, dir).

(** ** Lemmas *)

Lemma read_service_ok entry d :
  read_service entry = Ok d →
  svc_name d = entry.1 ∧ (toml_get entry.2 "command" ≫= toml_as_str) = Some (svc_command d) ∧
  (Services.is_daemon d = true → is_Some (shutdown_command d)).
Proof.
  destruct entry as [name value]. unfold read_service, mbind, result_bind.
  destruct (option_bind _ _ _ _) as [command|] eqn:Ec; [|done]. simpl.
  destruct (service_vars name value); [|done]. destruct (service_is_daemon name value) as [daemon|]; [|done].
  destruct (service_shutdown name value) as [sd|]; [|done].
  destruct (daemon && _) eqn:Ed; [done|]. intros [= <-]. simpl. split; [done|]. split; [done|].
  intros ->. simpl in Ed. apply bool_decide_eq_false in Ed. by apply not_eq_None_Some.
Qed.

(** Service declarations are read completely or not at all: when the flox
    manifest reads, the services are exactly the entries of its [services]
    table, in order, each with its own command; and no declaration that
    devcroft could not stop is ever accepted (a daemon always has a shutdown
    command).  A manifest without the table declares none. *)
Theorem services_read_exactly f root l
    (H : read_service_declarations f root = Ok (Declared l)) :
  ∃ text parsed, f !! manifest_of root = Some text ∧ parse_table text = Ok parsed ∧
    match table_get parsed "services" with
    | None => l = []
    | Some v => ∃ table, v = TTable table ∧ svc_name <$> l = table.*1 ∧
        Forall2 (λ e d, toml_get e.2 "command" = Some (TStr (svc_command d))) table l ∧
        Forall (λ d, Services.is_daemon d = true → is_Some (shutdown_command d)) l
    end.
Proof.
  unfold read_service_declarations, read_text, parse_manifest, mbind, result_bind in H.
  destruct (f !! manifest_of root) as [text|]; [|done]. destruct (utf8_valid text); [|done].
  destruct (parse_table text) as [parsed|] eqn:Ep; [|done]. simpl in H. exists text, parsed.
  split; [done|]. split; [done|]. destruct (table_get parsed "services") as [v|]; [|by injection H].
  destruct v as [| |table| |]; try done. simpl in H. exists table. split; [done|].
  destruct (try_map read_service table) as [l'|] eqn:Et; [|done]. injection H as ->.
  apply try_map_forall2 in Et. clear -Et.
  induction Et as [|e d table l He _ (IH1 & IH2 & IH3)]; [done|].
  destruct (read_service_ok _ _ He) as (Hn & Hc & Hd).
  split; [simpl; by f_equal|]. split; constructor; try done.
  destruct (toml_get e.2 "command") as [[]|]; try done. simpl in Hc. by injection Hc as ->.
Qed.

(** Removing the hook table leaves every other entry, in order, and no hook. *)
Lemma table_get_remove k k' t : table_get (table_remove k t) k' = if decide (k' = k) then None else table_get t k'.
Proof.
  unfold table_get, table_remove. induction t as [|[x v] t IH]; simpl; [by case_decide|].
  destruct (bool_decide (x = k)) eqn:E; simpl.
  - rewrite IH. apply bool_decide_eq_true in E as ->. case_decide; [done|]. rewrite bool_decide_false by congruence. done.
  - apply bool_decide_eq_false in E. case_bool_decide; subst; [by rewrite decide_False by done|done].
Qed.

Lemma hook_script_nonempty t s : hook_script t = Some s → trim s ≠ [].
Proof.
  unfold hook_script. destruct (table_get t "hook" ≫= _) as [s'|]; [|done]. cbn [mbind option_bind].
  case_bool_decide as Ht; [done|]. by intros [= <-].
Qed.

Lemma hook_script_removed t : hook_script (table_remove "hook" t) = None.
Proof. unfold hook_script. by rewrite table_get_remove. Qed.

(** *** Paths of the derivation *)

Lemma join_word base p : base ≠ [] → last_is SLASH base = false → starts_with "/" p = false → path_join base p = base ++ "/" ++ p.
Proof. intros Hb Hl Hp. unfold path_join. by rewrite Hp, bool_decide_false, Hl. Qed.

Definition hexdigit_word (s : str) : Prop := s ≠ [] ∧ SLASH ∉ s.

Lemma hex_digit_not_slash n : (n < 16)%N → hex_digit n ≠ SLASH.
Proof.
  intros Hn H. apply (f_equal byte) in H. unfold hex_digit in H.
  destruct (N.ltb_spec n 10); rewrite byte_of_N in H; change (byte SLASH) with 47%N in H; lia.
Qed.

Lemma fingerprint_word parts : last_is SLASH (fingerprint parts) = false ∧ fingerprint parts ≠ [].
Proof.
  unfold fingerprint. change 16 with (S 15). cbn [hex_digits]. split; [|by intros [_ ?]%app_nil].
  unfold last_is. rewrite last_snoc. apply bool_decide_eq_false. intros [= H].
  revert H. apply hex_digit_not_slash. by apply N.mod_lt.
Qed.

(** Where the derivation reads and writes: below two different directories. *)
Lemma derivation_paths root fp parts (Hfp : fp = fingerprint parts) :
  let derived := path_join (path_join root ARTIFACT_DIR) (DERIVED_ENV_PREFIX ++ fp) in
  ∃ r,
    (∀ p, starts_with "/" p = false → path_join root p = r ++ p) ∧
    (∀ p, starts_with "/" p = false → path_join (path_join root ".flox") p = r ++ ".flox/" ++ p) ∧
    path_join (path_join derived ".flox/env") "manifest.toml" = r ++ ".devcroft/flox-env-" ++ fp ++ "/.flox/env/manifest.toml" ∧
    (∀ p, starts_with "/" p = false →
      path_join (path_join derived ".flox") p = r ++ ".devcroft/flox-env-" ++ fp ++ "/.flox/" ++ p).
Proof.
  destruct (path_join_prefix root) as [r Hr]. exists r. split; [done|].
  assert (∀ a b : str, last_is SLASH b = false → b ≠ [] → last_is SLASH (a ++ b) = false ∧ a ++ b ≠ []) as Hla.
  { intros a b Hb Hne. split; [|by destruct a]. unfold last_is in *. destruct b as [|x b _] using rev_ind; [done|].
    by rewrite app_assoc, last_snoc in *. }
  assert (∀ p, starts_with "/" p = false → path_join (path_join root ".flox") p = r ++ ".flox/" ++ p) as H1.
  { intros p Hp. rewrite (Hr ".flox") by done. destruct (Hla r ".flox") as [? ?]; [done|done|].
    rewrite join_word by done. by rewrite <- app_assoc. }
  split; [done|].
  destruct (fingerprint_word parts) as [Hf1 Hf2]. rewrite <- Hfp in Hf1, Hf2.
  assert (path_join (path_join root ARTIFACT_DIR) (DERIVED_ENV_PREFIX ++ fp) = r ++ ".devcroft/flox-env-" ++ fp) as ->.
  { rewrite (Hr ARTIFACT_DIR) by done. destruct (Hla r ARTIFACT_DIR) as [? ?]; [done|done|].
    rewrite join_word by done. by rewrite <- app_assoc. }
  destruct (Hla (r ++ ".devcroft/flox-env-") fp Hf1 Hf2) as [Hd1 Hd2]. rewrite <- app_assoc in Hd1, Hd2.
  split.
  - rewrite (join_word _ ".flox/env") by done.
    destruct (Hla ((r ++ ".devcroft/flox-env-" ++ fp) ++ "/") ".flox/env") as [H2 H3]; [done|done|].
    rewrite <- app_assoc in H2, H3. rewrite join_word by done. by rewrite <- !app_assoc.
  - intros p Hp. rewrite (join_word _ ".flox") by done.
    destruct (Hla ((r ++ ".devcroft/flox-env-" ++ fp) ++ "/") ".flox") as [H2 H3]; [done|done|].
    rewrite <- app_assoc in H2, H3. rewrite join_word by done. by rewrite <- !app_assoc.
Qed.

(** A path the derivation writes for fingerprint [fp], below the prefix [r] of the project root. *)
Definition derived_path (r fp p : str) : str := r ++ ".devcroft/flox-env-" ++ fp ++ "/.flox/" ++ p.

Lemma derived_not_source r fp p q : derived_path r fp p ≠ r ++ ".flox/" ++ q.
Proof. intros H. apply app_inv_head in H. simpl in H. discriminate H. Qed.

Lemma derived_path_inj r fp p q : derived_path r fp p = derived_path r fp q → p = q.
Proof. unfold derived_path. intros H. by repeat apply app_inv_head in H. Qed.

(** The fingerprint only reads the project's own files. *)
Lemma fingerprint_frame is_dir f g root :
  g !! manifest_of root = f !! manifest_of root →
  g !! path_join root ".flox/env/manifest.lock" = f !! path_join root ".flox/env/manifest.lock" →
  manifest_fingerprint is_dir g root = manifest_fingerprint is_dir f root.
Proof. intros H1 H2. unfold manifest_fingerprint. by rewrite H1, H2. Qed.

Lemma copy_optional_frame copy source derived names f x :
  (∀ n, n ∈ names → path_join (path_join derived ".flox") n ≠ x) →
  ∀ g, g ∈ (copy_optional copy source derived names f).1 → g !! x = f !! x.
Proof using Type.
  clear parse_table toml_to_string flox_bin activate.
  revert f. induction names as [|n names IH]; intros f Hx g Hg; simpl in Hg; [by apply not_elem_of_nil in Hg|].
  destruct (f !! path_join source n) as [contents|]; [|by eapply IH; [set_solver|]].
  assert (path_join (path_join derived ".flox") n ≠ x) as Hne by (apply Hx; by left).
  destruct (copy n) as [| |k]; [|by apply not_elem_of_nil in Hg|simpl in Hg; apply list_elem_of_singleton in Hg as ->; by rewrite lookup_insert_ne].
  destruct (copy_optional _ _ _ names _) as [states r] eqn:Ec. simpl in Hg.
  apply elem_of_cons in Hg as [->|Hg]; [by rewrite lookup_insert_ne|].
  rewrite (IH (<[path_join (path_join derived ".flox") n:=contents]> f)); [by rewrite lookup_insert_ne|set_solver|].
  by rewrite Ec.
Qed.

Lemma copy_optional_done copy source derived names f states :
  let dst n := path_join (path_join derived ".flox") n in
  copy_optional copy source derived names f = (states, None) → NoDup names →
  (∀ n m, n ∈ names → m ∈ names → dst n = dst m → n = m) → (∀ n m, n ∈ names → m ∈ names → dst n ≠ path_join source m) →
  ∀ n c, n ∈ names → f !! path_join source n = Some c → default f (last states) !! dst n = Some c.
Proof using Type.
  clear parse_table toml_to_string flox_bin activate. intros dst.
  revert f states. induction names as [|x names IH]; intros f states Hc Hnd Hinj Hne n c Hn Hf; [by apply not_elem_of_nil in Hn|].
  inversion Hnd as [|? ? Hx Hnd']; subst. simpl in Hc.
  assert (∀ f' states, copy_optional copy source derived names f' = (states, None) → n ∈ names →
    f' !! path_join source n = Some c → default f' (last states) !! dst n = Some c) as IH'.
  { intros f' st Hst Hn' Hf'. eapply IH; try done; [intros p q Hp Hq; apply Hinj|intros p q Hp Hq; apply Hne]; by right. }
  destruct (f !! path_join source x) as [contents|] eqn:Ex.
  - destruct (copy x); [|done..]. fold (dst x) in Hc.
    destruct (copy_optional _ _ _ names _) as [st r] eqn:Est. injection Hc as <- ->.
    assert (default f (last (<[dst x:=contents]> f :: st)) = default (<[dst x:=contents]> f) (last st)) as ->.
    { destruct st; [done|]. rewrite last_cons_cons. by destruct (last (_ :: st)) eqn:El; [|apply last_None in El]. }
    apply elem_of_cons in Hn as [->|Hn].
    + replace c with contents by congruence.
      assert (∀ g, g ∈ st → g !! dst x = <[dst x:=contents]> f !! dst x) as Hfr.
      { intros g Hg. eapply copy_optional_frame; [|by rewrite Est]. intros m Hm Heq.
        apply Hinj in Heq; [|by right|by left]. by subst. }
      destruct (last st) as [g|] eqn:El; simpl; [|apply lookup_insert_eq].
      rewrite Hfr; [apply lookup_insert_eq|]. apply last_Some in El as [l ->]. apply elem_of_app. right. by left.
    + apply IH'; [done|done|]. rewrite lookup_insert_ne; [done|]. apply Hne; [by left|by right].
  - apply elem_of_cons in Hn as [->|Hn]; [congruence|]. by apply IH'.
Qed.

Definition lock_copied (f g : fs) (root derived : str) : Prop :=
  ∀ name contents, name ∈ OPTIONAL → f !! path_join (path_join root ".flox") name = Some contents →
    g !! path_join (path_join derived ".flox") name = Some contents.

Lemma optional_relative n : n ∈ OPTIONAL → starts_with "/" n = false.
Proof.
  intros Hn. unfold OPTIONAL, strs in Hn. repeat (apply elem_of_cons in Hn as [->|Hn]; [done|]). by apply not_elem_of_nil in Hn.
Qed.

(** The paths of a derivation never meet the project's own. *)
Record separated (root d marker : str) : Prop := {
  sep_marker : ∀ q, starts_with "/" q = false → marker ≠ path_join (path_join root ".flox") q;
  sep_copies : ∀ p q, starts_with "/" p = false → starts_with "/" q = false →
    path_join (path_join d ".flox") p ≠ path_join (path_join root ".flox") q;
  sep_inj : ∀ p q, starts_with "/" p = false → starts_with "/" q = false →
    path_join (path_join d ".flox") p = path_join (path_join d ".flox") q → p = q;
  sep_copy_marker : ∀ n, n ∈ OPTIONAL → path_join (path_join d ".flox") n ≠ marker;
}.

Lemma derivation_separated is_dir f root fp :
  manifest_fingerprint is_dir f root = Ok fp →
  let d := path_join (path_join root ARTIFACT_DIR) (DERIVED_ENV_PREFIX ++ fp) in
  separated root d (path_join (path_join d ".flox/env") "manifest.toml").
Proof using Type.
  clear parse_table toml_to_string flox_bin activate. intros Efp.
  assert (∃ parts, fp = fingerprint parts) as [parts Hparts].
  { unfold manifest_fingerprint, mbind, result_bind in Efp. destruct (ensure_environment_present is_dir root); [|done].
    destruct (f !! manifest_of root); [|done]. simpl in Efp. injection Efp as <-. by eexists. }
  destruct (derivation_paths root fp parts Hparts) as (r & _ & Hsrc & Hmark & Hdst).
  split.
  - intros q Hq. rewrite Hmark, Hsrc by done. apply (derived_not_source r fp "env/manifest.toml" q).
  - intros p q Hp Hq. rewrite Hdst, Hsrc by done. apply (derived_not_source r fp p q).
  - intros p q Hp Hq. rewrite !Hdst by done. apply (derived_path_inj r fp).
  - intros n Hn. rewrite Hmark, Hdst by by apply optional_relative. intros Heq.
    apply (derived_path_inj r fp n "env/manifest.toml") in Heq. subst.
    apply (bool_decide_unpack _) in Hn || (revert Hn; apply (bool_decide_eq_false_1 _); by vm_compute).
Qed.

(** A derivation of the hook-free environment reads the project and writes
    only its own directory: in every state it goes through, the project's own
    flox files are untouched; if it completes from scratch, the derived manifest
    is the project's without its hook, and the lock and [env.json] (when the
    project has them) are copied unchanged, so the derived environment is
    pinned to the same packages. *)
Theorem derivation_complete is_dir io f root derived states
    (H : derive_hook_free_env is_dir io f root = (Ok derived, states)) (Hnew : states ≠ []) :
  (∀ g p, g ∈ states → starts_with "/" p = false →
    g !! path_join (path_join root ".flox") p = f !! path_join (path_join root ".flox") p) ∧
  ∃ g text stripped, last states = Some g ∧ f !! path_join (path_join root ".flox") "env/manifest.toml" = Some text ∧
    strip_hook text = Ok stripped ∧
    g !! path_join (path_join derived ".flox/env") "manifest.toml" = Some stripped ∧
    lock_copied f g root derived.
Proof using Type.
  clear flox_bin activate. unfold derive_hook_free_env in H.
  destruct (manifest_fingerprint is_dir f root) as [fp|] eqn:Efp; [|done].
  pose proof (derivation_separated _ _ _ _ Efp) as Hsep. cbv zeta in H, Hsep.
  set (d := path_join (path_join root ARTIFACT_DIR) (DERIVED_ENV_PREFIX ++ fp)) in *.
  set (marker := path_join (path_join d ".flox/env") "manifest.toml") in *.
  case_bool_decide; [by injection H as <- <-|]. destruct (io_create io); [|done]. cbn [negb] in H.
  destruct (f !! path_join (path_join root ".flox") "env/manifest.toml") as [text|] eqn:Et; [|done].
  destruct (utf8_valid text); [|done]. cbn [negb] in H. destruct (strip_hook text) as [stripped|] eqn:Es; [|done].
  destruct (io_manifest io); [|done..].
  destruct (copy_optional (io_copy io) (path_join root ".flox") d OPTIONAL (<[marker:=stripped]> f)) as [cs r0] eqn:Ec.
  destruct r0; [done|]. injection H as <- <-.
  assert (∀ q, starts_with "/" q = false →
    <[marker:=stripped]> f !! path_join (path_join root ".flox") q = f !! path_join (path_join root ".flox") q) as Hf1.
  { intros q Hq. apply lookup_insert_ne. by apply (sep_marker _ _ _ Hsep). }
  assert (∀ g x, g ∈ cs → (∀ n, n ∈ OPTIONAL → path_join (path_join d ".flox") n ≠ x) → g !! x = <[marker:=stripped]> f !! x) as Hfr.
  { intros g x Hg Hx. eapply copy_optional_frame; [exact Hx|]. by rewrite Ec. }
  split.
  - intros g p Hg Hp. apply elem_of_cons in Hg as [->|Hg]; [by apply Hf1|].
    rewrite Hfr; [by apply Hf1|done|]. intros n Hn. apply (sep_copies _ _ _ Hsep); [by apply optional_relative|done].
  - exists (default (<[marker:=stripped]> f) (last cs)), text, stripped. fold marker.
    split; [destruct cs as [|g cs]; [done|]; rewrite last_cons_cons; by destruct (last (g :: cs)) eqn:El; [|apply last_None in El]|].
    split; [done|]. split; [done|]. split.
    + destruct (last cs) as [g|] eqn:El; simpl; [|apply lookup_insert_eq]. rewrite Hfr; [apply lookup_insert_eq| |].
      * apply last_Some in El as [l ->]. apply elem_of_app. right. by left.
      * apply (sep_copy_marker _ _ _ Hsep).
    + intros name contents Hn Hc. eapply copy_optional_done; [exact Ec| | | |done|].
      * apply (bool_decide_unpack _). by vm_compute.
      * intros n m Hn' Hm'. apply (sep_inj _ _ _ Hsep); by apply optional_relative.
      * intros n m Hn' Hm'. apply (sep_copies _ _ _ Hsep); by apply optional_relative.
      * rewrite Hf1; [done|]. by apply optional_relative.
Qed.

(** An interrupted derivation is taken for a complete one: the manifest is
    written before the lock is copied and doubles as the completion mark, so
    when copying the lock fails (or the process dies there), that resolution
    fails but the next one answers with the same directory at once, although it
    still has no lock. *)
Theorem interrupted_derivation_reused is_dir (io io' : DeriveIo) f root fp text stripped lock
    (Hfp : manifest_fingerprint is_dir f root = Ok fp)
    (Htext : f !! path_join (path_join root ".flox") "env/manifest.toml" = Some text ∧ utf8_valid text = true)
    (Hstrip : strip_hook text = Ok stripped)
    (Hlock : f !! path_join (path_join root ".flox") "env/manifest.lock" = Some lock)
    (Hio : io_create io = true ∧ io_manifest io = Whole) (Hfail : io_copy io "env/manifest.lock" = NotMade) :
  let derived := path_join (path_join root ARTIFACT_DIR) (DERIVED_ENV_PREFIX ++ fp) in
  f !! path_join (path_join derived ".flox/env") "manifest.toml" = None →
  f !! path_join (path_join derived ".flox") "env/manifest.lock" = None →
  ∃ e g, derive_hook_free_env is_dir io f root = (Err e, [g]) ∧
    derive_hook_free_env is_dir io' g root = (Ok derived, []) ∧
    g !! path_join (path_join derived ".flox") "env/manifest.lock" = None.
Proof using Type.
  clear flox_bin activate. intros d Hm Hl. pose proof (derivation_separated _ _ _ _ Hfp) as Hsep.
  cbv zeta in Hsep. fold d in Hsep. set (marker := path_join (path_join d ".flox/env") "manifest.toml") in *.
  destruct Htext as [Htext Hutf].
  assert (∀ q, starts_with "/" q = false →
    <[marker:=stripped]> f !! path_join (path_join root ".flox") q = f !! path_join (path_join root ".flox") q) as Hf1.
  { intros q Hq. apply lookup_insert_ne. by apply (sep_marker _ _ _ Hsep). }
  eexists _, (<[marker:=stripped]> f). split; [|split].
  - unfold derive_hook_free_env. rewrite Hfp. cbv zeta. fold d marker. rewrite Hm, bool_decide_false by (by intros [? ?]).
    destruct Hio as [Hc Hio]. rewrite Hc. cbn [negb]. rewrite Htext, Hutf. cbn [negb]. rewrite Hstrip, Hio. unfold OPTIONAL, strs. cbn [map copy_optional].
    rewrite Hf1, Hlock, Hfail by done. done.
  - destruct (path_join_prefix root) as [r Hr].
    assert (path_join root ".flox/env/manifest.toml" = path_join (path_join root ".flox") "env/manifest.toml" ∧
      path_join root ".flox/env/manifest.lock" = path_join (path_join root ".flox") "env/manifest.lock") as [E1 E2].
    { destruct (derivation_paths root (fingerprint []) [] eq_refl) as (r' & Hr' & Hsrc & _).
      by rewrite !Hsrc, !Hr' by done. }
    unfold derive_hook_free_env. rewrite (fingerprint_frame is_dir f).
    + rewrite Hfp. cbv zeta. fold d marker. rewrite lookup_insert_eq, bool_decide_true by (by eexists). done.
    + unfold manifest_of. rewrite E1. by apply Hf1.
    + rewrite E2. by apply Hf1.
  - rewrite lookup_insert_ne; [done|]. intros Heq. symmetry in Heq. revert Heq. apply (sep_copy_marker _ _ _ Hsep). by left.
Qed.

(** So is one whose manifest was cut short: whatever part of it was written
    marks the derivation as done. *)
Lemma cut_manifest_reused is_dir (io io' : DeriveIo) f root fp text stripped n
    (Hfp : manifest_fingerprint is_dir f root = Ok fp)
    (Htext : f !! path_join (path_join root ".flox") "env/manifest.toml" = Some text ∧ utf8_valid text = true)
    (Hstrip : strip_hook text = Ok stripped) (Hio : io_create io = true ∧ io_manifest io = Cut n) :
  let derived := path_join (path_join root ARTIFACT_DIR) (DERIVED_ENV_PREFIX ++ fp) in
  let marker := path_join (path_join derived ".flox/env") "manifest.toml" in
  f !! marker = None →
  ∃ e g, derive_hook_free_env is_dir io f root = (Err e, [g]) ∧ g !! marker = Some (take n stripped) ∧
    derive_hook_free_env is_dir io' g root = (Ok derived, []).
Proof using Type.
  clear flox_bin activate. intros d marker Hm. pose proof (derivation_separated _ _ _ _ Hfp) as Hsep.
  cbv zeta in Hsep. fold d in Hsep. destruct Htext as [Htext Hutf], Hio as [Hc Hio].
  eexists _, (<[marker:=take n stripped]> f). split; [|split; [apply lookup_insert_eq|]].
  - unfold derive_hook_free_env. rewrite Hfp. cbv zeta. fold d marker. rewrite Hm, bool_decide_false by (by intros [? ?]).
    rewrite Hc. cbn [negb]. rewrite Htext, Hutf. cbn [negb]. by rewrite Hstrip, Hio.
  - assert (∀ q, starts_with "/" q = false → path_join root (".flox/" ++ q) = path_join (path_join root ".flox") q) as E.
    { intros q Hq. destruct (derivation_paths root (fingerprint []) [] eq_refl) as (r' & Hr' & Hsrc & _).
      by rewrite Hsrc, Hr' by done. }
    unfold derive_hook_free_env. rewrite (fingerprint_frame is_dir f).
    + rewrite Hfp. cbv zeta. fold d marker. rewrite lookup_insert_eq, bool_decide_true by (by eexists). done.
    + change (manifest_of root) with (path_join root (".flox/" ++ "env/manifest.toml")). rewrite E by done.
      apply lookup_insert_ne. by apply (sep_marker _ _ _ Hsep).
    + change (path_join root ".flox/env/manifest.lock") with (path_join root (".flox/" ++ "env/manifest.lock")). rewrite E by done.
      apply lookup_insert_ne. by apply (sep_marker _ _ _ Hsep).
Qed.

Lemma derive_directory is_dir io f root dir states :
  derive_hook_free_env is_dir io f root = (Ok dir, states) →
  ∃ fp, manifest_fingerprint is_dir f root = Ok fp ∧
    dir = path_join (path_join root ARTIFACT_DIR) (DERIVED_ENV_PREFIX ++ fp).
Proof.
  unfold derive_hook_free_env. destruct (manifest_fingerprint is_dir f root) as [fp|]; [|done]. cbv zeta.
  intros H. exists fp. split; [done|]. case_bool_decide; [by injection H as <- _|]. destruct (negb _); [done|].
  destruct (f !! _) as [text|]; [|done]. destruct (negb _); [done|]. destruct (strip_hook text); [|done]. destruct (io_manifest io); [|done..].
  destruct (copy_optional _ _ _ _ _) as [st [from|]]; [done|]. by injection H as <- _.
Qed.

(** Resolution is exact and never runs the project's hook: it activates
    the project itself only when the manifest has no activation script, and
    otherwise the derived directory of the current fingerprint, handing the
    script on unrun; the environment it records, applied to the canonical
    base, is precisely what that activation printed. *)
Theorem resolve_exact is_dir io home f root res dir
    (H : resolve is_dir io home f root = Ok (res, dir)) :
  res_ran_activation_hook res = false ∧
  activation_hook_script f root = Ok (res_activation_script res) ∧
  (res_activation_script res = None → dir = root) ∧
  (∀ script, res_activation_script res = Some script → trim script ≠ [] ∧
    ∃ fp, manifest_fingerprint is_dir f root = Ok fp ∧
      dir = path_join (path_join root ARTIFACT_DIR) (DERIVED_ENV_PREFIX ++ fp)) ∧
  ∃ bin base out, flox_bin = Some bin ∧ canonical_base_env home = Ok base ∧ activate bin dir base = Ok out ∧
    apply_delta base (res_env res) (res_unset res) = parse_env_dump out ∧
    res_read_only_grants res = store_grants (parse_env_dump out).
Proof.
  unfold resolve, mbind, result_bind in H. destruct (ensure_environment_present is_dir root); [|done].
  destruct (activation_hook_script f root) as [script|] eqn:Es; [|done].
  set (d := derive_hook_free_env is_dir io f root) in *.
  destruct (match script with Some _ => _ | None => _ end) as [[dir'|] f'] eqn:Ed; [|done].
  destruct (canonical_base_env home) as [base|] eqn:Eb; [|done].
  unfold capture_activated_env, mbind, result_bind in H. destruct flox_bin as [bin|] eqn:Ebin; [|done]. simpl in H.
  destruct (activate bin dir' base) as [out|] eqn:Ea; [|done]. simpl in H.
  destruct (read_service_declarations f' root); [|done]. injection H as <- <-. simpl.
  split; [done|]. split; [done|]. split; [|split].
  - intros ->. by injection Ed.
  - intros s ->. split.
    + unfold activation_hook_script, mbind, result_bind in Es. destruct (read_text _ _); [|done].
      destruct (parse_manifest _ _) as [parsed|]; [|done]. injection Es as Es. by eapply hook_script_nonempty.
    + destruct d as [r st] eqn:Eder. injection Ed as -> _. by eapply derive_directory.
  - exists bin, base, out. split; [done|]. split; [done|]. split; [done|]. split; [|done].
    apply apply_delta_exact.
Qed.
End flox.

(** ** A concrete project *)

Definition sample_table : list (str * toml) :=
  [("hook" : str, TTable [("on-activate" : str, TStr "echo hi")]);
   ("services" : str, TTable [("db" : str, TTable [("command" : str, TStr "run")])])].
Definition sample_parse (text : str) : result str (list (str * toml)) := Ok sample_table.
Definition sample_print (t : list (str * toml)) : result str str := Ok ("stripped" : str).
Definition sample_fs : gmap str str :=
  {[ ("/p/.flox/env/manifest.toml" : str) := ("m" : str); ("/p/.flox/env/manifest.lock" : str) := ("l" : str) ]}.

Lemma services_read_exactly_witness :
  ∃ l, read_service_declarations sample_parse sample_fs "/p" = Ok (Declared l) ∧ svc_name <$> l = strs ["db"].
Proof.
  destruct (read_service_declarations sample_parse sample_fs "/p") as [[|l]|] eqn:E; [vm_compute in E; discriminate E| |vm_compute in E; discriminate E].
  exists l. split; [done|]. destruct (services_read_exactly sample_parse _ _ _ E) as (text & parsed & _ & Hp & H).
  injection Hp as <-. destruct H as (table & Ht & Hn & _). rewrite Hn. injection Ht as <-. reflexivity.
Defined.

Lemma derivation_complete_witness :
  ∃ derived states, derive_hook_free_env sample_parse sample_print (λ _, true) io_fine sample_fs "/p" = (Ok derived, states) ∧
    ∃ g, last states = Some g ∧ lock_copied sample_fs g "/p" derived.
Proof.
  destruct (derive_hook_free_env sample_parse sample_print (λ _, true) io_fine sample_fs "/p") as [[derived|e] states] eqn:E;
    [|apply (f_equal (λ x, is_ok x.1)) in E; vm_compute in E; discriminate E].
  assert (states ≠ []) as Hne.
  { intros ->. apply (f_equal (λ x, length x.2)) in E. vm_compute in E. discriminate E. }
  exists derived, states. split; [done|].
  destruct (derivation_complete sample_parse sample_print _ _ _ _ _ _ E Hne) as (_ & g & _ & _ & H1 & _ & _ & _ & H2).
  exact (ex_intro _ g (conj H1 H2)).
Defined.

Definition io_lock_fails : DeriveIo := {| io_create := true; io_manifest := Whole; io_copy := λ _, NotMade |}.

Lemma interrupted_derivation_reused_witness :
  ∃ fp, manifest_fingerprint (λ _, true) sample_fs "/p" = Ok fp ∧
    ∃ e g, derive_hook_free_env sample_parse sample_print (λ _, true) io_lock_fails sample_fs "/p" = (Err e, [g]) ∧
      (derive_hook_free_env sample_parse sample_print (λ _, true) io_fine g "/p").2 = [].
Proof.
  eexists. assert (manifest_fingerprint (λ _, true) sample_fs "/p" = Ok _) as E by (vm_compute; reflexivity).
  split; [exact E|].
  destruct (interrupted_derivation_reused sample_parse sample_print _ io_lock_fails io_fine _ _ _ "m" "stripped" "l" E
    ltac:(split; vm_compute; reflexivity) ltac:(reflexivity) ltac:(vm_compute; reflexivity) ltac:(by split) eq_refl
    ltac:(vm_compute; reflexivity) ltac:(vm_compute; reflexivity)) as (e & g & H1 & H2 & _).
  exists e, g. split; [exact H1|]. by rewrite H2.
Defined.

Lemma resolve_exact_witness :
  ∃ res dir, resolve sample_parse sample_print (Some ("flox" : str)) (λ _ _ _, Ok ("A=1" : str)) (λ _, true) io_fine
      (Some ("/h" : str)) sample_fs "/p" = Ok (res, dir) ∧ res_ran_activation_hook res = false.
Proof.
  destruct (resolve sample_parse sample_print (Some ("flox" : str)) (λ _ _ _, Ok ("A=1" : str)) (λ _, true) io_fine
    (Some ("/h" : str)) sample_fs "/p") as [[res dir]|e] eqn:E;
    [|apply (f_equal is_ok) in E; vm_compute in E; discriminate E].
  exists res, dir. split; [done|].
  exact (proj1 (resolve_exact sample_parse sample_print (Some ("flox" : str)) (λ _ _ _, Ok ("A=1" : str)) _ _ _ _ _ _ _ E)).
Defined.
