(* ===== verification/World.v ===== *)
(** * The world the lifecycle operations act on

    The operations of [src/lifecycle/] change files and signal or start
    processes: they are computations over a [World], which holds the files, the
    moment (how many observations of the system were made) and the events so
    far.  A directory is its files; an empty one is not represented. *)

From S2P Require Import Prelude Paths State.

#[local] Set Default Proof Using "Type".

(** ** Processes started *)

(** How a keeper is started: its directory, the variables set ([Some]) or
    removed ([None]) on top of the inherited environment, and whether it gets a
    network namespace of its own. *)
Record KeeperLaunch := {
  kl_exe : str; kl_cwd : str; kl_env : gmap str (option str); kl_isolate : bool;
}.

(** What a lifecycle operation does to processes, and the lines it writes to
    standard error on the way. *)
Inductive event :=
| EvKill (k : Kill)
| EvProxy (allow : list str) (pid : Z) (port : N) (token : str)
| EvKeeper (pid : Z) (launch : KeeperLaunch)
| EvHook (name cmd : str)
| EvNote (line : str).

(** ** The monad *)

Record World := { w_fs : fs; w_time : nat; w_events : list event }.

Definition M (E A : Type) : Type := World → result E A * World.

#[export] Instance M_ret {E : Type} : MRet (M E) := λ A a w, (Ok a, w).
#[export] Instance M_bind {E : Type} : MBind (M E) :=
  λ A B f m w, match m w with (Ok a, w) => f a w | (Err e, w) => (Err e, w) end.

Definition lift {E A : Type} (r : result E A) : M E A := λ w, (r, w).
(** [map_err] on a computation. *)
Definition map_error {E F A : Type} (g : E → F) (m : M E A) : M F A := λ w, let '(r, w) := m w in (map_err g r, w).
Definition get_fs {E : Type} : M E fs := λ w, (Ok (w_fs w), w).
Definition get_world {E : Type} : M E World := λ w, (Ok w, w).
Definition modify_fs {E : Type} (f : fs → fs) : M E unit :=
  λ w, (Ok tt, {| w_fs := f (w_fs w); w_time := w_time w; w_events := w_events w |}).
Definition emit {E : Type} (e : list event) : M E unit :=
  λ w, (Ok tt, {| w_fs := w_fs w; w_time := w_time w; w_events := w_events w ++ e |}).

(** [remove_dir_all] on the files below a directory. *)
Definition remove_dir (p : str) (f : fs) : fs := filter (λ '(k, _), is_within k p = false) f.

(** The names directly below a directory. *)
Definition read_dir (p : str) (f : fs) : list str :=
  remove_dups (omap (λ k, if is_within k p then path_comps k !! length (path_comps p) else None) ((map_to_list f).*1)).

(** ** Lemmas *)

Lemma lookup_remove_dir p f x : remove_dir p f !! x = if is_within x p then None else f !! x.
Proof.
  unfold remove_dir. destruct (is_within x p) eqn:E.
  - apply map_lookup_filter_None. right. intros v _ H. congruence.
  - destruct (f !! x) as [v|] eqn:Ef.
    + by apply map_lookup_filter_Some.
    + apply map_lookup_filter_None. by left.
Qed.

(** ** Which events a computation can cause *)

(** [emits P m]: whatever [m] does to processes satisfies [P]. *)
Definition emits {E A : Type} (P : event → Prop) (m : M E A) : Prop :=
  ∀ w, ∃ evs, w_events (m w).2 = w_events w ++ evs ∧ Forall P evs.

Section emits.
Context {E : Type} (P : event → Prop).

Lemma emits_quiet {A : Type} (m : M E A) : (∀ w, w_events (m w).2 = w_events w) → emits P m.
Proof. intros Hm w. exists []. rewrite app_nil_r. split; [apply Hm|constructor]. Qed.

Lemma emits_bind {A B : Type} (m : M E A) (f : A → M E B) :
  emits P m → (∀ a, emits P (f a)) → emits P (m ≫= f).
Proof.
  intros Hm Hf w. unfold mbind, M_bind. destruct (Hm w) as (e1 & H1 & P1). destruct (m w) as [[a|e] w1]; simpl in *.
  - destruct (Hf a w1) as (e2 & H2 & P2). exists (e1 ++ e2).
    split; [by rewrite H2, H1, app_assoc|by apply Forall_app].
  - by exists e1.
Qed.

(** The continuation of a computation knows how its value came about. *)
Lemma emits_bind_ok {A B : Type} (m : M E A) (f : A → M E B) :
  emits P m → (∀ a w w', m w = (Ok a, w') → emits P (f a)) → emits P (m ≫= f).
Proof.
  intros Hm Hf w. unfold mbind, M_bind. destruct (Hm w) as (e1 & H1 & P1). destruct (m w) as [[a|e] w1] eqn:Em; simpl in *.
  - destruct (Hf a w w1 Em w1) as (e2 & H2 & P2). exists (e1 ++ e2).
    split; [by rewrite H2, H1, app_assoc|by apply Forall_app].
  - by exists e1.
Qed.

(** The continuation of a pure step knows its result. *)
Lemma emits_bind_lift {A B : Type} (r : result E A) (f : A → M E B) :
  (∀ a, r = Ok a → emits P (f a)) → emits P (lift r ≫= f).
Proof.
  intros Hf w. unfold mbind, M_bind, lift. destruct r as [a|e]; [by apply Hf|].
  exists []. rewrite app_nil_r. by split.
Qed.

Lemma emits_ret {A : Type} (a : A) : emits P (mret a : M E A).
Proof. by apply emits_quiet. Qed.
Lemma emits_lift {A : Type} (r : result E A) : emits P (lift r).
Proof. by apply emits_quiet. Qed.
Lemma emits_get_fs : emits P (get_fs : M E fs).
Proof. by apply emits_quiet. Qed.
Lemma emits_get_world : emits P (get_world : M E World).
Proof. by apply emits_quiet. Qed.
Lemma emits_modify f : emits P (modify_fs f : M E unit).
Proof. by apply emits_quiet. Qed.
Lemma emits_emit evs : Forall P evs → emits P (emit evs : M E unit).
Proof. intros H w. by exists evs. Qed.
End emits.

Lemma emits_map_error {E F A : Type} P (g : E → F) (m : M E A) : emits P m → emits P (map_error g m).
Proof. intros Hm w. specialize (Hm w). unfold map_error. by destruct (m w) as [[] ?]. Qed.

(** The same from one given world. *)
Definition emits_from {E A : Type} (P : event → Prop) (m : M E A) (w : World) : Prop :=
  ∃ evs, w_events (m w).2 = w_events w ++ evs ∧ Forall P evs.

Lemma emits_from_bind {E A B : Type} P (m : M E A) (f : A → M E B) w :
  emits_from P m w → (∀ a w', m w = (Ok a, w') → emits_from P (f a) w') → emits_from P (m ≫= f) w.
Proof.
  unfold emits_from, mbind, M_bind. intros (e1 & H1 & P1) Hf. destruct (m w) as [[a|e] w1] eqn:Em; simpl in *.
  - destruct (Hf a w1 eq_refl) as (e2 & H2 & P2). exists (e1 ++ e2).
    split; [by rewrite H2, H1, app_assoc|by apply Forall_app].
  - by exists e1.
Qed.

#[export] Hint Resolve emits_map_error emits_ret emits_lift emits_get_fs emits_get_world emits_modify : emits.

Lemma emits_weaken {E A : Type} (P Q : event → Prop) (m : M E A) : (∀ ev, P ev → Q ev) → emits P m → emits Q m.
Proof. intros HPQ Hm w. destruct (Hm w) as (evs & He & Hp). exists evs. split; [done|]. by eapply Forall_impl. Qed.

(** Goes through the steps of a computation, naming what each pure step returned. *)
Ltac emits_step :=
  lazymatch goal with
  | |- emits _ (lift _ ≫= _) => apply emits_bind_lift; intros ? ?
  | |- emits _ (_ ≫= _) => apply emits_bind; [|intros ?]
  | |- emits _ (match ?x with _ => _ end) => destruct x eqn:?
  | |- emits _ _ => solve [eauto with emits]
  end.

(** A successful sequence: its first part succeeded. *)
Lemma bind_ok_inv {E A B : Type} (m : M E A) (f : A → M E B) w b w' :
  (m ≫= f) w = (Ok b, w') → ∃ a w1, m w = (Ok a, w1) ∧ f a w1 = (Ok b, w').
Proof. unfold mbind, M_bind. destruct (m w) as [[a|e] w1]; [|done]. intros H. by exists a, w1. Qed.

Lemma lift_ok_inv {E A : Type} (r : result E A) w a w' : lift r w = (Ok a, w') → r = Ok a ∧ w' = w.
Proof. unfold lift. by intros [= -> ->]. Qed.

Lemma map_error_ok_inv {E F A : Type} (g : E → F) (m : M E A) w a w' : map_error g m w = (Ok a, w') → m w = (Ok a, w').
Proof. unfold map_error. destruct (m w) as [[] ?]; simpl; intros [= ? ->]; by subst. Qed.

(** ** Which files a computation leaves alone *)

Definition preserves {E A : Type} (x : str) (m : M E A) : Prop := ∀ w, w_fs (m w).2 !! x = w_fs w !! x.

Section preserves.
Context {E : Type} (x : str).

Lemma preserves_quiet {A : Type} (m : M E A) : (∀ w, w_fs (m w).2 = w_fs w) → preserves x m.
Proof. intros Hm w. by rewrite Hm. Qed.

Lemma preserves_bind {A B : Type} (m : M E A) (f : A → M E B) :
  preserves x m → (∀ a, preserves x (f a)) → preserves x (m ≫= f).
Proof.
  intros Hm Hf w. unfold mbind, M_bind. specialize (Hm w). destruct (m w) as [[a|e] w1]; [|done].
  simpl in Hm. by rewrite Hf.
Qed.

Lemma preserves_bind_lift {A B : Type} (r : result E A) (f : A → M E B) :
  (∀ a, r = Ok a → preserves x (f a)) → preserves x (lift r ≫= f).
Proof. intros Hf w. unfold mbind, M_bind, lift. destruct r as [a|e]; [by apply Hf|done]. Qed.

Lemma preserves_ret {A : Type} (a : A) : preserves x (mret a : M E A).
Proof. done. Qed.
Lemma preserves_lift {A : Type} (r : result E A) : preserves x (lift r).
Proof. done. Qed.
Lemma preserves_get_fs : preserves x (get_fs : M E fs).
Proof. done. Qed.
Lemma preserves_get_world : preserves x (get_world : M E World).
Proof. done. Qed.
Lemma preserves_emit evs : preserves x (emit evs : M E unit).
Proof. done. Qed.
Lemma preserves_insert k v : x ≠ k → preserves x (modify_fs <[k := v]> : M E unit).
Proof. intros Hk w. simpl. by rewrite lookup_insert_ne. Qed.
Lemma preserves_delete k : x ≠ k → preserves x (modify_fs (delete k) : M E unit).
Proof. intros Hk w. simpl. by rewrite lookup_delete_ne. Qed.
Lemma preserves_map_error {F A : Type} (g : E → F) (m : M E A) : preserves x m → preserves x (map_error g m).
Proof. intros Hm w. specialize (Hm w). unfold map_error. by destruct (m w) as [[] ?]. Qed.
End preserves.

#[export] Hint Resolve preserves_ret preserves_lift preserves_get_fs preserves_get_world preserves_emit
  preserves_insert preserves_delete preserves_map_error : preserves.

Ltac preserves_step :=
  lazymatch goal with
  | |- preserves _ (lift _ ≫= _) => apply preserves_bind_lift; intros ? ?
  | |- preserves _ (_ ≫= _) => apply preserves_bind; [|intros ?]
  | |- preserves _ (match ?x with _ => _ end) => destruct x eqn:?
  | |- preserves _ _ => solve [eauto with preserves]
  end.

(** ** Which errors a computation can end in *)

Definition fails {E A : Type} (P : E → Prop) (m : M E A) : Prop := ∀ w e w', m w = (Err e, w') → P e.

Section fails.
Context {E : Type} (P : E → Prop).

Lemma fails_bind {A B : Type} (m : M E A) (f : A → M E B) : fails P m → (∀ a, fails P (f a)) → fails P (m ≫= f).
Proof.
  intros Hm Hf w e w'. unfold mbind, M_bind. destruct (m w) as [[a|e1] w1] eqn:Em; [apply Hf|].
  intros [= <- <-]. by eapply Hm.
Qed.

Lemma fails_lift {A : Type} (r : result E A) : (∀ e, r = Err e → P e) → fails P (lift r).
Proof. intros Hr w e w'. unfold lift. intros [= H _]. by apply Hr. Qed.

Lemma fails_ret {A : Type} (a : A) : fails P (mret a : M E A).
Proof. by intros w e w'. Qed.
Lemma fails_get_fs : fails P (get_fs : M E fs).
Proof. by intros w e w'. Qed.
Lemma fails_get_world : fails P (get_world : M E World).
Proof. by intros w e w'. Qed.
Lemma fails_modify f : fails P (modify_fs f : M E unit).
Proof. by intros w e w'. Qed.
Lemma fails_emit evs : fails P (emit evs : M E unit).
Proof. by intros w e w'. Qed.
End fails.

Lemma fails_map_error {E F A : Type} (P : F → Prop) (g : E → F) (m : M E A) : (∀ e, P (g e)) → fails P (map_error g m).
Proof. intros Hg w e w'. unfold map_error. destruct (m w) as [[a|e1] w1]; simpl; [done|]. intros [= <- _]. apply Hg. Qed.

Create HintDb fails.
#[export] Hint Resolve fails_ret fails_get_fs fails_get_world fails_modify fails_emit : fails.

(** Goes through the steps of a computation down to its errors. *)
Ltac fails_step :=
  lazymatch goal with
  | |- fails _ (_ ≫= _) => apply fails_bind; [|intros ?]
  | |- fails _ (map_error _ _) => apply fails_map_error; intros ?
  | |- fails _ (lift (map_err _ ?r)) => apply fails_lift; intros ?; destruct r; cbn [map_err]; [done|intros [= <-]]
  | |- fails _ (lift _) => apply fails_lift; intros ? ?
  | |- fails _ (match ?x with _ => _ end) => destruct x eqn:?
  | |- fails _ _ => solve [eauto with fails]
  end.
