(* ===== verification/Shell.v ===== *)
(** * Resolving the sandbox's shell ([src/shell.rs])

    The shell devcroft needs is looked up in the resolved environment, never on
    the host: first among the [PATH] entries that lead into the store, then in
    the closure of the store entries.  File tests, [canonicalize] and
    [nix-store] are parameters. *)

From S2P Require Import Prelude Paths Capability.

#[local] Set Default Proof Using "Type".

Definition SHELL_NAME : str := "sh".
Definition STORE_PREFIX : str := "/nix/store".

Record ResolvedShell := { shell_path : str; shell_grant : option str }.

(** [Path::strip_prefix], by components. *)
Definition path_strip_prefix (p base : str) : option (list str) :=
  if path_starts_with p base then Some (drop (length (std_components base).2) (std_components p).2) else None.

(** [store_root]. *)
Definition store_root (path : str) : option str :=
  rest ← path_strip_prefix path STORE_PREFIX;
  first ← head rest;
  Some (path_join STORE_PREFIX first).

(** [Path::parent]. *)
Definition path_parent (p : str) : option str :=
  let '(absolute, comps) := std_components p in
  match comps with
  | [] => None
  | _ => Some ((if absolute then "/" else []) ++ join "/" (removelast comps))
  end.

(** The order and equality of [PathBuf]s: by components. *)
Definition path_key (p : str) : str := join [NUL] ((if (std_components p).1 then ["/" : str] else []) ++ (std_components p).2).

Fixpoint dedup (l : list str) : list str :=
  match l with
  | [] => []
  | x :: l => match dedup l with
              | [] => [x]
              | y :: l' => if bool_decide (path_key x = path_key y) then x :: l' else x :: y :: l'
              end
  end.

(** [slice::contains] on paths. *)
Definition has_path (p : str) (l : list str) : bool := existsb (λ q, bool_decide (path_key p = path_key q)) l.

Section shell.
Context (is_executable_file : str → bool) (canonicalize : str → option str)
        (nix_store_requisites : str → option str).

Definition env_path (env : gmap str str) : option str := env !! ("PATH" : str).

Definition path_dirs (path : str) : list str := List.filter (λ d, negb (bool_decide (d = []))) (split_on ":" path).

(** One turn of the loop of [resolve_on_path]. *)
Definition shell_at (dir : str) : option ResolvedShell :=
  let candidate := path_join dir SHELL_NAME in
  if negb (is_executable_file candidate) then None
  else
    let real := default candidate (canonicalize candidate) in
    match store_root real with
    | Some root => Some {| shell_path := real; shell_grant := Some root |}
    | None => None
    end.

Fixpoint first_shell (dirs : list str) : option ResolvedShell :=
  match dirs with
  | [] => None
  | dir :: dirs => match shell_at dir with Some s => Some s | None => first_shell dirs end
  end.

Definition resolve_on_path (env : gmap str str) : option ResolvedShell :=
  path ← env_path env; first_shell (path_dirs path).

(** The candidates of one [PATH] entry: itself and its parent. *)
Definition add_root (roots : list str) (candidate : str) : list str :=
  match canonicalize candidate with
  | None => roots
  | Some real =>
      match store_root real with
      | Some root => if has_path root roots then roots else roots ++ [root]
      | None => roots
      end
  end.

Definition closure_roots (env : gmap str str) : list str :=
  match env_path env with
  | None => []
  | Some path =>
      foldl (λ roots dir, foldl add_root roots (dir :: match path_parent dir with Some p => [p] | None => [] end))
        [] (path_dirs path)
  end.

(** [requisites]: the lines [nix-store] printed, or nothing when it failed. *)
Definition requisites (root : str) : list str :=
  match nix_store_requisites root with
  | None => []
  | Some out => List.filter (λ l, negb (bool_decide (l = []))) (trim <$> lines (from_utf8_lossy out))
  end.

Definition shell_in_store (store_path : str) : option ResolvedShell :=
  let candidate := path_join (path_join store_path "bin") SHELL_NAME in
  if is_executable_file candidate then Some {| shell_path := candidate; shell_grant := Some store_path |} else None.

Fixpoint first_in_closure (candidates : list str) : option ResolvedShell :=
  match candidates with
  | [] => None
  | store_path :: candidates =>
      match shell_in_store store_path with Some s => Some s | None => first_in_closure candidates end
  end.

Definition resolve_in_closure (env : gmap str str) : option ResolvedShell :=
  first_in_closure (dedup (sort_by path_key (closure_roots env ≫= requisites))).

Definition resolve (env : gmap str str) : option ResolvedShell :=
  match resolve_on_path env with Some s => Some s | None => resolve_in_closure env end.

(** ** Lemmas *)

Lemma first_shell_some dirs s :
  first_shell dirs = Some s ↔
  ∃ l1 dir l2, dirs = l1 ++ dir :: l2 ∧ shell_at dir = Some s ∧ ∀ d, d ∈ l1 → shell_at d = None.
Proof.
  induction dirs as [|dir dirs IH]; simpl.
  - split; [done|]. by intros ([] & ? & ? & [=] & _).
  - destruct (shell_at dir) as [s'|] eqn:E.
    + split.
      * intros [= ->]. exists [], dir, dirs. split; [done|]. split; [done|]. intros d Hd. by apply not_elem_of_nil in Hd.
      * intros ([|x l1] & d & l2 & Heq & Hs & Hn); injection Heq as <- ->; [congruence|].
        rewrite (Hn dir) in E; [done|by left].
    + rewrite IH. split.
      * intros (l1 & d & l2 & -> & Hs & Hn). exists (dir :: l1), d, l2. split; [done|]. split; [done|].
        intros x [->|Hx]%elem_of_cons; [done|by apply Hn].
      * intros ([|x l1] & d & l2 & Heq & Hs & Hn); injection Heq as <- ->; [congruence|].
        exists l1, d, l2. split; [done|]. split; [done|]. intros x Hx. apply Hn. by right.
Qed.

Lemma dedup_subset l x : x ∈ dedup l → x ∈ l.
Proof.
  clear is_executable_file canonicalize nix_store_requisites.
  induction l as [|y l IH]; [done|]. simpl. destruct (dedup l) as [|z l'].
  - intros ->%list_elem_of_singleton. by left.
  - case_bool_decide; rewrite !elem_of_cons in *; intuition.
Qed.

Lemma first_in_closure_some l s :
  first_in_closure l = Some s → ∃ p, p ∈ l ∧ shell_in_store p = Some s.
Proof.
  induction l as [|p l IH]; simpl; [done|]. destruct (shell_in_store p) as [s'|] eqn:E.
  - intros [= ->]. exists p. split; [by left|done].
  - intros H. destruct (IH H) as (q & Hq & Hs). exists q. split; [by right|done].
Qed.

(** The sandbox's shell is always one the sandbox can be granted: a resolved
    shell is executable, comes with a grant, and the grant covers it (it is the
    store entry the shell itself lies in, or one [nix-store] named among the
    requisites of the environment); the [PATH] decides first, in its order, and
    the closure is only searched when no [PATH] entry holds a shell from the
    store, so a shell of the host is never taken. *)
Theorem shell_from_environment env s (H : resolve env = Some s) :
  (∃ path l1 dir l2, env_path env = Some path ∧ path_dirs path = l1 ++ dir :: l2 ∧
     (∀ d, d ∈ l1 → shell_at d = None) ∧
     is_executable_file (path_join dir SHELL_NAME) = true ∧
     shell_path s = default (path_join dir SHELL_NAME) (canonicalize (path_join dir SHELL_NAME)) ∧
     ∃ root, store_root (shell_path s) = Some root ∧ shell_grant s = Some root ∧
       path_starts_with (shell_path s) STORE_PREFIX = true) ∨
  (resolve_on_path env = None ∧
   ∃ root store_path, root ∈ closure_roots env ∧ store_path ∈ requisites root ∧
     shell_grant s = Some store_path ∧ shell_path s = path_join (path_join store_path "bin") SHELL_NAME ∧
     is_executable_file (shell_path s) = true).
Proof.
  unfold resolve in H. destruct (resolve_on_path env) as [s'|] eqn:E.
  - left. injection H as ->. unfold resolve_on_path in E. destruct (env_path env) as [path|]; [|done]. simpl in E.
    apply first_shell_some in E as (l1 & dir & l2 & Hd & Hs & Hn).
    exists path, l1, dir, l2. split; [done|]. split; [done|]. split; [done|].
    unfold shell_at in Hs. destruct (is_executable_file (path_join dir SHELL_NAME)); [|done]. cbn [negb] in Hs.
    destruct (store_root _) as [root|] eqn:Er; [|done]. injection Hs as <-. simpl.
    split; [done|]. split; [done|]. exists root. split; [done|]. split; [done|].
    unfold store_root, path_strip_prefix in Er. by destruct (path_starts_with _ _).
  - right. split; [done|]. unfold resolve_in_closure in H.
    apply first_in_closure_some in H as (p & Hp & Hs).
    apply dedup_subset in Hp. rewrite elem_of_sort_by in Hp.
    apply list_elem_of_bind in Hp as (root & Hreq & Hroot).
    unfold shell_in_store in Hs. destruct (is_executable_file _) eqn:Ee; [|done]. injection Hs as <-.
    exists root, p. done.
Qed.
End shell.

Lemma shell_from_environment_witness :
  ∃ s, resolve (λ _, true) (λ p, Some p) (λ _, None) {[ ("PATH" : str) := ("/usr/bin:/nix/store/x-bash/bin" : str) ]} = Some s ∧
    shell_grant s = Some ("/nix/store/x-bash" : str) ∧
    is_Some (env_path {[ ("PATH" : str) := ("/usr/bin:/nix/store/x-bash/bin" : str) ]}).
Proof.
  destruct (resolve (λ _, true) (λ p, Some p) (λ _, None) {[ ("PATH" : str) := ("/usr/bin:/nix/store/x-bash/bin" : str) ]})
    as [s|] eqn:E; [|vm_compute in E; discriminate E].
  exists s. split; [done|]. split; [vm_compute in E; injection E as <-; vm_compute; reflexivity|].
  destruct (shell_from_environment _ _ _ _ _ E) as [(path & _ & _ & _ & Hp & _)|[_ (root & sp & _ & Hreq & _)]].
  - rewrite Hp. by eexists.
  - by apply not_elem_of_nil in Hreq.
Defined.
