(* ===== verification/SshKeys.v ===== *)
(** * SSH key material ([src/ssh/keys.rs])

    The host key is new at every start; the client key pair is created once and
    then kept, shared by all sandboxes.  Key generation and the OpenSSH
    encoding are parameters. *)

From S2P Require Import Prelude Paths State World.

#[local] Set Default Proof Using "Type".

Inductive KeyError := KeyIo (e : state_error) | KeyFormat (e : str).

Record PrivateKey := { private_openssh : str; public_openssh : str }.

Section keys.
(** [PrivateKey::random] and the result of writing each file, at a moment;
    [from_openssh] reads a private key file. *)
Context (random : nat → result str PrivateKey) (from_openssh : str → result str PrivateKey)
        (create_parent : str → result state_error unit) (write_file : str → result state_error unit).

Definition fresh_key : M KeyError PrivateKey :=
  λ w, (map_err KeyFormat (random (w_time w)), {| w_fs := w_fs w; w_time := S (w_time w); w_events := w_events w |}).

Definition write_key (path contents : str) : M KeyError unit :=
  _ ← lift (map_err KeyIo (write_file path));
  modify_fs <[path := contents]>.

Definition generate_host_key (path : str) : M KeyError PrivateKey :=
  key ← fresh_key;
  _ ← write_key path (private_openssh key);
  mret key.

Definition ensure_client_keypair (private_path public_path : str) : M KeyError PrivateKey :=
  f ← get_fs;
  match f !! private_path with
  | Some contents => lift (map_err KeyFormat (from_openssh contents))
  | None =>
      _ ← lift (map_err KeyIo (create_parent private_path));
      _ ← emit [EvNote ("devcroft: generating a new SSH client keypair at " ++ private_path)];
      key ← fresh_key;
      _ ← write_key private_path (private_openssh key);
      _ ← write_key public_path (public_openssh key);
      mret key
  end.

(** ** Lemmas *)

Lemma emits_key P path contents : emits P (write_key path contents).
Proof. unfold write_key. repeat emits_step. Qed.

Lemma emits_fresh_key P : emits P fresh_key.
Proof. by apply emits_quiet. Qed.
#[local] Hint Resolve emits_key emits_fresh_key : emits.

Lemma emits_host_key P path : emits P (generate_host_key path).
Proof. unfold generate_host_key. repeat emits_step. Qed.

Lemma emits_client_key (P : event → Prop) a b : (∀ line, P (EvNote line)) → emits P (ensure_client_keypair a b).
Proof.
  intros HP. unfold ensure_client_keypair. repeat (emits_step || (apply emits_emit; by repeat constructor)).
Qed.

(** The files the two operations may change. *)
Lemma preserves_key x path contents : x ≠ path → preserves x (write_key path contents).
Proof. intros Hx. unfold write_key. repeat preserves_step. Qed.
Lemma preserves_fresh_key x : preserves x fresh_key.
Proof. done. Qed.
#[local] Hint Resolve preserves_key preserves_fresh_key : preserves.

Lemma preserves_host_key x path : x ≠ path → preserves x (generate_host_key path).
Proof. intros Hx. unfold generate_host_key. repeat preserves_step. Qed.

Lemma preserves_client_key x a b : x ≠ a → x ≠ b → preserves x (ensure_client_keypair a b).
Proof. intros Ha Hb. unfold ensure_client_keypair. repeat preserves_step. Qed.

(** The client key pair is created once: whatever key a successful call
    returned, the next call returns the same one and changes nothing, so the
    key a sandbox was started with keeps opening it. *)
Theorem client_key_stable a b w key w'
    (Hread : ∀ n k, random n = Ok k → from_openssh (private_openssh k) = Ok k) (Hab : a ≠ b)
    (H : ensure_client_keypair a b w = (Ok key, w')) :
  ensure_client_keypair a b w' = (Ok key, w').
Proof.
  unfold ensure_client_keypair in H. apply bind_ok_inv in H as (f & w1 & Hf & H). injection Hf as <- <-.
  destruct (w_fs w !! a) as [contents|] eqn:Ea.
  - apply lift_ok_inv in H as [H ->]. unfold ensure_client_keypair, mbind, M_bind, get_fs. by rewrite Ea, H.
  - apply bind_ok_inv in H as (? & w2 & Hc & H). apply lift_ok_inv in Hc as [_ ->].
    apply bind_ok_inv in H as (? & w0 & _ & H). apply bind_ok_inv in H as (k & w3 & Hk & H).
    apply bind_ok_inv in H as ([] & w4 & Hp & H). apply bind_ok_inv in H as ([] & w5 & Hq & H).
    injection H as <- <-. unfold write_key in Hp.
    apply bind_ok_inv in Hp as (? & w6 & Hw & Hm). apply lift_ok_inv in Hw as [_ ->]. injection Hm as <-.
    pose proof (preserves_key a b (public_openssh k) Hab
      {| w_fs := <[a := private_openssh k]> (w_fs w3); w_time := w_time w3; w_events := w_events w3 |}) as Hfr.
    rewrite Hq in Hfr. simpl in Hfr. rewrite lookup_insert_eq in Hfr.
    unfold fresh_key in Hk. injection Hk as Hk _. destruct (random _) as [k'|] eqn:Er; [|done]. injection Hk as ->.
    unfold ensure_client_keypair, mbind, M_bind, get_fs. rewrite Hfr. unfold lift. by rewrite (Hread _ _ Er).
Qed.
End keys.

Definition sample_key (s : str) : PrivateKey := {| private_openssh := s; public_openssh := "pub " ++ s |}.

Lemma client_key_stable_witness :
  ∃ key w', ensure_client_keypair (λ n, Ok (sample_key (show_nat n))) (λ s, Ok (sample_key s)) (λ _, Ok tt) (λ _, Ok tt)
      "k" "k.pub" w' = (Ok key, w') ∧ w_fs w' !! ("k" : str) = Some ("3" : str).
Proof.
  set (run := ensure_client_keypair (λ n, Ok (sample_key (show_nat n))) (λ s, Ok (sample_key s)) (λ _, Ok tt) (λ _, Ok tt) "k" "k.pub").
  eexists _, _. split.
  - refine (client_key_stable (λ n, Ok (sample_key (show_nat n))) (λ s, Ok (sample_key s)) (λ _, Ok tt) (λ _, Ok tt) "k" "k.pub"
      {| w_fs := ∅; w_time := 3; w_events := [] |} _ _ _ _ _).
    + intros n k Hk. apply ok_inj in Hk as <-. reflexivity.
    + discriminate.
    + reflexivity.
  - reflexivity.
Defined.
