(* ===== verification/Terminate.v ===== *)
(** * Taking a sandbox down ([src/lifecycle/terminate.rs])

    [down] and [rm], as computations over the [World]. *)

From S2P Require Import Prelude Slug Paths State Services Flox World.

#[local] Set Default Proof Using "Type".

Inductive TerminateError := TermState (e : state_error).

Section terminate.
Context (linux : bool) (view : nat → ProcView) (polls : nat).
(** [HOME], taking the lock, parsing metadata, and the error of a failing
    [remove_dir_all] that is not [NotFound]. *)
Context (home : option str) (acquire_lock : str → result state_error unit)
        (from_str : str → result str Meta) (remove_error : str → option state_error).

Definition terminate {E : Type} (path : str) : M E unit :=
  λ w, let '(kills, t) := terminate_and_wait linux view polls (w_fs w) path (w_time w) in
       (Ok tt, {| w_fs := w_fs w; w_time := t; w_events := w_events w ++ (EvKill <$> kills) |}).

Definition stop_if_running {E : Type} (p : StatePaths) : M E unit :=
  _ ← terminate (pidfile p);
  terminate (proxy_pidfile p).

Definition down_at (p : StatePaths) : M TerminateError unit :=
  _ ← lift (map_err TermState (acquire_lock (lifecycle_lock p)));
  _ ← stop_if_running p;
  modify_fs (clear_runtime_state p).

Definition down (sandbox_name : str) : M TerminateError unit :=
  p ← lift (map_err TermState (state_paths home sandbox_name));
  down_at p.

Definition remove_dir_all (p : str) : M TerminateError unit :=
  match remove_error p with
  | Some e => lift (Err (TermState e))
  | None => modify_fs (remove_dir p)
  end.

Definition rm_at (p : StatePaths) : M TerminateError unit :=
  _ ← lift (map_err TermState (acquire_lock (lifecycle_lock p)));
  _ ← stop_if_running p;
  remove_dir_all (root p).

(** The recorded project root, if the metadata reads. *)
Definition recorded_project (f : fs) (p : StatePaths) : option str :=
  match read_meta from_str f (meta p) with Ok (Some m) => Some (project_root m) | _ => None end.

(** Derived environments go when nothing else shares the artifact directory. *)
Definition remove_derived (shared : str) (f : fs) : fs :=
  let remaining := read_dir shared f in
  if forallb (starts_with DERIVED_ENV_PREFIX) remaining
  then foldr (λ name, remove_dir (path_join shared name)) f remaining
  else f.

Definition rm (sandbox_name : str) : M TerminateError unit :=
  p ← lift (map_err TermState (state_paths home sandbox_name));
  f ← get_fs;
  let project_root := recorded_project f p in
  _ ← rm_at p;
  match project_root with
  | None => mret tt
  | Some root =>
      _ ← remove_dir_all (artifact_dir root sandbox_name);
      modify_fs (remove_derived (path_join root ARTIFACT_DIR))
  end.

(** ** Lemmas *)

Lemma lookup_remove_derived shared f x :
  remove_derived shared f !! x = f !! x ∨
  (∃ name, name ∈ read_dir shared f ∧ is_within x (path_join shared name) = true) ∧
  (∀ name, name ∈ read_dir shared f → starts_with DERIVED_ENV_PREFIX name = true) ∧ remove_derived shared f !! x = None.
Proof.
  unfold remove_derived. destruct (forallb _ _) eqn:Ed; [|by left].
  rewrite forallb_elem in Ed. generalize dependent (read_dir shared f). intros names Hd.
  assert (foldr (λ name, remove_dir (path_join shared name)) f names !! x =
    if existsb (λ name, is_within x (path_join shared name)) names then None else f !! x) as ->.
  { clear Hd. induction names as [|n names IH]; [done|]. simpl. rewrite lookup_remove_dir, IH.
    by destruct (is_within x (path_join shared n)), (existsb _ names). }
  destruct (existsb _ names) eqn:Ex; [|by left]. right. by apply existsb_elem in Ex.
Qed.

(** How the process recorded in a pidfile is stopped between two moments.  If
    it is the recorded one when looked at, it is sent SIGTERM at once, and then
    either it is seen gone, or it is seen alive at every look of the grace
    period and sent SIGKILL directly after the last; else nothing is sent. *)
Definition stopped (f : fs) (path : str) (t : nat) (kills : list Kill) (t' : nat) : Prop :=
  t ≤ t' ∧
  match read_pidfile f path with
  | Ok (Some (pid, start)) =>
      let alive k := is_same_process linux (view k) pid start in
      let term := {| kill_pid := pid; kill_sig := SIGTERM; kill_at := S t |} in
      if alive t
      then (kills = [term] ∧ ∃ k, t < k < t' ∧ alive k = false) ∨
           ∃ k, kills = [term; {| kill_pid := pid; kill_sig := SIGKILL; kill_at := S k |}] ∧
             k = S t + polls ∧ ∀ i, t ≤ i ≤ k → alive i = true
      else kills = []
  | _ => kills = []
  end.

Lemma poll_gone_seen pid start n t t' :
  poll_gone linux view pid start n t = (t', true) → ∃ k, t ≤ k < t' ∧ is_same_process linux (view k) pid start = false.
Proof.
  revert t. induction n as [|n IH]; intros t; simpl; [done|].
  destruct (is_same_process linux (view t) pid start) eqn:E; simpl.
  - intros (k & Hk & Hg)%IH. exists k. split; [lia|done].
  - intros [= <-]. exists t. split; [lia|done].
Qed.

Lemma terminate_stopped {E : Type} path w :
  let '(r, w') := @terminate E path w in
  r = Ok tt ∧ w_fs w' = w_fs w ∧ ∃ kills, w_events w' = w_events w ++ (EvKill <$> kills) ∧
    stopped (w_fs w) path (w_time w) kills (w_time w').
Proof.
  unfold terminate. destruct (terminate_and_wait _ _ _ _ _ _) as [kills t'] eqn:Et.
  split; [done|]. split; [done|]. exists kills. split; [done|]. revert Et. unfold terminate_and_wait, stopped. cbn [w_time].
  destruct (read_pidfile (w_fs w) path) as [[[pid start]|]|e]; [|intros [= <- <-]; by split; [lia|]..].
  destruct (is_same_process linux (view (w_time w)) pid start) eqn:E0; cbn [negb]; [|intros [= <- <-]; by split; [lia|]].
  unfold terminate_and_wait_pid. pose proof (poll_gone_spec linux view pid start polls (S (w_time w))) as Hp.
  destruct (poll_gone _ _ _ _ _ _) as [t1 gone] eqn:Eg. destruct Hp as [Ht Hn]. destruct gone.
  - intros [= <- <-]. apply poll_gone_seen in Eg as (k & Hk & Hg). split; [lia|]. left. split; [done|]. exists k. split; [lia|done].
  - destruct (Hn eq_refl) as [-> Hall].
    destruct (is_same_process linux (view (S (w_time w) + polls)) pid start) eqn:E1; intros [= <- <-]; (split; [lia|]).
    + right. exists (S (w_time w) + polls). split; [done|]. split; [done|]. intros i Hi.
      destruct (decide (i = w_time w)) as [->|]; [done|]. destruct (decide (i = S (w_time w) + polls)) as [->|]; [done|].
      apply Hall. lia.
    + left. split; [done|]. exists (S (w_time w) + polls). split; [lia|done].
Qed.

(** Both processes of a sandbox are stopped, the keeper first. *)
Definition both_stopped (p : StatePaths) (w w' : World) : Prop :=
  ∃ k1 k2 t, w_events w' = w_events w ++ (EvKill <$> k1 ++ k2) ∧
    stopped (w_fs w) (pidfile p) (w_time w) k1 t ∧ stopped (w_fs w) (proxy_pidfile p) t k2 (w_time w').

Lemma stop_if_running_spec {E : Type} p w :
  let '(r, w') := @stop_if_running E p w in r = Ok tt ∧ w_fs w' = w_fs w ∧ both_stopped p w w'.
Proof.
  unfold stop_if_running, mbind, M_bind.
  pose proof (@terminate_stopped E (pidfile p) w) as H1. destruct (terminate (pidfile p) w) as [r1 w1].
  destruct H1 as (-> & Hf1 & k1 & He1 & Hk1).
  pose proof (@terminate_stopped E (proxy_pidfile p) w1) as H2. destruct (terminate (proxy_pidfile p) w1) as [r2 w2].
  destruct H2 as (-> & Hf2 & k2 & He2 & Hk2). rewrite Hf1 in *.
  split; [done|]. split; [done|]. exists k1, k2, (w_time w1). by rewrite fmap_app, app_assoc, <- He1.
Qed.

(** [down], whatever its result. *)
Lemma down_result name w :
  let '(r, w') := down name w in
  (w' = w ∧ is_ok r = false) ∨
  r = Ok tt ∧ ∃ p, state_paths home name = Ok p ∧ both_stopped p w w' ∧ w_fs w' = clear_runtime_state p (w_fs w).
Proof.
  unfold down, down_at, mbind, M_bind, lift.
  destruct (state_paths home name) as [p|]; [|by left]. simpl. destruct (acquire_lock _) as [[]|]; [|by left]. simpl.
  pose proof (@stop_if_running_spec TerminateError p w) as Hs. destruct (stop_if_running p w) as [r w1].
  destruct Hs as (-> & Hf & Hs). unfold modify_fs. right. split; [done|]. exists p. cbn. by rewrite Hf.
Qed.


(** C33: [rm] stops the sandbox as [down] does and then removes all that is its
    own: afterwards nothing is left of its state directory nor, if the recorded
    metadata reads, of its artifact directory in the recorded project.  Every
    other file is as it was, with one exception: once only derived environments
    are left in that project's shared directory they are deleted, although any
    sandbox of the project may be using them. *)
Theorem rm_confined name w w'
    (H : rm name w = (Ok tt, w')) :
  ∃ p, state_paths home name = Ok p ∧ both_stopped p w w' ∧
    (∀ x, is_within x (root p) = true → w_fs w' !! x = None) ∧
    (∀ proj x, recorded_project (w_fs w) p = Some proj → is_within x (artifact_dir proj name) = true → w_fs w' !! x = None) ∧
    ∀ x, is_within x (root p) = false →
      (∀ proj, recorded_project (w_fs w) p = Some proj → is_within x (artifact_dir proj name) = false) →
      w_fs w' !! x = w_fs w !! x ∨
      w_fs w' !! x = None ∧ ∃ proj derived, recorded_project (w_fs w) p = Some proj ∧
        is_within x (path_join (path_join proj ARTIFACT_DIR) derived) = true ∧
        derived ∈ read_dir (path_join proj ARTIFACT_DIR) (remove_dir (artifact_dir proj name) (remove_dir (root p) (w_fs w))) ∧
        ∀ n, n ∈ read_dir (path_join proj ARTIFACT_DIR) (remove_dir (artifact_dir proj name) (remove_dir (root p) (w_fs w))) →
          starts_with DERIVED_ENV_PREFIX n = true.
Proof.
  unfold rm, rm_at, remove_dir_all, mbind, M_bind, lift, get_fs in H.
  destruct (state_paths home name) as [p|]; [|done]. simpl in H. exists p. split; [done|].
  destruct (acquire_lock _) as [[]|]; [|done]. simpl in H.
  pose proof (@stop_if_running_spec TerminateError p w) as Hs. destruct (stop_if_running p w) as [r w1].
  destruct Hs as (-> & Hf & Hs). destruct (remove_error (root p)); [done|].
  unfold modify_fs in H. simpl in H. rewrite Hf in H.
  destruct (recorded_project (w_fs w) p) as [proj|].
  - destruct (remove_error (artifact_dir proj name)); [done|]. injection H as <-. split; [done|]. cbn [w_fs].
    set (g := remove_dir (artifact_dir proj name) (remove_dir (root p) (w_fs w))).
    assert (∀ x, g !! x = if is_within x (artifact_dir proj name) then None
      else if is_within x (root p) then None else w_fs w !! x) as Hg.
    { intros x. unfold g. by rewrite !lookup_remove_dir. }
    pose proof (lookup_remove_derived (path_join proj ARTIFACT_DIR) g) as Hd. split; [|split].
    + intros x Hx. destruct (Hd x) as [->|(_ & _ & ->)]; [|done]. rewrite Hg, Hx. by destruct (is_within x (artifact_dir proj name)).
    + intros ? x [= <-] Hx. destruct (Hd x) as [->|(_ & _ & ->)]; [|done]. by rewrite Hg, Hx.
    + intros x Hr Ha. destruct (Hd x) as [->|((n & Hn & Hw) & Hall & ->)]; [left; by rewrite Hg, Hr, (Ha proj)|].
      right. split; [done|]. by exists proj, n.
  - injection H as <-. split; [done|]. cbn [w_fs]. split; [|split; [done|]]; intros x Hx; rewrite lookup_remove_dir, Hx; by auto.
Qed.
End terminate.

(** ** A concrete sandbox *)

Definition sample_world : World :=
  {| w_fs := {[ ("/h/.local/share/devcroft/web/keeper.pid" : str) := ("42 777" : str);
                ("/h/.local/share/devcroft/web/keeper.log" : str) := ("log" : str) ]};
     w_time := 0; w_events := [] |}.


Lemma rm_confined_witness :
  ∃ w' p, rm true (λ _, sample_view) 2 (Some ("/h" : str)) (λ _, Ok tt) (λ _, Err ([] : str)) (λ _, None) "web" sample_world
      = (Ok tt, w') ∧ ∀ x, is_within x (root p) = true → w_fs w' !! x = None.
Proof.
  destruct (rm true (λ _, sample_view) 2 (Some ("/h" : str)) (λ _, Ok tt) (λ _, Err ([] : str)) (λ _, None) "web" sample_world)
    as [r w'] eqn:E.
  assert (r = Ok tt) as ->.
  { apply (f_equal fst) in E. vm_compute in E. by rewrite <- E. }
  destruct (rm_confined true (λ _, sample_view) 2 (Some ("/h" : str)) (λ _, Ok tt) (λ _, Err ([] : str)) (λ _, None) "web"
    sample_world w' E) as (p & _ & _ & H1 & _).
  exists w', p. split; [reflexivity|exact H1].
Defined.
