(* ===== verification/Up.v ===== *)
(** * Bringing a sandbox up ([src/lifecycle/up.rs], [src/proxy/mod.rs])

    The whole [up] sequence over the [World]: the outcome decision, provider
    resolution, the egress proxy, the metadata, the enforcement check, the
    sockets and keys, services, the keeper's environment and start, hooks.
    What the operating system and the other processes answer is the [Host]
    interface; the providers are the [Provider] interface of the source. *)

From S2P Require Import Prelude Paths ProviderKind Manifest Validate Policy Capability Protocol Slug.
From S2P Require Import State Services Hooks Capture Flox Shell World Terminate SshKeys.

#[local] Set Default Proof Using "Type".

(** ** Data *)

Inductive UpOutcome := AlreadyUp | Recovered | Started | Recreated.
#[export] Instance UpOutcome_dec : EqDecision UpOutcome.
Proof. solve_decision. Defined.

Record UpOptions := { recreate : bool; skip_hooks : bool }.

(** The errors; a message that only renders another error is that error. *)
Inductive KeeperFailure :=
| ProxyStart (e : state_error) | SpawnFailed (e : state_error) | Unresponsive | HookFailed (e : HookError).
Inductive UpError :=
| UpState (e : state_error)
| UpPolicy (e : CapabilitySetError)
| UpConfig (msg : str)
| UpProvider (e : ProviderError)
| UpBackend (msg : str)
| UpKeeper (e : KeeperFailure)
| UpSsh (e : KeyError).

(** The [Provider] trait, dispatched on the kind: [resolve] may write derived
    files; [manifest_fingerprint]; and the services flox declares. *)
Class Provider := {
  pr_resolve : ProviderKind → str → fs → result ProviderError Resolution * fs;
  pr_fingerprint : ProviderKind → str → fs → result ProviderError str;
  pr_flox_services : str → fs → list str;
}.

(** What [up] asks of its host.  Questions whose answer can change are asked at
    a moment ([nat]). *)
Class Host := {
  h_os : Os;
  h_view : nat → ProcView;
  h_accepts : nat → str → bool;
  h_polls : nat;
  h_home : option str;
  h_lock : str → result state_error unit;
  h_canonicalize : str → result str str;
  h_exists : str → bool;
  h_is_dir : str → bool;
  h_is_file : str → bool;
  h_is_executable : str → bool;
  h_requisites : str → option str;
  h_create_dir : str → result state_error unit;
  h_write : str → result state_error unit;
  h_bind : str → result state_error unit;
  h_keeper_exe : result state_error str;
  h_netns_probe : result str bool;
  h_tcp_port : nat → result state_error N;
  h_random_token : nat → list N;
  h_start_proxy : nat → result state_error Z;
  h_start_keeper : KeeperLaunch → result state_error Z;
  h_random_key : nat → result str PrivateKey;
  h_hook : nat → SpawnRequest → HookAttempt;
}.

(** [serde_json] and the OpenSSH key reader. *)
Class Codec := {
  meta_to_json : Meta → result str str;
  meta_of_json : str → result str Meta;
  plan_to_json : CapabilityPlan → str;
  plan_to_json_pretty : CapabilityPlan → str;
  json_to_string_pretty : json → str;
  key_of_openssh : str → result str PrivateKey;
}.

Definition RESOLVED_BACKEND : str := "process".

Section up.
Context `{Host} `{Provider} `{Codec}.

Definition is_linux : bool := match h_os with Linux => true | Macos => false end.

(** Errors of [std::io] and of the state module become layer [state]. *)
Definition io {A : Type} (r : result state_error A) : M UpError A := lift (map_err UpState r).

Definition observe {E : Type} : M E ProcView :=
  λ w, (Ok (h_view (w_time w)), {| w_fs := w_fs w; w_time := S (w_time w); w_events := w_events w |}).

Definition up_terminate (path : str) : M UpError unit := terminate is_linux h_view h_polls path.

(** [state::health], at this moment. *)
Definition check_health (p : StatePaths) : M UpError Health :=
  λ w, (map_err UpState (health is_linux (h_view (w_time w)) (h_accepts (w_time w)) (w_fs w) p),
        {| w_fs := w_fs w; w_time := S (w_time w); w_events := w_events w |}).

Definition at_state {A : Type} (m : M state_error A) : M UpError A := map_error UpState m.

Definition do_write_pidfile (path : str) (pid : Z) : M UpError unit :=
  v ← observe;
  f ← get_fs;
  f ← io (write_pidfile is_linux v f path pid);
  modify_fs (λ _, f).

Definition write_file (path contents : str) : M state_error unit :=
  _ ← lift (h_write path); modify_fs <[path := contents]>.

(** Removing a stale socket, binding, and restricting it to its owner. *)
Definition bind_socket (path : str) : M state_error unit :=
  _ ← modify_fs (delete path);
  _ ← lift (h_bind path);
  modify_fs <[path := []]>.

(** ** The egress proxy ([src/proxy/mod.rs]) *)

Definition hex_byte (b : N) : str := [hex_digit (b / 16); hex_digit (b mod 16)].

Definition generate_token (bytes : list N) : str := mjoin (hex_byte <$> bytes).

Definition proxy_spawn (p : StatePaths) (allow : list str) : M state_error (Z * N * str) :=
  w ← get_world;
  port ← lift (h_tcp_port (w_time w));
  let token := generate_token (h_random_token (w_time w)) in
  _ ← bind_socket (proxy_socket p);
  _ ← write_file (proxy_log p) [];
  pid ← lift (h_start_proxy (w_time w));
  _ ← emit [EvProxy allow pid port token];
  mret (pid, port, token).

(** The recorded proxy, when it still runs and its port and token are known. *)
Definition live_proxy (p : StatePaths) : M UpError (option (N * str)) :=
  f ← get_fs;
  entry ← io (read_pidfile f (proxy_pidfile p));
  match entry with
  | None => mret None
  | Some (pid, start_time) =>
      v ← observe;
      if negb (is_same_process is_linux v pid start_time) then mret None
      else
        m ← io (read_meta meta_of_json f (meta p));
        mret (m ← m; port ← proxy_port m; token ← proxy_token m; Some (port, token))
  end.

Definition ensure_egress_proxy (p : StatePaths) (allow : list str) : M UpError (N * str) :=
  live ← live_proxy p;
  match live with
  | Some found => mret found
  | None =>
      _ ← io h_keeper_exe;
      '(pid, port, token) ← map_error (λ e, UpKeeper (ProxyStart e)) (proxy_spawn p allow);
      _ ← do_write_pidfile (proxy_pidfile p) pid;
      mret (port, token)
  end.

Definition stop_orphaned_egress_proxy (p : StatePaths) : M UpError unit :=
  _ ← up_terminate (proxy_pidfile p);
  modify_fs (delete (proxy_pidfile p)).

(** ** The outcome *)

(** The head of [up]: [None] is the early return [AlreadyUp]. *)
Definition up_outcome (opts : UpOptions) (p : StatePaths) : M UpError (option UpOutcome) :=
  if recreate opts then
    _ ← up_terminate (pidfile p);
    _ ← up_terminate (proxy_pidfile p);
    _ ← modify_fs (clear_runtime_state p);
    mret (Some Recreated)
  else
    h ← check_health p;
    match h with
    | Healthy _ => mret None
    | Stale _ => _ ← modify_fs (clear_runtime_state p); mret (Some Recovered)
    | HealthNone => mret (Some Started)
    end.

(** ** Services *)

Definition ensure_no_services_declared_for_another_provider (project_root : str) (opts : UpOptions) : M UpError unit :=
  if skip_hooks opts then mret tt
  else
    f ← get_fs;
    let declared := pr_flox_services project_root f in
    if bool_decide (declared = []) then mret tt
    else lift (Err (UpProvider (ResolutionFailed
      ("this project's flox environment declares " ++ show_nat (length declared) ++ " service(s) (" ++ join ", " declared ++ ")")))).

Definition prepare_services (project_root sandbox_name : str) (res : Resolution) (shell : str) (opts : UpOptions) : M UpError bool :=
  _ ← match res_services res with
      | Unsupported => ensure_no_services_declared_for_another_provider project_root opts
      | Declared _ => mret tt
      end;
  let services := declared (res_services res) in
  if skip_hooks opts || bool_decide (services = []) then mret false
  else
    let socket_len := length (socket_path project_root sandbox_name) in
    if MAX_SOCKET_PATH <? socket_len
    then lift (Err (UpConfig ("the service supervisor's socket path is " ++ show_nat socket_len ++ " bytes")))
    else
      match Services.resolve_in_env h_is_file (res_env res) with
      | None => lift (Err (UpProvider (ResolutionFailed (show_nat (length services) ++ " service(s) are declared but `process-compose` is not in the resolved environment"))))
      | Some _ =>
          _ ← io (h_create_dir (artifact_dir project_root sandbox_name));
          _ ← at_state $ write_file (config_path project_root sandbox_name) (json_to_string_pretty (render_doc services shell));
          mret true
      end.

(** ** The keeper's environment and start *)

Definition PROXY_KEYS : list str := strs ["HTTP_PROXY"; "http_proxy"; "HTTPS_PROXY"; "https_proxy"].
Definition NO_PROXY_KEYS : list str := strs ["NO_PROXY"; "no_proxy"].

Definition set_all (keys : list str) (value : str) (env : gmap str str) : gmap str str :=
  foldl (λ env key, <[key := value]> env) env keys.

(** The variables: resolved, overridden by the manifest's, then the proxy's. *)
Definition keeper_env (m : Manifest) (res : Resolution) (proxy : option (N * str)) : gmap str str :=
  let env := vars (m_env m) ∪ res_env res in
  match proxy with
  | None => env
  | Some (port, token) =>
      let endpoint := "http://" ++ token ++ "@127.0.0.1:" ++ show_N port in
      set_all NO_PROXY_KEYS "localhost,127.0.0.1,::1" (set_all PROXY_KEYS endpoint env)
  end.

Definition keeper_unset (m : Manifest) (res : Resolution) : list str :=
  List.filter (λ key, negb (bool_decide (is_Some (vars (m_env m) !! key)))) (res_unset res).

(** [Command]'s accumulated changes to the inherited environment. *)
Definition command_env (env : gmap str str) (unset : list str) (own : list (str * str)) : gmap str (option str) :=
  let e := Some <$> env in
  let e := foldl (λ e key, <[key := None]> e) e unset in
  foldl (λ e '(key, value), <[key := Some value]> e) e own.

Definition devcroft_env (plan : CapabilityPlan) (host_key authorized_key shell project_root : str)
    (services : option str) (relay : option (N * str)) : list (str * str) :=
  [("DEVCROFT_CAPABILITY_PLAN" : str, plan_to_json plan);
   ("DEVCROFT_SSH_HOST_KEY" : str, host_key);
   ("DEVCROFT_SSH_AUTHORIZED_KEY" : str, authorized_key);
   ("DEVCROFT_SHELL" : str, shell);
   ("DEVCROFT_START_SERVICES" : str, match services with Some _ => "1" : str | None => "0" : str end);
   ("DEVCROFT_SANDBOX_NAME" : str, default ("" : str) services);
   ("DEVCROFT_SERVICES_ROOT" : str, project_root)]
  ++ match relay with
     | Some (port, sock) => [("DEVCROFT_PROXY_RELAY_PORT" : str, show_N port); ("DEVCROFT_PROXY_SOCKET" : str, sock)]
     | None => []
     end.

Definition spawn_keeper (p : StatePaths) (launch : KeeperLaunch) : M UpError Z :=
  map_error (λ e, UpKeeper (SpawnFailed e))
    (_ ← write_file (log p) [];
     pid ← lift (h_start_keeper launch);
     _ ← emit [EvKeeper pid launch];
     mret pid).

(** [polls] tries fit before [KEEPER_START_TIMEOUT]. *)
Fixpoint wait_until_responsive (polls : nat) (p : StatePaths) : M UpError unit :=
  match polls with
  | 0 => lift (Err (UpKeeper Unresponsive))
  | S polls =>
      w ← get_world;
      _ ← observe;
      if h_accepts (w_time w) (socket p) then mret tt else wait_until_responsive polls p
  end.

(** The activation script, then the hooks, all as sessions of the keeper. *)
Definition run_hooks (m : Manifest) (project_root : str) (script : option str) (run_post_create : bool) (st : HookState)
  : result HookError unit * HookState :=
  match (match script with Some s => run_activation_script h_hook project_root s st | None => (Ok tt, st) end) with
  | (Err e, st) => (Err e, st)
  | (Ok _, st) => Hooks.run h_hook project_root (m_hooks m) run_post_create st
  end.

Definition hooks_phase (p : StatePaths) (m : Manifest) (project_root : str) (res : Resolution) (outcome : UpOutcome) : M UpError unit :=
  w ← get_world;
  let run_post_create := bool_decide (outcome = Started) || bool_decide (outcome = Recreated) in
  let '(r, st) := run_hooks m project_root (res_activation_script res) run_post_create
                    {| hs_runs := []; hs_log := default [] (w_fs w !! log p) |} in
  _ ← emit ((λ '(name, cmd), EvHook name cmd) <$> hs_runs st);
  _ ← modify_fs <[log p := hs_log st]>;
  lift (map_err (λ e, UpKeeper (HookFailed e)) r).

(** ** [up] *)

Definition provider_resolve (kind : ProviderKind) (project_root : str) : M UpError Resolution :=
  λ w, let '(r, f) := pr_resolve kind project_root (w_fs w) in
       (map_err UpProvider r, {| w_fs := f; w_time := w_time w; w_events := w_events w |}).

(** The metadata write, at its last state. *)
Definition do_write_meta (path : str) (m : Meta) : M UpError unit :=
  f ← get_fs;
  states ← io (write_meta meta_to_json f path m);
  modify_fs (λ f, default f (last states)).

Definition resolve_shell (env : gmap str str) : option ResolvedShell :=
  Shell.resolve h_is_executable (λ p, match h_canonicalize p with Ok q => Some q | Err _ => None end) h_requisites env.

(** The provider's grants and the shell's store path. *)
Definition provider_grants (res : Resolution) (shell : ResolvedShell) : list str :=
  match shell_grant shell with
  | Some g => if bool_decide (g ∈ res_read_only_grants res) then res_read_only_grants res else res_read_only_grants res ++ [g]
  | None => res_read_only_grants res
  end.

(** The policy the keeper is confined to. *)
Definition compiled_policy (m : Manifest) (kind : ProviderKind) (exe_dir : str) (grants : list str) (proxy : option (N * str))
    (socket : option str) : CompiledPolicy :=
  let compiled := with_provider_grants (static_name kind) grants (with_keeper_exe_grant exe_dir (compile h_os m)) in
  let compiled := match proxy with Some (port, _) => with_proxy_port port compiled | None => compiled end in
  match socket with Some s => with_services_socket_grant (static_name kind) s compiled | None => compiled end.

Definition isolate_network (compiled : CompiledPolicy) (services : bool) (proxy : option (N * str)) : bool :=
  wants_network_isolation compiled services
  && match proxy with Some (port, _) => negb (proxy_port_collides_with_declared_ports compiled port) | None => true end
  && match h_netns_probe with Ok b => b | Err _ => false end.

(** The keeper is started, recorded and waited for. *)
Definition start_keeper (p : StatePaths) (launch : KeeperLaunch) : M UpError unit :=
  pid ← spawn_keeper p launch;
  _ ← do_write_pidfile (pidfile p) pid;
  wait_until_responsive h_polls p.

(** The lines about it: why a sandbox that should be isolated is not, or where its
    declared ports are when it is.  (The first text is one literal of the source,
    runs of blanks included.) *)
Definition GAP : str := replicate 22 " "%char.
Definition isolation_skipped (port : N) : str :=
  "devcroft: warning: network isolation is skipped for this sandbox:" ++ GAP ++ "the egress proxy was assigned port " ++ show_N port
  ++ ", which this manifest also" ++ GAP ++ "declares in `network.ports` (fallback: shared host port table;" ++ GAP
  ++ "re-run `up` to draw a different proxy port)".
Definition ISOLATION_DEGRADED : str :=
  "devcroft: warning: network isolation is degraded on this host: unprivileged network namespaces are unavailable (fallback: this sandbox's ports share the host's port table, and another sandbox binding the same port will collide)".
Definition ports_note (ports : list N) (name : str) : str :=
  "devcroft: note: this sandbox has its own network namespace, so its declared port(s) " ++ join ", " (show_N <$> ports)
  ++ " are reachable from inside it and through `ssh -L <local>:127.0.0.1:<port> " ++ name
  ++ ".devcroft`, but not directly on the host's own loopback".

Definition isolation_notes (name : str) (compiled : CompiledPolicy) (services : bool) (proxy : option (N * str)) : list str :=
  let declared := ap_value <$> network_ports compiled in
  if negb (wants_network_isolation compiled services) then []
  else
    match proxy with
    | Some (port, _) =>
        if proxy_port_collides_with_declared_ports compiled port then [isolation_skipped port]
        else if isolate_network compiled services proxy then (if bool_decide (declared = []) then [] else [ports_note declared name])
        else [ISOLATION_DEGRADED]
    | None =>
        if isolate_network compiled services proxy then (if bool_decide (declared = []) then [] else [ports_note declared name])
        else [ISOLATION_DEGRADED]
    end.

Section up_process.
Context {caps : Type} `{CapBuilder caps}.

(** Building the capability set: only whether it can be built matters here. *)
Definition check_enforceable (plan : CapabilityPlan) (project_root : str) : result UpError caps :=
  map_err UpPolicy (to_capability_set (default [] h_home) h_exists h_is_dir h_canonicalize plan project_root).

Definition create_parent (path : str) : result state_error unit :=
  match path_parent path with Some dir => h_create_dir dir | None => Ok tt end.

Definition services_socket (m : Manifest) (project_root : str) (opts : UpOptions) (res : Resolution) : option str :=
  if skip_hooks opts || bool_decide (declared (res_services res) = []) then None
  else Some (socket_path project_root (sandbox_name (m_sandbox m))).

Definition up_process (m : Manifest) (project_root : str) (p : StatePaths) (opts : UpOptions) (outcome : UpOutcome)
    (res : Resolution) (shell : ResolvedShell) (grants : list str) (proxy : option (N * str)) : M UpError UpOutcome :=
  let name := sandbox_name (m_sandbox m) in
  exe ← io h_keeper_exe;
  exe_dir ← io (ok_or (IoFailure "devcroft executable path has no parent directory") (path_parent exe));
  kind ← lift (map_err UpProvider (from_name (provider (m_env m))));
  let socket_grant := services_socket m project_root opts res in
  _ ← match socket_grant with Some _ => io (h_create_dir (artifact_dir project_root name)) | None => mret tt end;
  let compiled := compiled_policy m kind exe_dir grants proxy socket_grant in
  let plan := to_capability_plan compiled in
  _ ← lift (check_enforceable plan project_root);
  _ ← at_state $ write_file (profile p) (plan_to_json_pretty plan);
  _ ← at_state $ bind_socket (socket p);
  _ ← at_state $ bind_socket (ssh_socket p);
  '(private_path, public_path) ← io (client_key_paths h_home);
  client_key ← map_error UpSsh (ensure_client_keypair h_random_key key_of_openssh create_parent h_write private_path public_path);
  host_key ← map_error UpSsh (generate_host_key h_random_key h_write (ssh_host_key p));
  started ← prepare_services project_root name res (shell_path shell) opts;
  let services := if started : bool then Some name else None in
  let isolate := isolate_network compiled started proxy in
  _ ← emit (EvNote <$> isolation_notes name compiled started proxy);
  let relay := if isolate : bool then (λ '(port, _), (port, proxy_socket p)) <$> proxy else None in
  let launch := {|
    kl_exe := exe; kl_cwd := project_root;
    kl_env := command_env (keeper_env m res proxy) (keeper_unset m res)
                (devcroft_env plan (private_openssh host_key) (public_openssh client_key) (shell_path shell) project_root services relay);
    kl_isolate := isolate |} in
  _ ← start_keeper p launch;
  _ ← (if skip_hooks opts then mret tt else hooks_phase p m project_root res outcome);
  mret outcome.

Definition new_meta (project_root fingerprint : str) (grants : list str) (res : Resolution) (shell : ResolvedShell)
    (proxy : option (N * str)) : Meta :=
  {| project_root := project_root; env_fingerprint := fingerprint; read_only_grants := grants;
     resolved_backend := RESOLVED_BACKEND; declared_services := svc_name <$> declared (res_services res);
     ran_activation_hook := res_ran_activation_hook res; State.shell := Some (shell_path shell);
     proxy_port := fst <$> proxy; proxy_token := snd <$> proxy |}.

(** [up] past the outcome. *)
Definition up_start (m : Manifest) (project_root : str) (p : StatePaths) (opts : UpOptions) (outcome : UpOutcome) : M UpError UpOutcome :=
  kind ← lift (map_err UpProvider (from_name (provider (m_env m))));
  res ← provider_resolve kind project_root;
  f ← get_fs;
  fingerprint ← lift (map_err UpProvider (pr_fingerprint kind project_root f));
  _ ← io (h_create_dir (root p));
  proxy ← (if wants_egress_proxy (compile h_os m)
           then found ← ensure_egress_proxy p (net_allow (m_network m)); mret (Some found)
           else _ ← stop_orphaned_egress_proxy p; mret None);
  shell ← lift (ok_or (UpProvider (ResolutionFailed "no POSIX shell found in this environment or its closure")) (resolve_shell (res_env res)));
  let grants := provider_grants res shell in
  _ ← do_write_meta (meta p) (new_meta project_root fingerprint grants res shell proxy);
  up_process m project_root p opts outcome res shell grants proxy.

Definition real_root (project_root : str) : str := match h_canonicalize project_root with Ok r => r | Err _ => project_root end.

Definition up (m : Manifest) (project_root : str) (opts : UpOptions) : M UpError UpOutcome :=
  let project_root := real_root project_root in
  p ← io (state_paths h_home (sandbox_name (m_sandbox m)));
  _ ← io (h_lock (lifecycle_lock p));
  outcome ← up_outcome opts p;
  match outcome with
  | None => mret AlreadyUp
  | Some outcome => up_start m project_root p opts outcome
  end.

(** ** Lemmas: what each step does to processes *)

Definition is_keeper (ev : event) : bool := match ev with EvKeeper _ _ => true | _ => false end.
Definition is_hook (ev : event) : bool := match ev with EvHook _ _ => true | _ => false end.
Definition is_kill (ev : event) : bool := match ev with EvKill _ => true | _ => false end.

(** Kills and proxy starts only. *)
Definition before_keeper (ev : event) : Prop := is_keeper ev = false ∧ is_hook ev = false.

Lemma before_note line : before_keeper (EvNote line).
Proof. done. Qed.
Lemma emits_notes {E : Type} (P : event → Prop) lines : (∀ line, P (EvNote line)) → emits P (emit (EvNote <$> lines) : M E unit).
Proof. intros HP. by apply emits_emit, Forall_fmap, Forall_true. Qed.
#[local] Hint Resolve before_note emits_notes : emits.

Lemma emits_observe {E : Type} P : emits P (observe : M E ProcView).
Proof. by apply emits_quiet. Qed.
Lemma emits_check_health P p : emits P (check_health p).
Proof. by apply emits_quiet. Qed.
Lemma emits_provider_resolve P kind root : emits P (provider_resolve kind root).
Proof. apply emits_quiet. intros w. unfold provider_resolve. by destruct (pr_resolve _ _ _). Qed.
Lemma emits_write_file P path contents : emits P (write_file path contents).
Proof. unfold write_file. repeat emits_step. Qed.
Lemma emits_bind_socket P path : emits P (bind_socket path).
Proof. unfold bind_socket. repeat emits_step. Qed.
#[local] Hint Resolve emits_observe emits_check_health emits_provider_resolve emits_write_file emits_bind_socket
  emits_client_key emits_host_key : emits.

Lemma emits_pidfile P path pid : emits P (do_write_pidfile path pid).
Proof. unfold do_write_pidfile, io. repeat emits_step. Qed.
Lemma emits_meta P path m : emits P (do_write_meta path m).
Proof. unfold do_write_meta, io. repeat emits_step. Qed.
Lemma emits_live_proxy P p : emits P (live_proxy p).
Proof. unfold live_proxy, io. repeat emits_step. Qed.
Lemma emits_wait P polls p : emits P (wait_until_responsive polls p).
Proof. induction polls; simpl; repeat emits_step. Qed.
Lemma emits_prepare_services P root name res shell opts : emits P (prepare_services root name res shell opts).
Proof. unfold prepare_services, ensure_no_services_declared_for_another_provider, io, at_state. repeat emits_step. Qed.
#[local] Hint Resolve emits_pidfile emits_meta emits_live_proxy emits_wait emits_prepare_services : emits.

Lemma emits_up_terminate P path : (∀ k, P (EvKill k)) → emits P (up_terminate path).
Proof.
  intros HP w. unfold up_terminate, terminate. destruct (terminate_and_wait _ _ _ _ _ _) as [kills t]. simpl.
  exists (EvKill <$> kills). split; [done|]. by apply Forall_fmap, Forall_true.
Qed.

Lemma emits_proxy (P : event → Prop) p allow :
  (∀ pid port token, P (EvProxy allow pid port token)) → emits P (ensure_egress_proxy p allow).
Proof.
  intros HP. unfold ensure_egress_proxy, proxy_spawn, io. repeat (emits_step || apply emits_map_error).
  apply emits_emit. by repeat constructor.
Qed.

Lemma emits_up_outcome P opts p : (∀ k, P (EvKill k)) → emits P (up_outcome opts p).
Proof. intros HP. unfold up_outcome. repeat (emits_step || (by apply emits_up_terminate)). Qed.

Lemma emits_stop_orphaned P p : (∀ k, P (EvKill k)) → emits P (stop_orphaned_egress_proxy p).
Proof. intros HP. unfold stop_orphaned_egress_proxy. repeat (emits_step || (by apply emits_up_terminate)). Qed.

Lemma emits_spawn_keeper (P : event → Prop) p launch : (∀ pid, P (EvKeeper pid launch)) → emits P (spawn_keeper p launch).
Proof.
  intros HP. unfold spawn_keeper. apply emits_map_error. repeat emits_step. apply emits_emit. by repeat constructor.
Qed.

Lemma emits_start_keeper (P : event → Prop) p launch : (∀ pid, P (EvKeeper pid launch)) → emits P (start_keeper p launch).
Proof. intros HP. unfold start_keeper. repeat (emits_step || (by apply emits_spawn_keeper)). Qed.

Lemma emits_hooks (P : event → Prop) p m root res o : (∀ name cmd, P (EvHook name cmd)) → emits P (hooks_phase p m root res o).
Proof.
  intros HP. unfold hooks_phase. repeat emits_step. apply emits_emit, Forall_fmap, Forall_true. intros []. apply HP.
Qed.

(** ** Lemmas: the keeper's environment *)

Lemma lookup_set_all keys value env k : set_all keys value env !! k = if decide (k ∈ keys) then Some value else env !! k.
Proof.
  unfold set_all. revert env. induction keys as [|key keys IH]; intros env; cbn [foldl]; [by rewrite decide_False by apply not_elem_of_nil|].
  rewrite IH. destruct (decide (k ∈ keys)); [by rewrite decide_True by (by right)|].
  destruct (decide (k = key)) as [->|Hne]; [by rewrite lookup_insert_eq, decide_True by left|].
  rewrite lookup_insert_ne by done. rewrite decide_False; [done|]. rewrite elem_of_cons. naive_solver.
Qed.

Lemma lookup_unset (e : gmap str (option str)) unset k :
  foldl (λ e key, <[key := None]> e) e unset !! k = if decide (k ∈ unset) then Some None else e !! k.
Proof.
  revert e. induction unset as [|key unset IH]; intros e; cbn [foldl]; [by rewrite decide_False by apply not_elem_of_nil|].
  rewrite IH. destruct (decide (k ∈ unset)); [by rewrite decide_True by (by right)|].
  destruct (decide (k = key)) as [->|Hne]; [by rewrite lookup_insert_eq, decide_True by left|].
  rewrite lookup_insert_ne by done. rewrite decide_False; [done|]. rewrite elem_of_cons. naive_solver.
Qed.

Lemma lookup_own_other (own : list (str * str)) (e : gmap str (option str)) (k : str) :
  k ∉ own.*1 → foldl (λ e '(key, value), <[key := Some value]> e) e own !! k = e !! k.
Proof.
  revert e. induction own as [|[key v] own IH]; intros e Hk; simpl in *; [done|].
  rewrite not_elem_of_cons in Hk. rewrite IH by naive_solver. by rewrite lookup_insert_ne by naive_solver.
Qed.

Lemma lookup_own (own : list (str * str)) (e : gmap str (option str)) (k v : str) :
  NoDup own.*1 → (k, v) ∈ own → foldl (λ e '(key, value), <[key := Some value]> e) e own !! k = Some (Some v).
Proof.
  revert e. induction own as [|[key v'] own IH]; intros e Hnd Hk; simpl in *; [by apply not_elem_of_nil in Hk|].
  apply NoDup_cons in Hnd as [Hn Hnd]. apply elem_of_cons in Hk as [[= -> ->]|Hk]; [|by apply IH].
  rewrite lookup_own_other by done. by rewrite lookup_insert_eq.
Qed.

Lemma devcroft_env_keys plan hk ak sh root services relay :
  NoDup (devcroft_env plan hk ak sh root services relay).*1.
Proof. destruct relay as [[]|]; apply (bool_decide_unpack _); by vm_compute. Qed.

(** What is folded into the compiled policy, in order. *)
Definition folds_of (kind : ProviderKind) (exe_dir : str) (grants : list str) (proxy : option (N * str)) (socket : option str)
  : list fold_in :=
  [KeeperExe exe_dir; ProviderGrants (static_name kind) grants]
  ++ match proxy with Some (port, _) => [ProxyPort port] | None => [] end
  ++ match socket with Some s => [ServicesSocket (static_name kind) s] | None => [] end.

Lemma compiled_policy_folds m kind exe_dir grants proxy socket :
  compiled_policy m kind exe_dir grants proxy socket = foldl apply_fold (compile h_os m) (folds_of kind exe_dir grants proxy socket).
Proof. unfold compiled_policy, folds_of. destruct proxy as [[]|], socket; reflexivity. Qed.

Lemma compiled_policy_network m kind exe_dir grants proxy socket :
  network_block (compiled_policy m kind exe_dir grants proxy socket) = network_block (compile h_os m) ∧
  network_proxy_port (compiled_policy m kind exe_dir grants proxy socket) = fst <$> proxy.
Proof. unfold compiled_policy. destruct proxy as [[]|], socket; done. Qed.

(** A keeper start that is confined as the manifest says. *)
Definition confined_launch (m : Manifest) (project_root : str) (l : KeeperLaunch) : Prop :=
  ∃ kind exe_dir grants proxy socket plan,
    from_name (provider (m_env m)) = Ok kind ∧ path_parent (kl_exe l) = Some exe_dir ∧
    plan = to_capability_plan (foldl apply_fold (compile h_os m) (folds_of kind exe_dir grants proxy socket)) ∧
    kl_cwd l = project_root ∧
    kl_env l !! ("DEVCROFT_CAPABILITY_PLAN" : str) = Some (Some (plan_to_json plan)) ∧
    is_ok (check_enforceable plan project_root) = true ∧
    (is_Some (plan_proxy_port plan) ↔ wants_egress_proxy (compile h_os m) = true) ∧
    (kl_isolate l = true → plan_block plan = true).

(** A keeper start as [up] builds it, in full. *)
Definition built_launch (m : Manifest) (project_root : str) (l : KeeperLaunch) : Prop :=
  ∃ p res shell grants proxy kind exe_dir socket cs host_key authorized_key services relay,
    let compiled := compiled_policy m kind exe_dir grants proxy socket in
    let plan := to_capability_plan compiled in
    from_name (provider (m_env m)) = Ok kind ∧ path_parent (kl_exe l) = Some exe_dir ∧
    (is_Some proxy ↔ wants_egress_proxy (compile h_os m) = true) ∧
    check_enforceable plan project_root = Ok cs ∧
    kl_cwd l = project_root ∧
    kl_env l = command_env (keeper_env m res proxy) (keeper_unset m res)
                 (devcroft_env plan host_key authorized_key shell project_root services relay) ∧
    (services = None ∨ services = Some (sandbox_name (m_sandbox m))) ∧
    kl_isolate l = isolate_network compiled (match services with Some _ => true | None => false end) proxy ∧
    relay = (if kl_isolate l then (λ '(port, _), (port, proxy_socket p)) <$> proxy else None).

Lemma built_confined m root l : built_launch m root l → confined_launch m root l.
Proof.
  intros (p & res & shell & grants & proxy & kind & exe_dir & socket & cs & hk & ak & services & relay &
    Hkind & Hdir & Hproxy & Hcs & Hcwd & Henv & _ & Hiso & _).
  destruct (compiled_policy_network m kind exe_dir grants proxy socket) as [Hb Hp].
  exists kind, exe_dir, grants, proxy, socket, (to_capability_plan (compiled_policy m kind exe_dir grants proxy socket)).
  do 2 (split; [done|]). split; [by rewrite <- compiled_policy_folds|]. split; [done|].
  split; [|split; [by rewrite Hcs|split]].
  - rewrite Henv. unfold command_env. apply lookup_own; [apply devcroft_env_keys|by left].
  - cbn [plan_proxy_port to_capability_plan]. by rewrite Hp, fmap_is_Some.
  - rewrite Hiso. cbn [plan_block to_capability_plan]. unfold isolate_network, wants_network_isolation.
    by destruct (network_block (compiled_policy _ _ _ _ _ _)).
Qed.

Lemma emits_up_process m root p opts outcome res shell grants proxy :
  (is_Some proxy ↔ wants_egress_proxy (compile h_os m) = true) →
  emits (λ ev, match ev with EvKeeper _ l => built_launch m root l | _ => True end)
    (up_process m root p opts outcome res shell grants proxy).
Proof.
  intros Hproxy. unfold up_process, io, at_state. cbv zeta.
  apply emits_bind_lift; intros exe _. apply emits_bind_lift; intros exe_dir Hdir. apply emits_bind_lift; intros kind Hkind.
  apply emits_bind; [destruct (services_socket _ _ _ _); eauto with emits|intros _].
  apply emits_bind_lift; intros cs Hcs.
  do 3 (apply emits_bind; [eauto with emits|intros _]).
  apply emits_bind_lift; intros [a b] _.
  apply emits_bind; [eauto with emits|intros client_key]. apply emits_bind; [eauto with emits|intros host_key].
  apply emits_bind; [eauto with emits|intros started].
  apply emits_bind; [by apply emits_notes|intros _].
  apply emits_bind; [|intros _;
    apply emits_bind; [destruct (skip_hooks opts); [eauto with emits|by apply emits_hooks]|intros _; eauto with emits]].
  apply emits_start_keeper. intros pid.
  exists p, res, (shell_path shell), grants, proxy, kind, exe_dir, (services_socket m root opts res), cs, (private_openssh host_key),
    (public_openssh client_key), (if started then Some (sandbox_name (m_sandbox m)) else None),
    (if isolate_network (compiled_policy m kind exe_dir grants proxy (services_socket m root opts res)) started proxy
     then (λ '(port, _), (port, proxy_socket p)) <$> proxy else None).
  split; [by destruct (from_name _); simpl in Hkind; [apply ok_inj in Hkind as ->|]|].
  split; [by destruct (path_parent _); simpl in Hdir; [apply ok_inj in Hdir as ->|]|].
  do 4 (split; [done|]). split; [by destruct started; [right|left]|]. split; [by destruct started|done].
Qed.

Lemma emits_up_start m root p opts outcome :
  emits (λ ev, match ev with EvKeeper _ l => built_launch m root l | _ => True end) (up_start m root p opts outcome).
Proof.
  unfold up_start, io. apply emits_bind_lift; intros kind _. apply emits_bind; [eauto with emits|intros res].
  apply emits_bind; [eauto with emits|intros f]. apply emits_bind_lift; intros fp _. apply emits_bind_lift; intros _ _.
  apply emits_bind_ok.
  - destruct (wants_egress_proxy _); (apply emits_bind; [by (apply emits_proxy || apply emits_stop_orphaned)|eauto with emits]).
  - intros proxy w w' Hw. apply emits_bind_lift; intros shell _. apply emits_bind; [eauto with emits|intros _].
    apply emits_up_process. destruct (wants_egress_proxy _).
    + apply bind_ok_inv in Hw as (found & w1 & _ & Hw). injection Hw as <- _. by split.
    + apply bind_ok_inv in Hw as ([] & w1 & _ & Hw). injection Hw as <- _. split; [by intros []|done].
Qed.

Lemma keeper_built m root opts w evs pid l :
  w_events (up m root opts w).2 = w_events w ++ evs → EvKeeper pid l ∈ evs → built_launch m (real_root root) l.
Proof.
  intros He Hin.
  assert (emits (λ ev, match ev with EvKeeper _ l => built_launch m (real_root root) l | _ => True end) (up m root opts)) as Hem.
  { unfold up, io. cbv zeta. apply emits_bind_lift; intros p _. apply emits_bind_lift; intros _ _.
    apply emits_bind; [by apply emits_up_outcome|intros [outcome|]; [apply emits_up_start|eauto with emits]]. }
  destruct (Hem w) as (evs' & He' & Hf). rewrite He in He'. apply app_inv_head in He' as <-.
  rewrite Forall_forall in Hf. by apply (Hf _ Hin).
Qed.

(** C25: a keeper is never started unconfined: whatever the run of [up] and its
    result, every keeper it starts runs in the project, with exactly the plan
    compiled from the manifest and the documented additions, a plan that was
    found enforceable in this project before; the keeper is confined to the
    egress proxy exactly when the manifest asks for filtering, and a network
    namespace of its own is given only under a blocking policy. *)
Theorem keeper_confined m root opts w evs pid l
    (He : w_events (up m root opts w).2 = w_events w ++ evs) (Hin : EvKeeper pid l ∈ evs) :
  confined_launch m (real_root root) l.
Proof.
  by eapply built_confined, keeper_built.
Qed.

(** The keeper's environment, variable by variable, devcroft's own apart:
    what the activation unset is removed unless the manifest sets it; then the
    proxy's variables when there is a proxy; then the manifest's; then the
    resolved ones; anything else is inherited.  The manifest's variables are
    never lost, except to the proxy. *)
Theorem keeper_environment m res (proxy : option (N * str)) (own : list (str * str)) (k : str) (Hk : k ∉ own.*1) :
  command_env (keeper_env m res proxy) (keeper_unset m res) own !! k =
    match vars (m_env m) !! k, proxy with
    | Some v, None => Some (Some v)
    | Some v, Some (port, token) =>
        if decide (k ∈ NO_PROXY_KEYS) then Some (Some ("localhost,127.0.0.1,::1" : str))
        else if decide (k ∈ PROXY_KEYS) then Some (Some ("http://" ++ token ++ "@127.0.0.1:" ++ show_N port))
        else Some (Some v)
    | None, _ =>
        if decide (k ∈ res_unset res) then Some None
        else match proxy with
             | Some (port, token) =>
                 if decide (k ∈ NO_PROXY_KEYS) then Some (Some ("localhost,127.0.0.1,::1" : str))
                 else if decide (k ∈ PROXY_KEYS) then Some (Some ("http://" ++ token ++ "@127.0.0.1:" ++ show_N port))
                 else Some <$> res_env res !! k
             | None => Some <$> res_env res !! k
             end
    end.
Proof.
  unfold command_env. rewrite lookup_own_other by done. rewrite lookup_unset, lookup_fmap.
  assert (k ∈ keeper_unset m res ↔ k ∈ res_unset res ∧ vars (m_env m) !! k = None) as Hu.
  { unfold keeper_unset. rewrite elem_of_filter_bool. rewrite negb_true_iff, bool_decide_eq_false, eq_None_not_Some. done. }
  assert (keeper_env m res proxy !! k = match proxy with
    | Some (port, token) =>
        if decide (k ∈ NO_PROXY_KEYS) then Some ("localhost,127.0.0.1,::1" : str)
        else if decide (k ∈ PROXY_KEYS) then Some ("http://" ++ token ++ "@127.0.0.1:" ++ show_N port)
        else (vars (m_env m) ∪ res_env res) !! k
    | None => (vars (m_env m) ∪ res_env res) !! k end) as He.
  { unfold keeper_env. destruct proxy as [[port token]|]; [|done]. by rewrite !lookup_set_all. }
  rewrite He. clear He. destruct (vars (m_env m) !! k) as [v|] eqn:Ev.
  - rewrite (decide_False (P := k ∈ keeper_unset m res)) by (rewrite Hu; naive_solver).
    rewrite (lookup_union_Some_l _ _ _ _ Ev).
    destruct proxy as [[port token]|]; [|done]. by repeat case_decide.
  - destruct (decide (k ∈ res_unset res)) as [Hr|Hr].
    + by rewrite decide_True by (by rewrite Hu).
    + rewrite decide_False by (rewrite Hu; naive_solver). rewrite lookup_union_r by done.
      destruct proxy as [[port token]|]; [|done]. by repeat case_decide.
Qed.

(** ** Lemmas: a run that succeeded *)

(** Only kills and proxy starts between two worlds. *)
Definition preparing (w w' : World) : Prop := ∃ evs, w_events w' = w_events w ++ evs ∧ Forall before_keeper evs.

#[local] Instance preparing_preorder : PreOrder preparing.
Proof.
  split.
  - intros w. exists []. rewrite app_nil_r. by split.
  - intros w1 w2 w3 (e1 & He1 & F1) (e2 & He2 & F2). exists (e1 ++ e2).
    split; [by rewrite He2, He1, app_assoc|by apply Forall_app].
Qed.

Lemma emits_preparing {E A : Type} (m : M E A) w a w' : emits before_keeper m → m w = (Ok a, w') → preparing w w'.
Proof. intros Hm Hw. destruct (Hm w) as (evs & He & Hf). rewrite Hw in He. by exists evs. Qed.

Lemma emits_nothing {E A : Type} (m : M E A) w r w' : emits (λ _, False) m → m w = (r, w') → w_events w' = w_events w.
Proof.
  intros Hm Hw. destruct (Hm w) as (evs & He & Hf). rewrite Hw in He. destruct evs as [|ev evs]; [by rewrite app_nil_r in He|].
  by apply Forall_cons in Hf as [[] _].
Qed.

Lemma spawn_keeper_ok p l w pid w' :
  spawn_keeper p l w = (Ok pid, w') → h_start_keeper l = Ok pid ∧ w_events w' = w_events w ++ [EvKeeper pid l].
Proof.
  intros Hs%map_error_ok_inv. apply bind_ok_inv in Hs as ([] & w1 & Hw & Hs).
  apply bind_ok_inv in Hs as (pid' & w2 & Hp & Hs). apply lift_ok_inv in Hp as [Hp ->].
  apply bind_ok_inv in Hs as ([] & w3 & He & Hs). injection Hs as <- <-. injection He as <-. simpl.
  split; [done|]. apply bind_ok_inv in Hw as ([] & w4 & Hl & Hw). apply lift_ok_inv in Hl as [_ ->].
  by injection Hw as <-.
Qed.

Lemma write_pidfile_ok path pid w w' :
  do_write_pidfile path pid w = (Ok tt, w') →
  w_events w' = w_events w ∧ ∃ start, w_fs w' !! path = Some (show_Z pid ++ " " ++ show_N start) ∧
    process_start_time is_linux (h_view (w_time w)) pid = Ok start.
Proof.
  intros Hw. apply bind_ok_inv in Hw as (v & w1 & Hv & Hw). injection Hv as <- <-.
  apply bind_ok_inv in Hw as (f & w2 & Hf & Hw). injection Hf as <- <-.
  apply bind_ok_inv in Hw as (f & w3 & Hf & Hw). apply lift_ok_inv in Hf as [Hf ->]. injection Hw as <-.
  split; [done|]. unfold write_pidfile in Hf. cbn [w_fs w_time] in *.
  destruct (process_start_time _ _ _) as [start|] eqn:Es; [|done]. simpl in Hf. apply ok_inj in Hf as <-.
  exists start. by rewrite lookup_insert_eq.
Qed.

Lemma wait_quiet polls p w w' : wait_until_responsive polls p w = (Ok tt, w') → w_events w' = w_events w ∧ w_fs w' = w_fs w.
Proof.
  revert w. induction polls as [|polls IH]; intros w; simpl; [done|].
  intros Hw. apply bind_ok_inv in Hw as (w1 & w2 & Hg & Hw). injection Hg as <- <-.
  apply bind_ok_inv in Hw as (v & w3 & Hv & Hw). injection Hv as <- <-.
  destruct (h_accepts _ _); [by injection Hw as <-|]. by apply IH in Hw.
Qed.

(** The hooks that are due. *)
Definition hooks_due (m : Manifest) (opts : UpOptions) (res : Resolution) (o : UpOutcome) : list (str * str) :=
  if skip_hooks opts then []
  else hook_due "activation" (res_activation_script res)
       ++ hook_due "post_create" (if bool_decide (o = Started) || bool_decide (o = Recreated) then post_create (m_hooks m) else None)
       ++ hook_due "post_start" (post_start (m_hooks m)).

Lemma hooks_phase_ok p m root res o w w' opts :
  (if skip_hooks opts then mret tt else hooks_phase p m root res o) w = (Ok tt, w') →
  w_events w' = w_events w ++ ((λ '(name, cmd), EvHook name cmd) <$> hooks_due m opts res o) ∧
  ∀ x, x ≠ log p → w_fs w' !! x = w_fs w !! x.
Proof.
  unfold hooks_due. destruct (skip_hooks opts).
  - intros [= <-]. split; [by rewrite app_nil_r|done].
  - unfold hooks_phase. intros Hw. apply bind_ok_inv in Hw as (w1 & w2 & Hg & Hw). injection Hg as <- <-.
    set (flag := _ || _) in *. destruct (run_hooks _ _ _ _ _) as [r st] eqn:Er.
    apply bind_ok_inv in Hw as ([] & w3 & He & Hw). injection He as <-.
    apply bind_ok_inv in Hw as ([] & w4 & Hm & Hw). injection Hm as <-. apply lift_ok_inv in Hw as [Hr ->].
    cbn [w_events w_fs]. split; [|intros x Hx; by rewrite lookup_insert_ne].
    assert (hs_runs st = hook_due "activation" (res_activation_script res)
      ++ hook_due "post_create" (if flag then post_create (m_hooks m) else None) ++ hook_due "post_start" (post_start (m_hooks m))) as ->; [|done].
    destruct r as [[]|]; [|done]. clear Hr. unfold run_hooks in Er.
    destruct (res_activation_script res) as [script|]; simpl.
    + unfold run_activation_script in Er. destruct (run_one _ _ _ _ _) as [[[]|] st1] eqn:E1; [|done].
      pose proof (run_one_runs h_hook "activation" script root {| hs_runs := []; hs_log := default [] (w_fs w !! log p) |}) as Hr1.
      rewrite E1 in Hr1. simpl in Hr1. pose proof (run_runs h_hook root (m_hooks m) flag st1) as Hr. rewrite Er in Hr.
      destruct Hr as (ran & -> & _ & Hran). by rewrite Hr1, Hran.
    + pose proof (run_runs h_hook root (m_hooks m) flag {| hs_runs := []; hs_log := default [] (w_fs w !! log p) |}) as Hr.
      rewrite Er in Hr. destruct Hr as (ran & -> & _ & Hran). simpl. by rewrite Hran.
Qed.

(** Peels a successful step off [H], extending [Hp : preparing w _] over it. *)
Ltac prepared H Hp x :=
  let wn := fresh "w" in let Hs := fresh "Hs" in let Hn := fresh "Hn" in
  apply bind_ok_inv in H as (x & wn & Hs & H);
  lazymatch type of Hs with
  | _ ?w0 = (Ok _, ?w1) =>
      assert (preparing w0 w1) as Hn by (eapply emits_preparing; [|exact Hs]; repeat emits_step);
      lazymatch type of Hp with preparing ?w _ =>
        apply (transitivity (R := preparing) Hp) in Hn; clear Hp; rename Hn into Hp
      end
  end.

Lemma up_process_ok m root p opts outcome res shell grants proxy w o w' :
  up_process m root p opts outcome res shell grants proxy w = (Ok o, w') →
  o = outcome ∧ ∃ w1 w2 w3 w4 pid l, preparing w w1 ∧ spawn_keeper p l w1 = (Ok pid, w2) ∧
    do_write_pidfile (pidfile p) pid w2 = (Ok tt, w3) ∧ wait_until_responsive h_polls p w3 = (Ok tt, w4) ∧
    (if skip_hooks opts then mret tt else hooks_phase p m root res outcome) w4 = (Ok tt, w') ∧
    ∃ kind exe_dir socket, from_name (provider (m_env m)) = Ok kind ∧
      kl_env l !! ("DEVCROFT_CAPABILITY_PLAN" : str) =
        Some (Some (plan_to_json (to_capability_plan (compiled_policy m kind exe_dir grants proxy socket)))) ∧
      ∃ started evs, kl_isolate l = isolate_network (compiled_policy m kind exe_dir grants proxy socket) started proxy ∧
        w_events w1 = w_events w ++ evs ++
          (EvNote <$> isolation_notes (sandbox_name (m_sandbox m)) (compiled_policy m kind exe_dir grants proxy socket) started proxy).
Proof.
  unfold up_process, io, at_state. cbv zeta.
  intros Hw. assert (preparing w w) as Hp by reflexivity.
  prepared Hw Hp exe. prepared Hw Hp exe_dir. apply bind_ok_inv in Hw as (kind & wk & Hkind & Hw).
  apply lift_ok_inv in Hkind as [Hkind ->].
  prepared Hw Hp u0.
  prepared Hw Hp cs. prepared Hw Hp u1. prepared Hw Hp u2. prepared Hw Hp u3. prepared Hw Hp ab. destruct ab as [a b].
  prepared Hw Hp ck. prepared Hw Hp hk. prepared Hw Hp started.
  pose proof Hp as (evs & Hevs & _). prepared Hw Hp u4. rename Hs10 into Hnotes. injection Hnotes as _ Hnotes.
  apply bind_ok_inv in Hw as ([] & wc & Hwait & Hw). unfold start_keeper in Hwait.
  apply bind_ok_inv in Hwait as (pid & wa & Hspawn & Hwait). apply bind_ok_inv in Hwait as ([] & wb & Hpid & Hwait).
  apply bind_ok_inv in Hw as ([] & wd & Hh & Hw).
  injection Hw as <- <-. split; [done|]. eexists _, _, _, _, _, _. do 5 (split; [eassumption|]).
  exists kind, exe_dir, (services_socket m root opts res). split.
  - by destruct (from_name _); simpl in Hkind; [apply ok_inj in Hkind as ->|].
  - split; [apply lookup_own; [apply devcroft_env_keys|by left]|]. exists started, evs. split; [done|].
    rewrite <- Hnotes. cbn [w_events]. by rewrite Hevs, <- app_assoc.
Qed.

Lemma up_start_ok m root p opts outcome w o w' :
  up_start m root p opts outcome w = (Ok o, w') →
  ∃ kind res fp shell proxy f wp w1 w2,
    from_name (provider (m_env m)) = Ok kind ∧ pr_resolve kind root (w_fs w) = (Ok res, f) ∧
    resolve_shell (res_env res) = Some shell ∧ preparing w w1 ∧ w_fs wp = f ∧ w_events wp = w_events w ∧
    (if wants_egress_proxy (compile h_os m)
     then found ← ensure_egress_proxy p (net_allow (m_network m)); mret (Some found)
     else _ ← stop_orphaned_egress_proxy p; mret None) wp = (Ok proxy, w1) ∧
    do_write_meta (meta p) (new_meta root fp (provider_grants res shell) res shell proxy) w1 = (Ok tt, w2) ∧
    up_process m root p opts outcome res shell (provider_grants res shell) proxy w2 = (Ok o, w').
Proof.
  unfold up_start, io. cbv zeta. intros Hw.
  apply bind_ok_inv in Hw as (kind & w1 & Hk & Hw). apply lift_ok_inv in Hk as [Hk ->].
  apply bind_ok_inv in Hw as (res & w1 & Hr & Hw). apply bind_ok_inv in Hw as (f & w2 & Hf & Hw). injection Hf as <- <-.
  apply bind_ok_inv in Hw as (fp & w2 & Hfp & Hw). apply lift_ok_inv in Hfp as [_ ->].
  apply bind_ok_inv in Hw as (u & w2 & Hd & Hw). apply lift_ok_inv in Hd as [_ ->].
  apply bind_ok_inv in Hw as (proxy & w2 & Hp & Hw).
  apply bind_ok_inv in Hw as (shell & w3 & Hs & Hw). apply lift_ok_inv in Hs as [Hs ->].
  apply bind_ok_inv in Hw as ([] & w3 & Hm & Hw).
  unfold provider_resolve in Hr. destruct (pr_resolve kind root (w_fs w)) as [r f] eqn:Er. injection Hr as Hr <-.
  destruct r as [res'|]; [|done]. apply ok_inj in Hr as ->.
  exists kind, res, fp, shell, proxy, f, {| w_fs := f; w_time := w_time w; w_events := w_events w |}, w2, w3.
  split; [by destruct (from_name _); [apply ok_inj in Hk as ->|]|]. split; [done|].
  split; [by destruct (resolve_shell _); [apply ok_inj in Hs as ->|]|]. split; [|done].
  refine (transitivity (R := preparing) (y := {| w_fs := f; w_time := w_time w; w_events := w_events w |}) _ _).
  - exists []. rewrite app_nil_r. by split.
  - eapply emits_preparing; [|exact Hp].
    destruct (wants_egress_proxy _); (apply emits_bind; [|eauto with emits]);
      [by apply emits_proxy|by apply emits_stop_orphaned].
Qed.

Lemma up_outcome_ok opts p w o w' :
  up_outcome opts p w = (Ok (Some o), w') → preparing w w' ∧ (o = Recreated ↔ recreate opts = true) ∧ o ≠ AlreadyUp.
Proof.
  intros Hw. split; [by eapply emits_preparing; [|exact Hw]; apply emits_up_outcome|]. revert Hw. unfold up_outcome.
  destruct (recreate opts).
  - intros Hw. apply bind_ok_inv in Hw as ([] & w1 & _ & Hw). apply bind_ok_inv in Hw as ([] & w2 & _ & Hw).
    apply bind_ok_inv in Hw as ([] & w3 & _ & Hw). by injection Hw as <- _.
  - intros Hw. apply bind_ok_inv in Hw as (hl & w1 & _ & Hw).
    destruct hl; [by injection Hw as <- _|done|apply bind_ok_inv in Hw as ([] & w2 & _ & Hw); by injection Hw as <- _].
Qed.

(** C30: a successful [up] that was not already up did, in this order: nothing but
    terminations of recorded processes and the start of an egress proxy; one
    keeper; then exactly the hooks that are due, in order — activation,
    [post_create] only for a sandbox started or recreated, [post_start] — and
    none at all with [skip_hooks]; the pidfile then records that keeper with
    its start time. *)
Theorem up_success m root opts w o w'
    (Hup : up m root opts w = (Ok o, w')) (Ho : o ≠ AlreadyUp) :
  ∃ p kind res f f' before pid l start,
    state_paths h_home (sandbox_name (m_sandbox m)) = Ok p ∧ (o = Recreated ↔ recreate opts = true) ∧
    pr_resolve kind (real_root root) f = (Ok res, f') ∧
    w_events w' = w_events w ++ before ++ [EvKeeper pid l] ++ ((λ '(name, cmd), EvHook name cmd) <$> hooks_due m opts res o) ∧
    Forall before_keeper before ∧ h_start_keeper l = Ok pid ∧
    w_fs w' !! pidfile p = Some (show_Z pid ++ " " ++ show_N start).
Proof.
  unfold up, io in Hup. cbv zeta in Hup. apply bind_ok_inv in Hup as (p & w1 & Hp & Hup). apply lift_ok_inv in Hp as [Hp ->].
  apply bind_ok_inv in Hup as (u & w2 & Hl & Hup). apply lift_ok_inv in Hl as [_ ->].
  apply bind_ok_inv in Hup as ([outcome|] & w3 & Hout & Hup); [|by injection Hup as <- <-].
  apply up_outcome_ok in Hout as (Hprep & Hrec & _).
  apply up_start_ok in Hup as (kind & res & fp & shell & proxy & f & wp & w4 & w5 & _ & Hres & _ & Hprep2 & _ & _ & _ & Hmeta & Hup).
  assert (preparing w4 w5) as Hprep3 by (eapply emits_preparing; [|exact Hmeta]; eauto with emits).
  apply up_process_ok in Hup as (-> & w6 & w7 & w8 & w9 & pid & l & Hprep4 & Hspawn & Hpid & Hwait & Hhooks & _).
  apply spawn_keeper_ok in Hspawn as [Hstart He1]. apply write_pidfile_ok in Hpid as (He2 & start & Hf & _).
  apply wait_quiet in Hwait as [He3 Hf3]. apply hooks_phase_ok in Hhooks as [He4 Hf4].
  assert (preparing w w6) as (before & Hb & HF) by (do 3 (etransitivity; [eassumption|]); done).
  destruct (state_paths h_home _) as [p'|] eqn:Ep; [|done]. apply ok_inj in Hp as ->.
  exists p, kind, res, (w_fs w3), f, before, pid, l, start. do 3 (split; [done|]).
  split; [by rewrite He4, He3, He2, He1, Hb, <- !app_assoc|]. split; [done|]. split; [done|].
  rewrite Hf4, Hf3; [done|]. apply files_distinct in Ep. unfold files_of in Ep.
  intros Heq. rewrite Heq in Ep. repeat (apply NoDup_cons in Ep as [? Ep]). set_solver.
Qed.

(** [up] with its lock taken. *)
Lemma up_unlocked m root opts w p :
  state_paths h_home (sandbox_name (m_sandbox m)) = Ok p → h_lock (lifecycle_lock p) = Ok tt →
  up m root opts w =
    (outcome ← up_outcome opts p;
     match outcome with None => mret AlreadyUp | Some outcome => up_start m (real_root root) p opts outcome end) w.
Proof.
  intros Hp Hlock. unfold up, io. cbv zeta. rewrite Hp. unfold mbind at 1, M_bind at 1, lift at 1. cbn [map_err].
  unfold mbind at 1, M_bind at 1, lift at 1. by rewrite Hlock.
Qed.

(** [up] on a sandbox that is up does nothing, and only there: it returns
    [AlreadyUp] exactly when it was not asked to recreate and the recorded
    keeper is the running process and accepts connections, and then no file
    changed and no process was touched. *)
Theorem already_up_exactly m root opts w w' p
    (Hp : state_paths h_home (sandbox_name (m_sandbox m)) = Ok p) (Hlock : h_lock (lifecycle_lock p) = Ok tt) :
  up m root opts w = (Ok AlreadyUp, w') ↔
  recreate opts = false ∧
  (∃ pid, health is_linux (h_view (w_time w)) (h_accepts (w_time w)) (w_fs w) p = Ok (Healthy pid)) ∧
  w' = {| w_fs := w_fs w; w_time := S (w_time w); w_events := w_events w |}.
Proof.
  rewrite (up_unlocked m root opts w p Hp Hlock). split.
  - intros Hup. apply bind_ok_inv in Hup as ([outcome|] & w1 & Hout & Hup).
    + apply up_outcome_ok in Hout as (_ & _ & Hne).
      apply up_start_ok in Hup as (? & ? & ? & ? & ? & ? & ? & ? & ? & _ & _ & _ & _ & _ & _ & _ & _ & Hup).
      apply up_process_ok in Hup as (<- & _). done.
    + injection Hup as <-. revert Hout. unfold up_outcome. destruct (recreate opts).
      * intros Hout. apply bind_ok_inv in Hout as ([] & ? & _ & Hout). apply bind_ok_inv in Hout as ([] & ? & _ & Hout).
        by apply bind_ok_inv in Hout as ([] & ? & _ & Hout).
      * unfold mbind, M_bind, check_health. destruct (health _ _ _ _ _) as [[|pid|pid]|]; try done.
        intros [= <-]. split; [done|]. split; [by exists pid|done].
  - intros (Hr & (pid & Hh) & ->). unfold up_outcome. rewrite Hr. unfold mbind, M_bind, check_health. by rewrite Hh.
Qed.

(** ** Recovery *)

Lemma terminate_absent path w : w_fs w !! path = None → up_terminate path w = (Ok tt, w).
Proof.
  intros Hn. unfold up_terminate, terminate, terminate_and_wait, read_pidfile, read_to_string. rewrite Hn. simpl.
  rewrite app_nil_r. by destruct w.
Qed.

Lemma live_proxy_absent p w : w_fs w !! proxy_pidfile p = None → live_proxy p w = (Ok None, w).
Proof.
  intros Hn. unfold live_proxy, io, mbind, M_bind, get_fs, lift, read_pidfile, read_to_string. by rewrite Hn.
Qed.

Lemma ensure_starts_proxy p allow w x w' :
  w_fs w !! proxy_pidfile p = None → ensure_egress_proxy p allow w = (Ok x, w') →
  ∃ pid port token, x = (port, token) ∧ w_events w' = w_events w ++ [EvProxy allow pid port token].
Proof.
  intros Hn Hw. unfold ensure_egress_proxy in Hw. apply bind_ok_inv in Hw as (live & w1 & Hl & Hw).
  rewrite live_proxy_absent in Hl by done. injection Hl as <- <-. unfold io in Hw.
  apply bind_ok_inv in Hw as (exe & w1 & He & Hw). apply lift_ok_inv in He as [_ ->].
  apply bind_ok_inv in Hw as ([[pid port] token] & w1 & Hs & Hw). apply bind_ok_inv in Hw as ([] & w2 & Hpid & Hw).
  injection Hw as <- <-. apply write_pidfile_ok in Hpid as [-> _]. exists pid, port, token. split; [done|].
  apply map_error_ok_inv in Hs. unfold proxy_spawn in Hs. cbv zeta in Hs.
  apply bind_ok_inv in Hs as (w0 & w2' & Hg & Hs). injection Hg as <- <-.
  apply bind_ok_inv in Hs as (port' & w3 & Ht & Hs). apply lift_ok_inv in Ht as [_ ->].
  apply bind_ok_inv in Hs as ([] & w3 & Hb & Hs). apply bind_ok_inv in Hs as ([] & w4 & Hf & Hs).
  apply bind_ok_inv in Hs as (pid' & w5 & Hp & Hs). apply lift_ok_inv in Hp as [_ ->].
  apply bind_ok_inv in Hs as ([] & w5 & He & Hs). injection Hs as <- <- <- <-. injection He as <-. simpl.
  assert (w_events w4 = w_events w3 ∧ w_events w3 = w_events w) as [-> ->]; [|done]. split.
  - apply bind_ok_inv in Hf as ([] & ? & Hl & Hf). apply lift_ok_inv in Hl as [_ ->]. by injection Hf as <-.
  - apply bind_ok_inv in Hb as ([] & ? & Hl & Hb). injection Hl as <-.
    apply bind_ok_inv in Hb as ([] & ? & Hl & Hb). apply lift_ok_inv in Hl as [_ ->]. by injection Hb as <-.
Qed.

Definition not_kill (ev : event) : Prop := is_kill ev = false.
Lemma not_kill_note line : not_kill (EvNote line).
Proof. done. Qed.
#[local] Hint Resolve not_kill_note : emits.

Lemma emits_process_not_kill m root p opts outcome res shell grants proxy :
  emits not_kill (up_process m root p opts outcome res shell grants proxy).
Proof.
  unfold up_process, io, at_state. cbv zeta.
  repeat (emits_step || (by apply emits_start_keeper) || (by apply emits_hooks)).
Qed.

(** A provider that leaves a file of the sandbox's state alone. *)
Definition provider_leaves (x : str) : Prop := ∀ kind root f, (pr_resolve kind root f).2 !! x = f !! x.

Lemma up_start_no_kill m root p opts outcome w :
  w_fs w !! proxy_pidfile p = None → provider_leaves (proxy_pidfile p) →
  emits_from not_kill (up_start m root p opts outcome) w.
Proof.
  intros Hn Hl. unfold up_start, io.
  apply emits_from_bind; [apply emits_lift|]. intros kind w1 [_ ->]%lift_ok_inv.
  apply emits_from_bind; [apply emits_provider_resolve|]. intros res w1 Hr.
  assert (w_fs w1 !! proxy_pidfile p = None) as Hn1.
  { unfold provider_resolve in Hr. specialize (Hl kind root (w_fs w)). destruct (pr_resolve _ _ _) as [r f].
    injection Hr as _ <-. cbn [w_fs]. simpl in Hl. congruence. }
  clear Hr. apply emits_from_bind; [apply emits_get_fs|]. intros f w2 Hf. injection Hf as _ <-.
  apply emits_from_bind; [apply emits_lift|]. intros fp w2 [_ ->]%lift_ok_inv.
  apply emits_from_bind; [apply emits_lift|]. intros u w2 [_ ->]%lift_ok_inv.
  apply emits_from_bind.
  - destruct (wants_egress_proxy _).
    + apply emits_bind; [by apply emits_proxy|eauto with emits].
    + unfold stop_orphaned_egress_proxy. apply emits_from_bind; [|intros ? ? _; apply emits_ret].
      apply emits_from_bind; [|intros ? ? _; apply emits_modify].
      exists []. rewrite terminate_absent by done. rewrite app_nil_r. by split.
  - intros proxy w2 _. refine ((_ : emits not_kill _) w2).
    apply emits_bind_lift; intros shell _. cbv zeta. apply emits_bind; [eauto with emits|intros _].
    apply emits_process_not_kill.
Qed.

(** Recovering from a stale keeper signals nothing and forgets everything: a
    run of [up] that finds the recorded keeper dead or unresponsive sends no
    signal at all, so an unresponsive keeper and the egress proxy recorded
    beside it go on running, unrecorded; and when the manifest wants an egress
    proxy a successful run always starts a new one, never reusing the old. *)
Theorem recovery_forgets_processes m root opts w p pid
    (Hp : state_paths h_home (sandbox_name (m_sandbox m)) = Ok p) (Hlock : h_lock (lifecycle_lock p) = Ok tt)
    (Hr : recreate opts = false)
    (Hh : health is_linux (h_view (w_time w)) (h_accepts (w_time w)) (w_fs w) p = Ok (Stale pid))
    (Hl : provider_leaves (proxy_pidfile p)) :
  ∃ evs, w_events (up m root opts w).2 = w_events w ++ evs ∧ Forall not_kill evs ∧
    (is_ok (up m root opts w).1 = true → wants_egress_proxy (compile h_os m) = true →
     ∃ pid port token, EvProxy (net_allow (m_network m)) pid port token ∈ evs).
Proof.
  rewrite (up_unlocked m root opts w p Hp Hlock).
  set (w1 := {| w_fs := clear_runtime_state p (w_fs w); w_time := S (w_time w); w_events := w_events w |}).
  assert (up_outcome opts p w = (Ok (Some Recovered), w1)) as Hout.
  { unfold up_outcome. rewrite Hr. unfold mbind, M_bind, check_health. by rewrite Hh. }
  unfold mbind, M_bind. rewrite Hout.
  assert (w_fs w1 !! proxy_pidfile p = None) as Hn.
  { cbn [w1 w_fs]. rewrite clear_runtime_state_spec. rewrite decide_True; [done|]. set_solver. }
  destruct (up_start_no_kill m (real_root root) p opts Recovered w1 Hn Hl) as (evs & He & Hf).
  exists evs. split; [done|]. split; [done|]. intros Hok Hwants.
  destruct (up_start m (real_root root) p opts Recovered w1) as [[o|e] w'] eqn:Es; [|done].
  apply up_start_ok in Es as (kind & res & fp & shell & proxy & f & wp & w2 & w3 & _ & Hres & _ & _ & Hfp & Hep & Hproxy & Hmeta & Es).
  rewrite Hwants in Hproxy. apply bind_ok_inv in Hproxy as (x & w4 & Hens & Hx). injection Hx as <- <-.
  apply ensure_starts_proxy in Hens as (ppid & port & token & _ & Hev).
  2: { rewrite Hfp. specialize (Hl kind (real_root root) (w_fs w1)). rewrite Hres in Hl. cbn [snd] in Hl. by rewrite Hl. }
  exists ppid, port, token.
  assert (emits (λ _, True) (do_write_meta (meta p) (new_meta (real_root root) fp (provider_grants res shell) res shell (Some x)))) as H1'
    by apply emits_meta.
  destruct (H1' w4) as (e1 & He1 & _). rewrite Hmeta in He1.
  destruct (emits_process_not_kill m (real_root root) p opts Recovered res shell (provider_grants res shell) (Some x) w3) as (e2 & He2 & _).
  rewrite Es in He2. simpl in He, He1, He2. rewrite He2, He1, Hev, Hep in He. cbn [w1 w_events] in He.
  rewrite <- !app_assoc in He. apply app_inv_head in He as <-. set_solver.
Qed.

(** ** Lemmas: the files a start leaves alone *)

Lemma preserves_write_file x path contents : x ≠ path → preserves x (write_file path contents).
Proof. intros Hx. unfold write_file. repeat preserves_step. Qed.
Lemma preserves_bind_socket x path : x ≠ path → preserves x (bind_socket path).
Proof. intros Hx. unfold bind_socket. repeat preserves_step. Qed.
Lemma preserves_observe {E : Type} x : preserves x (observe : M E ProcView).
Proof. done. Qed.
#[local] Hint Resolve preserves_write_file preserves_bind_socket preserves_observe preserves_host_key preserves_client_key : preserves.

Lemma preserves_wait x polls p : preserves x (wait_until_responsive polls p).
Proof. induction polls; simpl; repeat preserves_step. Qed.

Lemma preserves_pidfile x path pid : x ≠ path → preserves x (do_write_pidfile path pid).
Proof.
  intros Hx w. destruct (do_write_pidfile path pid w) as [r w'] eqn:Ew. simpl.
  unfold do_write_pidfile, io, mbind, M_bind, observe, get_fs, lift, modify_fs, write_pidfile in Ew. cbn [w_fs] in Ew.
  destruct (process_start_time _ _ _) as [start|]; cbn [map_err mbind result_bind] in Ew; injection Ew as _ <-; [|done].
  simpl. by rewrite lookup_insert_ne.
Qed.

Lemma preserves_spawn_keeper x p l : x ≠ log p → preserves x (spawn_keeper p l).
Proof. intros Hx. unfold spawn_keeper. apply preserves_map_error. repeat preserves_step. Qed.

Lemma preserves_hooks x p m root res o : x ≠ log p → preserves x (hooks_phase p m root res o).
Proof. intros Hx. unfold hooks_phase. repeat preserves_step. Qed.

Lemma preserves_prepare_services x root name res shell opts :
  x ≠ config_path root name → preserves x (prepare_services root name res shell opts).
Proof.
  intros Hx. unfold prepare_services, ensure_no_services_declared_for_another_provider, io, at_state. repeat preserves_step.
Qed.
#[local] Hint Resolve preserves_wait preserves_pidfile preserves_spawn_keeper preserves_hooks preserves_prepare_services : preserves.

Lemma path_join_last a c b : c ≠ SLASH → last (path_join a (b ++ [c])) = Some c.
Proof.
  intros Hc. destruct (decide (starts_with "/" (b ++ [c]) = true)) as [Hs|Hs].
  - unfold path_join. rewrite Hs. apply last_snoc.
  - destruct (path_join_prefix a) as [r Hr]. rewrite Hr by (by destruct (starts_with "/" (b ++ [c]))).
    rewrite app_assoc. apply last_snoc.
Qed.

Lemma preserves_up_process m root p opts outcome res shell grants proxy :
  state_paths h_home (sandbox_name (m_sandbox m)) = Ok p → meta p ≠ config_path root (sandbox_name (m_sandbox m)) →
  preserves (meta p) (up_process m root p opts outcome res shell grants proxy).
Proof.
  intros Hp Hc. pose proof (files_distinct _ _ _ Hp) as Hd. unfold files_of in Hd.
  assert (∀ f, f ∈ [socket p; pidfile p; profile p; log p; ssh_socket p; ssh_host_key p] → meta p ≠ f) as Hne.
  { intros f Hf Heq. rewrite Heq in Hd. repeat (apply NoDup_cons in Hd as [? Hd]). set_solver. }
  clear Hd. assert (last (meta p) = Some "n"%char) as Hlast.
  { unfold state_paths in Hp. destruct (is_valid_name _); [|done]. destruct (data_dir h_home); [|done].
    simpl in Hp. apply ok_inj in Hp as <-. by apply (path_join_last _ "n" "meta.jso"). }
  assert (∀ a b, client_key_paths h_home = Ok (a, b) → meta p ≠ a ∧ meta p ≠ b) as Hkeys.
  { intros a b Hk. unfold client_key_paths in Hk. destruct (data_dir h_home) as [dir|]; [|done].
    assert (last (path_join dir "id_ed25519") = Some "9"%char) as H9 by exact (path_join_last dir "9" "id_ed2551" ltac:(done)).
    assert (last (path_join dir "id_ed25519.pub") = Some "b"%char) as Hb by exact (path_join_last dir "b" "id_ed25519.pu" ltac:(done)).
    cbn [fmap result_fmap] in Hk. injection Hk as <- <-. split; intros Heq; rewrite Heq in Hlast.
    - by rewrite H9 in Hlast.
    - by rewrite Hb in Hlast. }
  assert (meta p ≠ socket p ∧ meta p ≠ pidfile p ∧ meta p ≠ profile p ∧ meta p ≠ log p ∧ meta p ≠ ssh_socket p ∧ meta p ≠ ssh_host_key p)
    as (? & ? & ? & ? & ? & ?) by (repeat split; apply Hne; set_solver).
  unfold up_process, start_keeper, io, at_state. cbv zeta.
  repeat preserves_step.
  match goal with Hk : map_err _ (client_key_paths _) = Ok (?a, ?b) |- _ => rename Hk into Hkp; specialize (Hkeys a b) end.
  destruct (client_key_paths h_home) as [[ka kb]|]; [|done]. apply ok_inj in Hkp as [= -> ->].
  destruct (Hkeys eq_refl) as [Ha Hb]. by apply preserves_map_error, preserves_client_key.
Qed.

(** What is enforced is what is recorded: after a successful start the
    metadata reads back, and the plan the keeper was started with is the one
    compiled from the manifest with exactly the recorded grants and the
    recorded proxy port, so [policy --render], which renders from the metadata,
    shows every rule that reached the backend. *)
Theorem enforced_is_recorded m root opts w o w' p
    (Hup : up m root opts w = (Ok o, w')) (Ho : o ≠ AlreadyUp)
    (Hp : state_paths h_home (sandbox_name (m_sandbox m)) = Ok p)
    (Hlaw : ∀ x s, meta_to_json x = Ok s → meta_of_json s = Ok x ∧ utf8_valid s = true)
    (Hc : meta p ≠ config_path (real_root root) (sandbox_name (m_sandbox m))) :
  ∃ mt kind exe_dir socket proxy before after pid l,
    read_meta meta_of_json (w_fs w') (meta p) = Ok (Some mt) ∧
    w_events w' = before ++ EvKeeper pid l :: after ∧
    from_name (provider (m_env m)) = Ok kind ∧
    kl_env l !! ("DEVCROFT_CAPABILITY_PLAN" : str) =
      Some (Some (plan_to_json (to_capability_plan (compiled_policy m kind exe_dir (read_only_grants mt) proxy socket)))) ∧
    proxy_port mt = fst <$> proxy ∧ proxy_token mt = snd <$> proxy ∧ project_root mt = real_root root.
Proof.
  unfold up, io in Hup. cbv zeta in Hup. apply bind_ok_inv in Hup as (p' & w1 & Hp' & Hup). apply lift_ok_inv in Hp' as [Hp' ->].
  rewrite Hp in Hp'. apply ok_inj in Hp' as <-.
  apply bind_ok_inv in Hup as (u & w2 & Hl & Hup). apply lift_ok_inv in Hl as [_ ->].
  apply bind_ok_inv in Hup as ([outcome|] & w3 & _ & Hup); [|by injection Hup as <- <-].
  apply up_start_ok in Hup as (kind & res & fp & shell & proxy & f & wp & w4 & w5 & _ & _ & _ & _ & _ & _ & _ & Hmeta & Hup).
  pose proof (preserves_up_process m (real_root root) p opts outcome res shell (provider_grants res shell) proxy Hp Hc w5) as Hpres.
  rewrite Hup in Hpres. cbn [snd] in Hpres.
  apply up_process_ok in Hup as (-> & w6 & w7 & w8 & w9 & pid & l & _ & Hspawn & Hpid & Hwait & Hhooks & kind' & exe_dir & socket & Hkind & Hplan & _).
  apply spawn_keeper_ok in Hspawn as [_ He1]. apply write_pidfile_ok in Hpid as (He2 & _).
  apply wait_quiet in Hwait as [He3 _]. apply hooks_phase_ok in Hhooks as [He4 _].
  exists (new_meta (real_root root) fp (provider_grants res shell) res shell proxy), kind', exe_dir, socket, proxy, (w_events w6),
    ((λ '(name, cmd), EvHook name cmd) <$> hooks_due m opts res outcome), pid, l.
  split; [|split; [by rewrite He4, He3, He2, He1, <- app_assoc|done]].
  unfold do_write_meta, io in Hmeta. apply bind_ok_inv in Hmeta as (g & wa & Hg & Hmeta). injection Hg as <- <-.
  apply bind_ok_inv in Hmeta as (states & wa & Hst & Hmeta). apply lift_ok_inv in Hst as [Hst ->]. injection Hmeta as <-.
  unfold write_meta in Hst. destruct (meta_to_json _) as [js|] eqn:Ej; [|done]. cbn [map_err] in Hst. apply ok_inj in Hst as <-.
  destruct (Hlaw _ _ Ej) as [Hjs Hu]. cbn [w_fs] in Hpres. rewrite last_snoc in Hpres. cbn [default from_option id] in Hpres.
  rewrite lookup_insert_eq in Hpres. unfold read_meta, read_to_string. rewrite Hpres, Hu. simpl. by rewrite Hjs.
Qed.

(** A sandbox that should have a network of its own and does not get it is
    reported: the lines printed before the keeper of a successful start say why
    when its policy wants isolation and it is started without; when it is
    isolated they name every port its manifest declares, if any; and when no
    isolation is wanted they say nothing about it. *)
Theorem isolation_surfaced m root opts w o w' (Hup : up m root opts w = (Ok o, w')) (Ho : o ≠ AlreadyUp) :
  ∃ compiled (started : bool) (evs : list event) (notes : list str) pid l (after : list event),
    w_events w' = w_events w ++ evs ++ (EvNote <$> notes) ++ EvKeeper pid l :: after ∧
    kl_env l !! ("DEVCROFT_CAPABILITY_PLAN" : str) = Some (Some (plan_to_json (to_capability_plan compiled))) ∧
    (wants_network_isolation compiled started = true → kl_isolate l = false →
       ∃ line, notes = [line] ∧ starts_with "devcroft: warning: network isolation is " line = true) ∧
    (kl_isolate l = true → network_ports compiled ≠ [] → notes = [ports_note (ap_value <$> network_ports compiled) (sandbox_name (m_sandbox m))]) ∧
    (wants_network_isolation compiled started = false → kl_isolate l = false ∧ notes = []).
Proof.
  unfold up, io in Hup. cbv zeta in Hup. apply bind_ok_inv in Hup as (p & w1 & Hp & Hup). apply lift_ok_inv in Hp as [_ ->].
  apply bind_ok_inv in Hup as (u & w2 & Hl & Hup). apply lift_ok_inv in Hl as [_ ->].
  apply bind_ok_inv in Hup as ([outcome|] & w3 & Hout & Hup); [|by injection Hup as <- <-].
  apply up_outcome_ok in Hout as ((e1 & He1 & _) & _ & _).
  apply up_start_ok in Hup as (kind & res & fp & shell & proxy & f & wp & w4 & w5 & _ & _ & _ & (e2 & He2 & _) & _ & _ & _ & Hmeta & Hup).
  apply emits_nothing in Hmeta; [|apply emits_meta].
  apply up_process_ok in Hup as (-> & w6 & w7 & w8 & w9 & pid & l & _ & Hspawn & Hpid & Hwait & Hhooks & kind' & exe_dir & socket & Hkind & Hplan
    & started & evs & Hiso & He6).
  apply spawn_keeper_ok in Hspawn as [_ He7]. apply write_pidfile_ok in Hpid as (He8 & _).
  apply wait_quiet in Hwait as [He9 _]. apply hooks_phase_ok in Hhooks as [He10 _].
  eexists _, started, (e1 ++ e2 ++ evs), _, pid, l, _. split.
  { rewrite He10, He9, He8, He7, He6, Hmeta, He2, He1, <- !app_assoc. reflexivity. }
  split; [exact Hplan|]. rewrite Hiso. unfold isolation_notes, isolate_network. set (c := compiled_policy _ _ _ _ _ _).
  destruct (wants_network_isolation c started); cbn [andb negb]; [|by split_and!].
  destruct proxy as [[port token]|]; [destruct (proxy_port_collides_with_declared_ports c port)|];
    destruct h_netns_probe as [[]|]; cbn [andb negb];
    (split_and!; [intros _ Hf; first [discriminate Hf|eexists; split; reflexivity]| |done]);
    intros Hf Hn; first [discriminate Hf|rewrite bool_decide_false; [done|by intros ?%fmap_nil_inv]].
Qed.
End up_process.
End up.

(** ** A concrete host *)

Definition ok_attempt : HookAttempt :=
  {| ha_connect := Ok tt; ha_write := Ok tt; ha_open_log := Ok tt; ha_end := UnexpectedEof;
     ha_frames := [FSpawnOk 1; FStdout "hi"; FExit {| exit_code := Some 0%Z; exit_signal := None |}] |}.

Definition sample_host (accepts : bool) : Host :=
  {| h_os := Linux; h_view := λ _, sample_view; h_accepts := λ n _, accepts || bool_decide (1 < n); h_polls := 2;
     h_home := Some ("/h" : str); h_lock := λ _, Ok tt; h_canonicalize := Ok; h_exists := λ _, true; h_is_dir := λ _, true;
     h_is_file := λ _, true; h_is_executable := λ _, true; h_requisites := λ _, None;
     h_create_dir := λ _, Ok tt; h_write := λ _, Ok tt; h_bind := λ _, Ok tt; h_keeper_exe := Ok ("/bin/devcroft" : str);
     h_netns_probe := Ok true; h_tcp_port := λ _, Ok 4000%N; h_random_token := λ _, [7%N; 171%N];
     h_start_proxy := λ _, Ok 42%Z; h_start_keeper := λ _, Ok 42%Z;
     h_random_key := λ n, Ok (sample_key (show_nat n)); h_hook := λ _ _, ok_attempt |}.

Definition sample_resolution : Resolution :=
  {| res_env := {[ ("PATH" : str) := ("/nix/store/b/bin" : str) ]}; res_unset := []; res_read_only_grants := strs ["/nix/store"];
     res_activation_script := Some ("echo on" : str); res_services := Declared []; res_ran_activation_hook := false |}.

Definition sample_provider : Provider :=
  {| pr_resolve := λ _ _ f, (Ok sample_resolution, f); pr_fingerprint := λ _ _ _, Ok ("fp" : str); pr_flox_services := λ _ _, [] |}.

(** The metadata's port, as its whole text: enough to tell the samples apart. *)
Definition up_manifest : Manifest :=
  {| m_sandbox := {| sandbox_name := "web" |}; m_env := {| provider := "nix"; vars := {[ ("HTTP_PROXY" : str) := ("mine" : str) ]} |};
     m_filesystem := Filesystem_default; m_network := {| net_default := Deny; net_allow := strs ["a.b"]; net_ports := [] |};
     m_ssh := Ssh_default; m_hooks := {| post_create := Some ("make" : str); post_start := Some ("run" : str) |} |}.

Definition plain_up : UpOptions := {| recreate := false; skip_hooks := false |}.
Definition empty_world : World := {| w_fs := ∅; w_time := 0; w_events := [] |}.

Definition sample_shell : ResolvedShell := {| shell_path := "/nix/store/b/bin/sh"; shell_grant := Some ("/nix/store/b" : str) |}.

(** The metadata of the sample start, and a codec that writes just it. *)
Definition sample_up_meta : Meta :=
  new_meta "/p" "fp" (strs ["/nix/store"; "/nix/store/b"]) sample_resolution sample_shell (Some (4000%N, "07ab" : str)).

Definition sample_codec : Codec :=
  {| meta_to_json := λ x, if decide (x = sample_up_meta) then Ok ("m" : str) else Err ([] : str);
     meta_of_json := λ _, Ok sample_up_meta; plan_to_json := λ pl, join "," (plan_read pl); plan_to_json_pretty := λ _, [];
     json_to_string_pretty := λ _, []; key_of_openssh := λ s, Ok (sample_key s) |}.

Definition sample_up (opts : UpOptions) (w : World) : result UpError UpOutcome * World :=
  @up (sample_host false) sample_provider sample_codec _ recorder up_manifest "/p" opts w.

Definition outcome_of (r : result UpError UpOutcome * World) : option UpOutcome :=
  match r.1 with Ok o => Some o | Err _ => None end.

Lemma up_success_witness :
  ∃ w', sample_up plain_up empty_world = (Ok Started, w') ∧
    ∃ before pid l hooks, w_events w' = before ++ [EvKeeper pid l] ++ hooks ∧ length hooks = 3.
Proof.
  destruct (sample_up plain_up empty_world) as [r w'] eqn:E.
  assert (r = Ok Started) as ->.
  { apply (f_equal fst) in E. vm_compute in E. symmetry. exact E. }
  exists w'. split; [reflexivity|].
  destruct (@up_success (sample_host false) sample_provider sample_codec _ recorder up_manifest "/p" plain_up empty_world Started w'
    E ltac:(discriminate)) as (p & kind & res & f & f' & before & pid & l & start & _ & _ & Hres & He & _ & _ & _).
  injection Hres as <- _. exists before, pid, l. eexists. split; [exact He|reflexivity].
Defined.

Lemma isolation_surfaced_witness :
  ∃ w', sample_up plain_up empty_world = (Ok Started, w') ∧
    ∃ evs notes pid l after, w_events w' = evs ++ (EvNote <$> notes) ++ EvKeeper pid l :: after.
Proof.
  destruct (sample_up plain_up empty_world) as [r w'] eqn:E.
  assert (r = Ok Started) as ->.
  { apply (f_equal fst) in E. vm_compute in E. symmetry. exact E. }
  exists w'. split; [reflexivity|].
  destruct (@isolation_surfaced (sample_host false) sample_provider sample_codec _ recorder up_manifest "/p" plain_up empty_world Started w'
    E ltac:(discriminate)) as (compiled & started & evs & notes & pid & l & after & He & _).
  exists evs, notes, pid, l, after. exact He.
Defined.

Lemma enforced_is_recorded_witness :
  ∃ w' p mt, sample_up plain_up empty_world = (Ok Started, w') ∧
    read_meta (meta_of_json (Codec := sample_codec)) (w_fs w') (meta p) = Ok (Some mt) ∧ State.project_root mt = ("/p" : str).
Proof.
  destruct (sample_up plain_up empty_world) as [r w'] eqn:E.
  assert (r = Ok Started) as ->.
  { apply (f_equal fst) in E. vm_compute in E. symmetry. exact E. }
  destruct (state_paths (Some ("/h" : str)) "web") as [p|] eqn:Ep; [|vm_compute in Ep; discriminate Ep].
  destruct (@enforced_is_recorded (sample_host false) sample_provider sample_codec _ recorder up_manifest "/p" plain_up empty_world
    Started w' p E ltac:(discriminate) Ep) as (mt & ? & ? & ? & ? & ? & ? & ? & ? & Hm & _ & _ & _ & _ & _ & Hroot).
  - intros x s. simpl. destruct (decide (x = sample_up_meta)) as [->|]; [|discriminate]. intros [= <-]. split; reflexivity.
  - vm_compute in Ep. injection Ep as <-. vm_compute. discriminate.
  - exists w', p, mt. split; [reflexivity|]. split; [exact Hm|exact Hroot].
Defined.

Lemma keeper_environment_witness :
  ("CC" : str) ∉ (devcroft_env (H1 := sample_codec) (plain_plan []) [] [] "/sh" "/p" None None).*1 ∧
  command_env (keeper_env up_manifest sample_resolution (Some (4000%N, "t" : str))) (keeper_unset up_manifest sample_resolution)
    (devcroft_env (H1 := sample_codec) (plain_plan []) [] [] "/sh" "/p" None None) !! ("CC" : str) = None.
Proof.
  assert (("CC" : str) ∉ (devcroft_env (H1 := sample_codec) (plain_plan []) [] [] "/sh" "/p" None None).*1) as Hk.
  { apply (bool_decide_unpack _). vm_compute. reflexivity. }
  split; [exact Hk|]. rewrite (keeper_environment up_manifest sample_resolution (Some (4000%N, "t" : str)) _ "CC" Hk). reflexivity.
Defined.

(** A world where a keeper is recorded. *)
Definition recorded_world : World :=
  {| w_fs := {[ ("/h/.local/share/devcroft/web/keeper.pid" : str) := ("42 777" : str) ]}; w_time := 0; w_events := [] |}.

Lemma already_up_exactly_witness :
  ∃ p, state_paths (Some ("/h" : str)) "web" = Ok p ∧
    @up (sample_host true) sample_provider sample_codec _ recorder up_manifest "/p" plain_up recorded_world =
      (Ok AlreadyUp, {| w_fs := w_fs recorded_world; w_time := 1; w_events := [] |}).
Proof.
  destruct (state_paths (Some ("/h" : str)) "web") as [p|] eqn:Ep; [|vm_compute in Ep; discriminate Ep].
  exists p. split; [reflexivity|].
  apply (@already_up_exactly (sample_host true) sample_provider sample_codec _ recorder up_manifest "/p" plain_up recorded_world
    _ p Ep eq_refl).
  split; [reflexivity|]. split; [|reflexivity]. exists 42%Z. vm_compute in Ep. injection Ep as <-. reflexivity.
Defined.

Lemma recovery_forgets_processes_witness :
  ∃ evs pid port token, w_events (sample_up plain_up recorded_world).2 = evs ∧ Forall not_kill evs ∧
    EvProxy (strs ["a.b"]) pid port token ∈ evs.
Proof.
  destruct (state_paths (Some ("/h" : str)) "web") as [p|] eqn:Ep; [|vm_compute in Ep; discriminate Ep].
  destruct (@recovery_forgets_processes (sample_host false) sample_provider sample_codec _ recorder up_manifest "/p" plain_up
    recorded_world p 42 Ep eq_refl eq_refl) as (evs & He & Hf & Hp).
  - vm_compute in Ep. injection Ep as <-. reflexivity.
  - intros kind root f. reflexivity.
  - destruct Hp as (pid & port & token & Hin); [vm_compute; reflexivity|vm_compute; reflexivity|].
    exists evs, pid, port, token. split; [exact He|]. split; [exact Hf|exact Hin].
Defined.

(** The first keeper started. *)
Definition keeper_started (evs : list event) : option (Z * KeeperLaunch) :=
  head (omap (λ ev, match ev with EvKeeper pid l => Some (pid, l) | _ => None end) evs).

Lemma keeper_started_elem evs pid l : keeper_started evs = Some (pid, l) → EvKeeper pid l ∈ evs.
Proof.
  unfold keeper_started. intros Hh. assert ((pid, l) ∈ omap (λ ev, match ev with EvKeeper pid l => Some (pid, l) | _ => None end) evs) as Hin.
  { destruct (omap _ _); [done|]. injection Hh as ->. by left. }
  apply list_elem_of_omap in Hin as (ev & Hev & He). destruct ev; try done. by injection He as -> ->.
Qed.

Lemma keeper_confined_witness :
  ∃ evs pid l, keeper_started evs = Some (pid, l) ∧ confined_launch
    (H := sample_host false) (H1 := sample_codec) (caps := list cap_call) up_manifest "/p" l.
Proof.
  destruct (sample_up plain_up empty_world) as [r w'] eqn:Eup.
  destruct (keeper_started (w_events w')) as [[pid l]|] eqn:E.
  - exists (w_events w'), pid, l. split; [exact E|].
    refine (@keeper_confined (sample_host false) sample_provider sample_codec _ recorder up_manifest "/p" plain_up empty_world
      (w_events w') pid l _ (keeper_started_elem _ _ _ E)).
    exact (f_equal (λ x, w_events x.2) Eup).
  - exfalso. apply (f_equal (λ x, match keeper_started (w_events x.2) with Some _ => true | None => false end)) in Eup.
    cbn [snd] in Eup. rewrite E in Eup. revert Eup. clear. vm_compute. discriminate.
Defined.
