(* ===== verification/Nix.v ===== *)
(** * The nix provider ([src/provider/nix.rs])

    Resolution reads the development environment as data and never enters the
    shell.  The [nix] commands' outcomes, the file tests and serde's decoding of
    the [print-dev-env] document are parameters. *)

From S2P Require Import Prelude Paths ProviderKind Services Capture Flox.

#[local] Set Default Proof Using "Type".

(** How a command ended: it could not be run, or its success, stdout, stderr. *)
Inductive CommandResult := SpawnError (e : str) | Finished (success : bool) (status stdout stderr : str).

(** One entry of [variables]: its [type] and [value]. *)
Record DevVariable := { var_kind : str; var_value : json }.

Definition no_flake : ProviderError := NoEnvironment "nix" "nix flake init".
Definition nix_missing : ProviderError := MissingBinary "nix" "devcroft doctor".
Definition no_flake_lock : ProviderError := MissingLock "nix" "nix flake lock".

(** [classify_metadata_failure]. *)
Definition classify_metadata_failure (stderr : str) : ProviderError :=
  if contains_str "experimental Nix feature" stderr || contains_str "is disabled" stderr then
    ResolutionFailed ("nix flakes are not enabled; add `experimental-features = nix-command flakes` to nix.conf (see `devcroft doctor`): " ++ trim stderr)
  else if contains_str "cannot connect to daemon" stderr || contains_str "daemon-socket" stderr then
    ResolutionFailed ("cannot reach the nix daemon: " ++ trim stderr)
  else if contains_str "lock file" stderr
       && (contains_str "out of date" stderr || contains_str "does not match" stderr || contains_str "requires" stderr) then
    no_flake_lock
  else ResolutionFailed ("`nix flake metadata` failed: " ++ trim stderr).

Section nix.
(** [serde_json::from_slice::<DevEnv>]: the [variables] in key order. *)
Context (from_slice : str → result str (list (str * DevVariable))).
Context (is_file : str → bool) (nix_bin : option str).
(** [nix flake metadata] and [nix print-dev-env] on a project, the latter with
    a given environment. *)
Context (metadata : str → str → CommandResult) (print_dev_env : str → str → gmap str str → CommandResult).

Definition ensure_flake_present (project_root : str) : result ProviderError unit :=
  if is_file (path_join project_root "flake.nix") then Ok tt else Err no_flake.

Definition ensure_lock_present (project_root : str) : result ProviderError unit :=
  if is_file (path_join project_root "flake.lock") then Ok tt else Err no_flake_lock.

Definition probe_flake_evaluable (bin project_root : str) : result ProviderError unit :=
  match metadata bin project_root with
  | SpawnError e => Err (ResolutionFailed ("running `nix flake metadata`: " ++ e))
  | Finished true _ _ _ => Ok tt
  | Finished false _ _ stderr => Err (classify_metadata_failure (from_utf8_lossy stderr))
  end.

(** The variables devcroft takes: exported, with a string value. *)
Definition exported (entry : str * DevVariable) : option (str * str) :=
  if bool_decide (var_kind entry.2 = ("exported" : str)) then
    match var_value entry.2 with JStr value => Some (entry.1, value) | _ => None end
  else None.

Definition parse_dev_env_json (raw : str) : result ProviderError (gmap str str) :=
  match from_slice raw with
  | Err e => Err (ResolutionFailed ("parsing `nix print-dev-env --json` output: " ++ e))
  | Ok variables => Ok (collect_map (omap exported variables))
  end.

Definition nix_capture_activated_env (bin project_root : str) (base : gmap str str) : result ProviderError (gmap str str) :=
  match print_dev_env bin project_root base with
  | SpawnError e => Err (ResolutionFailed ("running `nix print-dev-env`: " ++ e))
  | Finished false status _ stderr =>
      Err (ResolutionFailed ("`nix print-dev-env` exited with " ++ status ++ ": " ++ from_utf8_lossy stderr))
  | Finished true _ stdout _ => parse_dev_env_json stdout
  end.

(** [NixProvider::resolve]. *)
Definition nix_resolve (home : option str) (project_root : str) : result ProviderError Resolution :=
  _ ← ensure_flake_present project_root;
  bin ← ok_or nix_missing nix_bin;
  _ ← ensure_lock_present project_root;
  _ ← probe_flake_evaluable bin project_root;
  baseline ← canonical_base_env home;
  activated ← nix_capture_activated_env bin project_root baseline;
  Ok {| res_env := changed_env baseline activated; res_unset := unset_env baseline activated;
        res_read_only_grants := store_grants activated; res_services := Unsupported;
        res_ran_activation_hook := false; res_activation_script := None |}.

Definition flake_fingerprint (f : fs) (project_root : str) : result ProviderError str :=
  _ ← ensure_flake_present project_root;
  let flake_path := path_join project_root "flake.nix" in
  flake ← ok_or (ResolutionFailed ("reading " ++ flake_path)) (f !! flake_path);
  Ok (fingerprint [flake; optional_file_part (f !! path_join project_root "flake.lock")]).

(** ** Lemmas *)

Lemma lookup_collect_foldl (l : list (str * str)) (m : gmap str str) k :
  NoDup (l.*1) → foldl (λ m '(k, v), <[k := v]> m) m l !! k =
    match find (λ p, bool_decide (p.1 = k)) l with Some p => Some p.2 | None => m !! k end.
Proof.
  revert m. induction l as [|[k' v] l IH]; intros m Hnd; [done|]. cbn [fmap list_fmap fst] in Hnd.
  apply NoDup_cons in Hnd as [Hn Hnd]. cbn [foldl find fst]. rewrite IH by done.
  case_bool_decide as Hk; [|by rewrite lookup_insert_ne by done].
  subst k'. rewrite lookup_insert_eq. destruct (find _ l) as [p|] eqn:Ef; [|done].
  apply find_some in Ef as [Hp Hk%bool_decide_eq_true]. exfalso. apply Hn. rewrite <- Hk. by apply list_elem_of_fmap_2.
Qed.

Lemma omap_exported_keys variables : NoDup (variables.*1) → NoDup ((omap exported variables).*1).
Proof.
  induction variables as [|[k v] l IH]; intros Hnd; [constructor|]. cbn [fmap list_fmap fst] in Hnd.
  apply NoDup_cons in Hnd as [Hn Hnd]. simpl. destruct (exported (k, v)) as [[k' v']|] eqn:Ee; [|by apply IH].
  simpl. apply NoDup_cons. split; [|by apply IH].
  assert (k' = k) as -> by (revert Ee; unfold exported; case_bool_decide; [|done]; destruct (var_value _); try done; by intros [= <- _]).
  intros Hin. apply Hn. apply list_elem_of_fmap in Hin as ([k1 v1] & -> & Hin).
  apply list_elem_of_omap in Hin as ([k2 v2] & Hin & He).
  assert (k1 = k2) as -> by (revert He; unfold exported; case_bool_decide; [|done]; destruct (var_value _); try done; by intros [= <- _]).
  by apply (list_elem_of_fmap_2 fst) in Hin.
Qed.

Lemma exported_spec k v k' s : exported (k, v) = Some (k', s) ↔ k' = k ∧ v = {| var_kind := "exported"; var_value := JStr s |}.
Proof.
  unfold exported. cbn [fst snd]. destruct v as [kind val]. cbn [var_kind var_value]. case_bool_decide as Hk.
  - subst. destruct val; split; try (by intros [=]); try (by intros [_ [=]]); [by intros [= -> ->]|by intros [-> [= ->]]].
  - split; [done|]. intros [_ [= -> _]]. done.
Qed.

(** What the parsed environment contains. *)
Lemma parse_dev_env_lookup raw variables env k s :
  from_slice raw = Ok variables → NoDup (variables.*1) → parse_dev_env_json raw = Ok env →
  env !! k = Some s ↔ (k, {| var_kind := "exported"; var_value := JStr s |}) ∈ variables.
Proof.
  intros Hs Hnd. unfold parse_dev_env_json. rewrite Hs. intros [= <-].
  unfold collect_map. rewrite lookup_collect_foldl by (by apply omap_exported_keys). rewrite lookup_empty.
  pose proof (omap_exported_keys _ Hnd) as Hnd'. split.
  - destruct (find _ _) as [[k' s']|] eqn:Ef; [|done]. intros [= ->].
    apply find_some in Ef as [Hin Hk%bool_decide_eq_true]. simpl in Hk. subst k'.
    apply list_elem_of_omap in Hin as ([k2 v2] & Hin & He). by apply exported_spec in He as [-> ->].
  - intros Hin. assert ((k, s) ∈ omap exported variables) as Ho.
    { apply list_elem_of_omap. eexists. split; [exact Hin|]. by apply exported_spec. }
    destruct (find _ _) as [[k' s']|] eqn:Ef.
    + apply find_some in Ef as [Hin' Hk%bool_decide_eq_true]. simpl in Hk. subst k'. f_equal. simpl.
      apply list_elem_of_lookup in Hin' as [i Hi]. apply list_elem_of_lookup in Ho as [j Hj].
      assert (i = j) as ->.
      { eapply NoDup_lookup; [exact Hnd'|..]; by rewrite list_lookup_fmap, ?Hi, ?Hj. }
      congruence.
    + rewrite find_none in Ef. specialize (Ef _ Ho). simpl in Ef. by rewrite bool_decide_true in Ef.
Qed.

(** What a nix resolution records. *)
Lemma nix_resolve_delta home root res :
  nix_resolve home root = Ok res →
  res_ran_activation_hook res = false ∧ res_activation_script res = None ∧ res_services res = Unsupported ∧
  ∃ base activated, canonical_base_env home = Ok base ∧ apply_delta base (res_env res) (res_unset res) = activated ∧
    res_read_only_grants res = store_grants activated.
Proof.
  unfold nix_resolve, mbind, result_bind. destruct (ensure_flake_present root); [|done].
  destruct (ok_or nix_missing nix_bin) as [bin|]; [|done]. destruct (ensure_lock_present root); [|done].
  destruct (probe_flake_evaluable bin root); [|done]. destruct (canonical_base_env home) as [base|]; [|done].
  destruct (nix_capture_activated_env bin root base) as [act|]; [|done]. intros [= <-]. do 3 (split; [done|]).
  exists base, act. split; [done|]. split; [apply apply_delta_exact|done].
Qed.

(** Nix resolution, on every branch: it succeeds exactly when the flake and
    its lock are files, nix is there, the flake evaluates without touching the
    lock, [HOME] is set and the environment could be read; the checks come in
    that order, so the first that fails names the error and no nix command runs
    before the flake is known to exist; and the recorded delta, applied to the
    baseline, is exactly the exported string variables of the flake. *)
Theorem nix_resolve_spec home root :
  match nix_resolve home root with
  | Ok res =>
      ∃ bin h out status err variables baseline activated,
        is_file (path_join root "flake.nix") = true ∧ nix_bin = Some bin ∧ is_file (path_join root "flake.lock") = true ∧
        probe_flake_evaluable bin root = Ok tt ∧ home = Some h ∧ canonical_base_env (Some h) = Ok baseline ∧
        print_dev_env bin root baseline = Finished true status out err ∧ from_slice out = Ok variables ∧
        apply_delta baseline (res_env res) (res_unset res) = activated ∧ res_read_only_grants res = store_grants activated ∧
        res_services res = Unsupported ∧
        (NoDup (variables.*1) → ∀ k s, activated !! k = Some s ↔ (k, {| var_kind := "exported"; var_value := JStr s |}) ∈ variables)
  | Err e =>
      (is_file (path_join root "flake.nix") = false ∧ e = no_flake) ∨
      is_file (path_join root "flake.nix") = true ∧
      ((nix_bin = None ∧ e = nix_missing) ∨
       ∃ bin, nix_bin = Some bin ∧
         ((is_file (path_join root "flake.lock") = false ∧ e = no_flake_lock) ∨
          is_file (path_join root "flake.lock") = true ∧
          (probe_flake_evaluable bin root = Err e ∨
           probe_flake_evaluable bin root = Ok tt ∧ ∃ msg, e = ResolutionFailed msg)))
  end.
Proof.
  unfold nix_resolve, ensure_flake_present, ensure_lock_present.
  destruct (is_file (path_join root "flake.nix")); [|by left]. cbn [mbind result_bind].
  destruct nix_bin as [bin|]; [|right; split; [done|by left]]. cbn [mbind result_bind ok_or].
  destruct (is_file (path_join root "flake.lock")); [|right; split; [done|]; right; exists bin; split; [done|by left]].
  cbn [mbind result_bind]. destruct (probe_flake_evaluable bin root) as [[]|e] eqn:Ep; cbn [mbind result_bind];
    [|right; split; [done|]; right; exists bin; split; [done|]; right; split; [done|]; by left].
  destruct home as [h|]; cbn [mbind result_bind canonical_base_env].
  2: { right. split; [done|]. right. exists bin. split; [done|]. right. split; [done|]. right. split; [done|]. by eexists. }
  unfold nix_capture_activated_env. set (baseline := {[ _ := _ ; _ := _ ]}).
  destruct (print_dev_env bin root baseline) as [e|[] status out err] eqn:Ee; cbn [mbind result_bind].
  1,3: right; split; [done|]; right; exists bin; split; [done|]; right; split; [done|]; right; split; [done|]; by eexists.
  unfold parse_dev_env_json. destruct (from_slice out) as [variables|e] eqn:Ev; cbn [mbind result_bind].
  2: { right. split; [done|]. right. exists bin. split; [done|]. right. split; [done|]. right. split; [done|]. by eexists. }
  exists bin, h, out, status, err, variables, baseline, (collect_map (omap exported variables)).
  do 8 (split; [done|]). split; [apply apply_delta_exact|]. do 2 (split; [done|]).
  intros Hnd k s. apply (parse_dev_env_lookup out); [done..|]. unfold parse_dev_env_json. by rewrite Ev.
Qed.
End nix.
