(* ===== verification/Devbox.v ===== *)
(** * The devbox provider ([src/provider/devbox.rs])

    Reading [devbox.json] (JSON with comments and trailing commas), the check
    that nothing has to be resolved, and the resolution, which restores a lock
    file that the capture rewrote.  The [devbox], [nix] and [sh] commands and
    [serde_json] are parameters. *)

From S2P Require Import Prelude Paths ProviderKind Services Capture Flox Nix.

#[local] Set Default Proof Using "Type".

(** ** JSON with comments, on the [char]s of the text *)

Definition QUOTE_CHAR : char := 34%N.
Definition BACKSLASH : char := 92%N.
Definition SLASH_CHAR : char := 47%N.
Definition STAR : char := 42%N.
Definition NL_CHAR : char := 10%N.
Definition COMMA : char := 44%N.

(** Where the scan is: in the document, in a string (with whether the last
    character was an escape), in a line or in a block comment (with the
    previous character). *)
Inductive scan := Code | InString (escaped : bool) | LineComment | BlockComment (prev : char).

(** The state after a character of a string. *)
Definition in_string (escaped : bool) (c : char) : scan :=
  if escaped then InString false
  else if decide (c = BACKSLASH) then InString true
  else if decide (c = QUOTE_CHAR) then Code
  else InString false.

(** [strip_comments]. *)
Fixpoint strip_comments (m : scan) (l : list char) : list char :=
  match l with
  | [] => []
  | c :: l' =>
      match m with
      | InString escaped => c :: strip_comments (in_string escaped c) l'
      | LineComment => if decide (c = NL_CHAR) then NL_CHAR :: strip_comments Code l' else strip_comments LineComment l'
      | BlockComment prev =>
          if decide (prev = STAR ∧ c = SLASH_CHAR) then strip_comments Code l'
          else if decide (c = NL_CHAR) then NL_CHAR :: strip_comments (BlockComment c) l'
          else strip_comments (BlockComment c) l'
      | Code =>
          if decide (c = QUOTE_CHAR) then c :: strip_comments (InString false) l'
          else if decide (c = SLASH_CHAR) then
            match l' with
            | d :: l'' =>
                if decide (d = SLASH_CHAR) then strip_comments LineComment l'
                else if decide (d = STAR) then strip_comments (BlockComment 0%N) l''
                else c :: strip_comments Code l'
            | [] => [c]
            end
          else c :: strip_comments Code l'
      end
  end.

Definition closes (l : list char) : bool :=
  match head (drop_while is_whitespace l) with Some c => bool_decide (c = 125%N ∨ c = 93%N) | None => false end.

(** [strip_trailing_commas]: [Some escaped] in a string. *)
Fixpoint strip_trailing_commas (str_state : option bool) (l : list char) : list char :=
  match l with
  | [] => []
  | c :: l =>
      match str_state with
      | Some escaped =>
          c :: strip_trailing_commas (match in_string escaped c with InString e => Some e | _ => None end) l
      | None =>
          if decide (c = QUOTE_CHAR) then c :: strip_trailing_commas (Some false) l
          else if decide (c = COMMA) then
            if closes l then strip_trailing_commas None l else c :: strip_trailing_commas None l
          else c :: strip_trailing_commas None l
      end
  end.

Definition strip_jsonc (text : list char) : list char := strip_trailing_commas None (strip_comments Code text).

(** ** The resolution *)

Definition no_devbox : ProviderError := NoEnvironment "devbox" "devbox init".
Definition devbox_lock_missing : ProviderError := MissingLock "devbox" "devbox install".

(** [package_key]. *)
Definition package_key (name : str) (value : json) : str :=
  let version := match value with
                 | JStr v => Some v
                 | JObj table => map_find "version" table ≫= json_as_str
                 | _ => None
                 end in
  match version with Some v => name ++ "@" ++ v | None => name end.

Section devbox.
Context (from_str : str → result str json).
Context (is_file : fs → str → bool) (devbox_bin nix_bin : option str) (nix_eval : str → bool).
(** [devbox shellenv --pure], which may write files; evaluating its output in [sh]. *)
Context (shellenv : str → str → gmap str str → fs → CommandResult * fs)
        (eval_env : str → str → gmap str str → CommandResult).
(** Whether writing back and removing the lock file succeed. *)
Context (restore_error : option str).

Definition json_path (root : str) : str := path_join root "devbox.json".
Definition lock_path (root : str) : str := path_join root "devbox.lock".

Definition ensure_project_present (f : fs) (root : str) : result ProviderError unit :=
  if is_file f (json_path root) then Ok tt else Err no_devbox.

Definition ensure_nix_usable : result ProviderError unit :=
  nix ← ok_or (MissingBinary "nix" "devcroft doctor") nix_bin;
  if nix_eval nix then Ok tt else Err (ResolutionFailed "devbox requires a usable Nix, but `nix eval` failed on this host").

Definition parse_devbox_json (f : fs) (path : str) : result ProviderError json :=
  text ← read_text f path;
  map_err (λ e, ResolutionFailed ("parsing " ++ path ++ ": " ++ e)) (from_str (of_chars (strip_jsonc (chars text)))).

Definition declared_package_keys (f : fs) (root : str) : result ProviderError (list str) :=
  parsed ← parse_devbox_json f (json_path root);
  match json_get "packages" parsed with
  | None => Ok []
  | Some (JArr items) =>
      try_map (λ v, ok_or (ResolutionFailed (json_path root ++ "'s `packages` array has a non-string entry")) (json_as_str v)) items
  | Some (JObj m) => Ok ((λ '(name, value), package_key name value) <$> m)
  | Some _ => Err (ResolutionFailed (json_path root ++ "'s `packages` field is neither a list nor a table"))
  end.

Definition read_lock (f : fs) (root : str) : option str := f !! lock_path root.

Definition locked_keys (parsed : json) : list str :=
  match json_get "packages" parsed with Some (JObj m) => m.*1 | _ => [] end.

Definition ensure_everything_locked (f : fs) (root : str) : result ProviderError unit :=
  declared ← declared_package_keys f root;
  if bool_decide (declared = []) then Ok tt
  else if negb (is_file f (lock_path root)) then Err devbox_lock_missing
  else
    parsed ← parse_devbox_json f (lock_path root);
    try_for_each (λ key,
      if member key (locked_keys parsed) then Ok tt
      else Err (ResolutionFailed ("package `" ++ key ++ "` is declared in devbox.json but has no resolution in devbox.lock; run `devbox install`")))
      declared.

(** [restore_lock_if_capture_resolved]. *)
Definition restore_lock_if_capture_resolved (root : str) (before : option str) (f : fs) : result ProviderError unit * fs :=
  if bool_decide (read_lock f root = before) then (Ok tt, f)
  else
    match restore_error with
    | Some e => (Err (ResolutionFailed ("devbox resolved during `up` and rewrote " ++ lock_path root ++ ", and restoring it failed: " ++ e)), f)
    | None =>
        (Err (ResolutionFailed ("devbox resolved packages while capturing the environment and rewrote " ++ lock_path root)),
         match before with Some bytes => <[lock_path root := bytes]> f | None => delete (lock_path root) f end)
    end.

Definition is_ascii_whitespace (c : ascii) : bool :=
  let b := byte c in ((b =? 32) || (b =? 9) || (b =? 10) || (b =? 12) || (b =? 13))%N.

Definition devbox_capture_activated_env (bin root : str) (base : gmap str str) (f : fs) : result ProviderError (gmap str str) * fs :=
  let '(ran, f) := shellenv bin root base f in
  (match ran with
   | SpawnError e => Err (ResolutionFailed ("running `devbox shellenv`: " ++ e))
   | Finished false status _ stderr =>
       Err (ResolutionFailed ("`devbox shellenv --pure` exited with " ++ status ++ ": " ++ trim (from_utf8_lossy stderr)))
   | Finished true _ script _ =>
       if forallb is_ascii_whitespace script then Err (ResolutionFailed "`devbox shellenv --pure` succeeded but printed no environment")
       else
         match eval_env script root base with
         | SpawnError e => Err (ResolutionFailed ("evaluating `devbox shellenv` output: " ++ e))
         | Finished false status _ stderr =>
             Err (ResolutionFailed ("evaluating `devbox shellenv --pure` output exited with " ++ status ++ ": " ++ trim (from_utf8_lossy stderr)))
         | Finished true _ dump _ => Ok (parse_env_dump dump)
         end
   end, f).

(** The checks before anything runs. *)
Definition devbox_checks (f : fs) (root : str) : result ProviderError str :=
  _ ← ensure_project_present f root;
  bin ← ok_or (MissingBinary "devbox" "devcroft doctor") devbox_bin;
  _ ← ensure_nix_usable;
  _ ← ensure_everything_locked f root;
  Ok bin.

(** [DevboxProvider::resolve]. *)
Definition devbox_resolve (home : option str) (root : str) (f : fs) : result ProviderError Resolution * fs :=
  match devbox_checks f root with
  | Err e => (Err e, f)
  | Ok bin =>
      let lock_before := read_lock f root in
      match canonical_base_env home with
      | Err e => (Err e, f)
      | Ok baseline =>
          match devbox_capture_activated_env bin root baseline f with
          | (Err e, f) => (Err e, f)
          | (Ok activated, f) =>
              match restore_lock_if_capture_resolved root lock_before f with
              | (Err e, f) => (Err e, f)
              | (Ok _, f) =>
                  (Ok {| res_env := changed_env baseline activated; res_unset := unset_env baseline activated;
                         res_read_only_grants := store_grants activated; res_services := Unsupported;
                         res_ran_activation_hook := false; res_activation_script := None |}, f)
              end
          end
      end
  end.

Definition devbox_fingerprint (f : fs) (root : str) : result ProviderError str :=
  _ ← ensure_project_present f root;
  json ← ok_or (ResolutionFailed ("reading " ++ json_path root)) (f !! json_path root);
  Ok (fingerprint [json; optional_file_part (f !! lock_path root)]).
End devbox.

(** ** The reference: a document as tokens *)

Inductive token :=
| TChar (c : char)
| TText (body : list char)
| TLine (body : list char)
| TBlock (body : list char).

Definition show_token (t : token) : list char :=
  match t with
  | TChar c => [c]
  | TText body => QUOTE_CHAR :: body ++ [QUOTE_CHAR]
  | TLine body => SLASH_CHAR :: SLASH_CHAR :: body ++ [NL_CHAR]
  | TBlock body => SLASH_CHAR :: STAR :: body ++ [STAR; SLASH_CHAR]
  end.

Definition show_tokens (ts : list token) : list char := mjoin (show_token <$> ts).

(** The inside of a string literal: no bare quote, no unfinished escape. *)
Fixpoint text_ok (escaped : bool) (body : list char) : Prop :=
  match body with
  | [] => escaped = false
  | c :: body => if escaped then text_ok false body
                 else if decide (c = BACKSLASH) then text_ok true body
                 else c ≠ QUOTE_CHAR ∧ text_ok false body
  end.

Fixpoint block_ok (prev : char) (body : list char) : Prop :=
  match body with
  | [] => True
  | c :: body => ¬ (prev = STAR ∧ c = SLASH_CHAR) ∧ block_ok c body
  end.

Definition token_ok (t : token) : Prop :=
  match t with
  | TChar c => c ≠ QUOTE_CHAR ∧ c ≠ SLASH_CHAR
  | TText body => text_ok false body
  | TLine body => NL_CHAR ∉ body
  | TBlock body => block_ok 0%N body
  end.

(** Comments become their line breaks; strings and everything else stay. *)
Definition newlines (body : list char) : list token := TChar <$> List.filter (λ c, bool_decide (c = NL_CHAR)) body.

Definition uncomment (ts : list token) : list token :=
  ts ≫= λ t, match t with TLine _ => [TChar NL_CHAR] | TBlock body => newlines body | _ => [t] end.

Fixpoint closing_next (ts : list token) : bool :=
  match ts with
  | TChar c :: ts => if is_whitespace c then closing_next ts else bool_decide (c = 125%N ∨ c = 93%N)
  | _ => false
  end.

(** A comma before a closing bracket goes. *)
Fixpoint drop_commas (ts : list token) : list token :=
  match ts with
  | [] => []
  | t :: ts => if (match t with TChar c => bool_decide (c = COMMA) | _ => false end) && closing_next ts
               then drop_commas ts else t :: drop_commas ts
  end.

(** ** Lemmas *)

Lemma strip_text body escaped rest :
  text_ok escaped body →
  strip_comments (InString escaped) (body ++ QUOTE_CHAR :: rest) = body ++ QUOTE_CHAR :: strip_comments Code rest.
Proof.
  revert escaped. induction body as [|c body IH]; intros escaped Hb; simpl in Hb.
  - subst. done.
  - cbn [app strip_comments]. f_equal. unfold in_string. destruct escaped; [by apply IH|].
    destruct (decide (c = BACKSLASH)); [by apply IH|]. destruct Hb as [Hq Hb]. rewrite decide_False by done. by apply IH.
Qed.

Lemma strip_line body rest :
  NL_CHAR ∉ body → strip_comments LineComment (body ++ NL_CHAR :: rest) = NL_CHAR :: strip_comments Code rest.
Proof.
  induction body as [|c body IH]; intros Hb; [done|]. rewrite not_elem_of_cons in Hb.
  cbn [app strip_comments]. rewrite decide_False by naive_solver. apply IH. naive_solver.
Qed.

Lemma strip_block body prev rest :
  block_ok prev body →
  strip_comments (BlockComment prev) (body ++ STAR :: SLASH_CHAR :: rest) =
    show_tokens (newlines body) ++ strip_comments Code rest.
Proof.
  revert prev. induction body as [|c body IH]; intros prev Hb.
  - cbn [app strip_comments]. rewrite decide_False by (by intros [_ ?]). rewrite decide_False by done. by rewrite decide_True.
  - destruct Hb as [Hc Hb]. cbn [app strip_comments]. rewrite decide_False by done. unfold newlines. cbn [List.filter].
    destruct (decide (c = NL_CHAR)) as [->|Hn].
    + rewrite bool_decide_true by done. rewrite IH by done. done.
    + rewrite bool_decide_false by done. by apply IH.
Qed.

Lemma show_tokens_app ts1 ts2 : show_tokens (ts1 ++ ts2) = show_tokens ts1 ++ show_tokens ts2.
Proof. unfold show_tokens. by rewrite fmap_app, join_app. Qed.

Lemma show_tokens_cons t ts : show_tokens (t :: ts) = show_token t ++ show_tokens ts.
Proof. done. Qed.

Lemma strip_comments_tokens ts : Forall token_ok ts → strip_comments Code (show_tokens ts) = show_tokens (uncomment ts).
Proof.
  induction 1 as [|t ts Ht Hts IH]; [done|]. rewrite show_tokens_cons.
  change (uncomment (t :: ts)) with ((match t with TLine _ => [TChar NL_CHAR] | TBlock body => newlines body | _ => [t] end) ++ uncomment ts).
  rewrite show_tokens_app, <- IH. destruct t as [c|body|body|body]; cbn [show_token app].
  - destruct Ht as [Hq Hs]. cbn [strip_comments]. by rewrite !decide_False by done.
  - cbn [strip_comments]. rewrite decide_True by done. rewrite <- app_assoc. cbn [app]. rewrite strip_text by done.
    unfold show_tokens at 2. cbn [fmap list_fmap mjoin list_join show_token app]. by rewrite app_nil_r, <- app_assoc.
  - cbn [strip_comments]. rewrite decide_False, decide_True, decide_True by done. rewrite decide_False by done.
    rewrite <- app_assoc. cbn [app]. by rewrite strip_line.
  - cbn [strip_comments]. rewrite decide_False, decide_True, decide_False, decide_True by done.
    rewrite <- app_assoc. cbn [app]. by rewrite strip_block.
Qed.

Definition plain_token (t : token) : Prop := token_ok t ∧ match t with TChar _ | TText _ => True | _ => False end.

Lemma uncomment_plain ts : Forall token_ok ts → Forall plain_token (uncomment ts).
Proof.
  induction 1 as [|t ts Ht Hts IH]; [constructor|]. apply Forall_app. split; [|exact IH].
  destruct t as [c|body|body|body]; try (apply Forall_singleton; by split).
  unfold newlines. apply Forall_fmap, Forall_forall. intros c [_ Hc%bool_decide_eq_true]%elem_of_filter_bool. by subst.
Qed.

Lemma closes_tokens ts : Forall plain_token ts → closes (show_tokens ts) = closing_next ts.
Proof.
  unfold closes. induction 1 as [|t ts [Ht Hp] Hts IH]; [done|]. rewrite show_tokens_cons.
  destruct t as [c|body|body|body]; cbn [show_token app drop_while closing_next]; try done.
  destruct (is_whitespace c); [exact IH|done].
Qed.

Lemma trailing_text body escaped rest :
  text_ok escaped body →
  strip_trailing_commas (Some escaped) (body ++ QUOTE_CHAR :: rest) = body ++ QUOTE_CHAR :: strip_trailing_commas None rest.
Proof.
  revert escaped. induction body as [|c body IH]; intros escaped Hb; simpl in Hb.
  - subst. done.
  - cbn [app strip_trailing_commas]. f_equal. unfold in_string. destruct escaped; [by apply IH|].
    destruct (decide (c = BACKSLASH)); [by apply IH|]. destruct Hb as [Hq Hb]. rewrite decide_False by done. by apply IH.
Qed.

Lemma strip_trailing_tokens ts :
  Forall plain_token ts → strip_trailing_commas None (show_tokens ts) = show_tokens (drop_commas ts).
Proof.
  induction 1 as [|t ts [Ht Hp] Hts IH]; [done|]. rewrite show_tokens_cons. cbn [drop_commas].
  destruct t as [c|body|body|body]; cbn [show_token app]; try done.
  - destruct Ht as [Hq _]. cbn [strip_trailing_commas]. rewrite decide_False by done. rewrite closes_tokens by done.
    destruct (decide (c = COMMA)) as [->|Hc].
    + rewrite bool_decide_true by done. cbn [andb]. destruct (closing_next ts); [exact IH|]. by rewrite show_tokens_cons, IH.
    + rewrite bool_decide_false by done. cbn [andb]. by rewrite show_tokens_cons, IH.
  - cbn [strip_trailing_commas]. rewrite decide_True by done. rewrite <- app_assoc. cbn [app]. rewrite trailing_text by done.
    cbn [andb]. rewrite show_tokens_cons. cbn [show_token app]. by rewrite <- app_assoc, IH.
Qed.

(** Reading a devbox file strips exactly what devbox tolerates: for any
    document made of characters, string literals and comments, comments go but
    for their line breaks, a comma goes when only white space or comments stand
    between it and a closing bracket, and nothing else changes; in particular
    string literals are kept whatever they contain. *)
Theorem strip_jsonc_tokens ts (Hok : Forall token_ok ts) :
  strip_jsonc (show_tokens ts) = show_tokens (drop_commas (uncomment ts)).
Proof.
  unfold strip_jsonc. rewrite strip_comments_tokens by done. apply strip_trailing_tokens. by apply uncomment_plain.
Qed.

Section devbox_spec.
Context (from_str : str → result str json).
Context (is_file : fs → str → bool) (devbox_bin nix_bin : option str) (nix_eval : str → bool).
Context (shellenv : str → str → gmap str str → fs → CommandResult * fs)
        (eval_env : str → str → gmap str str → CommandResult).
Context (restore_error : option str).

Abbreviation checks := (devbox_checks from_str is_file devbox_bin nix_bin nix_eval).
Abbreviation resolved := (devbox_resolve from_str is_file devbox_bin nix_bin nix_eval shellenv eval_env restore_error).

Lemma everything_locked_ok f root :
  ensure_everything_locked from_str is_file f root = Ok tt →
  ∃ declared, declared_package_keys from_str f root = Ok declared ∧
    (declared = [] ∨ ∃ lock, is_file f (lock_path root) = true ∧ parse_devbox_json from_str f (lock_path root) = Ok lock ∧
      ∀ key, key ∈ declared → key ∈ locked_keys lock).
Proof.
  unfold ensure_everything_locked. destruct (declared_package_keys _ _ _) as [declared|]; [|done]. cbn [mbind result_bind].
  case_bool_decide as Hd; [intros _; exists declared; by split; [|left]|].
  destruct (is_file f (lock_path root)); [|done]. cbn [negb].
  destruct (parse_devbox_json _ _ _) as [lock|] eqn:El; [|done]. cbn [mbind result_bind].
  intros Hall. exists declared. split; [done|]. right. exists lock. do 2 (split; [done|]).
  intros key Hk. rewrite try_for_each_ok in Hall. specialize (Hall key Hk). destruct (member key _) eqn:Em; [|done].
  by apply member_spec.
Qed.

(** What [resolve] does to the lock file, with where its result came from. *)
Lemma devbox_resolve_inv home root f :
  let '(r, f') := resolved home root f in
  (f' = f ∧ is_ok r = false) ∨
  ∃ bin baseline c f1, checks f root = Ok bin ∧ canonical_base_env home = Ok baseline ∧
    devbox_capture_activated_env shellenv eval_env bin root baseline f = (c, f1) ∧
    match c with
    | Err e => r = Err e ∧ f' = f1
    | Ok activated =>
        if decide (read_lock f1 root = read_lock f root)
        then f' = f1 ∧ ∃ res, r = Ok res ∧ apply_delta baseline (res_env res) (res_unset res) = activated ∧
          res_read_only_grants res = store_grants activated ∧ res_ran_activation_hook res = false ∧
          res_activation_script res = None ∧ res_services res = Unsupported
        else (∃ msg, r = Err (ResolutionFailed msg)) ∧
          match restore_error with
          | Some _ => f' = f1
          | None => f' = match read_lock f root with Some bytes => <[lock_path root := bytes]> f1 | None => delete (lock_path root) f1 end
          end
    end.
Proof.
  unfold devbox_resolve. destruct (checks f root) as [bin|e] eqn:Ec; [|by left].
  destruct (canonical_base_env home) as [baseline|e] eqn:Eb; [|by left].
  destruct (devbox_capture_activated_env _ _ _ _ _ _) as [[activated|e] f1] eqn:Ea.
  2: { right. exists bin, baseline, (Err e), f1. do 3 (split; [done|]). done. }
  unfold restore_lock_if_capture_resolved. case_bool_decide as Hl.
  - right. exists bin, baseline, (Ok activated), f1. do 3 (split; [done|]). rewrite decide_True by done.
    split; [done|]. eexists. split; [done|]. split; [apply apply_delta_exact|done].
  - destruct restore_error as [e|] eqn:Er; right; exists bin, baseline, (Ok activated), f1; do 3 (split; [done|]);
      rewrite decide_False by done; (split; [by eexists|done]).
Qed.

(** Devbox resolution never decides a version: when it succeeds, every
    package the project declares had its entry in the lock file before anything
    ran and the lock file is byte for byte what it was, and the environment
    recorded is what the activation printed; when the capture worked but
    rewrote the lock file, it fails and, unless writing fails, the lock file is
    restored. *)
Theorem devbox_lock_respected home root f :
  match resolved home root f with
  | (Ok res, f') =>
      read_lock f' root = read_lock f root ∧
      (∃ declared, declared_package_keys from_str f root = Ok declared ∧
        (declared = [] ∨ ∃ lock, is_file f (lock_path root) = true ∧ parse_devbox_json from_str f (lock_path root) = Ok lock ∧
          ∀ key, key ∈ declared → key ∈ locked_keys lock)) ∧
      ∃ bin baseline f1 activated,
        devbox_capture_activated_env shellenv eval_env bin root baseline f = (Ok activated, f1) ∧
        apply_delta baseline (res_env res) (res_unset res) = activated
  | (Err e, f') =>
      ∀ bin baseline f1 activated, checks f root = Ok bin → canonical_base_env home = Ok baseline →
        devbox_capture_activated_env shellenv eval_env bin root baseline f = (Ok activated, f1) →
        restore_error = None → read_lock f' root = read_lock f root
  end.
Proof.
  pose proof (devbox_resolve_inv home root f) as Hi. destruct (resolved home root f) as [[res|e] f'].
  - destruct Hi as [(_ & Hr)|(bin & baseline & c & f1 & Hc & Hb & Ha & Hr)]; [done|].
    destruct c as [activated|]; [|by destruct Hr]. destruct (decide _) as [Hl|]; [|by destruct Hr as [[] _]].
    destruct Hr as (-> & res' & Hres & Hd & _). apply ok_inj in Hres as <-. split; [done|]. split; [|by exists bin, baseline, f1, activated].
    apply everything_locked_ok. unfold devbox_checks in Hc.
    destruct (ensure_project_present _ _ _); [|done]. destruct devbox_bin; [|done]. cbn [mbind result_bind ok_or] in Hc.
    destruct (ensure_nix_usable _ _); [|done]. cbn [mbind result_bind] in Hc. by destruct (ensure_everything_locked _ _ _ _) as [[]|].
  - intros bin' baseline' f1' act' Hc' Hb' Ha' Hre.
    destruct Hi as [(-> & _)|(bin & baseline & c & f1 & Hc & Hb & Ha & Hr)]; [done|].
    rewrite Hc in Hc'. apply ok_inj in Hc' as <-. rewrite Hb in Hb'. apply ok_inj in Hb' as <-. rewrite Ha in Ha'. injection Ha' as -> ->.
    destruct (decide _) as [Hl|Hl]; [by destruct Hr as (-> & res & Hres & _)|]. destruct Hr as [_ Hf]. rewrite Hre in Hf. subst f'.
    unfold read_lock. destruct (f !! lock_path root) as [bytes|]; [by rewrite lookup_insert_eq|by rewrite lookup_delete_eq].
Qed.

(** A capture that fails is not covered: when devbox rewrote the lock file
    and then failed (or its output could not be evaluated), resolution fails
    and the rewritten lock file stays in the project, whatever it holds. *)
Theorem failed_capture_keeps_rewrite home root f bin baseline e f1
    (Hc : checks f root = Ok bin) (Hb : canonical_base_env home = Ok baseline)
    (Ha : devbox_capture_activated_env shellenv eval_env bin root baseline f = (Err e, f1))
    (Hl : read_lock f1 root ≠ read_lock f root) :
  let '(r, f') := resolved home root f in r = Err e ∧ read_lock f' root ≠ read_lock f root.
Proof.
  pose proof (devbox_resolve_inv home root f) as Hi. destruct (resolved home root f) as [r f'] eqn:Er.
  destruct Hi as [(-> & Hr)|(bin' & baseline' & c & f1' & Hc' & Hb' & Ha' & Hr)].
  - unfold devbox_resolve in Er. rewrite Hc, Hb, Ha in Er. by injection Er as <- <-.
  - rewrite Hc in Hc'. apply ok_inj in Hc' as <-. rewrite Hb in Hb'. apply ok_inj in Hb' as <-. rewrite Ha in Ha'. injection Ha' as <- <-.
    by destruct Hr as [-> ->].
Qed.
End devbox_spec.

(** ** A concrete project *)

Definition sample_json : json := JObj [("packages" : str, JArr [JStr "cowsay@latest"])].
Definition sample_lock : json := JObj [("packages" : str, JObj [("cowsay@latest" : str, JNull)])].
Definition sample_from_str (s : str) : result str json := if decide (s = ("L" : str)) then Ok sample_lock else Ok sample_json.
Definition devbox_fs : gmap str str := {[ ("/p/devbox.json" : str) := ("J" : str); ("/p/devbox.lock" : str) := ("L" : str) ]}.
(** devbox resolves its base entry, rewrites the lock file, then fails. *)
Definition failing_shellenv (bin root : str) (base : gmap str str) (f : gmap str str) : CommandResult * gmap str str :=
  (Finished false "1" [] "boom", <[("/p/devbox.lock" : str) := ("LL" : str)]> f).

Lemma strip_jsonc_tokens_witness :
  Forall token_ok [TChar 91%N; TText [47%N; 47%N]; TChar COMMA; TLine [120%N]; TChar 93%N] ∧
  strip_jsonc (show_tokens [TChar 91%N; TText [47%N; 47%N]; TChar COMMA; TLine [120%N]; TChar 93%N]) =
    [91%N; 34%N; 47%N; 47%N; 34%N; 10%N; 93%N].
Proof.
  assert (Forall token_ok [TChar 91%N; TText [47%N; 47%N]; TChar COMMA; TLine [120%N]; TChar 93%N]) as H.
  { apply Forall_cons; split; [|apply Forall_cons; split; [|apply Forall_cons; split; [|apply Forall_cons; split; [|apply Forall_singleton]]]];
      cbn [token_ok text_ok].
    - split; discriminate.
    - do 2 (rewrite decide_False by discriminate; split; [discriminate|]). reflexivity.
    - split; discriminate.
    - apply (bool_decide_unpack _). vm_compute. reflexivity.
    - split; discriminate. }
  split; [exact H|]. rewrite (strip_jsonc_tokens _ H). reflexivity.
Defined.

Definition sample_resolve : result ProviderError Resolution * gmap str str :=
  devbox_resolve sample_from_str (λ f p, bool_decide (is_Some (f !! p))) (Some ("devbox" : str)) (Some ("nix" : str)) (λ _, true)
    failing_shellenv (λ _ _ _, SpawnError []) None (Some ("/h" : str)) "/p" devbox_fs.

Lemma failed_capture_keeps_rewrite_witness :
  is_ok sample_resolve.1 = false ∧ read_lock sample_resolve.2 "/p" ≠ read_lock devbox_fs "/p".
Proof.
  assert (devbox_checks sample_from_str (λ f p, bool_decide (is_Some (f !! p))) (Some ("devbox" : str)) (Some ("nix" : str)) (λ _, true)
    devbox_fs "/p" = Ok ("devbox" : str)) as Hc by (vm_compute; reflexivity).
  assert (canonical_base_env (Some ("/h" : str)) = Ok {[ ("HOME" : str) := ("/h" : str); ("PATH" : str) := CANONICAL_PATH ]}) as Hb
    by reflexivity.
  set (f1 := <[("/p/devbox.lock" : str) := ("LL" : str)]> devbox_fs).
  assert (read_lock f1 "/p" ≠ read_lock devbox_fs "/p") as Hl by (vm_compute; discriminate).
  pose proof (failed_capture_keeps_rewrite sample_from_str (λ f p, bool_decide (is_Some (f !! p))) (Some ("devbox" : str))
    (Some ("nix" : str)) (λ _, true) failing_shellenv (λ _ _ _, SpawnError []) None (Some ("/h" : str)) "/p" devbox_fs "devbox"
    _ (ResolutionFailed ("`devbox shellenv --pure` exited with " ++ "1" ++ ": " ++ trim (from_utf8_lossy "boom"))) f1 Hc Hb eq_refl Hl) as H.
  fold sample_resolve in H. destruct sample_resolve as [r f']. destruct H as [-> H]. split; [reflexivity|exact H].
Defined.
