(* ===== verification/Providers.v ===== *)
(** * Provider dispatch ([src/provider/mod.rs])

    The three providers behind the [Provider] interface [up] is proved against,
    and the staleness check.  The commands, parsers and file tests of each
    provider are parameters, as in its own file; a regular file is an entry of
    the file system. *)

From S2P Require Import Prelude Paths ProviderKind Manifest Services Capture Flox Nix Devbox World SshKeys Up.

#[local] Set Default Proof Using "Type".

Definition regular_file (f : fs) (p : str) : bool := bool_decide (is_Some (f !! p)).

(** ** Fingerprints and staleness *)

Section fingerprints.
Context (is_dir : str → bool).

Definition kind_fingerprint (kind : ProviderKind) (root : str) (f : fs) : result ProviderError str :=
  match kind with
  | ProviderKind.Flox => Flox.manifest_fingerprint is_dir f root
  | ProviderKind.Nix => flake_fingerprint (regular_file f) f root
  | ProviderKind.Devbox => devbox_fingerprint regular_file f root
  end.

(** [manifest_fingerprint] and [is_stale], by provider name. *)
Definition provider_fingerprint (provider root : str) (f : fs) : result ProviderError str :=
  kind ← from_name provider; kind_fingerprint kind root f.

Definition is_stale (provider root recorded : str) (f : fs) : result ProviderError bool :=
  current ← provider_fingerprint provider root f;
  Ok (negb (bool_decide (current = recorded))).

(** ** Lemmas *)

(** The environment definition: the file that declares it and its lock. *)
Definition definition_file (kind : ProviderKind) (root : str) : str :=
  match kind with
  | ProviderKind.Flox => manifest_of root
  | ProviderKind.Nix => path_join root "flake.nix"
  | ProviderKind.Devbox => json_path root
  end.
Definition lock_file (kind : ProviderKind) (root : str) : str :=
  match kind with
  | ProviderKind.Flox => path_join root ".flox/env/manifest.lock"
  | ProviderKind.Nix => path_join root "flake.lock"
  | ProviderKind.Devbox => lock_path root
  end.

Lemma kind_fingerprint_ok kind root f fp :
  kind_fingerprint kind root f = Ok fp ↔
  (kind = ProviderKind.Flox → is_dir (path_join root ".flox") = true) ∧
  ∃ text, f !! definition_file kind root = Some text ∧ fp = fingerprint [text; optional_file_part (f !! lock_file kind root)].
Proof.
  destruct kind; cbn [kind_fingerprint definition_file lock_file].
  - unfold Flox.manifest_fingerprint, ensure_environment_present. destruct (is_dir _); cbn [mbind result_bind].
    + destruct (f !! manifest_of root) as [text|]; cbn [mbind result_bind ok_or]; [|naive_solver].
      split; [intros [= <-]; split; [done|by exists text]|by intros (_ & ? & [= <-] & ->)].
    + naive_solver.
  - unfold flake_fingerprint, ensure_flake_present, regular_file.
    destruct (f !! path_join root "flake.nix") as [text|]; cbn [mbind result_bind ok_or].
    + rewrite bool_decide_true by eauto. cbn [mbind result_bind].
      split; [intros [= <-]; split; [done|by exists text]|by intros (_ & ? & [= <-] & ->)].
    + rewrite bool_decide_false by (by intros []). cbn [mbind result_bind]. naive_solver.
  - unfold devbox_fingerprint, ensure_project_present, regular_file.
    destruct (f !! json_path root) as [text|]; cbn [mbind result_bind ok_or].
    + rewrite bool_decide_true by eauto. cbn [mbind result_bind].
      split; [intros [= <-]; split; [done|by exists text]|by intros (_ & ? & [= <-] & ->)].
    + rewrite bool_decide_false by (by intros []). cbn [mbind result_bind]. naive_solver.
Qed.

(** One byte substituted. *)
Definition substituted (a b : str) : Prop := ∃ pre c c' post, c ≠ c' ∧ a = pre ++ c :: post ∧ b = pre ++ c' :: post.

(** Staleness is detected, for every provider: against the fingerprint
    recorded from the definition and lock files at [up], a project whose two
    files are unchanged is never reported stale, whatever else changed, and one
    in which a byte of either file was substituted always is. *)
Theorem staleness_exact kind root f g recorded
    (Hrec : kind_fingerprint kind root f = Ok recorded) :
  (g !! definition_file kind root = f !! definition_file kind root → g !! lock_file kind root = f !! lock_file kind root →
   is_stale (static_name kind) root recorded g = Ok false) ∧
  (∀ a b, f !! definition_file kind root = Some a → g !! definition_file kind root = Some b → substituted a b →
   g !! lock_file kind root = f !! lock_file kind root → is_stale (static_name kind) root recorded g = Ok true) ∧
  (∀ a b, f !! lock_file kind root = Some a → g !! lock_file kind root = Some b → substituted a b →
   g !! definition_file kind root = f !! definition_file kind root → is_stale (static_name kind) root recorded g = Ok true).
Proof.
  apply kind_fingerprint_ok in Hrec as (Hdir & text & Ht & ->).
  assert (∀ g text', g !! definition_file kind root = Some text' →
    is_stale (static_name kind) root (fingerprint [text; optional_file_part (f !! lock_file kind root)]) g =
      Ok (negb (bool_decide (fingerprint [text'; optional_file_part (g !! lock_file kind root)] =
                             fingerprint [text; optional_file_part (f !! lock_file kind root)])))) as Hs.
  { intros g' text' Hg. unfold is_stale, provider_fingerprint. rewrite from_name_static. cbn [mbind result_bind].
    assert (kind_fingerprint kind root g' = Ok (fingerprint [text'; optional_file_part (g' !! lock_file kind root)])) as ->; [|done].
    apply kind_fingerprint_ok. split; [done|]. by exists text'. }
  split; [|split].
  - intros Hd Hl. rewrite (Hs g text) by congruence. by rewrite Hl, bool_decide_true.
  - intros a b Ha Hb (pre & c & c' & post & Hne & -> & ->) Hl. rewrite (Hs _ _ Hb), Hl, bool_decide_false; [done|].
    rewrite Ht in Ha. injection Ha as ->.
    apply (fingerprint_detects_byte_change [] pre c' c post [optional_file_part (f !! lock_file kind root)]). congruence.
  - intros a b Ha Hb (pre & c & c' & post & Hne & -> & ->) Hd. rewrite (Hs g text) by congruence. rewrite Ha, Hb, bool_decide_false; [done|].
    apply (fingerprint_detects_byte_change [text] ("P"%char :: pre) c' c post []). congruence.
Qed.
End fingerprints.

(** ** Dispatch *)

Section providers.
Context (home : option str) (is_dir : str → bool) (io : DeriveIo).
Context (parse_table : str → result str (list (str * toml))) (toml_to_string : list (str * toml) → result str str)
        (flox_bin : option str) (activate : str → str → gmap str str → result str str).
Context (from_slice : str → result str (list (str * DevVariable))) (nix_bin : option str)
        (metadata : str → str → CommandResult) (print_dev_env : str → str → gmap str str → CommandResult).
Context (from_str : str → result str json) (devbox_bin : option str) (nix_eval : str → bool)
        (shellenv : str → str → gmap str str → fs → CommandResult * fs)
        (eval_env : str → str → gmap str str → CommandResult) (restore_error : option str).
(** What [flox] and [nix], once run on a project, leave of the files. *)
Context (command_files : ProviderKind → str → fs → fs).

(** The files flox resolution leaves before [flox activate] runs: those of the
    derivation, when there was one. *)
Definition flox_files (root : str) (f : fs) : fs :=
  match activation_hook_script parse_table f root with
  | Ok (Some _) =>
      if is_ok (ensure_environment_present is_dir root)
      then default f (last (derive_hook_free_env parse_table toml_to_string is_dir io f root).2) else f
  | _ => f
  end.

(** Resolution got as far as running [flox]: a directory to activate, a [HOME]
    and a [flox]; or [nix]: a flake, a [nix] and a lock. *)
Definition flox_runs (root : str) (f : fs) : bool :=
  is_ok (ensure_environment_present is_dir root) && is_ok (canonical_base_env home) && bool_decide (is_Some flox_bin) &&
  match activation_hook_script parse_table f root with
  | Ok (Some _) => is_ok (derive_hook_free_env parse_table toml_to_string is_dir io f root).1
  | Ok None => true
  | Err _ => false
  end.
Definition nix_runs (root : str) (f : fs) : bool :=
  is_ok (ensure_flake_present (regular_file f) root) && bool_decide (is_Some nix_bin) && is_ok (ensure_lock_present (regular_file f) root).

(** [ProviderKind::resolve]. *)
Definition kind_resolve (kind : ProviderKind) (root : str) (f : fs) : result ProviderError Resolution * fs :=
  match kind with
  | ProviderKind.Flox =>
      (fst <$> Flox.resolve parse_table toml_to_string flox_bin activate is_dir io home f root,
       (if flox_runs root f then command_files kind root else id) (flox_files root f))
  | ProviderKind.Nix =>
      (nix_resolve from_slice (regular_file f) nix_bin metadata print_dev_env home root,
       (if nix_runs root f then command_files kind root else id) f)
  | ProviderKind.Devbox => devbox_resolve from_str regular_file devbox_bin nix_bin nix_eval shellenv eval_env restore_error home root f
  end.

#[export] Instance provider_impl : Provider :=
  {| pr_resolve := kind_resolve; pr_fingerprint := kind_fingerprint is_dir;
     pr_flox_services := λ root f, declared_service_names parse_table f root |}.


(** What each provider's activation of a baseline printed, read as an
    environment, for a resolution that left the files [f']. *)
Definition activation (kind : ProviderKind) (root : str) (f f' : fs) (baseline : gmap str str) (res : Resolution) (activated : gmap str str) : Prop :=
  match kind with
  | ProviderKind.Flox =>
      ∃ bin dir out, flox_bin = Some bin ∧ activate bin dir baseline = Ok out ∧ activated = parse_env_dump out ∧
        activation_hook_script parse_table f root = Ok (res_activation_script res) ∧
        match res_activation_script res with
        | None => dir = root
        | Some _ => ∃ states, derive_hook_free_env parse_table toml_to_string is_dir io f root = (Ok dir, states) ∧
            (states ≠ [] → ∃ g text stripped, last states = Some g ∧
               f !! path_join (path_join root ".flox") "env/manifest.toml" = Some text ∧ strip_hook parse_table toml_to_string text = Ok stripped ∧
               g !! path_join (path_join dir ".flox/env") "manifest.toml" = Some stripped)
        end
  | ProviderKind.Nix =>
      ∃ bin status out err variables, nix_bin = Some bin ∧ print_dev_env bin root baseline = Finished true status out err ∧
        from_slice out = Ok variables ∧ activated = collect_map (omap exported variables) ∧
        res_activation_script res = None ∧ res_services res = Unsupported
  | ProviderKind.Devbox =>
      ∃ bin f1 status script err status' dump err', devbox_bin = Some bin ∧ shellenv bin root baseline f = (Finished true status script err, f1) ∧
        eval_env script root baseline = Finished true status' dump err' ∧ activated = parse_env_dump dump ∧
        f' !! lock_path root = f !! lock_path root ∧ res_activation_script res = None ∧ res_services res = Unsupported
  end.

Lemma flox_activation root f res f' :
  kind_resolve ProviderKind.Flox root f = (Ok res, f') →
  ∃ baseline activated, canonical_base_env home = Ok baseline ∧ activation ProviderKind.Flox root f f' baseline res activated ∧
    apply_delta baseline (res_env res) (res_unset res) = activated ∧
    res_env res = changed_env baseline activated ∧ res_unset res = unset_env baseline activated ∧
    res_read_only_grants res = store_grants activated.
Proof.
  cbn [kind_resolve]. intros H. injection H as H _.
  destruct (Flox.resolve _ _ _ _ _ _ _ _ _) as [[res' dir]|] eqn:Er; [|done]. apply ok_inj in H as <-.
  unfold Flox.resolve, mbind, result_bind in Er. destruct (ensure_environment_present is_dir root); [|done].
  destruct (activation_hook_script parse_table f root) as [script|] eqn:Es; [|done].
  destruct (match script with Some _ => _ | None => _ end) as [[dir'|] g] eqn:Ed; [|done].
  destruct (canonical_base_env home) as [base|]; [|done]. unfold capture_activated_env, mbind, result_bind in Er.
  destruct flox_bin as [bin|] eqn:Ebin; [|done]. cbn [ok_or] in Er. destruct (activate bin dir' base) as [out|] eqn:Ea; [|done]. cbn [map_err] in Er.
  destruct (read_service_declarations parse_table g root); [|done]. injection Er as <- <-.
  exists base, (parse_env_dump out). split; [done|]. split; [|cbn; split; [apply apply_delta_exact|done]].
  exists bin, dir', out. do 3 (split; [done|]). cbn. split; [done|]. destruct script as [script|]; [|by injection Ed].
  destruct (derive_hook_free_env parse_table toml_to_string is_dir io f root) as [r states] eqn:Eder. injection Ed as -> _.
  exists states. split; [done|]. intros Hne.
  destruct (derivation_complete _ _ _ _ _ _ _ _ Eder Hne) as (_ & h & text & stripped & H1 & H2 & H3 & H4 & _). by exists h, text, stripped.
Qed.

Lemma nix_activation root f res f' :
  kind_resolve ProviderKind.Nix root f = (Ok res, f') →
  ∃ baseline activated, canonical_base_env home = Ok baseline ∧ activation ProviderKind.Nix root f f' baseline res activated ∧
    apply_delta baseline (res_env res) (res_unset res) = activated ∧
    res_env res = changed_env baseline activated ∧ res_unset res = unset_env baseline activated ∧
    res_read_only_grants res = store_grants activated.
Proof.
  cbn [kind_resolve]. intros H. injection H as H _. unfold nix_resolve, mbind, result_bind in H.
  destruct (ensure_flake_present _ root); [|done]. destruct nix_bin as [bin|] eqn:Ebin; [|done]. cbn [ok_or] in H.
  destruct (ensure_lock_present _ root); [|done]. destruct (probe_flake_evaluable _ bin root); [|done].
  destruct (canonical_base_env home) as [base|]; [|done]. unfold nix_capture_activated_env, parse_dev_env_json in H.
  destruct (print_dev_env bin root base) as [|[] status out err] eqn:Ep; try done.
  destruct (from_slice out) as [variables|] eqn:Ev; [|done]. injection H as <-.
  exists base, (collect_map (omap exported variables)). split; [done|]. split; [|cbn; split; [apply apply_delta_exact|done]].
  by exists bin, status, out, err, variables.
Qed.

Lemma devbox_activation root f res f' :
  kind_resolve ProviderKind.Devbox root f = (Ok res, f') →
  ∃ baseline activated, canonical_base_env home = Ok baseline ∧ activation ProviderKind.Devbox root f f' baseline res activated ∧
    apply_delta baseline (res_env res) (res_unset res) = activated ∧
    res_env res = changed_env baseline activated ∧ res_unset res = unset_env baseline activated ∧
    res_read_only_grants res = store_grants activated.
Proof.
  cbn [kind_resolve]. unfold devbox_resolve. intros H. destruct (devbox_checks _ _ _ _ _ f root) as [bin|] eqn:Ec; [|done].
  destruct (canonical_base_env home) as [base|]; [|done].
  destruct (devbox_capture_activated_env shellenv eval_env bin root base f) as [[act|] f1] eqn:Ea; [|done].
  unfold restore_lock_if_capture_resolved in H. case_bool_decide as Hl; [|by destruct restore_error]. injection H as <- <-.
  unfold devbox_capture_activated_env in Ea. destruct (shellenv bin root base f) as [[e|[] status script err] f2] eqn:Es; try done.
  destruct (forallb _ script); [done|]. destruct (eval_env script root base) as [e|[] status' dump err'] eqn:Ee; try done.
  injection Ea as <- <-. exists base, (parse_env_dump dump). split; [done|]. split; [|cbn; split; [apply apply_delta_exact|done]].
  exists bin, f2, status, script, err, status', dump, err'. split; [|done].
  unfold devbox_checks, mbind, result_bind in Ec. destruct (ensure_project_present _ _ _); [|done]. destruct devbox_bin eqn:Ebin; [|done].
  cbn [ok_or] in Ec. destruct (ensure_nix_usable _ _); [|done]. destruct (ensure_everything_locked _ _ _ _); [|done]. by injection Ec as ->.
Qed.

(** C34: the environment a sandbox gets is the activated one, whichever provider
    made it.  The activation started from the canonical baseline, which depends
    on [HOME] alone, and what it printed, read as the provider's format says,
    is the environment that the recorded changes and removals give when applied
    to the baseline; nothing is recorded that does not differ, and the store
    grant is the one that environment needs.  Flox activates the project itself
    only if its manifest has no activation script; else the derived directory,
    whose manifest, when this resolution wrote it, is the project's without
    its hook, and the script is handed on.  Devbox leaves the lock as it was. *)
Theorem resolution_two_phase kind root f res f'
    (H : kind_resolve kind root f = (Ok res, f')) :
  ∃ baseline activated, canonical_base_env home = Ok baseline ∧ activation kind root f f' baseline res activated ∧
    apply_delta baseline (res_env res) (res_unset res) = activated ∧
    (∀ k v, res_env res !! k = Some v ↔ activated !! k = Some v ∧ baseline !! k ≠ Some v) ∧
    (∀ k, k ∈ res_unset res ↔ is_Some (baseline !! k) ∧ activated !! k = None) ∧
    res_read_only_grants res = store_grants activated.
Proof.
  assert (∃ baseline activated, canonical_base_env home = Ok baseline ∧ activation kind root f f' baseline res activated ∧
    apply_delta baseline (res_env res) (res_unset res) = activated ∧
    res_env res = changed_env baseline activated ∧ res_unset res = unset_env baseline activated ∧
    res_read_only_grants res = store_grants activated) as (baseline & activated & Hb & Ha & Hd & Hc & Hu & Hg)
    by (destruct kind; [by apply flox_activation|by apply nix_activation|by apply devbox_activation]).
  exists baseline, activated. do 3 (split; [done|]). rewrite Hc, Hu. split; [|split; [|done]].
  - intros k v. apply elem_of_changed.
  - intros k. apply elem_of_unset.
Qed.
End providers.

(** ** Concrete projects *)

Definition flake_fs (text : str) : gmap str str := {[ ("/p/flake.nix" : str) := text; ("/p/flake.lock" : str) := ("l" : str) ]}.

Lemma staleness_exact_witness :
  ∃ recorded, kind_fingerprint (λ _, true) ProviderKind.Nix "/p" (flake_fs "ab") = Ok recorded ∧
    is_stale (λ _, true) "nix" "/p" recorded (flake_fs "ac") = Ok true.
Proof.
  destruct (kind_fingerprint (λ _, true) ProviderKind.Nix "/p" (flake_fs "ab")) as [recorded|] eqn:E; [|vm_compute in E; discriminate E].
  exists recorded. split; [reflexivity|].
  destruct (staleness_exact (λ _, true) ProviderKind.Nix "/p" (flake_fs "ab") (flake_fs "ac") recorded E) as (_ & H & _).
  apply (H ("ab" : str) ("ac" : str)); [reflexivity|reflexivity| |reflexivity].
  exists ("a" : str), "b"%char, "c"%char, []. split; [discriminate|]. split; reflexivity.
Defined.

Definition nix_sample (f : gmap str str) : result ProviderError Resolution * gmap str str :=
  kind_resolve (Some ("/h" : str)) (λ _, false) io_fine (λ _, Err ([] : str)) (λ _, Err ([] : str)) None (λ _ _ _, Err ([] : str))
    (λ _, Ok [("CC" : str, {| var_kind := "exported"; var_value := JStr "gcc" |})]) (Some ("nix" : str))
    (λ _ _, Finished true [] [] []) (λ _ _ _, Finished true [] [] [])
    (λ _, Err ([] : str)) None (λ _, false) (λ _ _ _ f, (SpawnError [], f)) (λ _ _ _, SpawnError []) None (λ _ _ f, f) ProviderKind.Nix "/p" f.

Lemma resolution_two_phase_witness :
  ∃ res f', nix_sample (flake_fs "ab") = (Ok res, f') ∧ res_env res !! ("CC" : str) = Some ("gcc" : str).
Proof.
  assert (∃ res, nix_sample (flake_fs "ab") = (Ok res, flake_fs "ab")) as [res E] by (eexists; reflexivity).
  exists res, (flake_fs "ab"). split; [exact E|].
  destruct (resolution_two_phase (Some ("/h" : str)) (λ _, false) io_fine (λ _, Err ([] : str)) (λ _, Err ([] : str)) None (λ _ _ _, Err ([] : str))
    (λ _, Ok [("CC" : str, {| var_kind := "exported"; var_value := JStr "gcc" |})]) (Some ("nix" : str))
    (λ _ _, Finished true [] [] []) (λ _ _ _, Finished true [] [] [])
    (λ _, Err ([] : str)) None (λ _, false) (λ _ _ _ f, (SpawnError [], f)) (λ _ _ _, SpawnError []) None (λ _ _ f, f) ProviderKind.Nix "/p" _ _ _ E)
    as (baseline & activated & Hb & (bin & status & out & err & variables & _ & _ & Hv & -> & _) & _ & Hc & _).
  injection Hv as <-. apply ok_inj in Hb as <-. apply Hc. split; [vm_compute; reflexivity|vm_compute; discriminate].
Defined.
