(* ===== verification/SshConfig.v ===== *)
(** * The client's SSH configuration and the stdio proxy ([src/ssh/config.rs], [src/ssh/proxy.rs])

    The managed section devcroft keeps in [~/.ssh/config], and what
    [devcroft proxy] does before it relays bytes. *)

From S2P Require Import Prelude Slug Paths State.

#[local] Set Default Proof Using "Type".

Definition BEGIN_MARKER : str := "# >>> devcroft managed block — do not edit >>>".
Definition END_MARKER : str := "# <<< devcroft managed block — do not edit <<<".

(** [render]. *)
Definition render (identity_file : str) : str :=
  "Host *.devcroft" ++ [NL] ++ "  ProxyCommand devcroft proxy %n" ++ [NL] ++ "  IdentityFile " ++ identity_file ++ [NL]
  ++ "  StrictHostKeyChecking no" ++ [NL] ++ "  UserKnownHostsFile /dev/null" ++ [NL].

Definition managed_block (identity_file : str) : str := BEGIN_MARKER ++ [NL] ++ render identity_file ++ END_MARKER ++ [NL].

(** [read_to_string]: an absent, unreadable or non-UTF-8 file is an error. *)
Definition read_config (f : fs) (path : str) : option str :=
  s ← f !! path; if utf8_valid s then Some s else None.

Definition is_installed (f : fs) (path : str) : bool :=
  match read_config f path with Some contents => contains_str BEGIN_MARKER contents | None => false end.

(** The separation from what is there. *)
Definition separated_text (existing : str) : str :=
  let out := if negb (bool_decide (existing = [])) && negb (last_is NL existing) then existing ++ [NL] else existing in
  if negb (bool_decide (out = [])) then out ++ [NL] else out.

Definition appended (existing block : str) : str := separated_text existing ++ block.

Definition replaced (existing block : str) (start fin : nat) : str :=
  let rest := drop (fin + length END_MARKER) existing in
  take start existing ++ block ++ default rest (strip_prefix [NL] rest).

Definition updated (existing identity_file : str) : str :=
  let block := managed_block identity_file in
  match find_str BEGIN_MARKER existing, find_str END_MARKER existing with
  | Some start, Some fin => if start <? fin then replaced existing block start fin else appended existing block
  | _, _ => appended existing block
  end.

(** [write_managed_section], once the parent directory exists. *)
Definition write_managed_section (f : fs) (path identity_file : str) : fs :=
  <[path := updated (default [] (read_config f path)) identity_file]> f.

(** ** The stdio proxy *)

Inductive ProxyError := NotRunning | ProxyConnect (e : state_error).

Definition DOT_DEVCROFT : str := ".devcroft".

Definition sandbox_name_from_host (host : str) : result str str :=
  match strip_suffix DOT_DEVCROFT host with
  | Some name => if bool_decide (name = []) then Err ("'" ++ host ++ "' is not a <name>.devcroft host") else Ok name
  | None => Err ("'" ++ host ++ "' is not a <name>.devcroft host")
  end.

(** [proxy] up to the relay: the socket it connects to. *)
Definition proxy_socket_of (linux : bool) (v : ProcView) (accepts : str → bool) (home : option str) (f : fs) (sandbox_name : str)
  : result ProxyError str :=
  p ← map_err ProxyConnect (state_paths home sandbox_name);
  h ← map_err ProxyConnect (health linux v accepts f p);
  match h with
  | Healthy _ => if accepts (ssh_socket p) then Ok (ssh_socket p) else Err (ProxyConnect (IoFailure "connect"))
  | Stale _ | HealthNone => Err NotRunning
  end.

(** [relay]: what is written, for the reads of one side, an [Err] or an empty
    read ending it; [writes] is how many writes succeed. *)
Fixpoint relay (reads : list (result str str)) (writes : nat) : list str :=
  match reads with
  | Ok (c :: bs) :: reads => match writes with 0 => [] | S writes => (c :: bs) :: relay reads writes end
  | _ => []
  end.

(** ** Lemmas: searching line by line *)

Lemma starts_with_nil p s : starts_with p s = true → p ≠ [] → s ≠ [].
Proof. unfold starts_with. by destruct p, s. Qed.

Lemma starts_with_line p a b : NL ∉ p → starts_with p (a ++ NL :: b) = starts_with p a.
Proof.
  unfold starts_with. revert a. induction p as [|x p IH]; intros a Hp; [by destruct a|].
  rewrite not_elem_of_cons in Hp. destruct Hp as [Hx Hp]. destruct a as [|y a]; cbn [app strip_prefix].
  - by rewrite decide_False.
  - destruct (decide (x = y)); [by apply IH|done].
Qed.

(** A pattern without a line break lies in one line. *)
Lemma find_str_line p a b :
  NL ∉ p → p ≠ [] →
  find_str p (a ++ NL :: b) =
    match find_str p a with Some i => Some i | None => (λ i, length a + S i) <$> find_str p b end.
Proof.
  intros Hp Hne. induction a as [|x a IH].
  - cbn [app find_str length]. assert (starts_with p (NL :: b) = false) as ->.
    { pose proof (starts_with_line p [] b Hp) as H. cbn [app] in H. rewrite H. by destruct p. }
    assert (starts_with p [] = false) as -> by (by destruct p). by destruct (find_str p b).
  - pose proof (starts_with_line p (x :: a) b Hp) as H. cbn [app] in H. cbn [app find_str length]. rewrite H.
    destruct (starts_with p (x :: a)); [done|]. rewrite IH. destruct (find_str p a); [done|]. by destruct (find_str p b).
Qed.

Lemma find_str_head p s : find_str p (p ++ s) = Some 0.
Proof.
  assert (starts_with p (p ++ s) = true) as H.
  { unfold starts_with. assert (strip_prefix p (p ++ s) = Some s) as ->; [|done].
    induction p as [|x p IH]; [done|]. cbn [app strip_prefix]. by rewrite decide_True. }
  destruct (p ++ s); cbn [find_str]; by rewrite H.
Qed.

(** Text that ends its last line, or is empty. *)
Definition line_end (s : str) : Prop := s = [] ∨ ∃ s', s = s' ++ [NL].

Lemma find_after_lines p a s : NL ∉ p → p ≠ [] → line_end a → find_str p a = None → find_str p (a ++ p ++ s) = Some (length a).
Proof.
  intros Hp Hne [->|[a' ->]] Hf; [cbn [app]; by rewrite find_str_head|].
  rewrite <- app_assoc. cbn [app]. rewrite find_str_line by done.
  rewrite (find_str_line p a' []) in Hf by done. destruct (find_str p a'); [done|].
  rewrite find_str_head, length_app. simpl. f_equal.
Qed.

Lemma find_not_in_line p a b : NL ∉ p → p ≠ [] → find_str p a = None → find_str p b = None → find_str p (a ++ NL :: b) = None.
Proof. intros Hp Hne Ha Hb. by rewrite find_str_line, Ha, Hb by done. Qed.

(** ** Lemmas: the markers *)

Lemma begin_plain : NL ∉ BEGIN_MARKER ∧ BEGIN_MARKER ≠ [].
Proof. split; [apply (bool_decide_unpack _); by vm_compute|done]. Qed.
Lemma end_plain : NL ∉ END_MARKER ∧ END_MARKER ≠ [].
Proof. split; [apply (bool_decide_unpack _); by vm_compute|done]. Qed.

(** A key path that does not contain the end marker. *)
Definition identity_ok (identity_file : str) : Prop :=
  NL ∉ identity_file ∧ find_str END_MARKER ("  IdentityFile " ++ identity_file) = None.

Lemma render_no_end identity_file :
  identity_ok identity_file → find_str END_MARKER (BEGIN_MARKER ++ [NL] ++ render identity_file) = None.
Proof.
  intros [Hnl Hid]. destruct end_plain as [Hp Hne]. unfold render. cbn [app].
  assert (∀ a b, find_str END_MARKER a = None → find_str END_MARKER b = None → find_str END_MARKER (a ++ NL :: b) = None) as Hl
    by (intros; by apply find_not_in_line).
  apply Hl; [by vm_compute|]. change (find_str END_MARKER (("Host *.devcroft" : str) ++ NL :: ("  ProxyCommand devcroft proxy %n" : str) ++ NL ::
    ("  IdentityFile " : str) ++ identity_file ++ NL :: ("  StrictHostKeyChecking no" : str) ++ NL :: ("  UserKnownHostsFile /dev/null" : str) ++ [NL]) = None).
  apply Hl; [by vm_compute|]. apply Hl; [by vm_compute|]. rewrite app_assoc. apply Hl; [done|].
  apply Hl; [by vm_compute|]. by vm_compute.
Qed.

Lemma line_end_separated existing : line_end (separated_text existing).
Proof.
  unfold separated_text. destruct existing as [|c existing]; [by left|]. right.
  rewrite (bool_decide_false (c :: existing = [])) by done. cbn [negb andb].
  destruct (last_is NL (c :: existing)); cbn [negb]; eexists; by rewrite bool_decide_false by done.
Qed.

Definition marker_free (s : str) : Prop := find_str BEGIN_MARKER s = None ∧ find_str END_MARKER s = None.

Lemma separated_marker_free existing : marker_free existing → marker_free (separated_text existing).
Proof.
  assert (∀ p s, NL ∉ p → p ≠ [] → find_str p s = None → find_str p (separated_text s) = None) as Hp.
  { intros p s Hp Hne Hs.
    assert (∀ t, find_str p t = None → find_str p (t ++ [NL]) = None) as Hnl.
    { intros t Ht. apply find_not_in_line; [done..|]. by destruct p. }
    unfold separated_text. destruct (negb _ && negb _), (negb _); auto. }
  intros [Hb He]. split; apply Hp; (done || apply begin_plain || apply end_plain).
Qed.

Lemma separated_prefix existing : existing `prefix_of` separated_text existing.
Proof.
  unfold separated_text. destruct (negb _ && negb _), (negb _); try (by eexists);
    [exists ([NL] ++ [NL])|]; by rewrite ?app_assoc.
Qed.

(** Rewriting a block that is there replaces it and nothing else. *)
Lemma updated_block pre id1 id2 rest :
  line_end pre → marker_free pre → identity_ok id1 →
  updated (pre ++ managed_block id1 ++ rest) id2 = pre ++ managed_block id2 ++ rest.
Proof.
  intros Hle [Hb He] Hid. unfold updated.
  set (body := BEGIN_MARKER ++ [NL] ++ render id1).
  assert (pre ++ managed_block id1 ++ rest = (pre ++ body) ++ END_MARKER ++ NL :: rest) as Htext.
  { unfold managed_block, body. by rewrite <- !app_assoc. }
  assert (find_str BEGIN_MARKER (pre ++ managed_block id1 ++ rest) = Some (length pre)) as ->.
  { unfold managed_block. rewrite <- app_assoc. apply find_after_lines; [apply begin_plain|apply begin_plain|done|done]. }
  assert (line_end (pre ++ body)) as Hle2.
  { right. unfold body, render. exists (pre ++ BEGIN_MARKER ++ [NL] ++ "Host *.devcroft" ++ [NL] ++ "  ProxyCommand devcroft proxy %n" ++ [NL] ++
      "  IdentityFile " ++ id1 ++ [NL] ++ "  StrictHostKeyChecking no" ++ [NL] ++ "  UserKnownHostsFile /dev/null").
    by rewrite <- !app_assoc. }
  assert (find_str END_MARKER (pre ++ body) = None) as Hne.
  { destruct Hle as [->|[pre' ->]]; [by apply render_no_end|]. rewrite <- app_assoc. cbn [app].
    rewrite (find_str_line _ pre' []) in He by apply end_plain. destruct (find_str END_MARKER pre') eqn:E1; [done|].
    apply find_not_in_line; [apply end_plain|apply end_plain|done|by apply render_no_end]. }
  assert (find_str END_MARKER (pre ++ managed_block id1 ++ rest) = Some (length (pre ++ body))) as ->.
  { rewrite Htext. apply find_after_lines; [apply end_plain|apply end_plain|done|done]. }
  assert ((length pre <? length (pre ++ body)) = true) as ->.
  { apply Nat.ltb_lt. rewrite length_app. unfold body. rewrite length_app. assert (length BEGIN_MARKER ≠ 0); [by vm_compute|lia]. }
  unfold replaced. rewrite Htext.
  replace (length (pre ++ body) + length END_MARKER) with (length ((pre ++ body) ++ END_MARKER)) by by rewrite length_app.
  rewrite (app_assoc (pre ++ body)), drop_app_length. cbn [strip_prefix]. rewrite decide_True by done. cbn [default from_option id].
  rewrite <- !app_assoc. by rewrite take_app_length.
Qed.

Lemma updated_marker_free existing id1 :
  marker_free existing → updated existing id1 = separated_text existing ++ managed_block id1.
Proof. intros [Hb _]. unfold updated. by rewrite Hb. Qed.

(** The managed section is written once and then replaced in place: added to a
    configuration without markers it comes after everything the user has, which
    stays as it is; rewritten where it stands, with the same or another key, it
    replaces the old section and leaves every byte before and after it; so
    writing it again is as good as having written it once. *)
Theorem managed_section_replaced pre rest existing id1 id2
    (Hpre : line_end pre) (Hfree : marker_free pre) (Hid : identity_ok id1) (Hex : marker_free existing) :
  updated (pre ++ managed_block id1 ++ rest) id2 = pre ++ managed_block id2 ++ rest ∧
  existing `prefix_of` updated existing id1 ∧
  updated (updated existing id1) id2 = updated existing id2.
Proof.
  split; [by apply updated_block|]. rewrite (updated_marker_free existing id1), (updated_marker_free existing id2) by done. split.
  - destruct (separated_prefix existing) as [k Hk]. exists (k ++ managed_block id1). by rewrite app_assoc, <- Hk.
  - pose proof (updated_block (separated_text existing) id1 id2 [] (line_end_separated existing) (separated_marker_free existing Hex) Hid) as H.
    by rewrite !app_nil_r in H.
Qed.

(** A configuration that is not UTF-8 is lost: a single invalid byte anywhere
    in it makes the whole file be taken for an empty one, and writing the
    managed section replaces everything the user had with that section. *)
Theorem non_utf8_config_lost f path text identity_file
    (Hf : f !! path = Some text) (Hu : utf8_valid text = false) :
  write_managed_section f path identity_file !! path = Some (managed_block identity_file).
Proof.
  unfold write_managed_section. rewrite lookup_insert_eq. unfold read_config. rewrite Hf. cbn [mbind option_bind]. rewrite Hu.
  cbn [default from_option id]. by rewrite updated_marker_free by (split; by vm_compute).
Qed.

(** A stray end marker before the section makes every write add another one. *)
Lemma stray_end_marker_appends :
  let once := updated (END_MARKER ++ [NL]) "/k" in updated once "/k" ≠ once ∧ length (updated once "/k") = length once + length (NL :: managed_block "/k").
Proof. split; by vm_compute. Qed.

(** A host as ssh passes it names its sandbox. *)
Lemma host_names_sandbox name : name ≠ [] → sandbox_name_from_host (name ++ DOT_DEVCROFT) = Ok name.
Proof.
  intros Hn. unfold sandbox_name_from_host, strip_suffix. rewrite reverse_app.
  assert (∀ p s : str, strip_prefix p (p ++ s) = Some s) as Hs.
  { intros p s. induction p as [|x p IH]; [done|]. cbn [app strip_prefix]. by rewrite decide_True. }
  rewrite Hs. cbn [fmap option_fmap option_map]. rewrite reverse_involutive. by rewrite bool_decide_false.
Qed.

(** The proxy connects only to a running sandbox of a valid name. *)
Lemma proxy_reaches_running linux v accepts home f name sock :
  proxy_socket_of linux v accepts home f name = Ok sock →
  is_valid_name name = true ∧ ∃ p pid, state_paths home name = Ok p ∧ sock = ssh_socket p ∧ health linux v accepts f p = Ok (Healthy pid).
Proof.
  unfold proxy_socket_of. destruct (state_paths home name) as [p|] eqn:Ep; [|done]. cbn [map_err mbind result_bind].
  destruct (health linux v accepts f p) as [[|pid|]|] eqn:Eh; try done. cbn [map_err mbind result_bind].
  destruct (accepts (ssh_socket p)); [|done]. intros [= <-]. split; [|by exists p, pid].
  unfold state_paths in Ep. by destruct (is_valid_name name).
Qed.

Lemma managed_section_replaced_witness :
  updated (updated "Host a" "/h/k") "/h/k2" = updated "Host a" "/h/k2".
Proof.
  refine (proj2 (proj2 (managed_section_replaced [] [] "Host a" "/h/k" "/h/k2" _ _ _ _))).
  - left. reflexivity.
  - split; reflexivity.
  - split; [apply (bool_decide_unpack _); vm_compute; reflexivity|vm_compute; reflexivity].
  - split; vm_compute; reflexivity.
Defined.

Lemma non_utf8_config_lost_witness :
  write_managed_section {[ ("/c" : str) := ("Host x # " ++ ["255"%char] : str) ]} "/c" "/k" !! ("/c" : str) = Some (managed_block "/k").
Proof. apply (non_utf8_config_lost _ _ ("Host x # " ++ ["255"%char])); vm_compute; reflexivity. Defined.
