(* ===== verification/Status.v ===== *)
(** * Status, logs and listing ([src/lifecycle/status.rs])

    Read-only operations on the state of sandboxes.  The keeper's answer to a
    query, the supervisor's and the directory listing are parameters. *)

From S2P Require Import Prelude Paths ProviderKind Manifest Policy Protocol Slug State Services.

#[local] Set Default Proof Using "Type".

Inductive KeeperStatus := KNone | KStale | KHealthy (uptime_secs : N) (session_count : nat).

Record SandboxStatus := {
  ss_name : str; ss_keeper : KeeperStatus; ss_env_stale : option bool; ss_degraded : list DegradedCapability;
  ss_isolation : option str; ss_services : option ServicesReport;
}.

Record SandboxSummary := {
  sum_name : str; sum_keeper : KeeperStatus; sum_project_root : option str; sum_declared_services : list str;
}.

Inductive StatusError := StatusState (e : state_error) | StatusKeeper (e : state_error).

Section status.
Context (os : Os) (linux : bool) (v : ProcView) (accepts : str → bool) (home : option str) (from_json : str → result str Meta).
(** The first frame a keeper answers to [Query] on a socket, or the failure;
    the supervisor behind a services socket; staleness by provider name. *)
Context (query_frame : str → result state_error Frame) (query_services : str → result Unreachable (list ServiceState))
        (is_stale : str → str → str → fs → result ProviderError bool).
Context (f : fs).

Definition query_keeper (p : StatePaths) : result state_error QueryResult :=
  frame ← query_frame (socket p);
  match frame with
  | FQueryResult r => Ok r
  | _ => Err (BadData "unexpected response to Query")
  end.

Definition keeper_status (p : StatePaths) : result state_error KeeperStatus :=
  h ← health linux v accepts f p;
  match h with
  | HealthNone => Ok KNone
  | Stale _ => Ok KStale
  | Healthy _ => r ← query_keeper p; Ok (KHealthy (uptime_secs r) (length (sessions r)))
  end.

Definition status (m : Manifest) : result StatusError SandboxStatus :=
  let name := sandbox_name (m_sandbox m) in
  p ← map_err StatusState (state_paths home name);
  keeper ← map_err StatusKeeper (keeper_status p);
  mt ← map_err StatusState (read_meta from_json f (meta p));
  let env_stale := mt ← mt; match is_stale (provider (m_env m)) (project_root mt) (env_fingerprint mt) f with Ok b => Some b | Err _ => None end in
  let services :=
    mt ← mt;
    let report := reconcile (declared_services mt) (query_services (socket_path (project_root mt) name)) in
    if report_is_empty report then None else Some report in
  Ok {| ss_name := name; ss_keeper := keeper; ss_env_stale := env_stale; ss_degraded := detect os (compile os m);
        ss_isolation := resolved_backend <$> mt; ss_services := services |}.

(** [logs]: the keeper's log, then the services', and its last lines. *)
Definition SERVICES_HEADER : str := [NL] ++ "--- services ---" ++ [NL].

Definition tail_of (n : nat) (contents : str) : str :=
  let ls := lines contents in join [NL] (drop (length ls - n) ls).

Definition logs (sandbox_name : str) (tail_lines : option nat) : result state_error str :=
  p ← state_paths home sandbox_name;
  contents ← read_to_string f (log p);
  contents ← ok_or (IoFailure "No such file or directory") contents;
  mt ← read_meta from_json f (meta p);
  let contents :=
    match mt with
    | Some mt =>
        match read_to_string f (log_path (project_root mt) sandbox_name) with
        | Ok (Some service_log) => if bool_decide (trim service_log = []) then contents else contents ++ SERVICES_HEADER ++ service_log
        | _ => contents
        end
    | None => contents
    end in
  Ok (match tail_lines with None => contents | Some n => tail_of n contents end).

(** [ps]: the entries of the data directory, with which of them are directories. *)
Definition summary_of (dir name : str) : result state_error SandboxSummary :=
  let p := in_dir (path_join dir name) in
  let keeper := match keeper_status p with Ok k => k | Err _ => KStale end in
  mt ← read_meta from_json f (meta p);
  Ok {| sum_name := name; sum_keeper := keeper; sum_project_root := project_root <$> mt;
        sum_declared_services := match mt with Some mt => declared_services mt | None => [] end |}.

Definition ps (entries : result state_error (option (list (str * bool)))) : result state_error (list SandboxSummary) :=
  dir ← data_dir home;
  entries ← entries;
  match entries with
  | None => Ok []
  | Some entries =>
      out ← try_map (summary_of dir) ((List.filter (λ e : str * bool, e.2) entries).*1);
      Ok (sort_by sum_name out)
  end.
End status.

(** ** Lemmas *)

Lemma project_directories (entries : list (str * bool)) name :
  name ∈ (List.filter (λ e : str * bool, e.2) entries).*1 ↔ (name, true) ∈ entries.
Proof.
  rewrite list_elem_of_fmap. split.
  - intros ([n b] & -> & [Hin Hb]%elem_of_filter_bool). simpl in *. by subst.
  - intros Hin. exists (name, true). split; [done|]. by apply elem_of_filter_bool.
Qed.

Section status_spec.
Context (os : Os) (linux : bool) (v : ProcView) (accepts : str → bool) (home : option str) (from_json : str → result str Meta).
Context (query_frame : str → result state_error Frame) (query_services : str → result Unreachable (list ServiceState))
        (is_stale : str → str → str → fs → result ProviderError bool).
Context (f : fs).

(** [ps] lists every sandbox: when it answers, its summaries are sorted by
    name and are exactly one for each directory of the data directory, however
    its keeper answers, each carrying the metadata recorded there; and it fails
    only when there is no home or listing, or when the metadata of one sandbox
    cannot be read, which hides all the others. *)
Theorem ps_complete entries :
  match ps linux v accepts home from_json query_frame f entries with
  | Ok out =>
      StronglySorted (key_le sum_name) out ∧
      ∃ dir, data_dir home = Ok dir ∧
        match entries with
        | Ok (Some l) =>
            (sum_name <$> out ≡ₚ (List.filter (λ e : str * bool, e.2) l).*1) ∧
            ∀ s, s ∈ out → ∃ mt, read_meta from_json f (meta (in_dir (path_join dir (sum_name s)))) = Ok mt ∧
              sum_project_root s = project_root <$> mt ∧
              sum_declared_services s = match mt with Some mt => declared_services mt | None => [] end ∧
              (sum_keeper s = KNone ↔ read_pidfile f (pidfile (in_dir (path_join dir (sum_name s)))) = Ok None)
        | _ => out = []
        end
  | Err e => home = None ∨ entries = Err e ∨
      ∃ dir l name, data_dir home = Ok dir ∧ entries = Ok (Some l) ∧ (name, true) ∈ l ∧
        read_meta from_json f (meta (in_dir (path_join dir name))) = Err e
  end.
Proof.
  unfold ps. destruct (data_dir home) as [dir|e] eqn:Ed; cbn [mbind result_bind].
  2: { left. by destruct home. }
  destruct entries as [[l|]|e]; cbn [mbind result_bind]; [| |by right; left].
  2: { split; [constructor|]. by exists dir. }
  destruct (try_map _ _) as [out|e] eqn:Eo; cbn [mbind result_bind].
  - split; [apply sort_by_sorted|]. exists dir. split; [done|]. apply try_map_forall2 in Eo.
    assert (∀ name s, summary_of linux v accepts from_json query_frame f dir name = Ok s → sum_name s = name) as Hname.
    { intros name s. unfold summary_of. destruct (read_meta _ _ _); [|done]. cbn [mbind result_bind]. by intros [= <-]. }
    split.
    + rewrite sort_by_perm. enough (sum_name <$> out = (List.filter (λ e : str * bool, e.2) l).*1) as -> by done.
      revert Eo. generalize ((List.filter (λ e : str * bool, e.2) l).*1).
      intros names. induction 1 as [|name s names out Hs _ IH]; [done|]. cbn. by rewrite IH, (Hname _ _ Hs).
    + intros s Hs%elem_of_sort_by. apply list_elem_of_lookup in Hs as [i Hi].
      destruct (Forall2_lookup_r _ _ _ _ _ Eo Hi) as (name & _ & Hsum). clear Hname Eo Hi.
      unfold summary_of in Hsum. destruct (read_meta _ _ _) as [mt|] eqn:Em; [|done]. cbn [mbind result_bind] in Hsum.
      injection Hsum as <-. exists mt. cbn [sum_name sum_project_root sum_declared_services sum_keeper].
      split; [done|]. do 2 (split; [done|]). clear. unfold keeper_status, health.
      destruct (read_pidfile _ _) as [[[pid start]|]|]; cbn [mbind result_bind]; try done.
      destruct (is_same_process _ _ _ _); cbn [negb mbind result_bind]; [|done].
      destruct (accepts _); cbn [mbind result_bind]; [|done]. by destruct (query_keeper _ _).
  - right. right. apply try_map_err in Eo as (name & Hin & Hs). exists dir, l, name. do 2 (split; [done|]).
    split; [by apply project_directories|]. unfold summary_of in Hs. destruct (read_meta _ _ _); [done|]. cbn [mbind result_bind] in Hs.
    by injection Hs as ->.
Qed.

(** [status] hides nothing that is recorded: it calls a keeper healthy only
    when the recorded process is the running one, its socket accepts and it
    answered, with the uptime and the sessions of that answer; every service
    the last start declared is in its report, whatever the supervisor says or
    does not; it reports freshness only as the fingerprint comparison gave it;
    and it lists everything this host cannot enforce. *)
Theorem status_hides_nothing m s p mt
    (Hs : status os linux v accepts home from_json query_frame query_services is_stale f m = Ok s)
    (Hp : state_paths home (sandbox_name (m_sandbox m)) = Ok p)
    (Hm : read_meta from_json f (meta p) = Ok (Some mt)) :
  (∀ u n, ss_keeper s = KHealthy u n → ∃ pid r, health linux v accepts f p = Ok (Healthy pid) ∧
     query_frame (socket p) = Ok (FQueryResult r) ∧ u = uptime_secs r ∧ n = length (sessions r)) ∧
  (∀ name, name ∈ declared_services mt → ∃ r, ss_services s = Some r ∧ name ∈ st_name <$> states r) ∧
  (∀ b, ss_env_stale s = Some b ↔ is_stale (provider (m_env m)) (project_root mt) (env_fingerprint mt) f = Ok b) ∧
  ss_degraded s = detect os (compile os m) ∧ ss_isolation s = Some (resolved_backend mt).
Proof.
  unfold status in Hs. rewrite Hp in Hs. cbn [map_err mbind result_bind] in Hs.
  destruct (keeper_status _ _ _ _ _ _) as [k|] eqn:Ek; [|done]. cbn [map_err mbind result_bind] in Hs.
  rewrite Hm in Hs. cbn [map_err mbind result_bind option_bind] in Hs. apply ok_inj in Hs as <-.
  cbn [ss_keeper ss_services ss_env_stale ss_degraded ss_isolation]. split; [|split; [|split; [|done]]].
  - intros u n ->. unfold keeper_status in Ek. destruct (health _ _ _ _ _) as [[|pid|]|]; try done. cbn [mbind result_bind] in Ek.
    unfold query_keeper in Ek. destruct (query_frame (socket p)) as [fr|]; [|done]. cbn [mbind result_bind] in Ek.
    destruct fr; try done. cbn [mbind result_bind] in Ek. injection Ek as <- <-. by exists pid, r.
  - intros name Hn. set (rep := reconcile _ _).
    assert (name ∈ st_name <$> states rep) as Hin by by apply reconcile_declared. exists rep. split; [|done].
    unfold report_is_empty. rewrite bool_decide_false; [done|]. intros He. rewrite He in Hin. by apply not_elem_of_nil in Hin.
  - intros b. destruct (is_stale _ _ _ _); split; congruence.
Qed.
End status_spec.

Definition status_meta : Meta :=
  {| project_root := "/p"; env_fingerprint := "f"; read_only_grants := []; resolved_backend := default_resolved_backend;
     declared_services := strs ["db"]; ran_activation_hook := false; State.shell := None; proxy_port := None; proxy_token := None |}.

Definition status_fs : gmap str str := {[ ("/h/.local/share/devcroft/myproj/meta.json" : str) := ("m" : str) ]}.

Lemma status_hides_nothing_witness :
  ∃ s, status Linux true sample_view (λ _, false) (Some ("/h" : str)) (λ _, Ok status_meta) (λ _, Err NotFoundHome) (λ _, Err NoSocket)
      (λ _ _ _ _, Ok true) status_fs (sample_manifest [] []) = Ok s ∧
    ∃ r, ss_services s = Some r ∧ ("db" : str) ∈ st_name <$> states r.
Proof.
  destruct (status Linux true sample_view (λ _, false) (Some ("/h" : str)) (λ _, Ok status_meta) (λ _, Err NotFoundHome) (λ _, Err NoSocket)
      (λ _ _ _ _, Ok true) status_fs (sample_manifest [] [])) as [s|] eqn:E; [|vm_compute in E; discriminate E].
  exists s. split; [reflexivity|].
  destruct (state_paths (Some ("/h" : str)) (sandbox_name (m_sandbox (sample_manifest [] [])))) as [p|] eqn:Ep; [|vm_compute in Ep; discriminate Ep].
  assert (read_meta (λ _, Ok status_meta) status_fs (meta p) = Ok (Some status_meta)) as Hm.
  { vm_compute in Ep. injection Ep as <-. reflexivity. }
  destruct (status_hides_nothing Linux true sample_view (λ _, false) (Some ("/h" : str)) (λ _, Ok status_meta) (λ _, Err NotFoundHome)
    (λ _, Err NoSocket) (λ _ _ _ _, Ok true) status_fs _ s p status_meta E Ep Hm) as (_ & Hsvc & _).
  apply Hsvc. left.
Defined.
