(* ===== verification/Init.v ===== *)
(** * Writing a project's first manifest ([cli_init] in [src/bin/devcroft.rs])

    [init] names the sandbox after the directory, keeps two projects of the
    same name apart, picks the provider by what the project has, writes
    [devcroft.toml] and covers devcroft's own artifacts in [.gitignore]. *)

From S2P Require Import Prelude Slug Paths ProviderKind Manifest Validate Config Policy Capability.
From S2P Require Import State Services World Capture Providers.

#[local] Set Default Proof Using "Type".

(** ** The file system as [init] asks about it *)

Definition path_exists (f : fs) (p : str) : bool := existsb (λ k, is_within k p) ((map_to_list f).*1).
Definition is_directory (f : fs) (p : str) : bool := path_exists f p && negb (regular_file f p).

(** A path from its components, and the manifest of a directory. *)
Definition abs_path (comps : list str) : str := "/" ++ join "/" comps.
Definition find_manifest (f : fs) (start : str) : option (list str) :=
  discover (λ p, regular_file f (abs_path p)) (λ p, path_exists f (abs_path p)) (path_comps start).

(** [read_to_string(..).unwrap_or_default()] *)
Definition read_or_empty (f : fs) (p : str) : str :=
  match read_to_string f p with Ok (Some s) => s | _ => [] end.

(** [Path::file_name] *)
Definition file_name (p : str) : option str :=
  match last (std_components p).2 with Some c => if bool_decide (c = DOTDOT) then None else Some c | None => None end.

(** ** The name *)

(** [{:06x}] of a 24-bit number. *)
Definition hex6 (n : N) : str :=
  (λ i, hex_digit ((n / 16 ^ i) mod 16)) <$> [5; 4; 3; 2; 1; 0]%N.

Section init.
(** [HOME], the decoder of the metadata, and the standard library's
    [DefaultHasher] on paths. *)
Context (home : option str) (meta_of_json : str → result str Meta) (path_hash : str → N).

Definition name_suffix (project_root : str) : str := hex6 (N.land (path_hash project_root) 0xffffff).

Definition disambiguate_name (f : fs) (base project_root : str) : str :=
  match state_paths home base with
  | Err _ => base
  | Ok paths =>
      match read_meta meta_of_json f (meta paths) with
      | Ok (Some mt) =>
          if bool_decide (State.project_root mt = from_utf8_lossy project_root) then base
          else
            let suffix := name_suffix project_root in
            let trimmed := pop_dashes (take (32 - 1 - length suffix) base) in
            trimmed ++ "-" ++ suffix
      | _ => base
      end
  end.

(** ** [.gitignore] *)

Definition IGNORE_ENTRY : str := ARTIFACT_DIR ++ "/".
Definition IGNORE_COMMENT : str := "# devcroft's generated service config, log, and supervisor socket".

Definition is_ignored (existing : str) : bool := existsb (λ l, bool_decide (trim l = IGNORE_ENTRY)) (lines existing).

Definition with_entry (existing : str) : str :=
  let next := if negb (bool_decide (existing = [])) && negb (last_is NL existing) then existing ++ [NL] else existing in
  next ++ [NL] ++ IGNORE_COMMENT ++ [NL] ++ IGNORE_ENTRY ++ [NL].

(** [write_ok] is whether writing a file succeeds. *)
Context (write_ok : str → bool).

Definition ignore_artifact_dir (f : fs) (project_root : str) : fs :=
  let gitignore := path_join project_root ".gitignore" in
  let existing := read_or_empty f gitignore in
  if is_ignored existing then f
  else if bool_decide (existing = []) && negb (path_exists f (path_join project_root ".git")) then f
  else if write_ok gitignore then <[gitignore := with_entry existing]> f else f.

(** ** The manifest *)

Definition line (s : str) : str := s ++ [NL].

(** [{:?}] of a string with nothing to escape. *)
Definition quoted (s : str) : str := QUOTE ++ s ++ QUOTE.

Definition manifest_text (name provider : str) : str :=
  line "[sandbox]" ++ line ("name = " ++ quoted name) ++ line [] ++
  line "[env]" ++ line ("provider = " ++ quoted provider) ++ line [] ++
  line "# Uncomment to grant more than the project root (already allowed" ++
  line "# by default) or to change the network default:" ++
  line "#" ++
  line "# [filesystem]" ++
  line ("# allow = [" ++ quoted "." ++ "]") ++
  line ("# read = [" ++ quoted "/path/to/a/read-only/dir" ++ "]") ++
  line "#" ++
  line "# [network]" ++
  line ("# default = " ++ quoted "deny") ++
  line ("# allow = [" ++ quoted "api.example.com" ++ "]").

Definition detected_provider (f : fs) (cwd : str) : str :=
  if is_directory f (path_join cwd ".flox") then "flox"
  else if regular_file f (path_join cwd "devbox.json") then "devbox"
  else if regular_file f (path_join cwd "flake.nix") then "nix"
  else "flox".

Definition init_name (f : fs) (cwd : str) : str :=
  let dir_name := match file_name cwd with Some n => from_utf8_lossy n | None => "sandbox" end in
  disambiguate_name f (slugify dir_name) cwd.

Definition parse_init_args (args : list str) : option bool :=
  match args with
  | [] => Some false
  | [flag] => if bool_decide (flag = ("--force" : str)) then Some true else None
  | _ => None
  end.

(** The command: an error is its exit code. *)
Definition cli_init (current_dir : result str str) (args : list str) : M Z unit :=
  force ← lift (ok_or 2%Z (parse_init_args args));
  cwd ← lift (map_err (λ _, 1%Z) current_dir);
  let manifest_path := path_join cwd MANIFEST_FILE_NAME in
  f ← get_fs;
  if path_exists f manifest_path && negb force then lift (Err 2%Z)
  else
    let name := init_name f cwd in
    let provider := detected_provider f cwd in
    if negb (write_ok manifest_path) then lift (Err 1%Z)
    else
      _ ← modify_fs <[manifest_path := manifest_text name provider]>;
      modify_fs (λ f, ignore_artifact_dir f cwd).
End init.

(** ** Lemmas *)

Lemma hex6_slug n : Forall slug_byte (hex6 n) ∧ length (hex6 n) = 6 ∧ last (hex6 n) ≠ Some DASH.
Proof.
  assert (∀ d, (d < 16)%N → slug_byte (hex_digit d) ∧ hex_digit d ≠ DASH) as Hd.
  { intros d Hd. unfold hex_digit, slug_byte. rewrite is_slug_char_spec. destruct (d <? 10)%N eqn:E.
    - apply N.ltb_lt in E. assert (byte (ascii_of_N (48 + d)) = 48 + d)%N as Hb by (apply byte_of_N; lia). rewrite Hb. split; [lia|].
      intros He. rewrite He in Hb. change (byte DASH) with 45%N in Hb. lia.
    - apply N.ltb_ge in E. assert (byte (ascii_of_N (87 + d)) = 87 + d)%N as Hb by (apply byte_of_N; lia). rewrite Hb. split; [lia|].
      intros He. rewrite He in Hb. change (byte DASH) with 45%N in Hb. lia. }
  split; [|split; [done|]].
  - unfold hex6. apply Forall_fmap, Forall_forall. intros i _. apply Hd. by apply N.mod_lt.
  - unfold hex6. cbn. intros [= He]. apply (Hd ((n / 16 ^ 0) mod 16)%N); [by apply N.mod_lt|done].
Qed.

(** What makes a list of slug bytes a valid name. *)
Lemma slug_bytes_valid s :
  Forall slug_byte s → s ≠ [] → length s ≤ MAX_LEN → head s ≠ Some DASH → is_valid_name s = true.
Proof.
  intros Hc Hne Hlen Hh. unfold is_valid_name. rewrite bool_decide_false by done.
  destruct (MAX_LEN <? length s) eqn:E; [apply Nat.ltb_lt in E; lia|]. cbn [orb].
  rewrite chars_ascii by by apply slug_bytes_ascii. destruct s as [|c s]; [done|]. rewrite fmap_cons.
  inversion Hc; subst.
  assert (is_alnum (byte c) = true) as Ha by (apply slug_byte_alnum; [done|]; intros ->; done).
  unfold is_alnum in Ha. rewrite <- negb_orb, Ha, <- fmap_cons. apply forallb_elem.
  intros x (y & -> & Hy)%list_elem_of_fmap. rewrite Forall_forall in Hc. by apply Hc.
Qed.

Section init_lemmas.
Context (home : option str) (meta_of_json : str → result str Meta) (path_hash : str → N).

Lemma trimmed_slug base n : slug_result base → Forall slug_byte (pop_dashes (take n base)).
Proof. intros Hb. by apply pop_dashes_wf, slug_wf_take, Hb. Qed.

Lemma disambiguate_slug f base root :
  slug_result base → Forall slug_byte (disambiguate_name home meta_of_json path_hash f base root).
Proof.
  intros Hb. assert (Forall slug_byte base) as Hs by apply Hb. unfold disambiguate_name.
  destruct (state_paths _ _); [|done]. destruct (read_meta _ _ _) as [[mt|]|]; [|done..]. case_bool_decide; [done|].
  apply Forall_app. split; [by apply trimmed_slug|]. apply Forall_app. split; [by repeat constructor|]. apply hex6_slug.
Qed.

Lemma init_name_slug f cwd : Forall slug_byte (init_name home meta_of_json path_hash f cwd).
Proof. apply disambiguate_slug, slugify_result. Qed.

(** A name kept apart from another project's is still valid. *)
Lemma disambiguate_valid f base root :
  slug_result base → is_valid_name (disambiguate_name home meta_of_json path_hash f base root) = true.
Proof.
  intros Hb. unfold disambiguate_name.
  destruct (state_paths _ _); [|by apply slug_result_valid]. destruct (read_meta _ _ _) as [[mt|]|]; [|by apply slug_result_valid..].
  case_bool_decide; [by apply slug_result_valid|]. unfold name_suffix.
  destruct (hex6_slug (N.land (path_hash root) 0xffffff)) as (Hs & Hl & _). set (suffix := hex6 _) in *. rewrite Hl.
  destruct Hb as [Hwf Hne Hlen Hlast].
  assert (slug_wf (pop_dashes (take (32 - 1 - 6) base))) as Hw by (apply pop_dashes_wf, slug_wf_take, Hwf).
  assert (length (pop_dashes (take (32 - 1 - 6) base)) ≤ 25) as Hlen'.
  { etrans; [apply pop_dashes_length|]. rewrite length_take. lia. }
  destruct Hw as [Hwc Hwh _]. set (t := pop_dashes _) in *.
  assert (t ≠ []) as Ht.
  { apply pop_dashes_nonempty; [by destruct base|]. pose proof (wf_head _ Hwf) as Hh. by destruct base. }
  apply slug_bytes_valid.
  - apply Forall_app. split; [done|]. apply Forall_app. split; [by repeat constructor|done].
  - by destruct t.
  - rewrite !length_app, Hl. change (length ("-" : str)) with 1. unfold MAX_LEN. lia.
  - by destruct t.
Qed.

Lemma init_name_valid f cwd : is_valid_name (init_name home meta_of_json path_hash f cwd) = true.
Proof. apply disambiguate_valid, slugify_result. Qed.
End init_lemmas.

(** ** [.gitignore] *)

Lemma ignored_with_entry (existing : str) : is_ignored (with_entry existing) = true.
Proof.
  unfold is_ignored, with_entry. apply existsb_elem. exists IGNORE_ENTRY. split; [|by vm_compute].
  set (base := (if negb (bool_decide (existing = [])) && negb (last_is NL existing) then existing ++ [NL] else existing) : str).
  assert (base ++ [NL] ++ IGNORE_COMMENT ++ [NL] ++ IGNORE_ENTRY ++ [NL] =
          (base ++ NL :: IGNORE_COMMENT) ++ NL :: IGNORE_ENTRY ++ [NL]) as -> by (rewrite <- app_assoc; done).
  rewrite lines_app. apply elem_of_app. right. vm_compute. by left.
Qed.

Lemma with_entry_prefix (existing : str) : existing `prefix_of` with_entry existing.
Proof. unfold with_entry. case_match; [rewrite <- app_assoc|]; by apply prefix_app_r. Qed.

Lemma with_entry_valid (existing : str) : utf8_valid existing = true → utf8_valid (with_entry existing) = true.
Proof.
  intros Hv. unfold with_entry. case_match; [rewrite <- app_assoc|]; rewrite utf8_valid_app by done; by vm_compute.
Qed.

Section gitignore.
Context (write_ok : str → bool).
Abbreviation covered := (ignore_artifact_dir write_ok).
Abbreviation gitignore root := (path_join root ".gitignore").

(** Covering the artifacts in [.gitignore] loses nothing a user wrote there:
    a readable file only grows at its end and no other file changes; where
    there is a repository (or already a [.gitignore]) and writing works, the
    entry is in it afterwards, and doing it again changes nothing. *)
Theorem gitignore_kept f root text
    (Hf : default [] (f !! gitignore root) = text) (Hu : utf8_valid text = true) :
  (∃ rest, default [] (covered f root !! gitignore root) = text ++ rest) ∧
  (∀ x, x ≠ gitignore root → covered f root !! x = f !! x) ∧
  (write_ok (gitignore root) = true → text ≠ [] ∨ path_exists f (path_join root ".git") = true →
    is_ignored (default [] (covered f root !! gitignore root)) = true) ∧
  covered (covered f root) root = covered f root.
Proof.
  assert (∀ g, default [] (g !! gitignore root) = text → read_or_empty g (gitignore root) = text) as Hread.
  { intros g Hg. unfold read_or_empty, read_to_string. destruct (g !! gitignore root); simpl in Hg; subst; [by rewrite Hu|done]. }
  unfold ignore_artifact_dir at 1 2 3 5 6. rewrite (Hread f Hf). destruct (is_ignored text) eqn:Ei.
  { split; [exists []; by rewrite app_nil_r|]. split; [done|]. split; [by rewrite Hf|]. unfold ignore_artifact_dir. by rewrite (Hread f Hf), Ei. }
  destruct (bool_decide (text = []) && negb (path_exists f (path_join root ".git"))) eqn:Eg.
  { split; [exists []; by rewrite app_nil_r|]. split; [done|]. split.
    - intros _ Hor. apply andb_true_iff in Eg as [He%bool_decide_eq_true Hg%negb_true_iff]. destruct Hor; congruence.
    - unfold ignore_artifact_dir. by rewrite (Hread f Hf), Ei, Eg. }
  destruct (write_ok (gitignore root)) eqn:Ew.
  2: { split; [exists []; by rewrite app_nil_r|]. split; [done|]. split; [done|].
    unfold ignore_artifact_dir. by rewrite (Hread f Hf), Ei, Eg, Ew. }
  rewrite lookup_insert_eq. cbn [default from_option id]. split; [|split; [|split]].
  - destruct (with_entry_prefix text) as [k Hk]. by exists k.
  - intros x Hx. by rewrite lookup_insert_ne.
  - intros _ _. apply ignored_with_entry.
  - unfold ignore_artifact_dir, read_or_empty, read_to_string. rewrite lookup_insert_eq, with_entry_valid by done.
    by rewrite ignored_with_entry.
Qed.

(** A [.gitignore] that is not UTF-8 is lost: in a repository it is replaced by
    the two lines of the entry. *)
Lemma non_utf8_gitignore_lost f root text :
  f !! gitignore root = Some text → utf8_valid text = false → path_exists f (path_join root ".git") = true →
  write_ok (gitignore root) = true →
  covered f root !! gitignore root = Some (with_entry []).
Proof.
  intros Hf Hu Hg Hw. unfold ignore_artifact_dir, read_or_empty, read_to_string. rewrite Hf, Hu, Hg, Hw.
  assert (is_ignored [] = false) as -> by by vm_compute. cbn [bool_decide negb andb]. rewrite andb_false_r. by rewrite lookup_insert_eq.
Qed.
End gitignore.

(** ** The manifest *)

(** *** What TOML and the derived deserialiser say of simple manifests

    A fragment of TOML: blank lines, comments, table headers with a bare key,
    and pairs of a bare key and a basic string without escapes, each name once.
    Below it, what [#[derive(Deserialize)]] with [#[serde(default)]] makes of a
    table whose known fields have their types; unknown fields are left out. *)
Inductive toml_line := LBlank | LTable (name : str) | LPair (key value : str).

Definition bare_byte (c : ascii) : bool :=
  let b := byte c in
  (((48 <=? b) && (b <=? 57)) || ((65 <=? b) && (b <=? 90)) || ((97 <=? b) && (b <=? 122)) || (b =? 45) || (b =? 95))%N.
Definition bare_key (s : str) : bool := negb (bool_decide (s = [])) && forallb bare_byte s.
Definition text_byte (c : ascii) : bool := let b := byte c in ((32 <=? b) && (b <=? 126))%N.
Definition plain_text (s : str) : bool := forallb (λ c, text_byte c && negb (byte c =? 34)%N && negb (byte c =? 92)%N) s.

Definition read_pair (l : str) : option toml_line :=
  '(left_part, right_part) ← split_once EQUALS l;
  key ← strip_suffix " " left_part;
  quoted_value ← strip_prefix (" " ++ QUOTE) right_part;
  value ← strip_suffix QUOTE quoted_value;
  if bare_key key && plain_text value then Some (LPair key value) else None.

Definition read_line (l : str) : option toml_line :=
  match l with
  | [] => Some LBlank
  | c :: rest =>
      if decide (c = "#"%char) then if forallb text_byte rest then Some LBlank else None
      else if decide (c = "["%char) then
        name ← strip_suffix "]" rest; if bare_key name then Some (LTable name) else None
      else read_pair l
  end.

(** The tables so far, the current one last. *)
Fixpoint read_lines (ls : list str) (acc : list (str * list (str * toml))) : option (list (str * list (str * toml))) :=
  match ls with
  | [] => Some acc
  | l :: ls =>
      match read_line l with
      | None => None
      | Some LBlank => read_lines ls acc
      | Some (LTable name) => if bool_decide (name ∈ acc.*1) then None else read_lines ls (acc ++ [(name, [])])
      | Some (LPair key value) =>
          match reverse acc with
          | [] => None
          | (name, pairs) :: before =>
              if bool_decide (key ∈ pairs.*1) then None
              else read_lines ls (reverse before ++ [(name, pairs ++ [(key, TStr value)])])
          end
      end
  end.

Definition read_document (text : str) : option (list (str * toml)) :=
  match read_lines (split_on NL text) [] with
  | Some tables => Some ((λ e : str * list (str * toml), (e.1, TTable e.2)) <$> tables)
  | None => None
  end.

(** Two tables with the same entries, in whatever order a table iterates. *)
Definition same_value (v v' : toml) : Prop :=
  match v, v' with TTable a, TTable b => a ≡ₚ b | _, _ => v = v' end.
Definition same_table (t t' : list (str * toml)) : Prop :=
  ∃ u, t ≡ₚ u ∧ Forall2 (λ e e', e.1 = e'.1 ∧ same_value e.2 e'.2) u t'.

Definition section_of (t : list (str * toml)) (k : str) : option (list (str * toml)) :=
  match table_get t k with None => Some [] | Some (TTable section) => Some section | Some _ => None end.
Definition field {A : Type} (t : list (str * toml)) (k : str) (read : toml → option A) (default_value : A) : option A :=
  match table_get t k with None => Some default_value | Some v => read v end.
Definition as_strings (v : toml) : option (list str) := match v with TArray l => mapM toml_as_str l | _ => None end.
Definition as_string_map (v : toml) : option (gmap str str) :=
  t ← toml_as_table v; l ← mapM (λ '(k, x), x ← toml_as_str x; Some (k, x)) t; Some (list_to_map l).
Definition as_network_default (v : toml) : option NetworkDefault :=
  s ← toml_as_str v;
  if bool_decide (s = ("deny" : str)) then Some Deny else if bool_decide (s = ("allow" : str)) then Some Allow else None.

Definition derived_manifest (t : list (str * toml)) : option RawManifest :=
  sandbox ← section_of t "sandbox"; env ← section_of t "env"; filesystem ← section_of t "filesystem";
  network ← section_of t "network"; ssh ← section_of t "ssh"; hooks ← section_of t "hooks";
  name ← field sandbox "name" (fmap Some ∘ toml_as_str) None;
  isolation ← field sandbox "isolation" (fmap Some ∘ toml_as_str) None;
  prov ← field env "provider" toml_as_str (provider Env_default);
  variables ← field env "vars" as_string_map ∅;
  allow ← field filesystem "allow" as_strings (fs_allow Filesystem_default);
  read ← field filesystem "read" as_strings []; deny ← field filesystem "deny" as_strings [];
  net ← field network "default" as_network_default Deny;
  hosts ← field network "allow" as_strings []; ports ← field network "ports" (λ _, None) [];
  agent ← field ssh "forward_agent" toml_as_bool false;
  create ← field hooks "post_create" (fmap Some ∘ toml_as_str) None;
  start ← field hooks "post_start" (fmap Some ∘ toml_as_str) None;
  Some {| raw_sandbox := {| raw_name := name; raw_isolation := isolation |}; raw_env := {| provider := prov; vars := variables |};
          raw_filesystem := {| fs_allow := allow; fs_read := read; fs_deny := deny |};
          raw_network := {| net_default := net; net_allow := hosts; net_ports := ports |};
          raw_ssh := {| forward_agent := agent |}; raw_hooks := {| post_create := create; post_start := start |} |}.

(** The manifest [init] means to write. *)
Definition written_manifest (name prov : str) : Manifest :=
  {| m_sandbox := {| sandbox_name := name |}; m_env := {| provider := prov; vars := ∅ |};
     m_filesystem := Filesystem_default; m_network := Network_default; m_ssh := Ssh_default; m_hooks := Hooks_default |}.
Definition written_raw (name prov : str) : RawManifest :=
  {| raw_sandbox := {| raw_name := Some name; raw_isolation := None |}; raw_env := {| provider := prov; vars := ∅ |};
     raw_filesystem := Filesystem_default; raw_network := Network_default; raw_ssh := Ssh_default; raw_hooks := Hooks_default |}.
Definition written_table (name provider : str) : list (str * toml) :=
  [("sandbox" : str, TTable [("name" : str, TStr name)]); ("env" : str, TTable [("provider" : str, TStr provider)])].

(** *** The text [init] writes, read *)

Lemma split_line (s rest : str) : NL ∉ s → split_on NL (line s ++ rest) = s :: split_on NL rest.
Proof. intros Hs. unfold line. rewrite <- app_assoc. cbn [app]. by rewrite split_on_app, split_on_plain. Qed.

Lemma strip_suffix_app (p s : str) : strip_suffix p (s ++ p) = Some s.
Proof. unfold strip_suffix. rewrite reverse_app, strip_prefix_app. cbn. by rewrite reverse_involutive. Qed.

Lemma read_pair_quoted (key value : str) :
  bare_key key = true → plain_text value = true → EQUALS ∉ key → read_pair (key ++ " = " ++ quoted value) = Some (LPair key value).
Proof.
  intros Hk Hv He. unfold read_pair.
  assert (key ++ " = " ++ quoted value = (key ++ " ") ++ EQUALS :: (" " ++ QUOTE) ++ value ++ QUOTE) as -> by (by rewrite <- app_assoc).
  rewrite split_once_app by (apply not_elem_of_app; split; [done|by apply (bool_decide_unpack _); vm_compute]).
  cbn [mbind option_bind]. rewrite strip_suffix_app. cbn [mbind option_bind]. rewrite strip_prefix_app. cbn [mbind option_bind].
  rewrite strip_suffix_app. cbn [mbind option_bind]. by rewrite Hk, Hv.
Qed.

Lemma read_lines_blank l ls acc : read_line l = Some LBlank → read_lines (l :: ls) acc = read_lines ls acc.
Proof. cbn [read_lines]. by intros ->. Qed.
Lemma read_lines_table l name ls acc :
  read_line l = Some (LTable name) → name ∉ acc.*1 → read_lines (l :: ls) acc = read_lines ls (acc ++ [(name, [])]).
Proof. cbn [read_lines]. intros -> Hn. by rewrite bool_decide_false. Qed.
Lemma read_lines_pair l key value ls acc name pairs :
  read_line l = Some (LPair key value) → key ∉ pairs.*1 →
  read_lines (l :: ls) (acc ++ [(name, pairs)]) = read_lines ls (acc ++ [(name, pairs ++ [(key, TStr value)])]).
Proof. cbn [read_lines]. intros -> Hn. by rewrite reverse_snoc, bool_decide_false, reverse_involutive. Qed.

Lemma slug_bytes_plain s : Forall slug_byte s → plain_text s = true.
Proof.
  intros Hs. unfold plain_text. apply forallb_elem. intros c Hc. rewrite Forall_forall in Hs. specialize (Hs c Hc).
  unfold slug_byte in Hs. apply is_slug_char_spec in Hs. unfold text_byte.
  rewrite !andb_true_iff, !N.leb_le, !negb_true_iff, !N.eqb_neq. lia.
Qed.
Section init_spec.
Context (home : option str) (meta_of_json : str → result str Meta) (path_hash : str → N) (write_ok : str → bool).
Context (parse_table : str → result str (list (str * toml))) (try_into : list (str * toml) → result str RawManifest).

Lemma detected_known f cwd : detected_provider f cwd ∈ strs ["flox"; "devbox"; "nix"].
Proof.
  unfold detected_provider, strs. cbn [map]. rewrite !elem_of_cons.
  destruct (is_directory _ _); [by left|]. destruct (regular_file _ _); [by right; left|].
  destruct (regular_file _ _); [by right; right; left|by left].
Qed.

(** TOML and the deserialiser conform on the fragment. *)
Definition reads_toml : Prop :=
  ∀ text t, read_document text = Some t → ∃ t', parse_table text = Ok t' ∧ same_table t t'.
Definition derives : Prop := ∀ t raw, NoDup (t.*1) → derived_manifest t = Some raw → try_into t = Ok raw.

(** The lines [init] writes, and what they read as. *)
Lemma manifest_reads (name prov : str) :
  Forall slug_byte name → prov ∈ strs ["flox"; "devbox"; "nix"] →
  read_document (manifest_text name prov) = Some (written_table name prov).
Proof.
  intros Hn Hp.
  assert (Forall slug_byte prov) as Hps.
  { unfold strs in Hp. cbn [map] in Hp. rewrite !elem_of_cons in Hp.
    destruct Hp as [->|[->|[->|Hp%not_elem_of_nil]]]; [..|done]; repeat constructor. }
  assert (∀ (key v : str), NL ∉ key → Forall slug_byte v → NL ∉ key ++ quoted v) as Hq.
  { intros key v Hk Hv. unfold quoted. rewrite !elem_of_app. intros [?|[Hin|[Hin|Hin]]]; [done| | |].
    - by revert Hin; apply (bool_decide_unpack _); vm_compute.
    - rewrite Forall_forall in Hv. specialize (Hv _ Hin). by vm_compute in Hv.
    - by revert Hin; apply (bool_decide_unpack _); vm_compute. }
  unfold read_document, manifest_text.
  do 15 (rewrite split_line; [|first [apply Hq; [by apply (bool_decide_unpack _); vm_compute|done]|by apply (bool_decide_unpack _); vm_compute]]).
  rewrite <- (app_nil_r (line ("# allow = [" ++ _))), split_line by (by apply (bool_decide_unpack _); vm_compute).
  rewrite (read_lines_table _ "sandbox") by ((by vm_compute) || (by apply not_elem_of_nil)).
  rewrite (read_lines_pair _ "name" name _ [] "sandbox" []);
    [|exact (read_pair_quoted "name" name eq_refl (slug_bytes_plain _ Hn) ltac:(apply (bool_decide_unpack _); vm_compute; exact I))|by apply not_elem_of_nil].
  rewrite read_lines_blank by done.
  rewrite (read_lines_table _ "env") by ((by vm_compute) || (by apply (bool_decide_unpack _); vm_compute)).
  rewrite (read_lines_pair _ "provider" prov _ _ "env" []);
    [|exact (read_pair_quoted "provider" prov eq_refl (slug_bytes_plain _ Hps) ltac:(apply (bool_decide_unpack _); vm_compute; exact I))|by apply not_elem_of_nil].
  repeat (rewrite read_lines_blank by (by vm_compute)). done.
Qed.

Lemma manifest_text_ascii (name prov : str) :
  Forall slug_byte name → prov ∈ strs ["flox"; "devbox"; "nix"] → is_ascii (manifest_text name prov).
Proof.
  intros Hn Hp. apply slug_bytes_ascii in Hn.
  assert (is_ascii prov) as Hps.
  { unfold strs in Hp. cbn [map] in Hp. rewrite !elem_of_cons in Hp.
    destruct Hp as [->|[->|[->|Hp%not_elem_of_nil]]]; [..|done]; repeat constructor. }
  unfold manifest_text, quoted, line, is_ascii in *. rewrite !Forall_app. split_and!; try done; by apply (bool_decide_unpack _); vm_compute.
Qed.

Lemma permuted_pair {A : Type} (x y : A) l : [x; y] ≡ₚ l → l = [x; y] ∨ l = [y; x].
Proof.
  intros H. destruct (Permutation_length_2_inv H) as [->| ->]; auto.
Qed.

Lemma written_parses (name prov : str) :
  reads_toml → derives → Forall slug_byte name → is_valid_name name = true → prov ∈ strs ["flox"; "devbox"; "nix"] →
  parse parse_table try_into (manifest_text name prov) = Ok (written_manifest name prov, []).
Proof.
  intros Ht Hr Hs Hn Hp. destruct (Ht _ _ (manifest_reads name prov Hs Hp)) as (t & Hparse & u & Hu & Hut).
  assert (t = written_table name prov ∨ t = reverse (written_table name prov)) as Hw.
  { assert (∀ e (k : str) (k' v : str), e.1 = k → same_value (TTable [(k', TStr v)]) e.2 → e = (k, TTable [(k', TStr v)])) as Hone.
    { intros [k0 [| |l| |]] k k' v; cbn; intros Hk Hv; try done. apply Permutation_singleton_l in Hv as ->. by subst. }
    apply permuted_pair in Hu as [->| ->]; [left|right];
      inversion_clear Hut as [|? e1 ? ? [H1 H2] Hut']; inversion_clear Hut' as [|? e2 ? ? [H3 H4] Hnil]; inversion_clear Hnil;
      cbn in H1, H3; symmetry in H1, H3; by rewrite (Hone e1 _ _ _ H1 H2), (Hone e2 _ _ _ H3 H4). }
  assert (try_into t = Ok (written_raw name prov)) as Hraw.
  { apply Hr; [|by destruct Hw as [->| ->]]. destruct Hw as [->| ->]; apply (bool_decide_unpack _); by vm_compute. }
  unfold parse. rewrite Hparse. cbn [map_err mbind result_bind].
  assert (check_unknown_keys t = Ok tt) as -> by (destruct Hw as [->| ->]; by vm_compute).
  cbn [map_err mbind result_bind]. rewrite Hraw. cbn [map_err mbind result_bind written_raw raw_sandbox raw_name ok_or]. rewrite Hn.
  unfold strs in Hp. cbn [map] in Hp. rewrite !elem_of_cons in Hp.
  destruct Hp as [->|[->|[->|Hp]]]; [by vm_compute..|by apply not_elem_of_nil in Hp].
Qed.

(** *** Finding it *)

Lemma split_on_elem c s x : x ∈ split_on c s → c ∉ x.
Proof.
  revert x. induction s as [|d s IH]; intros x; cbn; [intros ->%list_elem_of_singleton; by apply not_elem_of_nil|].
  destruct (decide (c = d)) as [->|Hd]; [intros [->|Hx]%elem_of_cons; [by apply not_elem_of_nil|by apply IH]|].
  pose proof (split_on_ne c s) as Hne. destruct (split_on c s) as [|w ws]; [done|].
  intros [->|Hx]%elem_of_cons; [|by apply IH; right]. rewrite not_elem_of_cons. split; [done|]. apply IH. by left.
Qed.

Lemma path_comps_no_slash p c : c ∈ path_comps p → SLASH ∉ c ∧ c ≠ [].
Proof.
  intros Hc. split.
  - unfold path_comps, components in Hc. destruct (split_root p) as [root rest]. cbn in Hc.
    apply elem_of_filter_bool in Hc as [Hc _]. by apply split_on_elem in Hc.
  - apply path_comps_kept in Hc. unfold keep_segment in Hc. intros ->. done.
Qed.

Lemma join_snoc (sep : str) (l : list str) x : l ≠ [] → join sep (l ++ [x]) = join sep l ++ sep ++ x.
Proof.
  induction l as [|w [|w' l] IH]; intros Hl; [done|done|].
  change (join sep ((w :: w' :: l) ++ [x])) with (w ++ sep ++ join sep ((w' :: l) ++ [x])). rewrite IH by done.
  cbn [join]. by rewrite <- !app_assoc.
Qed.

Lemma path_join_abs (comps : list str) (m : str) :
  (∀ c, c ∈ comps → SLASH ∉ c ∧ c ≠ []) → starts_with "/" m = false →
  path_join (abs_path comps) m = abs_path (comps ++ [m]).
Proof.
  intros Hc Hm. destruct comps as [|w comps _] using rev_ind.
  - unfold path_join, abs_path. rewrite Hm. done.
  - destruct (Hc w) as [Hs Hne]; [apply elem_of_app; right; by left|].
    rewrite Flox.join_word; [|done| |done].
    + unfold abs_path. rewrite (join_snoc "/" (comps ++ [w])) by (by intros [_ ?]%app_nil). by rewrite <- app_assoc.
    + unfold last_is. destruct w as [|x w _] using rev_ind; [done|].
      assert (∃ pre, abs_path (comps ++ [w ++ [x]]) = pre ++ [x]) as [pre ->].
      { unfold abs_path. destruct comps as [|c comps]; [exists ("/" ++ w); by rewrite <- app_assoc|].
        rewrite join_snoc by done. eexists. by rewrite !app_assoc. }
      rewrite last_snoc. apply bool_decide_eq_false. intros [= ->]. apply Hs, elem_of_app. right. by left.
Qed.

Lemma find_written (f : fs) cwd :
  abs_path (path_comps cwd) = cwd → is_Some (f !! path_join cwd MANIFEST_FILE_NAME) →
  find_manifest f cwd = Some (path_comps cwd ++ [MANIFEST_FILE_NAME]) ∧
  abs_path (path_comps cwd ++ [MANIFEST_FILE_NAME]) = path_join cwd MANIFEST_FILE_NAME.
Proof.
  intros Hcwd Hf.
  assert (abs_path (path_comps cwd ++ [MANIFEST_FILE_NAME]) = path_join cwd MANIFEST_FILE_NAME) as Hp.
  { rewrite <- path_join_abs; [by rewrite Hcwd|intros c; apply path_comps_no_slash|done]. }
  split; [|done]. unfold find_manifest, discover.
  destruct (reverse (path_comps cwd)) as [|c l] eqn:Er; cbn [discover_from].
  - assert (path_comps cwd = []) as E by (rewrite <- (reverse_involutive (path_comps cwd)); by rewrite Er).
    rewrite E in *. change (reverse []) with ([] : list str). rewrite Hp. unfold regular_file. by rewrite bool_decide_true.
  - rewrite <- Er, reverse_involutive, Hp. unfold regular_file. by rewrite bool_decide_true.
Qed.

Abbreviation init := (cli_init home meta_of_json path_hash write_ok).
Abbreviation manifest_path cwd := (path_join cwd MANIFEST_FILE_NAME).

(** C39: [init], on every branch: with bad arguments it exits 2 and with no current
    directory 1; over an existing manifest without [--force] it exits 2;
    whenever it fails nothing was changed.  When it succeeds, the manifest it
    wrote is the one found from there, readable text that [up] loads without a
    warning, whose name is the valid name chosen for the directory, whose
    provider is the detected one and whose other sections are the defaults;
    and besides it only [.gitignore] may have changed.  The TOML parser and
    the derived deserialiser are only taken to agree with the fragment above. *)
Theorem init_manifest_loads (current_dir : result str str) args w
    (Ht : reads_toml) (Hr : derives) (Habs : ∀ cwd, current_dir = Ok cwd → abs_path (path_comps cwd) = cwd) :
  match init current_dir args w with
  | (Ok _, w') =>
      ∃ cwd force, current_dir = Ok cwd ∧ parse_init_args args = Some force ∧
        (path_exists (w_fs w) (manifest_path cwd) = true → force = true) ∧
        let name := init_name home meta_of_json path_hash (w_fs w) cwd in
        let prov := detected_provider (w_fs w) cwd in
        is_valid_name name = true ∧
        (∃ path, find_manifest (w_fs w') cwd = Some path ∧ abs_path (removelast path) = cwd ∧
           read_to_string (w_fs w') (abs_path path) = Ok (Some (manifest_text name prov))) ∧
        parse parse_table try_into (manifest_text name prov) = Ok (written_manifest name prov, []) ∧
        (∀ x, x ≠ manifest_path cwd → x ≠ path_join cwd ".gitignore" → w_fs w' !! x = w_fs w !! x) ∧
        w_events w' = w_events w
  | (Err code, w') => w' = w ∧ (code = 1 ∨ code = 2)%Z ∧ (parse_init_args args = None → code = 2%Z) ∧
      (∀ cwd force, current_dir = Ok cwd → parse_init_args args = Some force →
         code = 2%Z ↔ path_exists (w_fs w) (manifest_path cwd) = true ∧ force = false)
  end.
Proof.
  unfold cli_init, mbind, M_bind, lift, get_fs, modify_fs. destruct (parse_init_args args) as [force|]; cbn.
  2: { by split; [|split; [right|]]. }
  destruct current_dir as [cwd|]; cbn. 2: { by split; [|split; [left|]]. }
  destruct (path_exists (w_fs w) (manifest_path cwd) && negb force) eqn:Ee; cbn.
  { split; [done|]. split; [by right|]. split; [done|]. intros ? ? [= <-] [= <-].
    apply andb_true_iff in Ee as [Ee Ef%negb_true_iff]. done. }
  destruct (write_ok (manifest_path cwd)); cbn.
  2: { split; [done|]. split; [by left|]. split; [done|]. intros ? ? [= <-] [= <-]. split; [done|].
    intros [He Hf]. rewrite He, Hf in Ee. done. }
  set (name := init_name _ _ _ _ _). set (prov := detected_provider _ _).
  assert (is_valid_name name = true) as Hn by apply init_name_valid.
  assert (Forall slug_byte name) as Hsl by apply init_name_slug.
  exists cwd, force. split; [done|]. split; [done|]. split.
  { intros He. rewrite He in Ee. by destruct force. }
  split; [done|].
  assert (manifest_path cwd ≠ path_join cwd ".gitignore") as Hne by (by apply path_join_ne).
  assert (∀ g x, x ≠ path_join cwd ".gitignore" → ignore_artifact_dir write_ok g cwd !! x = g !! x) as Hg.
  { intros g x Hx. unfold ignore_artifact_dir. repeat case_match; [done..| |done]. by rewrite lookup_insert_ne. }
  split; [|split; [by apply written_parses; [..|apply detected_known]|]].
  - set (f' := ignore_artifact_dir _ _ _). assert (f' !! manifest_path cwd = Some (manifest_text name prov)) as Hf'
      by (unfold f'; by rewrite Hg, lookup_insert_eq).
    destruct (find_written f' cwd (Habs cwd eq_refl) ltac:(by eexists)) as [Hfind Hpath].
    eexists. split; [exact Hfind|]. rewrite removelast_last, Hpath. split; [by apply Habs|].
    unfold read_to_string. rewrite Hf', utf8_valid_ascii; [done|]. by apply manifest_text_ascii, detected_known.
  - split; [|done]. intros x Hx1 Hx2. by rewrite Hg, lookup_insert_ne.
Qed.
End init_spec.

(** ** A concrete project *)

Definition empty_project : World := {| w_fs := {[ ("/p/devbox.json" : str) := ("{}" : str) ]}; w_time := 0; w_events := [] |}.

(** A parser and a deserialiser of just the fragment. *)
Definition sample_parse_table (text : str) : result str (list (str * toml)) := ok_or ([] : str) (read_document text).
Definition sample_try_into (t : list (str * toml)) : result str RawManifest := ok_or ([] : str) (derived_manifest t).

Lemma sample_reads_toml : reads_toml sample_parse_table.
Proof.
  intros text t Ht. exists t. unfold sample_parse_table. rewrite Ht. split; [done|]. exists t. split; [done|].
  induction t as [|[k v] t IH] in |- *; constructor; [|done]. split; [done|]. by destruct v; cbn.
Qed.

Lemma sample_derives : derives sample_try_into.
Proof. intros t raw _ Hd. unfold sample_try_into. by rewrite Hd. Qed.

Definition sample_init (args : list str) : result Z unit * World :=
  cli_init (Some ("/h" : str)) (λ _, Err ([] : str)) (λ _, 0%N) (λ _, true) (Ok ("/p" : str)) args empty_project.

Lemma init_manifest_loads_witness :
  ∃ w', sample_init [] = (Ok tt, w') ∧ find_manifest (w_fs w') "/p" = Some (strs ["p"; "devcroft.toml"]) ∧
    parse sample_parse_table sample_try_into (manifest_text "p" "devbox") = Ok (written_manifest "p" "devbox", []).
Proof.
  pose proof (init_manifest_loads (Some ("/h" : str)) (λ _, Err ([] : str)) (λ _, 0%N) (λ _, true) _ _
    (Ok ("/p" : str)) [] empty_project sample_reads_toml sample_derives
    ltac:(intros ? [= <-]; vm_compute; reflexivity)) as Hi.
  unfold sample_init. destruct (cli_init _ _ _ _ _ [] empty_project) as [r w'] eqn:E.
  assert (r = Ok tt) as -> by (apply (f_equal fst) in E; vm_compute in E; symmetry; exact E).
  destruct Hi as (cwd & force & Hcwd & _ & _ & Hi). injection Hcwd as <-.
  assert (init_name (Some ("/h" : str)) (λ _, Err ([] : str)) (λ _, 0%N) (w_fs empty_project) "/p" = "p") as Hn by (vm_compute; reflexivity).
  assert (detected_provider (w_fs empty_project) "/p" = "devbox") as Hp by (vm_compute; reflexivity).
  cbv zeta in Hi. rewrite Hn, Hp in Hi. destruct Hi as (_ & _ & Hparse & _). exists w'. split; [reflexivity|]. split; [|exact Hparse].
  apply (f_equal (λ x, find_manifest (w_fs x.2) "/p")) in E. cbn [snd] in E. rewrite <- E. vm_compute. reflexivity.
Defined.

Lemma gitignore_kept_witness :
  let f : gmap str str := {[ ("/p/.gitignore" : str) := ("target" : str) ]} in
  ∃ rest, default [] (ignore_artifact_dir (λ _, true) f "/p" !! path_join "/p" ".gitignore") = ("target" : str) ++ rest.
Proof.
  destruct (gitignore_kept (λ _, true) {[ ("/p/.gitignore" : str) := ("target" : str) ]} "/p" "target") as (Hk & _).
  - vm_compute. reflexivity.
  - vm_compute. reflexivity.
  - exact Hk.
Defined.
