(* ===== verification/Cli.v ===== *)
(** * The command line ([src/bin/devcroft.rs])

    One definition per command, over the [World]: an error of a command is its
    exit code, its value is what it prints or runs.  The operating system, the
    providers and the codecs are the interfaces of {!Up}; what else a command
    asks is a parameter of the section. *)

From S2P Require Import Prelude Slug Paths ProviderKind Manifest Validate Config Policy Capability Protocol.
From S2P Require Import State Exec Services Status World Shell SshKeys Terminate Up Providers SshConfig Init.

#[local] Set Default Proof Using "Type".

(** ** Arguments *)

Definition has_flag (flag : str) (args : list str) : bool := existsb (λ a, bool_decide (a = flag)) args.
Definition without (flags args : list str) : list str := List.filter (λ a, negb (member a flags)) args.

Definition NO_UP : str := "--no-up".
Definition YES : str := "--yes".
Definition RECREATE : str := "--recreate".
Definition SKIP_HOOKS : str := "--skip-hooks".
Definition SEPARATOR : str := "--".

(** At most one name. *)
Definition single_name (name_args : list str) : result Z (option str) :=
  match name_args with [] => Ok None | [name] => Ok (Some name) | _ => Err 2%Z end.

Record ExecArgs := { ea_no_up : bool; ea_name : option str; ea_cmd : str; ea_args : list str }.

(** [exec [--no-up] [name] -- cmd args...] *)
Definition parse_exec_args (args : list str) : result Z ExecArgs :=
  sep ← ok_or 2%Z (position (λ a, bool_decide (a = SEPARATOR)) args);
  let name_args := take sep args in
  let command_args := drop (S sep) args in
  name ← single_name (without [NO_UP] name_args);
  match command_args with
  | [] => Err 2%Z
  | cmd :: cmd_rest => Ok {| ea_no_up := has_flag NO_UP name_args; ea_name := name; ea_cmd := cmd; ea_args := cmd_rest |}
  end.

(** [logs [name] [--tail N]]: the loop. *)
Fixpoint parse_logs_args (name : option str) (tail : option N) (args : list str) : result Z (option str * option N) :=
  match args with
  | [] => Ok (name, tail)
  | a :: rest =>
      if bool_decide (a = ("--tail" : str)) then
        match rest with
        | n :: rest => match parse_unsigned U64_MAX n with Some n => parse_logs_args name (Some n) rest | None => Err 2%Z end
        | [] => Err 2%Z
        end
      else match name with None => parse_logs_args (Some a) tail rest | Some _ => Err 2%Z end
  end.

(** [policy --render [--backend nono] [name]]: the loop. *)
Fixpoint parse_policy_args (render : bool) (name : option str) (args : list str) : result Z (bool * option str) :=
  match args with
  | [] => Ok (render, name)
  | a :: rest =>
      if bool_decide (a = ("--render" : str)) then parse_policy_args true name rest
      else if bool_decide (a = ("--backend" : str)) then
        match rest with
        | b :: rest => if bool_decide (b = ("nono" : str)) then parse_policy_args render name rest else Err 2%Z
        | [] => Err 2%Z
        end
      else match name with None => parse_policy_args render (Some a) rest | Some _ => Err 2%Z end
  end.

Record WhyArgs := { wa_path : option str; wa_op : option str; wa_host : option str; wa_name : option str }.

(** [why ...]: the loop; an option at the end of the line takes no value. *)
Fixpoint parse_why_args (r : WhyArgs) (args : list str) : result Z WhyArgs :=
  match args with
  | [] => Ok r
  | a :: rest =>
      if bool_decide (a = ("--path" : str)) then
        match rest with
        | v :: rest => parse_why_args {| wa_path := Some v; wa_op := wa_op r; wa_host := wa_host r; wa_name := wa_name r |} rest
        | [] => Ok {| wa_path := None; wa_op := wa_op r; wa_host := wa_host r; wa_name := wa_name r |}
        end
      else if bool_decide (a = ("--op" : str)) then
        match rest with
        | v :: rest => parse_why_args {| wa_path := wa_path r; wa_op := Some v; wa_host := wa_host r; wa_name := wa_name r |} rest
        | [] => Ok {| wa_path := wa_path r; wa_op := None; wa_host := wa_host r; wa_name := wa_name r |}
        end
      else if bool_decide (a = ("--host" : str)) then
        match rest with
        | v :: rest => parse_why_args {| wa_path := wa_path r; wa_op := wa_op r; wa_host := Some v; wa_name := wa_name r |} rest
        | [] => Ok {| wa_path := wa_path r; wa_op := wa_op r; wa_host := None; wa_name := wa_name r |}
        end
      else match wa_name r with
           | None => parse_why_args {| wa_path := wa_path r; wa_op := wa_op r; wa_host := wa_host r; wa_name := Some a |} rest
           | Some _ => Err 2%Z
           end
  end.

Definition parse_op (op : str) : result Z Op :=
  if bool_decide (op = ("read" : str)) then Ok Read
  else if bool_decide (op = ("write" : str)) then Ok Write
  else if bool_decide (op = ("readwrite" : str)) then Ok ReadWrite
  else Err 2%Z.

(** A path under [HOME] back to the policy's [~] shorthand. *)
Definition normalize_path_for_policy (home : option str) (path : str) : str :=
  match home with
  | None => path
  | Some home =>
      if bool_decide (path = home) then "~"
      else match rest ← strip_prefix home path; strip_prefix "/" rest with
           | Some rest => "~/" ++ rest
           | None => path
           end
  end.

(** ** Exit codes *)

Definition up_exit_code (e : UpError) : Z :=
  match e with
  | UpState _ => 1
  | UpPolicy _ | UpConfig _ => 2
  | UpProvider _ => 3
  | UpBackend _ => 4
  | UpKeeper _ | UpSsh _ => 5
  end.

Definition status_exit_code (e : StatusError) : Z := match e with StatusState _ => 1 | StatusKeeper _ => 5 end.

(** The exit code of a command that prints its value. *)
Definition printed {A : Type} (r : result Z A) : Z := match r with Ok _ => 0 | Err code => code end.
(** Of one that runs a session. *)
Definition session_code (r : result Z Seen) : Z := match r with Ok s => seen_code s | Err code => code end.

(** ** Finding the manifest *)

Inductive DiscoverError := NoManifest | Unreadable (path : str) | Unparsable (path : str) (e : ConfigError).

Section cli.
Context `{Host} `{Provider} `{Codec} {caps : Type} `{CapBuilder caps}.
(** The TOML decoder, the current directory and executable, whether standard output is a
    terminal, which writes of [init] and [ssh-config] succeed, and the standard
    library's path hash. *)
Context (parse_table : str → result str (list (str * toml))) (try_into : list (str * toml) → result str RawManifest)
        (current_dir : result str str) (current_exe : option str) (stdout_is_tty : bool) (write_ok : str → bool) (path_hash : str → N).
(** What a session of a sandbox answers at a moment, on each attempt; the
    [SHELL] variable and the terminal; a keeper's answer to [Query]; the
    supervisor behind a services socket; the entries of the data directory; the
    error of a [remove_dir_all]; nono's host filter. *)
Context (attempts : str → nat → nat → SpawnRequest → Attempt) (shell_var : option str) (terminal : option PtySize)
        (query_frame : nat → str → result state_error Frame) (query_services : nat → str → result Unreachable (list ServiceState))
        (data_entries : fs → result state_error (option (list (str * bool)))) (remove_error : str → option state_error)
        (is_stale : str → str → str → fs → result ProviderError bool) (check_host : list str → str → bool * str).

Definition discover_manifest_with_warnings (f : fs) (start : str) : result DiscoverError (Manifest * str * list Warning) :=
  path ← ok_or NoManifest (find_manifest f start);
  let manifest_path := abs_path path in
  text ← (match read_to_string f manifest_path with Ok (Some text) => Ok text | _ => Err (Unreadable manifest_path) end);
  '(manifest, warnings) ← map_err (Unparsable manifest_path) (parse parse_table try_into text);
  Ok (manifest, abs_path (removelast path), warnings).

Definition discover_manifest (f : fs) (start : str) : result DiscoverError (Manifest * str) :=
  '(manifest, root, _) ← discover_manifest_with_warnings f start; Ok (manifest, root).

Definition resolve_sandbox_name (f : fs) (start : str) : result DiscoverError str :=
  '(manifest, _) ← discover_manifest f start; Ok (sandbox_name (m_sandbox manifest)).

Definition resolve_manifest_strict (f : fs) (name_arg : option str) (cwd : str) : result Z Manifest :=
  match discover_manifest f cwd with
  | Ok (manifest, _) =>
      match name_arg with
      | Some name => if bool_decide (sandbox_name (m_sandbox manifest) = name) then Ok manifest else Err 2%Z
      | None => Ok manifest
      end
  | Err _ => Err 2%Z
  end.

(** The name [down] and [rm] act on. *)
Definition resolve_name_arg (f : fs) (args : list str) : result Z str :=
  name ← single_name args;
  match name with
  | Some name =>
      if starts_with "--" name then Err 2%Z
      else if negb (is_valid_name name) then Err 2%Z
      else Ok name
  | None =>
      cwd ← map_err (λ _, 1%Z) current_dir;
      map_err (λ _, 2%Z) (resolve_sandbox_name f cwd)
  end.

(** ** Bringing a sandbox up on the way *)

Definition quiet_up : UpOptions := {| recreate := false; skip_hooks := false |}.

Definition maybe_auto_up (name cwd : str) : M UpError unit :=
  p ← io (state_paths h_home name);
  h ← check_health p;
  match h with
  | Healthy _ => mret tt
  | _ =>
      f ← get_fs;
      match discover_manifest f cwd with
      | Err _ => mret tt
      | Ok (manifest, project_root) =>
          if bool_decide (sandbox_name (m_sandbox manifest) = name) then _ ← up manifest project_root quiet_up; mret tt
          else mret tt
      end
  end.

(** Every failure on the way to a session is exit code 3. *)
Definition auto_up (no_up : bool) (name cwd : str) : M Z unit :=
  if no_up then mret tt else map_error (λ _, 3%Z) (maybe_auto_up name cwd).

(** The name given, or the nearest manifest's. *)
Definition name_or_discovered (name : option str) (cwd : str) : M Z str :=
  match name with
  | Some name => mret name
  | None => f ← get_fs; lift (map_err (λ _, 2%Z) (resolve_sandbox_name f cwd))
  end.

(** [ensure_client_keypair]: the key paths, or exit code 3. *)
Definition cli_client_key : M Z (str * str) :=
  '(private_path, public_path) ← lift (map_err (λ _, 3%Z) (client_key_paths h_home));
  _ ← map_error (λ _, 3%Z) (ensure_client_keypair h_random_key key_of_openssh create_parent h_write private_path public_path);
  mret (private_path, public_path).

(** ** Running things *)

Definition cli_exec (args : list str) : M Z Seen :=
  a ← lift (parse_exec_args args);
  cwd ← lift (map_err (λ _, 1%Z) current_dir);
  name ← name_or_discovered (ea_name a) cwd;
  _ ← auto_up (ea_no_up a) name cwd;
  w ← get_world;
  let req := {| ex_cmd := ea_cmd a; ex_args := ea_args a; ex_cwd := from_utf8_lossy cwd |} in
  lift (map_err (λ _, 5%Z) (exec (attempts name (w_time w) 0) req)).

Definition cli_shell (args : list str) : M Z Seen :=
  name ← lift (single_name (without [NO_UP] args));
  cwd ← lift (map_err (λ _, 1%Z) current_dir);
  name ← name_or_discovered name cwd;
  _ ← auto_up (has_flag NO_UP args) name cwd;
  w ← get_world;
  let recorded := recorded_shell (state_paths h_home name) (read_meta meta_of_json (w_fs w)) in
  lift (map_err (λ _, 5%Z) (Exec.shell (attempts name (w_time w)) recorded shell_var terminal {| sh_cwd := from_utf8_lossy cwd |}).1).

(** [proxy]: the socket the connection is relayed to. *)
Definition cli_proxy (args : list str) : M Z str :=
  host ← lift (match without [NO_UP] args with [host] => Ok host | _ => Err 2%Z end);
  name ← lift (map_err (λ _, 2%Z) (sandbox_name_from_host host));
  cwd ← lift (map_err (λ _, 1%Z) current_dir);
  _ ← cli_client_key;
  _ ← auto_up (has_flag NO_UP args) name cwd;
  w ← get_world;
  lift (map_err (λ _, 5%Z) (proxy_socket_of is_linux (h_view (w_time w)) (h_accepts (w_time w)) h_home (w_fs w) name)).

(** [ssh]: the command this process becomes. *)
Definition cli_ssh (args : list str) : M Z (list str) :=
  name ← lift (single_name (without [NO_UP] args));
  cwd ← lift (map_err (λ _, 1%Z) current_dir);
  name ← name_or_discovered name cwd;
  _ ← cli_client_key;
  _ ← auto_up (has_flag NO_UP args) name cwd;
  '(identity, _) ← lift (map_err (λ _, 1%Z) (client_key_paths h_home));
  let devcroft_bin := default ("devcroft" : str) current_exe in
  mret (strs ["ssh"; "-o"; "StrictHostKeyChecking=no"; "-o"; "UserKnownHostsFile=/dev/null"; "-o"; "IdentitiesOnly=yes"; "-o"]
        ++ ["ProxyCommand=" ++ devcroft_bin ++ " proxy --no-up %n"; "-i" : str; identity; name ++ DOT_DEVCROFT]).

Definition ssh_config_path : result Z str := ok_or 1%Z ((λ home, path_join home ".ssh/config") <$> h_home).

Definition parse_ssh_config_args (args : list str) : result Z bool :=
  match args with
  | [] => Ok false
  | [flag] => if bool_decide (flag = ("--write" : str)) then Ok true else Err 2%Z
  | _ => Err 2%Z
  end.

(** [ssh-config]: the text printed, if any. *)
Definition cli_ssh_config (args : list str) : M Z str :=
  write ← lift (parse_ssh_config_args args);
  '(private_path, _) ← cli_client_key;
  let identity_file := from_utf8_lossy private_path in
  if negb write then mret (SshConfig.render identity_file)
  else
    config_path ← lift ssh_config_path;
    if negb (write_ok config_path) then lift (Err 1%Z)
    else _ ← modify_fs (λ f, write_managed_section f config_path identity_file); mret [].

(** ** Starting and stopping *)

Definition UP_FLAGS : list str := [RECREATE; YES; SKIP_HOOKS].

(** [up] from the arguments to the call of [lifecycle::up]: the manifest, the
    project root and the options. *)
Definition up_call (f : fs) (args : list str) : result Z (Manifest * str * UpOptions) :=
  let recreate := has_flag RECREATE args in
  let yes := has_flag YES args in
  name ← single_name (without UP_FLAGS args);
  cwd ← map_err (λ _, 1%Z) current_dir;
  manifest ← resolve_manifest_strict f name cwd;
  let project_root := match find_manifest f cwd with Some p => abs_path (removelast p) | None => cwd end in
  if recreate && negb yes && negb stdout_is_tty then Err 2%Z
  else Ok (manifest, project_root, {| recreate := recreate; skip_hooks := has_flag SKIP_HOOKS args |}).

(** [warn_if_activation_hook_ran]: whether the warning is printed. *)
Definition warns_of_hook (f : fs) (m : Manifest) : bool :=
  match state_paths h_home (sandbox_name (m_sandbox m)) with
  | Err _ => false
  | Ok p => match read_meta meta_of_json f (meta p) with Ok (Some mt) => ran_activation_hook mt | _ => false end
  end.

Definition cli_up (args : list str) : M Z (UpOutcome * bool) :=
  f ← get_fs;
  '(manifest, project_root, opts) ← lift (up_call f args);
  outcome ← map_error up_exit_code (up manifest project_root opts);
  f ← get_fs;
  mret (outcome, warns_of_hook f manifest).

Abbreviation lifecycle_down := (down is_linux h_view h_polls h_home h_lock).
Abbreviation lifecycle_rm := (rm is_linux h_view h_polls h_home h_lock meta_of_json remove_error).

Definition cli_down (args : list str) : M Z unit :=
  f ← get_fs;
  name ← lift (resolve_name_arg f args);
  map_error (λ _, 1%Z) (lifecycle_down name).

Definition cli_rm (args : list str) : M Z unit :=
  let yes := has_flag YES args in
  f ← get_fs;
  name ← lift (resolve_name_arg f (without [YES] args));
  if negb yes && negb stdout_is_tty then lift (Err 2%Z)
  else map_error (λ _, 1%Z) (lifecycle_rm name).

(** ** Reporting *)

Definition show_degraded (d : DegradedCapability) : str :=
  aspect d ++ " is degraded on this host: " ++ reason d ++ " (fallback: " ++ fallback d ++ ")".

Definition keeper_line (k : KeeperStatus) : str :=
  match k with
  | KNone => "keeper: not running"
  | KStale => "keeper: stale (dead pid or unresponsive socket) — run `devcroft up` to recover"
  | KHealthy uptime_secs session_count =>
      "keeper: healthy (uptime " ++ show_N uptime_secs ++ "s, " ++ show_nat session_count ++ " session(s))"
  end.

Definition env_line (env_stale : option bool) (provider : str) : str :=
  match env_stale with
  | Some true =>
      let what : str := if bool_decide (provider = ("nix" : str)) then "flake" else "flox manifest" in
      "env: stale — the " ++ what ++ " changed since the last `up`; run `devcroft up --recreate`"
  | Some false => "env: fresh"
  | None => "env: unknown"
  end.

Definition isolation_line (isolation : option str) : str :=
  match isolation with
  | Some backend => if bool_decide (backend = ("process" : str)) then "isolation: process" else "isolation: hardened (" ++ backend ++ ")"
  | None => "isolation: unknown (no successful `up` yet)"
  end.

Definition service_line (svc : ServiceState) : str :=
  let base := "service " ++ st_name svc ++ ": " ++ health_label (st_health svc) in
  match st_pid svc, st_health svc with
  | Some pid, Running => base ++ " pid=" ++ show_Z pid
  | _, _ => base
  end.

Definition service_lines (report : ServicesReport) : list str :=
  let failed := length (List.filter (λ s, is_failure (st_health s)) (states report)) in
  (service_line <$> states report)
  ++ match supervisor_error report with Some e => ["services: " ++ e ++ " — see `devcroft logs` for output"] | None => [] end
  ++ (if 0 <? failed then ["services: " ++ show_nat failed ++ " failed — see `devcroft logs` for output"] else []).

Definition print_status (s : SandboxStatus) (provider : str) : list str :=
  ["sandbox: " ++ ss_name s; keeper_line (ss_keeper s); env_line (ss_env_stale s) provider; isolation_line (ss_isolation s)]
  ++ match ss_services s with None => [] | Some report => service_lines report end
  ++ (if bool_decide (length (ss_degraded s) = 0) then ["policy: no degraded capabilities on this host" : str]
      else (λ d, "policy: " ++ show_degraded d) <$> ss_degraded s).

Definition cli_status (args : list str) : M Z (list str) :=
  name ← lift (single_name args);
  cwd ← lift (map_err (λ _, 1%Z) current_dir);
  w ← get_world;
  manifest ← lift (resolve_manifest_strict (w_fs w) name cwd);
  let t := w_time w in
  s ← lift (map_err status_exit_code
        (status h_os is_linux (h_view t) (h_accepts t) h_home meta_of_json (query_frame t) (query_services t) is_stale (w_fs w) manifest));
  mret (print_status s (provider (m_env manifest))).

Definition cli_logs (args : list str) : M Z str :=
  '(name, tail) ← lift (parse_logs_args None None args);
  f ← get_fs;
  name ← lift (match name with
               | Some name => Ok name
               | None => cwd ← map_err (λ _, 1%Z) current_dir; map_err (λ _, 2%Z) (resolve_sandbox_name f cwd)
               end);
  lift (map_err (λ _, 1%Z) (logs h_home meta_of_json f name (N.to_nat <$> tail))).

Definition ps_health (k : KeeperStatus) : str :=
  match k with
  | KNone => "not running"
  | KStale => "stale"
  | KHealthy uptime_secs session_count => "healthy (uptime " ++ show_N uptime_secs ++ "s, " ++ show_nat session_count ++ " session(s))"
  end.

Definition TAB : str := ["009"%char].

(** The lines of one sandbox. *)
Definition ps_lines (t : nat) (s : SandboxSummary) : list str :=
  (sum_name s ++ TAB ++ ps_health (sum_keeper s) ++ TAB ++ default ("-" : str) (sum_project_root s)) ::
  match sum_project_root s with
  | None => []
  | Some root =>
      let report := reconcile (sum_declared_services s) (query_services t (socket_path root (sum_name s))) in
      ((λ svc, "  service:" ++ st_name svc ++ TAB ++ health_label (st_health svc)) <$> states report)
      ++ match supervisor_error report with Some e => ["  services" ++ TAB ++ e] | None => [] end
  end.

Definition cli_ps : M Z (list str) :=
  w ← get_world;
  let t := w_time w in
  l ← lift (map_err (λ _, 1%Z)
        (ps is_linux (h_view t) (h_accepts t) h_home meta_of_json (query_frame t) (w_fs w) (data_entries (w_fs w))));
  mret (if bool_decide (length l = 0) then ["no sandboxes" : str] else l ≫= ps_lines t).

(** ** The policy, as shown *)

Definition provider_static_name (name : str) : str := match from_name name with Ok k => static_name k | Err _ => "unknown" end.

Definition compile_with_provider_grants (f : fs) (m : Manifest) : CompiledPolicy :=
  let compiled := compile h_os m in
  match state_paths h_home (sandbox_name (m_sandbox m)) with
  | Err _ => compiled
  | Ok p =>
      match read_meta meta_of_json f (meta p) with
      | Ok (Some mt) =>
          let name := provider_static_name (provider (m_env m)) in
          let compiled := with_provider_grants name (read_only_grants mt) compiled in
          let compiled := match proxy_port mt with Some port => with_proxy_port port compiled | None => compiled end in
          match declared_services mt with
          | [] => compiled
          | _ => with_services_socket_grant name (socket_path (project_root mt) (sandbox_name (m_sandbox m))) compiled
          end
      | _ => compiled
      end
  end.

Definition cli_policy (args : list str) : M Z str :=
  '(render, name) ← lift (parse_policy_args false None args);
  if negb render then lift (Err 2%Z)
  else
    cwd ← lift (map_err (λ _, 1%Z) current_dir);
    f ← get_fs;
    manifest ← lift (resolve_manifest_strict f name cwd);
    let compiled := compile_with_provider_grants f manifest in
    match find_manifest f cwd with
    | None => mret (Policy.render compiled)
    | Some p =>
        _ ← lift (map_err (λ _, 2%Z) (check_enforceable (to_capability_plan compiled) (abs_path (removelast p))));
        mret (Policy.render compiled)
    end.

Definition cli_why (args : list str) : M Z Explanation :=
  a ← lift (parse_why_args {| wa_path := None; wa_op := None; wa_host := None; wa_name := None |} args);
  cwd ← lift (map_err (λ _, 1%Z) current_dir);
  f ← get_fs;
  manifest ← lift (resolve_manifest_strict f (wa_name a) cwd);
  let compiled := compile_with_provider_grants f manifest in
  match wa_host a with
  | Some host => mret (why_host check_host compiled host)
  | None =>
      match wa_path a, wa_op a with
      | Some path, Some op => op ← lift (parse_op op); mret (why_path compiled (normalize_path_for_policy h_home path) op)
      | _, _ => lift (Err 2%Z)
      end
  end.

(** ** Dispatch *)

(** What [main] does with its arguments, the internal entry points apart. *)
Inductive Command :=
| CExec | CShell | CProxy | CSshConfig | CInit | CDoctor | CUp | CDown | CRm | CStatus | CLogs | CPs | CSsh | CPolicy | CWhy.

Definition COMMANDS : list (str * Command) :=
  [("exec" : str, CExec); ("shell" : str, CShell); ("proxy" : str, CProxy); ("ssh-config" : str, CSshConfig); ("init" : str, CInit);
   ("doctor" : str, CDoctor); ("up" : str, CUp); ("down" : str, CDown); ("rm" : str, CRm); ("status" : str, CStatus);
   ("logs" : str, CLogs); ("ps" : str, CPs); ("ssh" : str, CSsh); ("policy" : str, CPolicy); ("why" : str, CWhy)].

(** The exit code; [doctor] is whether all its checks passed. *)
Definition run_command (doctor : bool) (c : Command) (args : list str) (w : World) : Z * World :=
  let run {A : Type} (code : result Z A → Z) (m : M Z A) := let '(r, w) := m w in (code r, w) in
  match c with
  | CExec => run session_code (cli_exec args)
  | CShell => run session_code (cli_shell args)
  | CProxy => run printed (cli_proxy args)
  | CSshConfig => run printed (cli_ssh_config args)
  | CInit => run printed (cli_init h_home meta_of_json path_hash write_ok current_dir args)
  | CDoctor => (if doctor then 0 else 1, w)%Z
  | CUp => run printed (cli_up args)
  | CDown => run printed (cli_down args)
  | CRm => run printed (cli_rm args)
  | CStatus => run printed (cli_status args)
  | CLogs => run printed (cli_logs args)
  | CPs => run printed cli_ps
  | CSsh => run printed (cli_ssh args)
  | CPolicy => run printed (cli_policy args)
  | CWhy => run printed (cli_why args)
  end.

Definition main (doctor : bool) (args : list str) (w : World) : Z * World :=
  match args with
  | [] => (2%Z, w)
  | a :: args =>
      match table_get COMMANDS a with
      | Some c => run_command doctor c args w
      | None => if member a (strs ["help"; "--help"; "-h"; "--version"; "-V"]) then (0%Z, w) else (2%Z, w)
      end
  end.
End cli.

(** ** Errors of [up] *)

(** The process backend's failures are reported in other layers. *)
Definition not_backend (e : UpError) : Prop := ∀ msg, e ≠ UpBackend msg.

Section up_errors.
Context `{Host} `{Provider} `{Codec} {caps : Type} `{CapBuilder caps}.

Lemma fails_io {A : Type} (r : result state_error A) : fails not_backend (io r).
Proof. unfold io. by fails_step. Qed.
Lemma fails_observe : fails not_backend (observe : M UpError ProcView).
Proof. by intros w e w'. Qed.
Lemma fails_terminate path : fails not_backend (up_terminate path).
Proof. intros w e w'. unfold up_terminate, terminate. by destruct (terminate_and_wait _ _ _ _ _ _). Qed.
Lemma fails_check_health p : fails not_backend (check_health p).
Proof. intros w e w'. unfold check_health. destruct (health _ _ _ _ _); [done|]. by intros [= <- _]. Qed.
Lemma fails_at_state {A : Type} (m : M state_error A) : fails not_backend (at_state m).
Proof. unfold at_state. by fails_step. Qed.
Lemma fails_provider_resolve kind root : fails not_backend (provider_resolve kind root).
Proof. intros w e w'. unfold provider_resolve. destruct (pr_resolve _ _ _) as [[r|e1] f]; [done|]. by intros [= <- _]. Qed.
#[local] Hint Resolve fails_io fails_observe fails_terminate fails_check_health fails_at_state fails_provider_resolve : fails.

Lemma fails_wait polls p : fails not_backend (wait_until_responsive polls p).
Proof. induction polls; cbn [wait_until_responsive]; repeat fails_step; simplify_eq; done. Qed.

Lemma fails_start_proxy p allow : fails not_backend (ensure_egress_proxy p allow).
Proof. unfold ensure_egress_proxy, live_proxy, do_write_pidfile. repeat fails_step; done. Qed.

Lemma fails_up_process m root p opts o res sh grants proxy : fails not_backend (up_process m root p opts o res sh grants proxy).
Proof.
  pose proof fails_wait. unfold up_process, prepare_services, ensure_no_services_declared_for_another_provider, start_keeper, spawn_keeper, hooks_phase,
    do_write_pidfile, check_enforceable.
  repeat fails_step; simplify_eq; done.
Qed.

Lemma up_not_backend m root opts : fails not_backend (up m root opts).
Proof.
  pose proof fails_start_proxy. pose proof fails_up_process.
  unfold up, up_outcome, up_start, stop_orphaned_egress_proxy, do_write_meta. repeat fails_step; simplify_eq; try done.
  by destruct (resolve_shell _); simplify_eq/=.
Qed.
End up_errors.

(** ** Arguments *)

Lemma position_some {A} (g : A → bool) l i :
  position g l = Some i ↔ ∃ pre x post, l = pre ++ x :: post ∧ length pre = i ∧ g x = true ∧ ∀ y, y ∈ pre → g y = false.
Proof.
  revert i. induction l as [|x l IH]; intros i; cbn [position].
  - split; [done|]. intros (pre & x & post & He & _). by destruct pre.
  - destruct (g x) eqn:Ex.
    + split.
      * intros [= <-]. exists [], x, l. split; [done|]. split; [done|]. split; [done|]. by intros y Hy%not_elem_of_nil.
      * intros (pre & y & post & He & <- & Hy & Hpre). destruct pre as [|z pre]; [done|]. injection He as <- ->.
        specialize (Hpre x (list_elem_of_here _ _)). congruence.
    + split.
      * destruct (position g l) as [j|] eqn:Ej; [|done]. intros [= <-]. destruct (proj1 (IH j) eq_refl) as (pre & y & post & -> & <- & Hy & Hpre).
        exists (x :: pre), y, post. split; [done|]. split; [done|]. split; [done|]. intros z [->|Hz]%elem_of_cons; [done|]. by apply Hpre.
      * intros (pre & y & post & He & <- & Hy & Hpre). destruct pre as [|z pre]; injection He as <- ->; [congruence|].
        rewrite (proj2 (IH (length pre))); [done|]. exists pre, y, post. split; [done|]. split; [done|]. split; [done|].
        intros w Hw. apply Hpre. by right.
Qed.

(** [exec] takes what follows the first [--] for the command, whatever it is,
    and hands it on unchanged: the parse succeeds exactly on a line of at most
    one name and any number of [--no-up]s, the first [--], and a command with
    its arguments; every other line is a usage error. *)
Theorem exec_args_exact args a :
  (parse_exec_args args = Ok a ↔
   ∃ pre, args = pre ++ SEPARATOR :: ea_cmd a :: ea_args a ∧ SEPARATOR ∉ pre ∧
     single_name (without [NO_UP] pre) = Ok (ea_name a) ∧ ea_no_up a = has_flag NO_UP pre) ∧
  (∀ code, parse_exec_args args = Err code → code = 2%Z).
Proof.
  assert (∀ l code, single_name l = Err code → code = 2%Z) as Hcode.
  { intros [|? [|? ?]] code; cbn; try done. by intros [= <-]. }
  unfold parse_exec_args. split.
  - split.
    + destruct (position _ args) as [i|] eqn:Ei; [|done]. cbn [ok_or mbind result_bind].
      apply position_some in Ei as (pre & x & post & -> & <- & ->%bool_decide_eq_true & Hpre).
      rewrite take_app_length. destruct (single_name _) as [name|] eqn:En; [|done]. cbn [mbind result_bind].
      assert (drop (S (length pre)) (pre ++ SEPARATOR :: post) = post) as ->.
      { rewrite cons_middle, app_assoc. replace (S (length pre)) with (length (pre ++ [SEPARATOR])) by (rewrite length_app; simpl; lia).
        apply drop_app_length. }
      destruct post as [|cmd rest]; [done|]. intros [= <-]. exists pre. split; [done|]. split; [|done].
      intros Hin. specialize (Hpre _ Hin). by rewrite bool_decide_eq_false in Hpre.
    + intros (pre & -> & Hpre & Hn & Hup).
      assert (position (λ a, bool_decide (a = SEPARATOR)) (pre ++ SEPARATOR :: ea_cmd a :: ea_args a) = Some (length pre)) as ->.
      { apply position_some. exists pre, SEPARATOR, (ea_cmd a :: ea_args a). split; [done|]. split; [done|].
        split; [by apply bool_decide_eq_true|]. intros y Hy. apply bool_decide_eq_false. by intros ->. }
      cbn [ok_or mbind result_bind]. rewrite take_app_length, Hn. cbn [mbind result_bind].
      assert (drop (S (length pre)) (pre ++ SEPARATOR :: ea_cmd a :: ea_args a) = ea_cmd a :: ea_args a) as ->.
      { rewrite cons_middle, app_assoc. replace (S (length pre)) with (length (pre ++ [SEPARATOR])) by (rewrite length_app; simpl; lia).
        apply drop_app_length. }
      rewrite <- Hup. by destruct a.
  - intros code. destruct (position _ _); [|by intros [= <-]]. cbn [ok_or mbind result_bind].
    destruct (single_name _) as [name|] eqn:En; [|intros [= <-]; by eapply Hcode]. cbn [mbind result_bind].
    destruct (drop _ _); [|done]. by intros [= <-].
Qed.

(** ** What a command acts on *)

Section targets.
Context `{Host} `{Codec}.
Context (parse_table : str → result str (list (str * toml))) (try_into : list (str * toml) → result str RawManifest)
        (current_dir : result str str) (stdout_is_tty : bool) (remove_error : str → option state_error).

Abbreviation discovered := (discover_manifest parse_table try_into).
Abbreviation lifecycle_rm := (rm is_linux h_view h_polls h_home h_lock meta_of_json remove_error).

Lemma discovered_valid f cwd m root : discovered f cwd = Ok (m, root) → is_valid_name (sandbox_name (m_sandbox m)) = true.
Proof.
  unfold discover_manifest, discover_manifest_with_warnings. destruct (ok_or _ _) as [path|]; [|done]. cbn [mbind result_bind].
  destruct (read_to_string _ _) as [[text|]|]; [|done..]. cbn [mbind result_bind].
  destruct (parse _ _ _) as [[m' ws]|] eqn:Ep; [|done]. cbn. intros [= <- <-].
  by apply parse_inv in Ep as (? & ? & _ & _ & _ & _ & Hn & _).
Qed.

(** The sandbox a command line designates: the one it names, or else the
    nearest manifest's. *)
Definition designates (f : fs) (args : list str) (name : str) : Prop :=
  is_valid_name name = true ∧
  (single_name args = Ok (Some name) ∨
   single_name args = Ok None ∧ ∃ cwd m root, current_dir = Ok cwd ∧ discovered f cwd = Ok (m, root) ∧ name = sandbox_name (m_sandbox m)).

Lemma single_name_code l code : single_name l = Err code → code = 2%Z.
Proof. destruct l as [|? [|? ?]]; cbn; [done..|]. by intros [= <-]. Qed.

Lemma resolve_name_designates f args :
  match resolve_name_arg parse_table try_into current_dir f args with
  | Ok name => designates f args name
  | Err code => code = 1%Z ∨ code = 2%Z
  end.
Proof.
  unfold resolve_name_arg, designates. destruct (single_name args) as [[name|]|code] eqn:Es; cbn [mbind result_bind].
  - destruct (starts_with "--" name); [by right|]. destruct (is_valid_name name) eqn:Ev; [|by right]. cbn. split; [done|by left].
  - destruct current_dir as [cwd|]; cbn; [|by left]. unfold resolve_sandbox_name.
    destruct (discovered f cwd) as [[m root]|] eqn:Ed; cbn; [|by right].
    split; [by eapply discovered_valid|]. right. split; [done|]. by exists cwd, m, root.
  - right. by apply single_name_code in Es.
Qed.

Lemma discovered_root f cwd m root :
  discovered f cwd = Ok (m, root) → match find_manifest f cwd with Some p => abs_path (removelast p) | None => cwd end = root.
Proof.
  unfold discover_manifest, discover_manifest_with_warnings. destruct (find_manifest f cwd) as [p|]; [|done].
  cbn [ok_or mbind result_bind]. destruct (read_to_string _ _) as [[text|]|]; [|done..]. cbn [mbind result_bind].
  destruct (parse _ _ _) as [[m' ws]|]; [|done]. cbn. by intros [= _ <-].
Qed.

Lemma strict_ok f name cwd :
  match resolve_manifest_strict parse_table try_into f name cwd with
  | Ok m => ∃ root, discovered f cwd = Ok (m, root) ∧ ∀ x, name = Some x → x = sandbox_name (m_sandbox m)
  | Err code => code = 2%Z
  end.
Proof.
  unfold resolve_manifest_strict. destruct (discovered f cwd) as [[m root]|]; [|done].
  destruct name as [x|]; [case_bool_decide; [|done]|]; exists root; (split; [done|]); [by intros ? [= <-]|done].
Qed.

Lemma up_call_spec f args :
  match up_call parse_table try_into current_dir stdout_is_tty f args with
  | Ok (m, root, opts) =>
      recreate opts = has_flag RECREATE args ∧ skip_hooks opts = has_flag SKIP_HOOKS args ∧
      (recreate opts = true → has_flag YES args = true ∨ stdout_is_tty = true) ∧
      designates f (without UP_FLAGS args) (sandbox_name (m_sandbox m)) ∧
      ∃ cwd, current_dir = Ok cwd ∧ discovered f cwd = Ok (m, root)
  | Err code => code = 1%Z ∨ code = 2%Z
  end.
Proof.
  unfold up_call. destruct (single_name _) as [name|code] eqn:Es; cbn [mbind result_bind].
  2: { right. by apply single_name_code in Es. }
  destruct current_dir as [cwd|] eqn:Ecwd; cbn [map_err mbind result_bind]; [|by left].
  pose proof (strict_ok f name cwd) as Hs. destruct (resolve_manifest_strict _ _ _ _ _) as [m|]; [|by right].
  destruct Hs as (root & Ed & Hname). cbn [mbind result_bind]. rewrite (discovered_root _ _ _ _ Ed).
  destruct (has_flag RECREATE args && _ && _) eqn:Ec; [by right|]. cbn. split; [done|]. split; [done|]. split.
  { intros Hr. rewrite Hr in Ec. destruct (has_flag YES args), stdout_is_tty; cbn in Ec; auto. }
  split; [|by exists cwd]. split; [by eapply discovered_valid|]. rewrite Es, Ecwd.
  destruct name as [x|]; [left; by rewrite <- (Hname x eq_refl)|]. right. split; [done|]. by exists cwd, m, root.
Qed.

End targets.

Section starting.
Context `{Host} `{Provider} `{Codec} {caps : Type} `{CapBuilder caps}.
Context (parse_table : str → result str (list (str * toml))) (try_into : list (str * toml) → result str RawManifest)
        (current_dir : result str str) (stdout_is_tty : bool).

Abbreviation call := (up_call parse_table try_into current_dir stdout_is_tty).

(** The exit code of [up]: 0 exactly on success; a failure before anything is
    touched is a usage error (2), or 1 without a current directory; and a
    failure of [lifecycle::up] is told apart by its layer, 1 for state, 2 for a
    policy or a configuration this host cannot have, 3 for the environment, 5
    for the keeper and its keys.  The code 4 documented for a backend failure
    never occurs: an error of the sandbox backend is a policy error, 2. *)
Theorem up_exit_codes args w :
  match cli_up parse_table try_into current_dir stdout_is_tty args w with
  | (Ok (o, _), w') => ∃ m root opts, call (w_fs w) args = Ok (m, root, opts) ∧ up m root opts w = (Ok o, w')
  | (Err code, w') =>
      code ≠ 0%Z ∧ code ≠ 4%Z ∧
      ((w' = w ∧ call (w_fs w) args = Err code ∧ (code = 1 ∨ code = 2)%Z) ∨
       ∃ m root opts e, call (w_fs w) args = Ok (m, root, opts) ∧ up m root opts w = (Err e, w') ∧
         match e with
         | UpState _ => code = 1%Z
         | UpPolicy _ | UpConfig _ => code = 2%Z
         | UpProvider _ => code = 3%Z
         | UpBackend _ => False
         | UpKeeper _ | UpSsh _ => code = 5%Z
         end)
  end.
Proof.
  unfold cli_up, get_fs, lift, mbind, M_bind.
  pose proof (up_call_spec parse_table try_into current_dir stdout_is_tty (w_fs w) args) as Hc.
  destruct (call (w_fs w) args) as [[[m root] opts]|code].
  2: { split; [by destruct Hc; subst|]. split; [by destruct Hc; subst|]. by left. }
  unfold map_error. destruct (up m root opts w) as [[o|e] w'] eqn:Eu; [by exists m, root, opts|].
  pose proof (up_not_backend m root opts w e w' Eu) as Hb.
  destruct e; cbn [up_exit_code]; try (by destruct (Hb msg)); (split; [done|]); (split; [done|]); right; by eexists m, root, opts, _.
Qed.

(** C36: nothing is destroyed by accident.  [down], [rm] and [up] act only on
    the sandbox the command line designates, the valid name it gives or else
    the nearest manifest's, and a refusal leaves everything as it was.  [down]
    stops just that sandbox's recorded processes and deletes just its runtime
    files; [rm] does nothing but [lifecycle::rm] on its name; [up] does nothing
    but [lifecycle::up] on its manifest, recreating only when asked to; and [rm]
    and a recreating [up] only with [--yes] or on a terminal. *)
Theorem destructive_needs_consent (remove_error : str → option state_error) args w :
  (let '(r, w') := cli_down parse_table try_into current_dir args w in
   (w' = w ∧ (r = Err 1%Z ∨ r = Err 2%Z)) ∨
   ∃ name p, designates parse_table try_into current_dir (w_fs w) args name ∧ r = Ok tt ∧
     state_paths h_home name = Ok p ∧ both_stopped is_linux h_view h_polls p w w' ∧ w_fs w' = clear_runtime_state p (w_fs w)) ∧
  (let '(r, w') := cli_rm parse_table try_into current_dir stdout_is_tty remove_error args w in
   (w' = w ∧ (r = Err 1%Z ∨ r = Err 2%Z)) ∨
   ∃ name, (has_flag YES args = true ∨ stdout_is_tty = true) ∧
     designates parse_table try_into current_dir (w_fs w) (without [YES] args) name ∧
     (rm is_linux h_view h_polls h_home h_lock meta_of_json remove_error name w).2 = w' ∧
     (r = Ok tt ↔ (rm is_linux h_view h_polls h_home h_lock meta_of_json remove_error name w).1 = Ok tt) ∧ (r = Ok tt ∨ r = Err 1%Z)) ∧
  (let '(r, w') := cli_up parse_table try_into current_dir stdout_is_tty args w in
   (w' = w ∧ (r = Err 1%Z ∨ r = Err 2%Z)) ∨
   ∃ m root opts cwd, current_dir = Ok cwd ∧ discover_manifest parse_table try_into (w_fs w) cwd = Ok (m, root) ∧
     designates parse_table try_into current_dir (w_fs w) (without UP_FLAGS args) (sandbox_name (m_sandbox m)) ∧
     recreate opts = has_flag RECREATE args ∧ skip_hooks opts = has_flag SKIP_HOOKS args ∧
     (recreate opts = true → has_flag YES args = true ∨ stdout_is_tty = true) ∧
     (up m root opts w).2 = w' ∧ (is_ok r = true ↔ is_ok (up m root opts w).1 = true)).
Proof.
  split; [|split].
  - unfold cli_down, get_fs, lift, mbind, M_bind. pose proof (resolve_name_designates parse_table try_into current_dir (w_fs w) args) as Hn.
    destruct (resolve_name_arg _ _ _ _ _) as [name|code]; [|left; split; [done|by destruct Hn as [->| ->]; auto]].
    unfold map_error. pose proof (down_result is_linux h_view h_polls h_home h_lock name w) as Hd.
    destruct (down _ _ _ _ _ name w) as [r w']. destruct Hd as [[-> Hr]|(-> & p & Hp & Hs & Hf)].
    + left. split; [done|]. destruct r; [done|]. by left.
    + right. by exists name, p.
  - unfold cli_rm, get_fs, lift, mbind, M_bind. pose proof (resolve_name_designates parse_table try_into current_dir (w_fs w) (without [YES] args)) as Hn.
    destruct (resolve_name_arg _ _ _ _ _) as [name|code]; [|left; split; [done|by destruct Hn as [->| ->]; auto]].
    unfold map_error. destruct (rm is_linux h_view h_polls h_home h_lock meta_of_json remove_error name w) as [r w'] eqn:Er.
    destruct (has_flag YES args) eqn:Ey, stdout_is_tty eqn:Et; cbn [negb andb]; [| | |left; split; [done|by right]];
      rewrite Er; right; exists name; (split; [by auto|]); (split; [done|]); rewrite Er; (split; [done|]);
      destruct r as [[]|]; cbn; split; auto; by split.
  - unfold cli_up, get_fs, lift, mbind, M_bind. pose proof (up_call_spec parse_table try_into current_dir stdout_is_tty (w_fs w) args) as Hc.
    destruct (call (w_fs w) args) as [[[m root] opts]|code]; [|left; split; [done|by destruct Hc as [->| ->]; auto]].
    destruct Hc as (Hr1 & Hs1 & Hy1 & Hd1 & cwd & Hc1 & Hf1). unfold map_error.
    destruct (up m root opts w) as [[o|e] w'] eqn:Eu; right; exists m, root, opts, cwd; do 6 (split; [done|]); by rewrite Eu.
Qed.

(** ** Starting a sandbox on the way to a session *)

Definition tick (w : World) : World := {| w_fs := w_fs w; w_time := S (w_time w); w_events := w_events w |}.

(** C37: [exec], [shell], [ssh] and [proxy] start a sandbox on the way only when it
    is not healthy and the nearest manifest is that sandbox's own, and then do
    exactly a plain [up] of that manifest, which never recreates; in every
    other case nothing changes and the session is left to fail by itself; and
    every failure on the way is exit code 3, whichever layer it came from. *)
Theorem auto_up_own_sandbox no_up name cwd w :
  let '(r, w') := auto_up parse_table try_into no_up name cwd w in
  (∀ code, r = Err code → code = 3%Z ∧ no_up = false) ∧
  ((w_fs w' = w_fs w ∧ w_events w' = w_events w) ∨
   ∃ p h m root, no_up = false ∧ state_paths h_home name = Ok p ∧
     health is_linux (h_view (w_time w)) (h_accepts (w_time w)) (w_fs w) p = Ok h ∧ (∀ pid, h ≠ Healthy pid) ∧
     discover_manifest parse_table try_into (w_fs w) cwd = Ok (m, root) ∧ sandbox_name (m_sandbox m) = name ∧
     w' = (up m root quiet_up (tick w)).2 ∧ (is_ok r = is_ok (up m root quiet_up (tick w)).1)).
Proof.
  unfold auto_up. destruct no_up; [by split; [|left]|]. unfold map_error, maybe_auto_up, io, lift, mbind, M_bind, check_health, get_fs.
  destruct (state_paths h_home name) as [p|] eqn:Ep; cbn [map_err].
  2: { split; [by intros ? [= <-]|by left]. }
  destruct (health _ _ _ _ _) as [h|] eqn:Eh; cbn [map_err].
  2: { split; [by intros ? [= <-]|by left]. }
  assert (∀ m root, (∀ pid, h ≠ Healthy pid) → discover_manifest parse_table try_into (w_fs w) cwd = Ok (m, root) →
    sandbox_name (m_sandbox m) = name →
    let '(r, w') := (let '(r, w0) := match up m root quiet_up (tick w) with (Ok _, w1) => (Ok tt, w1) | (Err e, w1) => (Err e, w1) end in
                     (map_err (λ _, 3%Z) r, w0)) in
    (∀ code, r = Err code → code = 3%Z ∧ false = false) ∧
    ((w_fs w' = w_fs w ∧ w_events w' = w_events w) ∨ ∃ p' h' m' root', false = false ∧ Ok p = (Ok p' : result state_error _) ∧ 
       health is_linux (h_view (w_time w)) (h_accepts (w_time w)) (w_fs w) p' = Ok h' ∧ (∀ pid, h' ≠ Healthy pid) ∧
       discover_manifest parse_table try_into (w_fs w) cwd = Ok (m', root') ∧ sandbox_name (m_sandbox m') = name ∧
       w' = (up m' root' quiet_up (tick w)).2 ∧ (is_ok r = is_ok (up m' root' quiet_up (tick w)).1))) as Hup.
  { intros m root Hh Hm Hn. destruct (up m root quiet_up (tick w)) as [[o|e] w'] eqn:Eu; cbn;
      (split; [by intros ? [=]|]); right; exists p, h, m, root; by rewrite Eu. }
  destruct h; [| by split; [|left] |]; cbn [w_fs]; destruct (discover_manifest _ _ _ _) as [[m root]|] eqn:Ed; try by split; [|left].
  all: case_bool_decide as Hn; [|by split; [|left]]; exact (Hup m root ltac:(done) eq_refl Hn).
Qed.
End starting.

(** ** The policy as shown *)

Section shown.
Context `{Host} `{Codec}.

(** Whatever the metadata says, the policy shown is the compiled one with some
    of the later additions. *)
Lemma shown_folds f m : ∃ folds, compile_with_provider_grants f m = foldl apply_fold (compile h_os m) folds.
Proof.
  unfold compile_with_provider_grants. destruct (state_paths _ _) as [p|]; [|by exists []].
  destruct (read_meta _ _ _) as [[mt|]|]; [|by exists []..]. set (n := provider_static_name _).
  destruct (proxy_port mt) as [port|]; destruct (declared_services mt).
  - by exists [ProviderGrants n (read_only_grants mt); ProxyPort port].
  - by eexists [ProviderGrants n (read_only_grants mt); ProxyPort port; ServicesSocket n _].
  - by exists [ProviderGrants n (read_only_grants mt)].
  - by eexists [ProviderGrants n (read_only_grants mt); ServicesSocket n _].
Qed.

(** What [up] adds after the keeper's executable. *)
Definition additions (kind : ProviderKind) (grants : list str) (proxy : option (N * str)) (socket : option str) (c : CompiledPolicy)
  : CompiledPolicy :=
  let c := with_provider_grants (static_name kind) grants c in
  let c := match proxy with Some (port, _) => with_proxy_port port c | None => c end in
  match socket with Some s => with_services_socket_grant (static_name kind) s c | None => c end.

Lemma shown_additions m kind root fp grants res sh proxy f p :
  from_name (provider (m_env m)) = Ok kind → state_paths h_home (sandbox_name (m_sandbox m)) = Ok p →
  read_meta meta_of_json f (meta p) = Ok (Some (new_meta root fp grants res sh proxy)) →
  compile_with_provider_grants f m =
    additions kind grants proxy (services_socket m root {| recreate := false; skip_hooks := false |} res) (compile h_os m).
Proof.
  intros Hk Hp Hm. unfold compile_with_provider_grants, additions, services_socket. rewrite Hp, Hm. unfold provider_static_name. rewrite Hk.
  cbn [new_meta proxy_port declared_services read_only_grants State.project_root skip_hooks orb].
  by destruct proxy as [[port token]|], (Flox.declared (Flox.res_services res)).
Qed.

Lemma additions_reads kind grants proxy socket c :
  filesystem_read (additions kind grants proxy socket c) = filesystem_read c ++ annotate (OProvider (static_name kind)) grants.
Proof. by destruct proxy as [[port token]|], socket. Qed.

Lemma additions_sockets kind grants proxy socket c :
  unix_socket_bind (additions kind grants proxy socket c) =
    unix_socket_bind c ++ match socket with Some s => [annotated s (OProvider (static_name kind))] | None => [] end.
Proof. destruct proxy as [[port token]|], socket; cbn; by rewrite ?app_nil_r. Qed.

(** [policy --render] and [why] against what is enforced: after a start whose
    metadata they read, they have the manifest's rules, the provider's grants
    and the proxy port that the keeper is confined to; but they never show the
    keeper's own executable directory, which the keeper may read, so that
    [why] denies reading it when no other rule covers it; and after
    [--skip-hooks] with declared services they show a services socket that is
    not granted. *)
Theorem shown_against_enforced m kind exe_dir root fp grants res sh proxy opts f p
    (Hk : from_name (provider (m_env m)) = Ok kind)
    (Hp : state_paths h_home (sandbox_name (m_sandbox m)) = Ok p)
    (Hm : read_meta meta_of_json f (meta p) = Ok (Some (new_meta root fp grants res sh proxy))) :
  let shown := compile_with_provider_grants f m in
  let enforced := compiled_policy m kind exe_dir grants proxy (services_socket m root opts res) in
  (∃ l, filesystem_read enforced = filesystem_read (compile h_os m) ++ [annotated exe_dir OBaseline] ++ l ∧
        filesystem_read shown = filesystem_read (compile h_os m) ++ l) ∧
  filesystem_allow shown = filesystem_allow enforced ∧ filesystem_deny shown = filesystem_deny enforced ∧
  network_block shown = network_block enforced ∧ network_allow_domain shown = network_allow_domain enforced ∧
  network_ports shown = network_ports enforced ∧ network_proxy_port shown = network_proxy_port enforced ∧
  (skip_hooks opts = false → unix_socket_bind shown = unix_socket_bind enforced) ∧
  (skip_hooks opts = true → Flox.declared (Flox.res_services res) ≠ [] → unix_socket_bind enforced = [] ∧ unix_socket_bind shown ≠ []) ∧
  exe_dir ∈ plan_read (to_capability_plan enforced) ∧
  (¬ covered (filesystem_allow shown ++ filesystem_read shown) exe_dir → allowed (why_path shown exe_dir Read) = false).
Proof.
  cbv zeta. rewrite (shown_additions _ _ _ _ _ _ _ _ _ _ Hk Hp Hm).
  change (compiled_policy m kind exe_dir grants proxy (services_socket m root opts res)) with
    (additions kind grants proxy (services_socket m root opts res) (with_keeper_exe_grant exe_dir (compile h_os m))).
  split; [exists (annotate (OProvider (static_name kind)) grants); rewrite !additions_reads; cbn; by rewrite <- app_assoc|].
  do 6 (split; [by destruct proxy as [[port token]|], (services_socket _ _ _ _), (services_socket _ _ _ _)|]).
  split; [|split; [|split]].
  - intros Hs. rewrite !additions_sockets. unfold services_socket. by rewrite Hs.
  - intros Hs Hd. rewrite !additions_sockets. unfold services_socket. rewrite Hs. cbn. by rewrite bool_decide_false.
  - unfold to_capability_plan. cbn [plan_read]. rewrite additions_reads. cbn. rewrite !fmap_app, !elem_of_app. left. right. by left.
  - intros Hc. apply not_true_iff_false. rewrite why_path_spec. intros [_ Hw]. apply Hc. rewrite covered_app. naive_solver.
Qed.

(** A path below [HOME] as a shell spells it is the policy's [~] path. *)
Lemma normalize_home home rest : normalize_path_for_policy (Some home) (home ++ "/" ++ rest) = "~/" ++ rest.
Proof.
  unfold normalize_path_for_policy. rewrite bool_decide_false.
  - rewrite strip_prefix_app. cbn [mbind option_bind]. by rewrite strip_prefix_app.
  - intros He. apply (f_equal length) in He. rewrite !length_app in He. change (length ("/" : str)) with 1 in He. lia.
Qed.

(** The tail of a path below a directory: nothing, or a slash and more. *)
Definition below (rest : str) : Prop := rest = [] ∨ ∃ r, rest = "/" ++ r.

Lemma within_home_dir dir rest : below rest → is_within ("~/" ++ dir ++ rest) ("~/" ++ dir) = true.
Proof.
  intros Hr. apply is_within_iff. unfold path_root, path_comps, components, split_root.
  assert (∀ x : str, bool_decide ("~/" ++ x = ("~" : str)) = false) as Hne by (intros x; by apply bool_decide_eq_false).
  rewrite !Hne, !strip_prefix_app. cbn. split; [done|]. destruct Hr as [->|(r & ->)]; [by rewrite app_nil_r|].
  change (dir ++ "/" ++ r) with (dir ++ SLASH :: r). rewrite split_on_app, List.filter_app. by apply prefix_app_r.
Qed.

(** An absolute path stays absolute or becomes a home path. *)
Lemma normalize_root path : path_root path = Absolute → path_root (normalize_path_for_policy h_home path) ≠ Project.
Proof.
  intros Hp. unfold normalize_path_for_policy. destruct h_home as [home|]; [|by rewrite Hp].
  case_bool_decide; [done|]. destruct (rest ← strip_prefix home path; strip_prefix "/" rest) as [rest|]; [|by rewrite Hp].
  unfold path_root, components, split_root. by case_bool_decide.
Qed.

Section why_spec.
Context (parse_table : str → result str (list (str * toml))) (try_into : list (str * toml) → result str RawManifest)
        (current_dir : result str str) (check_host : list str → str → bool * str).

Abbreviation no_args := {| wa_path := None; wa_op := None; wa_host := None; wa_name := None |}.

Lemma cli_why_path args w e w' a path :
  cli_why parse_table try_into current_dir check_host args w = (Ok e, w') → parse_why_args no_args args = Ok a →
  wa_host a = None → wa_path a = Some path →
  w' = w ∧ ∃ m op, e = why_path (compile_with_provider_grants (w_fs w) m) (normalize_path_for_policy h_home path) op.
Proof.
  intros Hr Ha Hh Hp. unfold cli_why in Hr. rewrite Ha in Hr. unfold lift, mbind, M_bind, get_fs in Hr.
  destruct current_dir as [cwd|]; [|done]. cbn [map_err] in Hr. destruct (resolve_manifest_strict _ _ _ _ _) as [m|]; [|done].
  rewrite Hh, Hp in Hr. destruct (wa_op a) as [op|]; [|done]. destruct (parse_op op) as [o|]; [|done].
  injection Hr as <- <-. split; [done|]. by exists m, o.
Qed.

(** [why] denies devcroft's own data however the question is asked: for any
    manifest, any metadata and any operation, a path in the data directory,
    spelled with [HOME] as a shell expands it, is answered with a denial, and
    asking changes nothing. *)
Theorem why_denies_data_dir home rest args w e w' a
    (Hrun : cli_why parse_table try_into current_dir check_host args w = (Ok e, w'))
    (Hargs : parse_why_args no_args args = Ok a) (Hhost : wa_host a = None)
    (Hhome : h_home = Some home) (Hrest : below rest)
    (Hpath : wa_path a = Some (home ++ "/" ++ ".local/share/devcroft" ++ rest)) :
  allowed e = false ∧ w' = w.
Proof.
  destruct (cli_why_path _ _ _ _ _ _ Hrun Hargs Hhost Hpath) as (-> & m & op & ->). split; [|done].
  destruct (shown_folds (w_fs w) m) as [folds ->]. rewrite Hhome, normalize_home. apply not_true_iff_false.
  rewrite why_path_spec, apply_folds_deny. intros [Hd _]. apply Hd. exists (annotated DEVCROFT_DATA_DIR OBaseline).
  split; [apply data_dir_in_deny|]. by apply (within_home_dir ".local/share/devcroft").
Qed.

(** [why] misjudges the project itself when it is asked with an absolute path:
    for a manifest that allows just its project, writing a file of the project
    is answered with a denial unless a system directory or the like covers it,
    although the plan hands the project's directory, which contains the file,
    to the backend for reading and writing. *)
Theorem why_misses_project_grant f m root rel
    (Hm : fs_allow (m_filesystem m) = strs ["."]) (Hroot : path_root root = Absolute)
    (Hrel : starts_with "/" rel = false) (Hproj : path_root rel = Project)
    (Hsys : ∀ s, s ∈ KEEPER_SYSTEM_READWRITE h_os → is_within (normalize_path_for_policy h_home (path_join root rel)) s = false) :
  let c := compile_with_provider_grants f m in
  allowed (why_path c (normalize_path_for_policy h_home (path_join root rel)) Write) = false ∧
  is_within (path_join root rel) root = true ∧ ("." : str) ∈ plan_allow (to_capability_plan c) ∧
  Capability.resolve (default [] h_home) "." root = (path_join root ".", true) ∧
  is_within root (path_join root ".") = true.
Proof.
  cbv zeta. destruct (shown_folds f m) as [folds ->].
  assert (filesystem_allow (foldl apply_fold (compile h_os m) folds) =
    annotate (OManifest "filesystem.allow") (strs ["."]) ++ annotate OBaseline (KEEPER_SYSTEM_READWRITE h_os)) as Ha.
  { rewrite apply_folds_allow. cbn. by rewrite Hm. }
  pose proof (components_join root rel Hroot Hrel Hproj) as Hc.
  pose proof (components_join root "." Hroot eq_refl eq_refl) as Hd.
  split; [|split; [|split; [|split; [done|]]]].
  - apply not_true_iff_false. rewrite why_path_spec. intros [_ [Hw|[? _]]]; [|done]. rewrite Ha, covered_app in Hw.
    destruct Hw as [(r & Hr & Hw)|(r & Hr & Hw)]; apply elem_of_annotate in Hr as [_ Hv].
    + unfold strs in Hv. cbn [map] in Hv. rewrite elem_of_cons in Hv. destruct Hv as [Hv|Hv]; [|by apply not_elem_of_nil in Hv].
      rewrite Hv in Hw. apply is_within_same_root in Hw.
      apply (normalize_root (path_join root rel)); [unfold path_root; by rewrite Hc|]. by rewrite Hw.
    + rewrite Hsys in Hw; done.
  - apply is_within_iff. split; [unfold path_root; by rewrite Hc|]. unfold path_comps. rewrite Hc. cbn. by apply prefix_app_r.
  - unfold to_capability_plan. cbn [plan_allow]. rewrite Ha. by left.
  - apply is_within_iff. split; [unfold path_root; by rewrite Hd|]. unfold path_comps. rewrite Hd. cbn. by rewrite app_nil_r.
Qed.
End why_spec.
End shown.

(** ** Commands that only look *)

Section looking.
Context `{Host} `{Provider} `{Codec} {caps : Type} `{CapBuilder caps}.
Context (parse_table : str → result str (list (str * toml))) (try_into : list (str * toml) → result str RawManifest)
        (current_dir : result str str) (current_exe : option str) (stdout_is_tty : bool) (write_ok : str → bool) (path_hash : str → N).
Context (attempts : str → nat → nat → SpawnRequest → Attempt) (shell_var : option str) (terminal : option PtySize)
        (query_frame : nat → str → result state_error Frame) (query_services : nat → str → result Unreachable (list ServiceState))
        (data_entries : fs → result state_error (option (list (str * bool)))) (remove_error : str → option state_error)
        (is_stale : str → str → str → fs → result ProviderError bool) (check_host : list str → str → bool * str).

Abbreviation dispatch := (main parse_table try_into current_dir current_exe stdout_is_tty write_ok path_hash attempts shell_var terminal
  query_frame query_services data_entries remove_error is_stale check_host).

(** A computation that changes nothing. *)
Definition looks {E A : Type} (m : M E A) : Prop := ∀ w, (m w).2 = w.

Lemma looks_bind {E A B : Type} (m : M E A) (f : A → M E B) : looks m → (∀ a, looks (f a)) → looks (m ≫= f).
Proof. intros Hm Hf w. unfold mbind, M_bind. specialize (Hm w). destruct (m w) as [[a|e] w1]; simpl in *; subst; [apply Hf|done]. Qed.

Ltac looks_step :=
  lazymatch goal with
  | |- looks (_ ≫= _) => apply looks_bind; [|intros ?]
  | |- looks (match ?x with _ => _ end) => destruct x
  | |- looks _ => by intros ?
  end.

(** The words [main] knows. *)
Definition LOOKING : list str := strs ["status"; "logs"; "ps"; "policy"; "why"; "doctor"; "help"; "--help"; "-h"; "--version"; "-V"].

(** Asking is safe: no arguments, an unknown command, the help, and every
    command that reports ([status], [logs], [ps], [policy], [why], [doctor])
    leave files and processes exactly as they were; a line that is no command
    is a usage error. *)
Theorem reports_change_nothing doctor args w :
  match args with
  | [] => dispatch doctor args w = (2%Z, w)
  | a :: _ =>
      (a ∈ LOOKING → (dispatch doctor args w).2 = w) ∧
      (table_get COMMANDS a = None → a ∉ LOOKING → dispatch doctor args w = (2%Z, w))
  end.
Proof.
  destruct args as [|a rest]; [done|]. split.
  - intros Hin. unfold main. destruct (table_get COMMANDS a) as [c|] eqn:Ec.
    2: { by destruct (member a _). }
    assert (∀ (A : Type) (code : result Z A → Z) (m : M Z A), looks m → (let '(r, w') := m w in (code r, w')).2 = w) as Hrun.
    { intros A code m Hm. specialize (Hm w). by destruct (m w). }
    unfold LOOKING, strs in Hin. cbn [map] in Hin. rewrite !elem_of_cons in Hin.
    repeat (destruct Hin as [->|Hin]; [vm_compute in Ec; try done; injection Ec as <-; cbn [run_command]|]); [..|by apply not_elem_of_nil in Hin].
    + apply Hrun. unfold cli_status. repeat looks_step.
    + apply Hrun. unfold cli_logs. repeat looks_step.
    + apply Hrun. unfold cli_ps. repeat looks_step.
    + apply Hrun. unfold cli_policy. repeat looks_step.
    + apply Hrun. unfold cli_why. repeat looks_step.
    + done.
  - intros Hn Ho. unfold main. rewrite Hn. destruct (member a _) eqn:Em; [|done]. exfalso. apply Ho.
    apply member_spec in Em. unfold LOOKING, strs in *. cbn [map] in *. rewrite !elem_of_cons in *. naive_solver.
Qed.
End looking.

(** ** A concrete project *)

Definition web_table : list (str * toml) := written_table "web" "nix".

(** Below [/h/web] there is a manifest for [web], with nothing started yet. *)
Definition web_world : World := {| w_fs := {[ ("/h/web/devcroft.toml" : str) := ("t" : str) ]}; w_time := 0; w_events := [] |}.

Definition sample_why (args : list str) (w : World) : result Z Explanation * World :=
  @cli_why (sample_host false) sample_codec (λ _, Ok web_table) sample_try_into (Ok ("/h/web/src" : str)) (λ _ _, (false, [])) args w.

Definition why_data : list str := strs ["--path"; "/h/.local/share/devcroft/web/meta.json"; "--op"; "read"].

Lemma why_denies_data_dir_witness :
  ∃ e, sample_why why_data web_world = (Ok e, web_world) ∧ allowed e = false.
Proof.
  destruct (sample_why why_data web_world) as [r w'] eqn:E.
  destruct r as [e|code]; [|apply (f_equal fst) in E; vm_compute in E; discriminate E].
  destruct (@why_denies_data_dir (sample_host false) sample_codec (λ _, Ok web_table) sample_try_into (Ok ("/h/web/src" : str))
    (λ _ _, (false, [])) "/h" "/web/meta.json" why_data web_world e w'
    {| wa_path := Some ("/h/.local/share/devcroft/web/meta.json" : str); wa_op := Some ("read" : str); wa_host := None; wa_name := None |} E)
    as [Ha ->]; [vm_compute; reflexivity..|right; exists "web/meta.json"; vm_compute; reflexivity|vm_compute; reflexivity|].
  exists e. split; [reflexivity|exact Ha].
Defined.

Lemma why_misses_project_grant_witness :
  let c := @compile_with_provider_grants (sample_host false) sample_codec ∅ (written_manifest "web" "nix") in
  allowed (why_path c "~/web/main.rs" Write) = false ∧ is_within "/h/web/main.rs" "/h/web" = true.
Proof.
  destruct (@why_misses_project_grant (sample_host false) sample_codec ∅ (written_manifest "web" "nix") "/h/web" "main.rs") as (Hd & Hw & _);
    [reflexivity..| |].
  - intros s Hs. unfold KEEPER_SYSTEM_READWRITE, strs in Hs. cbn [map h_os sample_host] in Hs. rewrite !elem_of_cons in Hs.
    destruct Hs as [->|[->|[->|Hs]]]; [vm_compute; reflexivity..|by apply not_elem_of_nil in Hs].
  - split; [exact Hd|exact Hw].
Defined.

Lemma shown_against_enforced_witness :
  let f : gmap str str := {[ ("/h/.local/share/devcroft/web/meta.json" : str) := ("m" : str) ]} in
  let shown := @compile_with_provider_grants (sample_host false) sample_codec f up_manifest in
  ("/bin" : str) ∈ plan_read (to_capability_plan (@compiled_policy (sample_host false) up_manifest ProviderKind.Nix "/bin"
      (strs ["/nix/store"; "/nix/store/b"]) (Some (4000%N, "07ab" : str)) None)) ∧
  allowed (why_path shown "/bin" Read) = false.
Proof.
  cbv zeta. set (f := {[ ("/h/.local/share/devcroft/web/meta.json" : str) := ("m" : str) ]} : gmap str str).
  destruct (@state_paths (Some ("/h" : str)) "web") as [p|] eqn:Ep; [|vm_compute in Ep; discriminate Ep].
  assert (read_meta (@meta_of_json sample_codec) f (meta p) = Ok (Some sample_up_meta)) as Hm.
  { vm_compute in Ep. injection Ep as <-. reflexivity. }
  destruct (@shown_against_enforced (sample_host false) sample_codec up_manifest ProviderKind.Nix "/bin" "/p" "fp"
    (strs ["/nix/store"; "/nix/store/b"]) sample_resolution sample_shell (Some (4000%N, "07ab" : str)) plain_up f p)
    as (_ & _ & _ & _ & _ & _ & _ & _ & _ & Hin & Hd); [vm_compute; reflexivity|exact Ep|exact Hm|].
  split; [exact Hin|]. apply Hd. intros (r & Hr & Hw).
  assert (existsb (λ r, is_within "/bin" (av_value r))
    (filesystem_allow (@compile_with_provider_grants (sample_host false) sample_codec f up_manifest) ++
     filesystem_read (@compile_with_provider_grants (sample_host false) sample_codec f up_manifest)) = false) as Hn by (vm_compute; reflexivity).
  rewrite existsb_none in Hn. rewrite (Hn r Hr) in Hw. discriminate Hw.
Defined.
