(* ===== verification/KeeperMain.v ===== *)
(** * The keeper process ([src/bin/devcroft.rs], [src/keeper/mod.rs], [src/ssh/mod.rs])

    What the process [up] starts does, from its first instruction: the relay's
    listener, the restriction, the threads in the order they are created, the
    services, the accept loop, and the shutdown on a signal.  A run is the list
    of the steps it takes; the system's answers are parameters.  The last part
    composes it with {!Up}: what the keeper of a given launch is confined to. *)

From S2P Require Import Prelude Paths ProviderKind Manifest Policy Capability Protocol Registry Session Connection.
From S2P Require Import State Services Exec Hooks Capture Shell World SshKeys Up.

#[local] Set Default Proof Using "Type".

(** ** Steps *)

Inductive KeeperThread := RelayThread (port : N) (socket_path : str) | ShutdownThread | SshThread | ConnectionThread (stream : nat).

(** What the process does that others can see; [caps] is the backend's set. *)
Inductive KeeperStep (caps : Type) :=
| KBind (port : N)                        (* a TCP listener on loopback *)
| KRestrict (c : caps)                    (* the sandbox was applied *)
| KBlockSignals                           (* SIGTERM, SIGINT and SIGHUP, in the main thread *)
| KThread (t : KeeperThread)
| KSpawn (req : SpawnRequest) (pgid : Z)  (* a child was started *)
| KRegister (id : N) (pgid : Z)
| KExit (code : Z).
Arguments KBind {caps}. Arguments KRestrict {caps}. Arguments KBlockSignals {caps}. Arguments KThread {caps}.
Arguments KSpawn {caps}. Arguments KRegister {caps}. Arguments KExit {caps}.

(** The steps so far, and the value or the exit code. *)
Definition K (caps A : Type) : Type := list (KeeperStep caps) * result Z A.
#[export] Instance K_ret caps : MRet (K caps) := λ A a, ([], Ok a).
#[export] Instance K_bind caps : MBind (K caps) :=
  λ A B f m, match m with
             | (s, Ok a) => let '(s', r) := f a in (s ++ s', r)
             | (s, Err code) => (s, Err code)
             end.
Definition take_step {caps} (s : KeeperStep caps) : K caps unit := ([s], Ok tt).
Definition exit_with {caps A} (code : Z) : K caps A := ([KExit code], Err code).
(** [unwrap_or_else(.. exit(1))]. *)
Definition or_exit {caps E A} (r : result E A) : K caps A := match r with Ok a => mret a | Err _ => exit_with 1 end.

(** [std::env::var]: set, and UTF-8. *)
Definition env_var (env : str → option str) (key : str) : option str :=
  match env key with Some v => if utf8_valid v then Some v else None | None => None end.

(** The environment of a child: the parent's, with the command's changes. *)
Definition process_env (inherited : str → option str) (changes : gmap str (option str)) (key : str) : option str :=
  match changes !! key with Some v => v | None => inherited key end.

(** [main], [__keeper]: the two descriptors, or a panic. *)
Definition keeper_fds (args : list str) : result Z (Z * Z) :=
  fd ← ok_or 101%Z (args !! 0 ≫= parse_i32);
  ssh_fd ← ok_or 101%Z (args !! 1 ≫= parse_i32);
  Ok (fd, ssh_fd).

(** ** The keeper's accept loop ([keeper/mod.rs]) *)

Record Keeper := { k_registry : Registry; k_started : N }.
Definition keeper_new (now : N) : Keeper := {| k_registry := registry_new; k_started := now |}.

(** One thread per accepted connection, until [accept] fails. *)
Fixpoint serve (accepts : list (result str nat)) : list KeeperThread :=
  match accepts with
  | Ok stream :: accepts => ConnectionThread stream :: serve accepts
  | _ => []
  end.

Section keeper_main.
(** The process: its environment and directory, what it binds, how a plan is
    read, the file system, the backend, the children, the keys, the time. *)
Context (env : str → option str) (process_cwd : result str str) (bind_loopback : N → bool).
Context (plan_of_json : str → result str CapabilityPlan).
Context (exists_path is_dir : str → bool) (canonicalize : str → result str str).
Context {caps : Type} `{CapBuilder caps} (apply_auto : caps → result str unit).
Context (backend_spawn : SpawnRequest → result str SpawnedSession) (now : N).
Context (private_key_ok public_key_ok : str → bool).

Definition relay : K caps (option (N * str)) :=
  match env_var env "DEVCROFT_PROXY_RELAY_PORT" ≫= parse_unsigned U16_MAX, env_var env "DEVCROFT_PROXY_SOCKET" with
  | Some port, Some sock =>
      if bind_loopback port then _ ← take_step (KBind port); mret (Some (port, sock)) else mret None
  | _, _ => mret None
  end.

(** A capability set that cannot be built ends the process with 1, and one of a
    signal mode there is not with a panic. *)
Definition set_or_exit (r : result CapabilitySetError caps) : K caps caps :=
  match r with Err (UnreachableSignalMode _) => exit_with 101 | _ => or_exit r end.

Definition self_restrict : K caps unit :=
  plan_json ← or_exit (ok_or tt (env_var env "DEVCROFT_CAPABILITY_PLAN"));
  plan ← or_exit (plan_of_json plan_json);
  project_root ← or_exit process_cwd;
  c ← set_or_exit (to_capability_set (default [] (env_var env "HOME")) exists_path is_dir canonicalize plan project_root);
  _ ← or_exit (apply_auto c);
  take_step (KRestrict c).

(** The sandbox's service artifacts, as the keeper's environment names them. *)
Definition services_root : str := default ("." : str) (env_var env "DEVCROFT_SERVICES_ROOT").
Definition services_name : str := default ([] : str) (env_var env "DEVCROFT_SANDBOX_NAME").
Definition services_requested : bool := bool_decide (env_var env "DEVCROFT_START_SERVICES" = Some ("1" : str)).

Definition services_request : SpawnRequest :=
  {| cmd := "process-compose";
     args := ["up" : str; "-f" : str; config_path services_root services_name; "-t=false" : str; "-L" : str;
              log_path services_root services_name; "-u" : str; socket_path services_root services_name; "--keep-project" : str];
     cwd := services_root; req_env := ∅; pty := None |}.

Definition start_services_if_requested (r : Registry) : K caps Registry :=
  if services_requested then
    match backend_spawn services_request with
    | Ok spawned =>
        _ ← take_step (KSpawn services_request (sp_pgid spawned));
        let '(r, id) := registry_insert (sp_pgid spawned) "process-compose (services)" now r in
        _ ← take_step (KRegister id (sp_pgid spawned));
        mret r
    | Err _ => mret r
    end
  else mret r.

(** [ssh::start_from_env]: every failure only leaves ssh out. *)
Definition start_from_env : K caps unit :=
  match env_var env "DEVCROFT_SSH_HOST_KEY", env_var env "DEVCROFT_SSH_AUTHORIZED_KEY" with
  | Some host_key, Some authorized_key =>
      if private_key_ok host_key && public_key_ok authorized_key then take_step (KThread SshThread) else mret tt
  | _, _ => mret tt
  end.

Definition install_shutdown_handler : K caps unit :=
  _ ← take_step KBlockSignals;
  take_step (KThread ShutdownThread).

(** Up to the accept loop: the registry sessions will use. *)
Definition startup : K caps Registry :=
  relay ← relay;
  _ ← self_restrict;
  _ ← match relay with Some (port, sock) => take_step (KThread (RelayThread port sock)) | None => mret tt end;
  let keeper := keeper_new now in
  _ ← install_shutdown_handler;
  r ← start_services_if_requested (k_registry keeper);
  _ ← start_from_env;
  mret r.

Definition keeper_main (accepts : list (result str nat)) : K caps unit :=
  _ ← startup;
  _ ← ((KThread <$> serve accepts, Ok tt) : K caps unit);
  exit_with 0.
End keeper_main.

(** ** Shutting down *)

(** The process groups the supervisor reports: an [i64] cast to [pid_t]. *)
Definition service_process_groups (requested : bool) (answer : result Unreachable (list ServiceState)) : list Z :=
  if negb requested then []
  else match answer with
       | Err _ => []
       | Ok states => wrap_i32 <$> List.filter (λ pid, (0 <? pid)%Z) (omap st_pid states)
       end.

(** One sweep: [kill(-pgid, sig)] for each group. *)
Definition sweep (sig : Z) (r : Registry) (service_pgids : list Z) : list (Z * Z) :=
  ((λ '(_, info), (wrap_i32 (- info_pgid info), sig)) <$> snapshot r)
  ++ ((λ pgid, (wrap_i32 (- pgid), sig)) <$> service_pgids).

(** The shutdown thread once a signal was received: [before] and [after] are
    the registry at its two snapshots. *)
Definition shutdown (requested : bool) (answer : result Unreachable (list ServiceState)) (before after : Registry) : list (Z * Z) :=
  let service_pgids := service_process_groups requested answer in
  sweep SIGTERM before service_pgids ++ sweep SIGKILL after service_pgids.

(** The threads created before the signals were blocked: they, and every
    thread they start, take SIGTERM's default action. *)
Fixpoint unmasked {caps} (steps : list (KeeperStep caps)) : list KeeperThread :=
  match steps with
  | [] => []
  | KBlockSignals :: _ => []
  | KThread t :: steps => t :: unmasked steps
  | _ :: steps => unmasked steps
  end.

(** Where a SIGTERM sent to the process can land, and the signals the keeper
    then sends before it is gone. *)
Inductive sigterm {caps} (steps : list (KeeperStep caps)) (kills : list (Z * Z)) : list (Z * Z) → Prop :=
| sigterm_handled : KThread ShutdownThread ∈ steps → sigterm steps kills kills
| sigterm_default t : t ∈ unmasked steps → sigterm steps kills [].

(** ** The egress proxy process *)

Section egress_proxy_main.
Context (env : str → option str) (allow_of_json : str → result str (list str)) (local_port : result str N).

(** What [run] and [bridge_unix_to_tcp] are started with, or the exit code. *)
Definition egress_proxy_main : result Z (list str * str * str * N) :=
  allow ← ok_or 1%Z (env_var env "DEVCROFT_EGRESS_ALLOW" ≫= λ s, match allow_of_json s with Ok l => Some l | Err _ => None end);
  log_path ← ok_or 1%Z (env_var env "DEVCROFT_EGRESS_LOG");
  token ← ok_or 1%Z (env_var env "DEVCROFT_EGRESS_TOKEN");
  tcp_port ← map_err (λ _, 1%Z) local_port;
  Ok (allow, log_path, token, tcp_port).
End egress_proxy_main.

(** The environment [proxy::spawn] gives the process. *)
Definition egress_env (allow_to_json : list str → str) (allow : list str) (token log : str) : gmap str (option str) :=
  <[("DEVCROFT_EGRESS_LOG" : str) := Some log]> (<[("DEVCROFT_EGRESS_TOKEN" : str) := Some token]>
    {[ ("DEVCROFT_EGRESS_ALLOW" : str) := Some (allow_to_json allow) ]}).

(** ** Lemmas: the shape of a run *)

Section startup_lemmas.
Context (env : str → option str) (process_cwd : result str str) (bind_loopback : N → bool).
Context (plan_of_json : str → result str CapabilityPlan).
Context (exists_path is_dir : str → bool) (canonicalize : str → result str str).
Context {caps : Type} `{CapBuilder caps} (apply_auto : caps → result str unit).
Context (backend_spawn : SpawnRequest → result str SpawnedSession) (now : N).
Context (private_key_ok public_key_ok : str → bool).

#[local] Abbreviation the_relay := (relay (caps := caps) env bind_loopback).
#[local] Abbreviation restrict := (self_restrict env process_cwd plan_of_json exists_path is_dir canonicalize apply_auto).
#[local] Abbreviation services := (start_services_if_requested (caps := caps) env backend_spawn now).
#[local] Abbreviation ssh := (start_from_env (caps := caps) env private_key_ok public_key_ok).
#[local] Abbreviation run :=
  (keeper_main env process_cwd bind_loopback plan_of_json exists_path is_dir canonicalize apply_auto backend_spawn now
     private_key_ok public_key_ok).

(** The relay the environment asks for, once its listener is bound. *)
Definition relay_of : option (N * str) :=
  match env_var env "DEVCROFT_PROXY_RELAY_PORT" ≫= parse_unsigned U16_MAX, env_var env "DEVCROFT_PROXY_SOCKET" with
  | Some port, Some sock => if bind_loopback port then Some (port, sock) else None
  | _, _ => None
  end.

Definition relay_bind (o : option (N * str)) : list (KeeperStep caps) := match o with Some (port, _) => [KBind port] | None => [] end.
Definition relay_thread (o : option (N * str)) : list (KeeperStep caps) :=
  match o with Some (port, sock) => [KThread (RelayThread port sock)] | None => [] end.

Lemma relay_spec : the_relay = (relay_bind relay_of, Ok relay_of).
Proof. unfold relay, relay_of. repeat case_match; by simplify_eq. Qed.

(** The plan is read and the set built, and the process is confined to it; or
    it exits with 1. *)
Definition restricted_to (c : caps) : Prop :=
  ∃ json plan root, env_var env "DEVCROFT_CAPABILITY_PLAN" = Some json ∧ plan_of_json json = Ok plan ∧ process_cwd = Ok root ∧
    to_capability_set (default [] (env_var env "HOME")) exists_path is_dir canonicalize plan root = Ok c ∧ apply_auto c = Ok tt.

(** How it exits otherwise. *)
Definition restrict_fails (code : Z) : Prop :=
  code = 1%Z ∨
  code = 101%Z ∧ ∃ json plan, env_var env "DEVCROFT_CAPABILITY_PLAN" = Some json ∧ plan_of_json json = Ok plan ∧ plan_signal_mode plan ≠ SIGNAL_MODE.

Lemma restrict_spec :
  (∃ code, restrict = ([KExit code], Err code) ∧ restrict_fails code) ∨ ∃ c, restrict = ([KRestrict c], Ok tt) ∧ restricted_to c.
Proof.
  unfold self_restrict, or_exit, exit_with, restricted_to.
  destruct (env_var env "DEVCROFT_CAPABILITY_PLAN") as [json|] eqn:Ej; [|left; exists 1%Z; by split; [|left]]. cbn -[to_capability_set].
  destruct (plan_of_json json) as [plan|] eqn:Ep; [|left; exists 1%Z; by split; [|left]]. cbn -[to_capability_set].
  destruct process_cwd as [root|]; [|left; exists 1%Z; by split; [|left]]. cbn -[to_capability_set].
  destruct (to_capability_set _ _ _ _ plan root) as [c|e] eqn:Ec.
  - cbn. destruct (apply_auto c) as [[]|] eqn:Ea; [|left; exists 1%Z; by split; [|left]]. right. exists c. split; [done|].
    by exists json, plan, root.
  - destruct e; cbn; try (left; exists 1%Z; by split; [|left]). left. exists 101%Z. split; [done|]. right. split; [done|].
    exists json, plan. split; [done|]. split; [done|]. by eapply to_capability_set_unreachable.
Qed.

Lemma restrict_ok c : restricted_to c → restrict = ([KRestrict c], Ok tt).
Proof.
  intros (json & plan & root & Hj & Hp & Hr & Hc & Ha). unfold self_restrict, or_exit.
  rewrite Hj. cbn -[to_capability_set]. rewrite Hp. cbn -[to_capability_set]. rewrite Hr. cbn -[to_capability_set].
  rewrite Hc. cbn. by rewrite Ha.
Qed.

Lemma services_ok r : ∃ r', (services r).2 = Ok r'.
Proof. unfold start_services_if_requested. destruct (services_requested env); [|by eexists]. destruct (backend_spawn _); by eexists. Qed.

Lemma ssh_ok : ssh.2 = Ok tt.
Proof. unfold start_from_env. by repeat case_match. Qed.

(** A run that got past its restriction. *)
Lemma run_ok c accepts :
  restricted_to c →
  run accepts = (relay_bind relay_of ++ KRestrict c :: relay_thread relay_of ++ KBlockSignals :: KThread ShutdownThread ::
                 (services registry_new).1 ++ ssh.1 ++ (KThread <$> serve accepts) ++ [KExit 0], Err 0%Z).
Proof.
  intros Hc. unfold keeper_main, startup. rewrite relay_spec. cbn -[self_restrict]. rewrite (restrict_ok c Hc).
  destruct (services_ok registry_new) as [r' Hr]. pose proof ssh_ok as Hs.
  destruct (services registry_new) as [s [r|]]; [|done]. destruct ssh as [s' [[]|]]; [|done].
  unfold install_shutdown_handler, take_step, mbind, K_bind. cbn -[serve].
  destruct relay_of as [[port sock]|]; cbn -[serve]; rewrite ?app_nil_r, <- !app_assoc; cbn -[serve]; by rewrite <- ?app_assoc.
Qed.

(** A run that did not. *)
Lemma run_failed accepts code : restrict = ([KExit code], Err code) → run accepts = (relay_bind relay_of ++ [KExit code], Err code).
Proof. intros Hf. unfold keeper_main, startup. rewrite relay_spec. cbn -[self_restrict]. by rewrite Hf. Qed.

Lemma run_cases accepts :
  (∃ code, run accepts = (relay_bind relay_of ++ [KExit code], Err code) ∧ restrict_fails code) ∨
  ∃ c, restricted_to c ∧
    run accepts = (relay_bind relay_of ++ KRestrict c :: relay_thread relay_of ++ KBlockSignals :: KThread ShutdownThread ::
                   (services registry_new).1 ++ ssh.1 ++ (KThread <$> serve accepts) ++ [KExit 0], Err 0%Z).
Proof.
  destruct restrict_spec as [(code & Hf & Hcode)|(c & _ & Hc)]; [left; exists code; split; [by apply run_failed|done]|right; exists c; split; [done|by apply run_ok]].
Qed.

(** Nothing restricts the process a second time. *)
Lemma run_tail_unrestricted accepts c' :
  KRestrict c' ∉ relay_thread relay_of ++ KBlockSignals :: KThread ShutdownThread ::
                 (services registry_new).1 ++ ssh.1 ++ (KThread <$> serve accepts) ++ [KExit 0].
Proof.
  assert (KRestrict c' ∉ (services registry_new).1) as Hs.
  { unfold start_services_if_requested. destruct (services_requested env); [|apply not_elem_of_nil].
    destruct (backend_spawn _); [|apply not_elem_of_nil]. cbn. rewrite !elem_of_cons, elem_of_nil. intros Hin. by destruct_or! Hin. }
  assert (KRestrict c' ∉ ssh.1) as Hh.
  { unfold start_from_env. repeat case_match; cbn; rewrite ?elem_of_cons, ?elem_of_nil; intros Hin; by destruct_or? Hin. }
  rewrite !elem_of_app, !elem_of_cons, !elem_of_app, list_elem_of_fmap, elem_of_cons, elem_of_nil.
  intros Hin. destruct_or! Hin; try done; [|by destruct Hin as (x & [=] & _)].
  destruct relay_of as [[port sock]|]; cbn in Hin; rewrite ?elem_of_cons, ?elem_of_nil in Hin; by destruct_or? Hin.
Qed.

Lemma restricted_run accepts c : KRestrict c ∈ (run accepts).1 → restricted_to c.
Proof.
  destruct (run_cases accepts) as [(code & -> & _)|(c' & Hc & ->)]; cbn [fst]; intros Hin.
  - apply elem_of_app in Hin as [Hin|Hin]; [destruct relay_of as [[]|]; cbn in Hin|]; rewrite ?elem_of_cons, ?elem_of_nil in Hin; naive_solver.
  - apply elem_of_app in Hin as [Hin|Hin].
    + destruct relay_of as [[]|]; cbn in Hin; rewrite ?elem_of_cons, ?elem_of_nil in Hin; naive_solver.
    + apply elem_of_cons in Hin as [[= ->]|Hin]; [done|]. by apply run_tail_unrestricted in Hin.
Qed.

Lemma unmasked_run c accepts :
  restricted_to c → unmasked (run accepts).1 = match relay_of with Some (port, sock) => [RelayThread port sock] | None => [] end.
Proof. intros Hc. rewrite (run_ok c accepts Hc). by destruct relay_of as [[port sock]|]. Qed.

Lemma shutdown_thread_runs c accepts : restricted_to c → KThread ShutdownThread ∈ (run accepts).1.
Proof.
  intros Hc. rewrite (run_ok c accepts Hc). cbn [fst]. apply elem_of_app. right. right.
  apply elem_of_app. right. right. by left.
Qed.

(** A SIGTERM runs the shutdown, or, exactly when a relay was bound, may
    instead kill the keeper on the spot, with no session signalled: the relay's
    thread is created before the signals are blocked. *)
Theorem sigterm_outcomes c accepts kills out (Hc : restricted_to c) :
  sigterm (run accepts).1 kills out ↔ out = kills ∨ (out = [] ∧ is_Some relay_of).
Proof.
  split.
  - intros [_|t Ht]; [by left|right]. split; [done|]. rewrite (unmasked_run c accepts Hc) in Ht.
    destruct relay_of as [[port sock]|]; [by eexists|by apply not_elem_of_nil in Ht].
  - intros [-> |[-> [[port sock] Hr]]].
    + apply sigterm_handled. by eapply shutdown_thread_runs.
    + apply (sigterm_default _ _ (RelayThread port sock)). rewrite (unmasked_run c accepts Hc), Hr. by left.
Qed.

(** Children are started, and groups registered, for the services only. *)
Lemma run_services c accepts s :
  restricted_to c → (∃ req pgid, s = KSpawn req pgid) ∨ (∃ id pgid, s = KRegister id pgid) →
  s ∈ (run accepts).1 ↔ s ∈ (services registry_new).1.
Proof.
  intros Hc Hs. rewrite (run_ok c accepts Hc). cbn [fst]. split; [|rewrite !elem_of_app, !elem_of_cons, !elem_of_app, !elem_of_cons, !elem_of_app; tauto].
  assert (s ∉ ssh.1) as Hh.
  { unfold start_from_env. repeat case_match; cbn; rewrite ?elem_of_cons, ?elem_of_nil; intros Hin; destruct_or? Hin; naive_solver. }
  assert (s ∉ relay_bind relay_of ∧ s ∉ relay_thread relay_of) as [H1 H2].
  { destruct relay_of as [[]|]; cbn; rewrite ?elem_of_cons, ?elem_of_nil; naive_solver. }
  rewrite !elem_of_app, !elem_of_cons, !elem_of_app, !elem_of_cons, !elem_of_app, list_elem_of_fmap, elem_of_cons, elem_of_nil.
  intros Hin. destruct_or! Hin; try done; try (by destruct_or! Hs; destruct_and? Hs; naive_solver).
Qed.

(** The services of a keeper that serves: when they are asked for and their
    supervisor starts, it is the one child started, with the sandbox's own
    configuration, log and socket, and it is registered before any session, so
    that the shutdown reaches its group; a supervisor that does not start
    leaves an empty registry and a keeper that serves all the same. *)
Theorem services_supervised c accepts (Hc : restricted_to c) :
  (∀ req pgid, KSpawn req pgid ∈ (run accepts).1 ↔
     req = services_request env ∧ services_requested env = true ∧ ∃ sp, backend_spawn req = Ok sp ∧ pgid = sp_pgid sp) ∧
  (∀ id pgid, KRegister id pgid ∈ (run accepts).1 ↔ id = 1%N ∧ KSpawn (services_request env) pgid ∈ (run accepts).1) ∧
  (∃ r, (services registry_new).2 = Ok r ∧
     (∀ id info, reg_sessions r !! id = Some info ↔
        id = 1%N ∧ info_command info = "process-compose (services)" ∧ info_started info = now ∧
        KSpawn (services_request env) (info_pgid info) ∈ (run accepts).1)) ∧
  KThread <$> serve accepts `sublist_of` (run accepts).1.
Proof.
  assert (∀ req pgid, KSpawn req pgid ∈ (run accepts).1 ↔ KSpawn req pgid ∈ (services registry_new).1) as H1
    by (intros; apply (run_services c); eauto).
  assert (∀ id pgid, KRegister id pgid ∈ (run accepts).1 ↔ KRegister id pgid ∈ (services registry_new).1) as H2
    by (intros; apply (run_services c); eauto).
  assert (KThread <$> serve accepts `sublist_of` (run accepts).1) as H3.
  { rewrite (run_ok c accepts Hc). cbn [fst]. do 2 (apply sublist_inserts_l; apply sublist_cons). apply sublist_cons.
    do 2 apply sublist_inserts_l. by apply sublist_inserts_r. }
  repeat setoid_rewrite H1. setoid_rewrite H2. split; [|split; [|split; [|done]]]; clear H1 H2 H3.
  - intros req pgid. unfold start_services_if_requested. destruct (services_requested env); [|cbn; rewrite elem_of_nil; naive_solver].
    destruct (backend_spawn (services_request env)) as [sp|] eqn:E; cbn -[services_request]; rewrite ?elem_of_cons, ?elem_of_nil.
    + split; [intros Hin; destruct_or! Hin; naive_solver|]. intros (-> & _ & sp' & Hsp & ->). left. rewrite E in Hsp. by injection Hsp as ->.
    + split; [done|]. intros (-> & _ & sp' & Hsp & _). by rewrite E in Hsp.
  - intros id pgid. unfold start_services_if_requested. destruct (services_requested env); [|cbn; rewrite !elem_of_nil; naive_solver].
    destruct (backend_spawn (services_request env)) as [sp|]; cbn -[services_request]; rewrite ?elem_of_cons, ?elem_of_nil; [|naive_solver].
    split; [intros Hin; destruct_or! Hin; naive_solver|intros [-> Hin]; destruct_or! Hin; naive_solver].
  - unfold start_services_if_requested. destruct (services_requested env).
    2: { exists registry_new. split; [done|]. intros id info. cbn. rewrite lookup_empty, elem_of_nil. naive_solver. }
    destruct (backend_spawn (services_request env)) as [sp|].
    2: { exists registry_new. split; [done|]. intros id info. cbn. rewrite lookup_empty, elem_of_nil. naive_solver. }
    eexists. split; [reflexivity|]. intros id [p cm st]. cbn -[services_request].
    rewrite lookup_insert_Some, lookup_empty, !elem_of_cons, elem_of_nil. naive_solver.
Qed.
End startup_lemmas.

(** ** Lemmas: signals *)

Lemma elem_sweep sig r pgids p s :
  (p, s) ∈ sweep sig r pgids ↔
  s = sig ∧ ((∃ id info, reg_sessions r !! id = Some info ∧ p = wrap_i32 (- info_pgid info)) ∨ ∃ pgid, pgid ∈ pgids ∧ p = wrap_i32 (- pgid)).
Proof.
  unfold sweep, snapshot. rewrite elem_of_app, !list_elem_of_fmap. split.
  - intros [([id info] & [= -> ->] & Hin)|(pgid & [= -> ->] & Hin)]; (split; [done|]).
    + left. exists id, info. by apply elem_of_map_to_list in Hin.
    + right. by exists pgid.
  - intros [-> [(id & info & Hin & ->)|(pgid & Hin & ->)]].
    + left. exists (id, info). split; [done|]. by apply elem_of_map_to_list.
    + right. by exists pgid.
Qed.

(** A service the supervisor reports with a process id. *)
Definition reported (requested : bool) (answer : result Unreachable (list ServiceState)) (pid : Z) : Prop :=
  requested = true ∧ ∃ states svc, answer = Ok states ∧ svc ∈ states ∧ st_pid svc = Some pid ∧ (0 < pid)%Z.

Lemma elem_service_groups requested answer pgid :
  pgid ∈ service_process_groups requested answer ↔ ∃ pid, reported requested answer pid ∧ pgid = wrap_i32 pid.
Proof.
  unfold service_process_groups, reported. destruct requested; simpl; [|split; [by intros ?%not_elem_of_nil|naive_solver]].
  destruct answer as [states|]; [|split; [by intros ?%not_elem_of_nil|naive_solver]].
  rewrite list_elem_of_fmap. setoid_rewrite elem_of_filter_bool. setoid_rewrite list_elem_of_omap. setoid_rewrite Z.ltb_lt.
  naive_solver.
Qed.

Lemma wrap_i32_neg p : (0 < p ≤ 2147483647)%Z → wrap_i32 (- p) = (- p)%Z.
Proof. intros Hp. unfold wrap_i32. rewrite Z.mod_small by lia. lia. Qed.
Lemma wrap_i32_id p : (0 < p ≤ 2147483647)%Z → wrap_i32 p = p.
Proof. intros Hp. unfold wrap_i32. rewrite Z.mod_small by lia. lia. Qed.

(** The shutdown signals exactly the registered sessions' process groups and
    those of the services the supervisor reports: SIGTERM to all of them, then
    SIGKILL to all of them; a session that ended in between gets no SIGKILL,
    and one that started in between no SIGTERM. *)
Theorem shutdown_exact requested answer before after :
  ∃ terms kills, shutdown requested answer before after = terms ++ kills ∧
    (∀ p s, (p, s) ∈ terms ↔ s = SIGTERM ∧
       ((∃ id info, reg_sessions before !! id = Some info ∧ p = wrap_i32 (- info_pgid info)) ∨
        ∃ pid, reported requested answer pid ∧ p = wrap_i32 (- wrap_i32 pid))) ∧
    (∀ p s, (p, s) ∈ kills ↔ s = SIGKILL ∧
       ((∃ id info, reg_sessions after !! id = Some info ∧ p = wrap_i32 (- info_pgid info)) ∨
        ∃ pid, reported requested answer pid ∧ p = wrap_i32 (- wrap_i32 pid))) ∧
    (∀ p, (0 < p ≤ 2147483647)%Z → wrap_i32 (- p) = (- p)%Z ∧ wrap_i32 (- wrap_i32 p) = (- p)%Z).
Proof.
  eexists _, _. split; [reflexivity|]. split; [|split].
  - intros p s. rewrite elem_sweep. setoid_rewrite elem_service_groups. naive_solver.
  - intros p s. rewrite elem_sweep. setoid_rewrite elem_service_groups. naive_solver.
  - intros p Hp. by rewrite (wrap_i32_id p Hp), (wrap_i32_neg p Hp).
Qed.

(** A supervisor that reports process 1, or 2^32 + 1, makes the keeper signal
    every process it may signal: the filter looks at the [i64], and the cast
    and the negation give -1. *)
Lemma shutdown_broadcast (pid : Z) states svc before after :
  pid = 1%Z ∨ pid = 4294967297%Z → svc ∈ states → st_pid svc = Some pid →
  (-1, SIGTERM)%Z ∈ shutdown true (Ok states) before after ∧ (-1, SIGKILL)%Z ∈ shutdown true (Ok states) before after.
Proof.
  intros Hpid Hsvc Hp.
  assert ((-1)%Z = wrap_i32 (- wrap_i32 pid)) as E by (destruct Hpid as [-> | ->]; by vm_compute).
  assert (∃ pgid, pgid ∈ service_process_groups true (Ok states) ∧ (-1)%Z = wrap_i32 (- pgid)) as Hin.
  { exists (wrap_i32 pid). split; [|done]. apply elem_service_groups. exists pid. split; [|done]. split; [done|].
    exists states, svc. repeat split; try done. destruct Hpid; lia. }
  unfold shutdown. rewrite !elem_of_app, !elem_sweep.
  split; [left|right]; (split; [done|by right]).
Qed.

(** ** The keeper of a launch *)

Section launched.
Context `{Host} `{Provider} `{Codec}.
Context (plan_of_json : str → result str CapabilityPlan) (bind_loopback : N → bool).
Context (backend_spawn : SpawnRequest → result str SpawnedSession) (now : N) (private_key_ok public_key_ok : str → bool).
(** The file system when the keeper restricts itself: not the one [up] looked
    at ([h_exists], [h_is_dir], [h_canonicalize]), it may have changed since. *)
Context (k_exists k_is_dir : str → bool) (k_canonicalize : str → result str str).

(** The process [spawn_keeper] starts. *)
Definition keeper_process {caps : Type} `{CapBuilder caps} (apply_auto : caps → result str unit) (inherited : str → option str)
    (l : KeeperLaunch) (accepts : list (result str nat)) : list (KeeperStep caps) :=
  (keeper_main (process_env inherited (kl_env l)) (Ok (kl_cwd l)) bind_loopback plan_of_json k_exists k_is_dir k_canonicalize
     apply_auto backend_spawn now private_key_ok public_key_ok accepts).1.

(** Plans survive their JSON, which is text. *)
Definition plan_codec : Prop := ∀ p, plan_of_json (plan_to_json p) = Ok p ∧ utf8_valid (plan_to_json p) = true.

Definition OWN_KEYS : list str :=
  strs ["DEVCROFT_CAPABILITY_PLAN"; "DEVCROFT_SSH_HOST_KEY"; "DEVCROFT_SSH_AUTHORIZED_KEY"; "DEVCROFT_SHELL";
        "DEVCROFT_START_SERVICES"; "DEVCROFT_SANDBOX_NAME"; "DEVCROFT_SERVICES_ROOT"; "DEVCROFT_PROXY_RELAY_PORT"; "DEVCROFT_PROXY_SOCKET"].

Definition RELAY_KEYS : list str := strs ["DEVCROFT_PROXY_RELAY_PORT"; "DEVCROFT_PROXY_SOCKET"].

Lemma own_keys plan hk ak shell root services rl : Forall (λ k, k ∈ OWN_KEYS) (devcroft_env plan hk ak shell root services rl).*1.
Proof. destruct rl as [[]|]; apply (bool_decide_unpack _); by vm_compute. Qed.

(** The variables devcroft does not set for this launch: the relay's are set
    for an isolated keeper only. *)
Definition overridable (l : KeeperLaunch) (k : str) : Prop := k ∉ OWN_KEYS ∨ (kl_isolate l = false ∧ k ∈ RELAY_KEYS).

Lemma not_set_without_relay plan hk ak shell root services k :
  k ∈ RELAY_KEYS → k ∉ (devcroft_env plan hk ak shell root services None).*1.
Proof. intros Hk. assert (Forall (λ k, k ∉ (devcroft_env plan hk ak shell root services None).*1) RELAY_KEYS) as Hf
    by (apply (bool_decide_unpack _); by vm_compute). by apply (proj1 (Forall_forall _ _) Hf). Qed.

(** Devcroft's own variables override everything else. *)
Lemma launch_own {caps : Type} `{CapBuilder caps} m root l :
  built_launch (caps := caps) m root l →
  ∃ kind exe_dir grants proxy socket cs res,
    let plan := to_capability_plan (compiled_policy m kind exe_dir grants proxy socket) in
    check_enforceable (caps := caps) plan root = Ok cs ∧ kl_cwd l = root ∧ (is_Some proxy ↔ wants_egress_proxy (compile h_os m) = true) ∧
    kl_env l !! ("DEVCROFT_CAPABILITY_PLAN" : str) = Some (Some (plan_to_json plan)) ∧
    (∀ k, overridable l k →
       kl_env l !! k = command_env (keeper_env m res proxy) (keeper_unset m res) [] !! k) ∧
    (kl_isolate l = true → wants_egress_proxy (compile h_os m) = true → ∃ port sock,
       kl_env l !! ("DEVCROFT_PROXY_RELAY_PORT" : str) = Some (Some (show_N port)) ∧
       kl_env l !! ("DEVCROFT_PROXY_SOCKET" : str) = Some (Some sock)).
Proof.
  intros (p & res & shell & grants & proxy & kind & exe_dir & socket & cs & hk & ak & services & rl &
    Hkind & Hdir & Hproxy & Hcs & Hcwd & Henv & _ & Hiso & Hrl).
  exists kind, exe_dir, grants, proxy, socket, cs, res. do 3 (split; [done|]). rewrite Henv. split; [|split].
  - apply lookup_own; [apply devcroft_env_keys|by left].
  - intros k Hk. unfold command_env. rewrite !lookup_own_other; [done|by apply not_elem_of_nil|].
    destruct Hk as [Hk|[Hi Hk]]; [|rewrite Hi in Hrl; subst rl; by apply not_set_without_relay].
    intros Hin. apply Hk. revert Hin. by apply (proj1 (Forall_forall _ _) (own_keys _ hk ak shell root services rl)).
  - intros Hi Hw. rewrite Hi in Hrl. apply Hproxy in Hw as [[port token] ->]. simpl in Hrl. subst rl.
    exists port, (proxy_socket p). split; (apply lookup_own; [apply devcroft_env_keys|]).
    + unfold devcroft_env. apply elem_of_app. right. by left.
    + unfold devcroft_env. apply elem_of_app. right. right. by left.
Qed.

(** The restriction a launch is given: the plan [up] checked, resolved with
    the [HOME] and on the file system the keeper sees. *)
Lemma launch_restricts {caps : Type} `{CapBuilder caps} (apply_auto : caps → result str unit) m root l inherited c :
  plan_codec → built_launch (caps := caps) m root l →
  restricted_to (process_env inherited (kl_env l)) (Ok (kl_cwd l)) plan_of_json k_exists k_is_dir k_canonicalize apply_auto c →
  ∃ kind exe_dir grants proxy socket cs,
    let plan := to_capability_plan (compiled_policy m kind exe_dir grants proxy socket) in
    check_enforceable (caps := caps) plan root = Ok cs ∧ apply_auto c = Ok tt ∧
    to_capability_set (default [] (env_var (process_env inherited (kl_env l)) "HOME")) k_exists k_is_dir k_canonicalize plan root = Ok c.
Proof.
  intros Hj Hl (json & plan & r & Hjson & Hplan & [= <-] & Hc & Ha).
  destruct (launch_own m root l Hl) as (kind & exe_dir & grants & proxy & socket & cs & res & Hcs & Hcwd & _ & Hp & _ & _).
  exists kind, exe_dir, grants, proxy, socket, cs. split; [done|]. split; [done|].
  unfold env_var, process_env in Hjson. rewrite Hp in Hjson. destruct (Hj (to_capability_plan (compiled_policy m kind exe_dir grants proxy socket)))
    as [Hd Hu]. rewrite Hu in Hjson. injection Hjson as <-. rewrite Hd in Hplan. injection Hplan as <-. by rewrite <- Hcwd.
Qed.

(** The plan of a launch is of the one signal mode there is. *)
Lemma launch_exit_code {caps : Type} `{CapBuilder caps} m root l inherited code :
  plan_codec → built_launch (caps := caps) m root l →
  restrict_fails (process_env inherited (kl_env l)) plan_of_json code → code = 1%Z.
Proof.
  intros Hj Hl [->|(_ & json & plan & Hjson & Hplan & Hmode)]; [done|].
  destruct (launch_own m root l Hl) as (kind & exe_dir & grants & proxy & socket & cs & res & Hcs & _ & _ & Hp & _ & _).
  unfold env_var, process_env in Hjson. rewrite Hp in Hjson. destruct (Hj (to_capability_plan (compiled_policy m kind exe_dir grants proxy socket)))
    as [Hd Hu]. rewrite Hu in Hjson. injection Hjson as <-. rewrite Hd in Hplan. injection Hplan as <-.
  unfold check_enforceable in Hcs. destruct (to_capability_set _ _ _ _ _ _) eqn:E in Hcs; [|done]. by apply to_capability_set_inv in E as [? _].
Qed.

(** The variables of the manifest reach the keeper. *)
Lemma launch_manifest_var {caps : Type} `{CapBuilder caps} m root l inherited (k v : str) :
  built_launch (caps := caps) m root l → overridable l k → k ∉ NO_PROXY_KEYS → k ∉ PROXY_KEYS →
  vars (m_env m) !! k = Some v → process_env inherited (kl_env l) k = Some v.
Proof.
  intros Hl Hk Hn Hp Hv. destruct (launch_own m root l Hl) as (kind & exe_dir & grants & proxy & socket & cs & res & _ & _ & _ & _ & Ho & _).
  unfold process_env. rewrite (Ho k Hk), keeper_environment by apply not_elem_of_nil. rewrite Hv.
  destruct proxy as [[port token]|]; [|done]. by rewrite (decide_False (P := k ∈ NO_PROXY_KEYS)), (decide_False (P := k ∈ PROXY_KEYS)) by done.
Qed.

(** C26: the keeper confines itself before it does anything else: whatever its
    environment, the only step before the restriction is the listener of its
    relay, and no process, thread or connection exists; if the restriction
    fails the process exits with 1 and does nothing more.  The restriction of
    every keeper [up] starts is the capability set of the very plan [up] had
    compiled and checked, built with the [HOME] and on the file system the
    keeper sees; it is the set [up] had checked whenever those are the ones
    [up] saw.  (Plans survive their JSON.) *)
Theorem keeper_applies_checked_plan {caps : Type} `{CapBuilder caps} (apply_auto : caps → result str unit) m root opts w evs pid l
    inherited accepts
    (He : w_events (up (caps := caps) m root opts w).2 = w_events w ++ evs) (Hin : EvKeeper pid l ∈ evs) (Hj : plan_codec) :
  ∃ before rest kind exe_dir grants proxy socket cs,
    let plan := to_capability_plan (foldl apply_fold (compile h_os m) (folds_of kind exe_dir grants proxy socket)) in
    let keeper_home := env_var (process_env inherited (kl_env l)) "HOME" in
    check_enforceable plan (real_root root) = Ok cs ∧
    keeper_process apply_auto inherited l accepts = before ++ rest ∧ (before = [] ∨ ∃ port, before = [KBind port]) ∧
    (rest = [KExit 1] ∨
     ∃ c rest', rest = KRestrict c :: rest' ∧ (∀ c', KRestrict c' ∉ rest') ∧ apply_auto c = Ok tt ∧
       to_capability_set (default [] keeper_home) k_exists k_is_dir k_canonicalize plan (real_root root) = Ok c ∧
       (default [] keeper_home = default [] h_home → (∀ p, k_exists p = h_exists p) → (∀ p, k_is_dir p = h_is_dir p) →
        (∀ p, k_canonicalize p = h_canonicalize p) → c = cs)).
Proof.
  pose proof (keeper_built m root opts w evs pid l He Hin) as Hl.
  set (o := relay_of (process_env inherited (kl_env l)) bind_loopback).
  assert (relay_bind (caps := caps) o = [] ∨ ∃ port, relay_bind (caps := caps) o = [KBind port]) as Hb.
  { destruct o as [[port sock]|]; [right; by exists port|by left]. }
  unfold keeper_process. destruct (run_cases (process_env inherited (kl_env l)) (Ok (kl_cwd l)) bind_loopback plan_of_json k_exists k_is_dir
    k_canonicalize apply_auto backend_spawn now private_key_ok public_key_ok accepts) as [(code & -> & Hcode)|(c & Hc & ->)].
  - destruct (launch_own m (real_root root) l Hl) as (kind & exe_dir & grants & proxy & socket & cs & res & Hcs & _).
    eexists _, _, kind, exe_dir, grants, proxy, socket, cs. cbv zeta. rewrite <- compiled_policy_folds. split; [exact Hcs|].
    split; [reflexivity|]. split; [done|left]. by rewrite (launch_exit_code m (real_root root) l inherited code Hj Hl Hcode).
  - destruct (launch_restricts apply_auto m (real_root root) l inherited c Hj Hl Hc)
      as (kind & exe_dir & grants & proxy & socket & cs & Hcs & Ha & Hset).
    eexists _, _, kind, exe_dir, grants, proxy, socket, cs. cbv zeta. rewrite <- compiled_policy_folds. split; [exact Hcs|].
    split; [reflexivity|]. split; [done|right].
    eexists c, _. split; [reflexivity|]. split; [apply run_tail_unrestricted|]. split; [done|]. split; [exact Hset|].
    intros Hhome Hex Hdir Hcan. rewrite Hhome, (to_capability_set_ext _ _ _ _ _ _ _ _ _ Hex Hdir Hcan) in Hset.
    unfold check_enforceable in Hcs. rewrite Hset in Hcs. by injection Hcs as ->.
Qed.

(** C27: a manifest that sets [HOME] moves the grants it is confined to: of the
    one plan [up] compiled and checked, the grant of [~/rest] was checked below
    the user's home, and the keeper, which is given the manifest's variables
    before it reads the plan, is granted it below the directory the manifest
    names, which is another one. *)
Theorem manifest_home_moves_grants (apply_auto : list cap_call → result str unit) m root opts w evs pid l inherited accepts home home' rest ks
    (He : w_events (up (caps := list cap_call) m root opts w).2 = w_events w ++ evs) (Hin : EvKeeper pid l ∈ evs) (Hj : plan_codec)
    (Hup : h_home = Some home) (Hhome : vars (m_env m) !! ("HOME" : str) = Some home') (Hu : utf8_valid home' = true)
    (Habs : path_root home = Absolute ∧ path_root home' = Absolute) (Hne : path_comps home ≠ path_comps home')
    (Hrest : starts_with "/" rest = false ∧ path_root rest = Project)
    (Hallow : "~/" ++ rest ∈ fs_allow (m_filesystem m)) (Hks : KRestrict ks ∈ keeper_process apply_auto inherited l accepts) :
  ∃ kind exe_dir grants proxy socket cs,
    let plan := to_capability_plan (foldl apply_fold (compile h_os m) (folds_of kind exe_dir grants proxy socket)) in
    check_enforceable plan (real_root root) = Ok cs ∧
    to_capability_set home' k_exists k_is_dir k_canonicalize plan (real_root root) = Ok ks ∧
    (h_exists (path_join home rest) = true → ∃ k, k ∈ cs ∧ path_call k = Some (path_join home rest, ModeReadWrite)) ∧
    (k_exists (path_join home' rest) = true → ∃ k, k ∈ ks ∧ path_call k = Some (path_join home' rest, ModeReadWrite)) ∧
    path_comps (path_join home rest) ≠ path_comps (path_join home' rest).
Proof.
  pose proof (keeper_built m root opts w evs pid l He Hin) as Hl.
  assert (env_var (process_env inherited (kl_env l)) "HOME" = Some home') as Hh.
  { unfold env_var. rewrite (launch_manifest_var m (real_root root) l inherited "HOME" home' Hl); [by rewrite Hu|left|..|done];
      apply (bool_decide_unpack _); by vm_compute. }
  pose proof (restricted_run _ _ _ _ _ _ _ _ _ _ _ _ accepts ks Hks) as Hc.
  destruct (launch_restricts apply_auto m (real_root root) l inherited ks Hj Hl Hc)
    as (kind & exe_dir & grants & proxy & socket & cs & Hcs & Ha & Hset).
  exists kind, exe_dir, grants, proxy, socket, cs. cbv zeta. rewrite <- compiled_policy_folds.
  rewrite Hh in Hset. cbn [default id from_option] in Hset. set (plan := to_capability_plan _) in *.
  assert ("~/" ++ rest ∈ plan_values plan ModeReadWrite) as Hv.
  { unfold plan. rewrite compiled_policy_folds. cbn [plan_values to_capability_plan plan_allow]. rewrite apply_folds_allow.
    unfold compile. cbn [filesystem_allow]. rewrite fmap_app, elem_of_app. left.
    unfold annotate. by rewrite <- list_fmap_compose, list_fmap_id. }
  assert (∀ home, (Capability.resolve home ("~/" ++ rest) (real_root root)).1 = path_join home rest) as Hr by done.
  do 2 (split; [done|]). split; [|split].
  - intros Hex. unfold check_enforceable in Hcs. rewrite Hup in Hcs. cbn [default id from_option] in Hcs.
    destruct (to_capability_set home _ _ _ plan _) as [ks0|] eqn:E; [|done]. injection Hcs as ->.
    pose proof (grants_complete _ _ _ _ _ _ _ ModeReadWrite _ E Hv) as Hg. rewrite Hr in Hg. by apply Hg.
  - intros Hex. pose proof (grants_complete _ _ _ _ _ _ _ ModeReadWrite _ Hset Hv) as Hg. rewrite Hr in Hg. by apply Hg.
  - destruct Habs as [Ha1 Ha2], Hrest as [Hr1 Hr2]. unfold path_comps at 1 2. rewrite !components_join by done. cbn [snd].
    intros Heq. by apply app_inv_tail in Heq.
Qed.
End launched.

(** An isolated keeper under egress filtering always has a relay. *)
Lemma isolated_keeper_relays `{Host} `{Provider} `{Codec} {caps : Type} `{CapBuilder caps} (bind_loopback : N → bool) m root l inherited :
  built_launch (caps := caps) m root l → kl_isolate l = true → wants_egress_proxy (compile h_os m) = true →
  ∃ port sock, (port ≤ U16_MAX)%N → utf8_valid sock = true → bind_loopback port = true →
    relay_of (process_env inherited (kl_env l)) bind_loopback = Some (port, sock).
Proof.
  intros Hl Hi Hw. destruct (launch_own m root l Hl) as (? & ? & ? & ? & ? & ? & ? & _ & _ & _ & _ & _ & Hr).
  destruct (Hr Hi Hw) as (port & sock & Hp & Hs). exists port, sock. intros Hport Hsock Hb.
  unfold relay_of, env_var, process_env. rewrite Hp, Hs, Hsock, (utf8_valid_ascii _ (show_N_ascii port)). simpl.
  by rewrite parse_show_N, Hb.
Qed.

(** A keeper that is not isolated takes the relay's variables from the
    manifest: it binds the port they name, outside any restriction. *)
Lemma manifest_opens_listener `{Host} `{Provider} `{Codec} {caps : Type} `{CapBuilder caps} (bind_loopback : N → bool) m root l inherited port sock :
  built_launch (caps := caps) m root l → kl_isolate l = false → (port ≤ U16_MAX)%N → utf8_valid sock = true → bind_loopback port = true →
  vars (m_env m) !! ("DEVCROFT_PROXY_RELAY_PORT" : str) = Some (show_N port) → vars (m_env m) !! ("DEVCROFT_PROXY_SOCKET" : str) = Some sock →
  relay_of (process_env inherited (kl_env l)) bind_loopback = Some (port, sock).
Proof.
  intros Hl Hi Hp Hs Hb Hv1 Hv2.
  assert (∀ k v : str, k ∈ RELAY_KEYS → vars (m_env m) !! k = Some v → utf8_valid v = true → env_var (process_env inherited (kl_env l)) k = Some v) as Hv.
  { intros k v Hk Hkv Hu. assert (k ∉ NO_PROXY_KEYS ∧ k ∉ PROXY_KEYS) as [Hn Hx].
    { assert (Forall (λ k, k ∉ NO_PROXY_KEYS ∧ k ∉ PROXY_KEYS) RELAY_KEYS) as Hf by (apply (bool_decide_unpack _); by vm_compute).
      exact (proj1 (Forall_forall _ _) Hf k Hk). }
    unfold env_var. rewrite (launch_manifest_var m root l inherited k v Hl) by (done || by right). by rewrite Hu. }
  unfold relay_of. rewrite (Hv _ _ (list_elem_of_here _ _) Hv1) by (apply utf8_valid_ascii, show_N_ascii).
  rewrite (Hv _ _ (list_elem_of_further _ _ _ (list_elem_of_here _ _)) Hv2 Hs). simpl. by rewrite parse_show_N, Hb.
Qed.

(** The proxy process reads back what [proxy::spawn] gave it. *)
Lemma egress_proxy_env (allow_of_json : str → result str (list str)) (allow_to_json : list str → str) inherited allow token log port :
  allow_of_json (allow_to_json allow) = Ok allow → utf8_valid (allow_to_json allow) = true → utf8_valid token = true →
  utf8_valid log = true →
  egress_proxy_main (process_env inherited (egress_env allow_to_json allow token log)) allow_of_json (Ok port) = Ok (allow, log, token, port).
Proof.
  intros Hj H1 H2 H3. unfold egress_proxy_main, env_var, process_env, egress_env.
  rewrite (lookup_insert_ne _ ("DEVCROFT_EGRESS_LOG" : str) "DEVCROFT_EGRESS_ALLOW"), (lookup_insert_ne _ ("DEVCROFT_EGRESS_TOKEN" : str) "DEVCROFT_EGRESS_ALLOW"),
    (lookup_insert_ne _ ("DEVCROFT_EGRESS_LOG" : str) "DEVCROFT_EGRESS_TOKEN"), !lookup_insert_eq, lookup_singleton_eq by done.
  rewrite H1, H2, H3. cbn. by rewrite Hj.
Qed.

(** ** Witnesses *)

(** A plan as text: the bits of its fields, each a list of strings. *)
Definition plan_fields (p : CapabilityPlan) : list (list str) :=
  [plan_allow p; plan_read p; plan_deny p; if plan_block p then [[]] else []; show_N <$> plan_ports p;
   match plan_proxy_port p with Some n => [show_N n] | None => [] end; plan_sockets p; [plan_signal_mode p]].

Definition plan_of_fields (l : list (list str)) : option CapabilityPlan :=
  match l with
  | [a; r; d; b; ports; px; so; [sm]] =>
      ports ← mapM (digits_value 0) ports;
      px ← match px with [] => Some None | s :: _ => Some <$> digits_value 0 s end;
      Some {| plan_allow := a; plan_read := r; plan_deny := d; plan_block := match b with [] => false | _ => true end;
              plan_ports := ports; plan_proxy_port := px; plan_sockets := so; plan_signal_mode := sm |}
  | _ => None
  end.

Lemma plan_fields_back p : plan_of_fields (plan_fields p) = Some p.
Proof.
  destruct p as [a r d b ports px so sm]. unfold plan_fields, plan_of_fields. cbn -[digits_value mapM].
  assert (mapM (digits_value 0) (show_N <$> ports) = Some ports) as ->.
  { induction ports as [|n ports IH]; [done|]. cbn [fmap list_fmap mapM]. rewrite digits_value_show. simpl. by rewrite IH. }
  cbn -[digits_value]. destruct px as [n|]; [rewrite digits_value_show|]; by destruct b.
Qed.

Definition bits_of_plan (p : CapabilityPlan) : str := BitsCodec.bits (encode (plan_fields p)).
Definition plan_of_bits (s : str) : result str CapabilityPlan := ok_or [] (decode (BitsCodec.unbits s) ≫= plan_of_fields).

Lemma bits_ascii p : is_ascii (BitsCodec.bits p).
Proof. induction p; simpl; constructor; done. Qed.

Definition text_codec : Codec :=
  {| meta_to_json := λ _, Ok ("m" : str); meta_of_json := λ _, Ok sample_up_meta; plan_to_json := bits_of_plan; plan_to_json_pretty := λ _, [];
     json_to_string_pretty := λ _, []; key_of_openssh := λ s, Ok (sample_key s) |}.

Lemma text_plan_codec : plan_codec (H1 := text_codec) plan_of_bits.
Proof.
  intros p. split; [|by apply utf8_valid_ascii, bits_ascii].
  cbn. unfold plan_of_bits, bits_of_plan. rewrite BitsCodec.unbits_bits, decode_encode. cbn [mbind option_bind]. by rewrite plan_fields_back.
Qed.

(** A manifest that grants [~/keys] and moves [HOME] into the user's [~/.ssh]. *)
Definition home_manifest : Manifest :=
  {| m_sandbox := {| sandbox_name := "web" |}; m_env := {| provider := "nix"; vars := {[ ("HOME" : str) := ("/h/.ssh" : str) ]} |};
     m_filesystem := {| fs_allow := strs ["."; "~/keys"]; fs_read := []; fs_deny := [] |};
     m_network := {| net_default := Deny; net_allow := []; net_ports := [] |};
     m_ssh := Ssh_default; m_hooks := {| post_create := None; post_start := None |} |}.

Definition text_up (m : Manifest) : result UpError UpOutcome * World :=
  @up (sample_host false) sample_provider text_codec _ recorder m "/p" plain_up empty_world.

Definition user_env (key : str) : option str := if bool_decide (key = ("HOME" : str)) then Some ("/h" : str) else None.

Definition services_child (req : SpawnRequest) : result str SpawnedSession :=
  Ok {| sp_child := 77; sp_pgid := 77; sp_stdin := Some ChildStdin; sp_stdout := ChildStdout; sp_stderr := Some ChildStderr; sp_resize := None |}.

Definition text_keeper (l : KeeperLaunch) : list (KeeperStep (list cap_call)) :=
  keeper_process plan_of_bits (λ _, false) services_child 5 (λ _, true) (λ _, true)
    (@h_exists (sample_host false)) (@h_is_dir (sample_host false)) (@h_canonicalize (sample_host false)) (λ _, Ok tt)
    user_env l [Ok 1; Ok 2].

(** What the process restricted itself to. *)
Definition restriction (steps : list (KeeperStep (list cap_call))) : option (list cap_call) :=
  head (omap (λ s, match s with KRestrict c => Some c | _ => None end) steps).

Lemma restriction_elem steps c : restriction steps = Some c → KRestrict c ∈ steps.
Proof.
  unfold restriction. intros Hh. assert (c ∈ omap (λ s, match s with KRestrict c => Some c | _ => None end) steps) as Hin.
  { destruct (omap _ _); [done|]. injection Hh as ->. by left. }
  apply list_elem_of_omap in Hin as (s & Hs & He). destruct s; try done. by injection He as ->.
Qed.

Definition user_home_kept (l : KeeperLaunch) : bool := bool_decide (env_var (process_env user_env (kl_env l)) "HOME" = Some ("/h" : str)).

(** What holds of the launch of a run of [up]. *)
Definition launches (m : Manifest) (test : KeeperLaunch → bool) : bool :=
  match keeper_started (w_events (text_up m).2) with Some (_, l) => test l | None => false end.

Lemma launches_inv m test : launches m test = true → ∃ r w pid l, text_up m = (r, w) ∧ EvKeeper pid l ∈ w_events w ∧ test l = true.
Proof.
  unfold launches. destruct (text_up m) as [r w]. cbn [snd]. destruct (keeper_started (w_events w)) as [[pid l]|] eqn:E; [|done].
  intros Ht. exists r, w, pid, l. split; [done|]. split; [by apply keeper_started_elem|done].
Qed.

Lemma text_up_events m r w : text_up m = (r, w) →
  w_events (@up (sample_host false) sample_provider text_codec _ recorder m "/p" plain_up empty_world).2 = w_events empty_world ++ w_events w.
Proof. unfold text_up. intros ->. done. Qed.

Definition restricts_at_once (l : KeeperLaunch) : bool :=
  user_home_kept l && match text_keeper l with KRestrict _ :: _ => true | _ => false end.

Lemma keeper_applies_checked_plan_witness :
  ∃ l c rest plan, text_keeper l = KRestrict c :: rest ∧
    @check_enforceable (sample_host false) _ recorder plan "/p" = Ok c.
Proof.
  destruct (launches_inv up_manifest restricts_at_once) as (r & w & pid & l & Hup & Hin & Hk); [vm_compute; reflexivity|].
  apply andb_true_iff in Hk as [Hh Hk].
  destruct (@keeper_applies_checked_plan (sample_host false) sample_provider text_codec plan_of_bits (λ _, false) services_child 5
    (λ _, true) (λ _, true) (@h_exists (sample_host false)) (@h_is_dir (sample_host false)) (@h_canonicalize (sample_host false))
    _ recorder (λ _, Ok tt) up_manifest "/p" plain_up empty_world (w_events w) pid l user_env
    [Ok 1; Ok 2] (text_up_events _ _ _ Hup) Hin text_plan_codec)
    as (before & rest & kind & exe_dir & grants & proxy & socket & cs & Hcs & Hrun & Hb & Hr).
  change (text_keeper l = before ++ rest) in Hrun. rewrite Hrun in Hk.
  destruct Hb as [-> |[port ->]]; [|discriminate Hk].
  destruct Hr as [-> |(c & rest' & -> & _ & _ & _ & Hsame)]; [discriminate Hk|]. exists l, c, rest',
    (to_capability_plan (foldl apply_fold (compile Linux up_manifest) (folds_of kind exe_dir grants proxy socket))).
  split; [exact Hrun|].
  assert (c = cs) as Heq.
  { apply Hsame; [|reflexivity..]. apply bool_decide_eq_true_1 in Hh. rewrite Hh. reflexivity. }
  rewrite Heq. exact Hcs.
Defined.

Definition restricts (l : KeeperLaunch) : bool := match restriction (text_keeper l) with Some _ => true | None => false end.

(** With [HOME] moved to [~/.ssh], the grant of [~/keys] opens [~/.ssh/keys],
    which [why] reports denied. *)
Lemma manifest_home_moves_grants_witness :
  (∃ l ks k, restriction (text_keeper l) = Some ks ∧ k ∈ ks ∧ path_call k = Some ("/h/.ssh/keys" : str, ModeReadWrite)) ∧
  allowed (why_path (compile Linux home_manifest) "~/.ssh/keys" Read) = false.
Proof.
  split; [|vm_compute; reflexivity].
  destruct (launches_inv home_manifest restricts) as (r & w & pid & l & Hup & Hin & Hk); [vm_compute; reflexivity|].
  unfold restricts in Hk. destruct (restriction (text_keeper l)) as [ks|] eqn:E; [|discriminate Hk].
  destruct (@manifest_home_moves_grants (sample_host false) sample_provider text_codec plan_of_bits (λ _, false) services_child 5
    (λ _, true) (λ _, true) (@h_exists (sample_host false)) (@h_is_dir (sample_host false)) (@h_canonicalize (sample_host false))
    (λ _, Ok tt) home_manifest "/p" plain_up empty_world (w_events w) pid l user_env
    [Ok 1; Ok 2] "/h" "/h/.ssh" "keys" ks (text_up_events _ _ _ Hup) Hin text_plan_codec eq_refl eq_refl eq_refl (conj eq_refl eq_refl)
    ltac:(vm_compute; discriminate) (conj eq_refl eq_refl) (list_elem_of_further _ _ _ (list_elem_of_here _ _))
    (restriction_elem _ _ E)) as (kind & exe_dir & grants & proxy & socket & cs & _ & _ & _ & Hg & _).
  destruct (Hg eq_refl) as (k & Hkin & Hkc). exists l, ks, k. split; [exact E|]. split; [exact Hkin|exact Hkc].
Defined.

(** A keeper with a relay. *)
Definition relay_env : str → option str :=
  λ k, match list_find (λ kv, bool_decide (kv.1 = k))
               [("DEVCROFT_PROXY_RELAY_PORT" : str, "4000" : str); ("DEVCROFT_PROXY_SOCKET" : str, "/s" : str); ("HOME" : str, "/h" : str);
                ("DEVCROFT_CAPABILITY_PLAN" : str, "p" : str); ("DEVCROFT_START_SERVICES" : str, "1" : str)] with
       | Some (_, kv) => Some kv.2 | None => None
       end.

Definition relay_plan : str → result str CapabilityPlan := λ _, Ok (plain_plan (strs ["."])).

Definition relay_set : result CapabilitySetError (list cap_call) :=
  to_capability_set "/h" (λ _, true) (λ _, true) Ok (plain_plan (strs ["."])) "/p".

Lemma relay_restricted : ∃ ks, restricted_to relay_env (Ok ("/p" : str)) relay_plan (λ _, true) (λ _, true) Ok (λ _ : list cap_call, Ok tt) ks.
Proof.
  destruct relay_set as [ks|] eqn:E; [|vm_compute in E; discriminate E].
  exists ks, "p", (plain_plan (strs ["."])), "/p". do 3 (split; [reflexivity|]). split; [exact E|reflexivity].
Qed.

Lemma sigterm_outcomes_witness :
  ∃ ks steps, restricted_to relay_env (Ok ("/p" : str)) relay_plan (λ _, true) (λ _, true) Ok (λ _ : list cap_call, Ok tt) ks ∧
    sigterm (caps := list cap_call) steps [(-7, SIGTERM)%Z] [].
Proof.
  destruct relay_restricted as [ks Hks]. eexists ks, _. split; [exact Hks|].
  apply (sigterm_outcomes relay_env (Ok ("/p" : str)) (λ _, true) relay_plan (λ _, true) (λ _, true) Ok (λ _, Ok tt) services_child 5
    (λ _, true) (λ _, true) ks [] [(-7, SIGTERM)%Z] [] Hks).
  right. split; [reflexivity|]. eexists. vm_compute. reflexivity.
Defined.

Lemma services_supervised_witness :
  ∃ ks (steps : list (KeeperStep (list cap_call))),
    restricted_to relay_env (Ok ("/p" : str)) relay_plan (λ _, true) (λ _, true) Ok (λ _ : list cap_call, Ok tt) ks ∧
    KSpawn (caps := list cap_call) (services_request relay_env) 77 ∈ steps ∧ KRegister 1 77 ∈ steps.
Proof.
  destruct relay_restricted as [ks Hks]. eexists ks, _. split; [exact Hks|].
  destruct (services_supervised relay_env (Ok ("/p" : str)) (λ _, true) relay_plan (λ _, true) (λ _, true) Ok (λ _, Ok tt) services_child 5
    (λ _, true) (λ _, true) ks [] Hks) as (Hs & Hr & _).
  assert (KSpawn (caps := list cap_call) (services_request relay_env) 77 ∈ _) as Hin
    by (apply Hs; split; [reflexivity|split; [vm_compute; reflexivity|eexists; split; reflexivity]]).
  split; [exact Hin|]. apply Hr. split; [reflexivity|exact Hin].
Defined.
