(* ===== verification/SshServer.v ===== *)
(** * The SSH server's channels ([src/ssh/server.rs])

    One connection's handler: what each request of the client does to the
    channels, the requests pending on them and the sessions behind them.  The
    SSH transport is a third-party crate: a connection is the sequence of the
    requests it delivers, one at a time, and the system's answers are
    parameters.  The relay of a session's output is in {!SshRelay}. *)

From S2P Require Import Prelude Protocol Session Connection KeeperMain.

#[local] Set Default Proof Using "Type".

(** ** Data *)

Record PendingChannel := { pc_pty : option PtySize; pc_env : gmap str str }.
Definition pending_default : PendingChannel := {| pc_pty := None; pc_env := ∅ |}.

Record ActiveSession := { as_stdin : option Handle; as_resize : option Handle; as_pgid : Z }.

(** A connection's handler; channel ids are [u32]s. *)
Record SshServer := {
  ss_authorized : str;
  ss_channels : gset N;
  ss_pending : gmap N PendingChannel;
  ss_active : gmap N ActiveSession;
}.

Definition ssh_new (authorized_key : str) : SshServer :=
  {| ss_authorized := authorized_key; ss_channels := ∅; ss_pending := ∅; ss_active := ∅ |}.

(** [new_client]: nothing but the key is shared between connections. *)
Definition new_client (s : SshServer) : SshServer := ssh_new (ss_authorized s).

Definition auth_publickey (s : SshServer) (public_key : str) : bool := bool_decide (public_key = ss_authorized s).

(** What the client asks. *)
Inductive SshRequest :=
| ROpenSession (c : N)
| RPty (c : N) (col_width row_height : N)
| REnv (c : N) (variable_name variable_value : str)
| RShell (c : N)
| RExec (c : N) (data : str)
| RWindowChange (c : N) (col_width row_height : N)
| RData (c : N) (data : str)
| REof (c : N)
| RClose (c : N)
| RSubsystem (c : N) (name : str)
| RDirectTcpip (c : N) (host : str) (port : N).

Definition channel_of (r : SshRequest) : N :=
  match r with
  | ROpenSession c | RPty c _ _ | REnv c _ _ | RShell c | RExec c _ | RWindowChange c _ _ | RData c _ | REof c | RClose c
  | RSubsystem c _ | RDirectTcpip c _ _ => c
  end.

(** What the server does; a session is known by its process group. *)
Inductive SshAction :=
| AAccept (c : N) | AReject (c : N)
| ASuccess (c : N) | AFailure (c : N)
| ASpawn (c : N) (req : SpawnRequest) (pgid : Z)
| ARelay (c : N) (spawned : SpawnedSession)
| AResize (c : N) (pgid : Z) (size : PtySize)
| AWrite (c : N) (pgid : Z) (data : str)
| ACloseStdin (c : N) (pgid : Z)
| AKill (c : N) (pgid sig : Z)
| ASftp (c : N)
| ATunnel (c : N) (host : str) (port : N).

Definition LOGIN_SHELL : str := "sh".

Definition env_allowed (name : str) : bool :=
  bool_decide (name = ("TERM" : str)) || bool_decide (name = ("LANG" : str)) || starts_with "LC_" name.

(** [u32 as u16]. *)
Definition as_u16 (n : N) : N := (n mod 65536)%N.

Definition pty_size (col_width row_height : N) : PtySize := {| rows := as_u16 row_height; cols := as_u16 col_width |}.

Section handler.
(** The keeper's environment and directory; what starting a process, writing
    to its standard input and connecting give at a moment. *)
Context (env : str → option str) (process_cwd : result str str).
Context (backend_spawn : nat → SpawnRequest → result str SpawnedSession) (write_ok : nat → bool) (connect : nat → str → N → bool).

Definition session_shell : str := default LOGIN_SHELL (env_var env "DEVCROFT_SHELL").

Definition set_pending (f : gmap N PendingChannel → gmap N PendingChannel) (s : SshServer) : SshServer :=
  {| ss_authorized := ss_authorized s; ss_channels := ss_channels s; ss_pending := f (ss_pending s); ss_active := ss_active s |}.
Definition set_active (f : gmap N ActiveSession → gmap N ActiveSession) (s : SshServer) : SshServer :=
  {| ss_authorized := ss_authorized s; ss_channels := ss_channels s; ss_pending := ss_pending s; ss_active := f (ss_active s) |}.
Definition set_channels (f : gset N → gset N) (s : SshServer) : SshServer :=
  {| ss_authorized := ss_authorized s; ss_channels := f (ss_channels s); ss_pending := ss_pending s; ss_active := ss_active s |}.

(** [pending.entry(c).or_default()]. *)
Definition pending_of (c : N) (s : SshServer) : PendingChannel := default pending_default (ss_pending s !! c).

(** Dropping a session's record closes the child's standard input. *)
Definition dropped (c : N) (a : option ActiveSession) : list SshAction :=
  match a with
  | Some a => match as_stdin a with Some _ => [ACloseStdin c (as_pgid a)] | None => [] end
  | None => []
  end.

Definition start_session (t : nat) (c : N) (command : str) (arguments : list str) (s : SshServer) : SshServer * list SshAction :=
  let pending := pending_of c s in
  let s := set_pending (delete c) s in
  let dir := match process_cwd with Ok d => from_utf8_lossy d | Err _ => "/" end in
  let req := {| cmd := command; args := arguments; cwd := dir; req_env := pc_env pending; pty := pc_pty pending |} in
  match backend_spawn t req with
  | Err _ => (s, [AFailure c])
  | Ok spawned =>
      let active := {| as_stdin := sp_stdin spawned; as_resize := sp_resize spawned; as_pgid := sp_pgid spawned |} in
      (set_active <[c := active]> s,
       [ASpawn c req (sp_pgid spawned); ASuccess c] ++ dropped c (ss_active s !! c) ++ [ARelay c spawned])
  end.

(** The handlers, as the source has them: the new state and the actions. *)
Definition channel_open_session (c : N) (s : SshServer) : SshServer * list SshAction := (set_channels (λ cs, {[c]} ∪ cs) s, [AAccept c]).

Definition pty_request (c col_width row_height : N) (s : SshServer) : SshServer * list SshAction :=
  (set_pending <[c := {| pc_pty := Some (pty_size col_width row_height); pc_env := pc_env (pending_of c s) |}]> s, [ASuccess c]).

Definition env_request (c : N) (name value : str) (s : SshServer) : SshServer * list SshAction :=
  if env_allowed name
  then (set_pending <[c := {| pc_pty := pc_pty (pending_of c s); pc_env := <[name := value]> (pc_env (pending_of c s)) |}]> s, [ASuccess c])
  else (s, [AFailure c]).

Definition shell_request (t : nat) (c : N) (s : SshServer) : SshServer * list SshAction := start_session t c session_shell [] s.

Definition exec_request (t : nat) (c : N) (data : str) (s : SshServer) : SshServer * list SshAction :=
  start_session t c session_shell ["-c" : str; from_utf8_lossy data] s.

Definition window_change_request (c col_width row_height : N) (s : SshServer) : SshServer * list SshAction :=
  (s, match ss_active s !! c with
      | Some a => match as_resize a with Some _ => [AResize c (as_pgid a) (pty_size col_width row_height)] | None => [] end
      | None => []
      end).

Definition without_stdin (a : ActiveSession) : ActiveSession := {| as_stdin := None; as_resize := as_resize a; as_pgid := as_pgid a |}.

Definition channel_data (t : nat) (c : N) (data : str) (s : SshServer) : SshServer * list SshAction :=
  match ss_active s !! c with
  | Some a =>
      match as_stdin a with
      | Some _ =>
          if write_ok t then (s, [AWrite c (as_pgid a) data])
          else (set_active <[c := without_stdin a]> s, [AWrite c (as_pgid a) data; ACloseStdin c (as_pgid a)])
      | None => (s, [])
      end
  | None => (s, [])
  end.

Definition channel_eof (c : N) (s : SshServer) : SshServer * list SshAction :=
  match ss_active s !! c with
  | Some a => (set_active <[c := without_stdin a]> s, dropped c (Some a))
  | None => (s, [])
  end.

Definition channel_close (c : N) (s : SshServer) : SshServer * list SshAction :=
  (set_active (delete c) (set_pending (delete c) (set_channels (λ cs, cs ∖ {[c]}) s)),
   match ss_active s !! c with Some a => AKill c (as_pgid a) SIGTERM :: dropped c (Some a) | None => [] end).

Definition subsystem_request (c : N) (name : str) (s : SshServer) : SshServer * list SshAction :=
  if bool_decide (name = ("sftp" : str)) && bool_decide (c ∈ ss_channels s)
  then (set_channels (λ cs, cs ∖ {[c]}) s, [ASuccess c; ASftp c])
  else (s, [AFailure c]).

Definition channel_open_direct_tcpip (t : nat) (c : N) (host : str) (port : N) (s : SshServer) : SshServer * list SshAction :=
  (s, if connect t host (as_u16 port) then [AAccept c; ATunnel c host (as_u16 port)] else [AReject c]).

(** One request. *)
Definition ssh_handle (t : nat) (r : SshRequest) (s : SshServer) : SshServer * list SshAction :=
  match r with
  | ROpenSession c => channel_open_session c s
  | RPty c col row => pty_request c col row s
  | REnv c name value => env_request c name value s
  | RShell c => shell_request t c s
  | RExec c data => exec_request t c data s
  | RWindowChange c col row => window_change_request c col row s
  | RData c data => channel_data t c data s
  | REof c => channel_eof c s
  | RClose c => channel_close c s
  | RSubsystem c name => subsystem_request c name s
  | RDirectTcpip c host port => channel_open_direct_tcpip t c host port s
  end.

(** A connection: its requests in order, the first at moment [t]. *)
Fixpoint ssh_run (t : nat) (rs : list SshRequest) (s : SshServer) : SshServer * list SshAction :=
  match rs with
  | [] => (s, [])
  | r :: rs => let '(s1, a1) := ssh_handle t r s in let '(s2, a2) := ssh_run (S t) rs s1 in (s2, a1 ++ a2)
  end.

(** ** What a session must be started with *)

(** The requests pending on a channel, from the client's requests alone. *)
Definition ask (c : N) (p : PendingChannel) (r : SshRequest) : PendingChannel :=
  if negb (channel_of r =? c)%N then p
  else match r with
       | RPty _ col row => {| pc_pty := Some (pty_size col row); pc_env := pc_env p |}
       | REnv _ name value => if env_allowed name then {| pc_pty := pc_pty p; pc_env := <[name := value]> (pc_env p) |} else p
       | RShell _ | RExec _ _ | RClose _ => pending_default
       | _ => p
       end.

Definition asked (c : N) (rs : list SshRequest) : PendingChannel := foldl (ask c) pending_default rs.

(** The session a channel's actions leave it with: the last one started on it
    that was not signalled since. *)
Definition session_step (c : N) (o : option Z) (a : SshAction) : option Z :=
  match a with
  | ASpawn c' _ pgid => if (c' =? c)%N then Some pgid else o
  | AKill c' _ _ => if (c' =? c)%N then None else o
  | _ => o
  end.

Definition last_session (c : N) (acts : list SshAction) : option Z :=
  foldl (session_step c) None acts.

(** ** Lemmas *)

(** The handler behind a request. *)
Ltac open_handlers :=
  unfold ssh_handle, channel_open_session, pty_request, env_request, shell_request, exec_request, window_change_request, channel_data,
    channel_eof, channel_close, subsystem_request, channel_open_direct_tcpip, start_session, without_stdin.

Lemma ssh_run_app t rs1 rs2 s :
  ssh_run t (rs1 ++ rs2) s =
  let '(s1, a1) := ssh_run t rs1 s in let '(s2, a2) := ssh_run (t + length rs1) rs2 s1 in (s2, a1 ++ a2).
Proof.
  revert t s. induction rs1 as [|r rs1 IH]; intros t s; cbn [app ssh_run length].
  - rewrite Nat.add_0_r. by destruct (ssh_run t rs2 s).
  - destruct (ssh_handle t r s) as [s1 a1]. rewrite IH. rewrite Nat.add_succ_r.
    destruct (ssh_run (S t) rs1 s1) as [s2 a2]. cbn [plus]. destruct (ssh_run (S (t + length rs1)) rs2 s2) as [s3 a3]. simpl. by rewrite app_assoc.
Qed.

(** Requests of one channel leave the others' state alone. *)
Lemma handle_frame t r s c :
  c ≠ channel_of r →
  ss_pending (ssh_handle t r s).1 !! c = ss_pending s !! c ∧ ss_active (ssh_handle t r s).1 !! c = ss_active s !! c ∧
  (c ∈ ss_channels (ssh_handle t r s).1 ↔ c ∈ ss_channels s).
Proof.
  intros Hc. destruct r; cbn [channel_of] in Hc; open_handlers; repeat case_match; cbn;
    rewrite ?lookup_insert_ne, ?lookup_delete_ne by done; set_solver.
Qed.

Lemma handle_pending t r s c : pending_of c (ssh_handle t r s).1 = ask c (pending_of c s) r.
Proof.
  unfold ask. destruct (N.eqb_spec (channel_of r) c) as [<-|Hc]; cbn [negb].
  - destruct r; cbn [channel_of]; open_handlers; repeat case_match; try done; unfold pending_of; cbn;
      by rewrite ?lookup_insert_eq, ?lookup_delete_eq.
  - unfold pending_of. by destruct (handle_frame t r s c) as (-> & _ & _).
Qed.

Lemma run_pending t rs s c : pending_of c (ssh_run t rs s).1 = foldl (ask c) (pending_of c s) rs.
Proof.
  revert t s. induction rs as [|r rs IH]; intros t s; cbn [ssh_run foldl]; [done|].
  destruct (ssh_handle t r s) as [s1 a1] eqn:E. pose proof (handle_pending t r s c) as Hp. rewrite E in Hp. cbn [fst] in Hp.
  pose proof (IH (S t) s1) as Hr. destruct (ssh_run (S t) rs s1). cbn [fst] in *. by rewrite Hr, Hp.
Qed.

Lemma asked_env c rs k v : pc_env (asked c rs) !! k = Some v → env_allowed k = true ∧ REnv c k v ∈ rs.
Proof.
  clear env process_cwd backend_spawn write_ok connect. unfold asked. induction rs as [|r rs IH] using rev_ind; [done|]. rewrite foldl_app. cbn [foldl].
  set (p := foldl (ask c) pending_default rs) in *. rewrite elem_of_app, list_elem_of_singleton. unfold ask.
  destruct (N.eqb_spec (channel_of r) c) as [<-|]; cbn [negb]; [|naive_solver].
  destruct r; cbn [channel_of] in *; try naive_solver; try done.
  destruct (env_allowed variable_name) eqn:E; [|naive_solver]. cbn [pc_env].
  intros [[<- <-]|[_ Hk]]%lookup_insert_Some; naive_solver.
Qed.

Lemma asked_pty c rs size : pc_pty (asked c rs) = Some size → ∃ col row, RPty c col row ∈ rs ∧ size = pty_size col row.
Proof.
  clear env process_cwd backend_spawn write_ok connect. unfold asked. induction rs as [|r rs IH] using rev_ind; [done|]. rewrite foldl_app. cbn [foldl].
  set (p := foldl (ask c) pending_default rs) in *. setoid_rewrite elem_of_app. setoid_rewrite list_elem_of_singleton. unfold ask.
  destruct (N.eqb_spec (channel_of r) c) as [<-|]; cbn [negb]; [|naive_solver].
  destruct r; cbn [channel_of] in *; try naive_solver; try done.
  destruct (env_allowed variable_name); naive_solver.
Qed.

Definition action_channel (a : SshAction) : N :=
  match a with
  | AAccept c | AReject c | ASuccess c | AFailure c | ASpawn c _ _ | ARelay c _ | AResize c _ _ | AWrite c _ _ | ACloseStdin c _
  | AKill c _ _ | ASftp c | ATunnel c _ _ => c
  end.

Lemma dropped_actions c a x : x ∈ dropped c a → ∃ s, a = Some s ∧ x = ACloseStdin c (as_pgid s).
Proof.
  destruct a as [s|]; cbn; [|by intros ?%not_elem_of_nil]. destruct (as_stdin s); [|by intros ?%not_elem_of_nil].
  intros ->%list_elem_of_singleton. by exists s.
Qed.

(** An action on the request's own channel, and on the session [current]
    there; only closing the channel signals it. *)
Definition aimed (r : SshRequest) (current : option Z) (a : SshAction) : Prop :=
  action_channel a = channel_of r ∧
  match a with
  | AResize _ p _ | AWrite _ p _ | ACloseStdin _ p => current = Some p
  | AKill c p sig => current = Some p ∧ r = RClose c ∧ sig = SIGTERM
  | _ => True
  end.

Lemma handle_actions t r s a :
  a ∈ (ssh_handle t r s).2 → aimed r (as_pgid <$> (ss_active s !! channel_of r)) a.
Proof.
  assert (∀ r x, x ∈ dropped (channel_of r) (ss_active s !! channel_of r) → aimed r (as_pgid <$> (ss_active s !! channel_of r)) x) as Hd.
  { intros r' x (y & Hy & ->)%dropped_actions. split; [done|]. by rewrite Hy. }
  specialize (Hd r a).
  destruct r; cbn [channel_of] in *; open_handlers; repeat case_match; cbn [snd]; intros Ha;
    repeat first [apply elem_of_cons in Ha as [Ha|Ha] | apply elem_of_app in Ha as [Ha|Ha] | by apply not_elem_of_nil in Ha];
    try (by apply Hd); subst a; split; try done; cbn;
    match goal with E : ss_active s !! _ = _ |- _ => by rewrite E end.
Qed.

Lemma foldl_quiet c o l : Forall (λ a, session_step c o a = o) l → foldl (session_step c) o l = o.
Proof. induction 1 as [|a l Ha _ IH]; cbn; [done|]. by rewrite Ha. Qed.

Lemma handle_session t r s c :
  as_pgid <$> (ss_active (ssh_handle t r s).1 !! c) = foldl (session_step c) (as_pgid <$> (ss_active s !! c)) (ssh_handle t r s).2.
Proof.
  destruct (N.eq_dec c (channel_of r)) as [->|Hc].
  2: { destruct (handle_frame t r s c Hc) as (_ & -> & _). symmetry. apply foldl_quiet, Forall_forall. intros a Ha.
       apply handle_actions in Ha as [Hch _]. destruct a; cbn in *; try done; (destruct (N.eqb_spec c0 c) as [<-|]; [congruence|done]). }
  assert (∀ c o a, foldl (session_step c) o (dropped c a) = o) as Hd.
  { intros c o a. apply foldl_quiet, Forall_forall. by intros x (y & _ & ->)%dropped_actions. }
  destruct r; cbn [channel_of]; open_handlers; repeat case_match; cbn [fst snd foldl session_step ss_active set_active set_pending set_channels];
    rewrite ?N.eqb_refl, ?foldl_app, ?lookup_insert_eq, ?lookup_delete_eq; cbn [foldl session_step app fmap option_fmap option_map as_pgid];
    rewrite ?foldl_app, ?N.eqb_refl; cbn [foldl session_step app fmap option_fmap option_map as_pgid]; rewrite ?N.eqb_refl, ?foldl_app, ?Hd;
    try match goal with E : ss_active s !! _ = _ |- _ => rewrite E in * end; try done.
Qed.

Lemma run_session t rs s c :
  as_pgid <$> (ss_active (ssh_run t rs s).1 !! c) = foldl (session_step c) (as_pgid <$> (ss_active s !! c)) (ssh_run t rs s).2.
Proof.
  revert t s. induction rs as [|r rs IH]; intros t s; cbn [ssh_run]; [done|].
  pose proof (handle_session t r s c) as Hh. destruct (ssh_handle t r s) as [s1 a1]. cbn [fst snd] in Hh.
  pose proof (IH (S t) s1) as Hr. destruct (ssh_run (S t) rs s1) as [s2 a2]. cbn [fst snd] in *. by rewrite Hr, Hh, foldl_app.
Qed.
(** What a session started on [c] after [rs] is started with. *)
Definition session_request (c : N) (rs : list SshRequest) (arguments : list str) : SpawnRequest :=
  {| cmd := session_shell; args := arguments;
     cwd := match process_cwd with Ok d => from_utf8_lossy d | Err _ => "/" end;
     req_env := pc_env (asked c rs); pty := pc_pty (asked c rs) |}.

(** The reply to a request that starts a session. *)
Definition started (t : nat) (c : N) (req : SpawnRequest) (acts : list SshAction) : Prop :=
  match backend_spawn t req with
  | Err _ => acts = [AFailure c]
  | Ok spawned => ∃ old, acts = [ASpawn c req (sp_pgid spawned); ASuccess c] ++ old ++ [ARelay c spawned] ∧
                         ∀ a, a ∈ old → ∃ p, a = ACloseStdin c p
  end.

Lemma start_session_started t c rs arguments key :
  started t c (session_request c rs arguments)
    (start_session t c session_shell arguments (ssh_run 0 rs (ssh_new key)).1).2.
Proof.
  unfold started, start_session, session_request. rewrite (run_pending 0 rs (ssh_new key) c).
  change (foldl (ask c) (pending_of c (ssh_new key)) rs) with (asked c rs).
  destruct (backend_spawn t _) as [sp|]; [|done]. eexists. split; [reflexivity|]. intros a (y & _ & ->)%dropped_actions. by eexists.
Qed.

(** Every session runs the sandbox's shell in the keeper's directory, with
    exactly what the client asked on that very channel since its last session:
    the last size of a terminal, if one was asked for, and the last value of
    each accepted variable, and those are TERM, LANG and LC_* only. *)
Theorem session_as_asked key rs c data :
  let s := (ssh_run 0 rs (ssh_new key)).1 in
  started (length rs) c (session_request c rs []) (ssh_handle (length rs) (RShell c) s).2 ∧
  started (length rs) c (session_request c rs ["-c" : str; from_utf8_lossy data]) (ssh_handle (length rs) (RExec c data) s).2 ∧
  (∀ k v, pc_env (asked c rs) !! k = Some v → env_allowed k = true ∧ REnv c k v ∈ rs) ∧
  (∀ size, pc_pty (asked c rs) = Some size → ∃ col row, RPty c col row ∈ rs ∧ size = pty_size col row).
Proof.
  split; [apply start_session_started|]. split; [apply start_session_started|].
  split; [apply asked_env|apply asked_pty].
Qed.

(** C16: channels do not reach each other's sessions: whatever was asked before,
    a request acts on its own channel only, and writes to, resizes, ends the
    input of, or signals only the last session started on that channel; and a
    session is signalled exactly when its channel is closed while it is the
    last one there. *)
Theorem channels_isolated key rs r :
  let run := ssh_run 0 rs (ssh_new key) in
  (∀ a, a ∈ (ssh_handle (length rs) r run.1).2 → aimed r (last_session (channel_of r) run.2) a) ∧
  (∀ c p sig, AKill c p sig ∈ (ssh_handle (length rs) r run.1).2 ↔ r = RClose c ∧ sig = SIGTERM ∧ last_session c run.2 = Some p).
Proof.
  cbv zeta. assert (∀ c, as_pgid <$> (ss_active (ssh_run 0 rs (ssh_new key)).1 !! c) = last_session c (ssh_run 0 rs (ssh_new key)).2) as Hs
    by (intros c; rewrite run_session; done).
  split.
  - intros a Ha%handle_actions. by rewrite Hs in Ha.
  - intros c p sig. rewrite <- Hs. split.
    + intros Hk%handle_actions. destruct Hk as (Hc & Hp & -> & ->). cbn in *. by rewrite Hp.
    + intros (-> & -> & Hp). cbn. destruct (ss_active _ !! c) as [a|]; [|done]. injection Hp as <-. by left.
Qed.

Lemma foldl_session_some c o l p : foldl (session_step c) o l = Some p → o = Some p ∨ ∃ req, ASpawn c req p ∈ l.
Proof.
  revert o. induction l as [|a l IH]; intros o; cbn [foldl]; [by left|]. intros [Ho|[req Hin]]%IH; [|right; exists req; by right].
  destruct a; cbn in Ho; try (by left); destruct (N.eqb_spec c0 c) as [->|]; try (by left); try done.
  injection Ho as ->. right. eexists. by left.
Qed.

Lemma handle_spawn t r s c req p : ASpawn c req p ∈ (ssh_handle t r s).2 → ∃ sp, backend_spawn t req = Ok sp ∧ sp_pgid sp = p.
Proof.
  destruct r; open_handlers; repeat case_match; cbn [snd]; intros Ha;
    repeat first [apply elem_of_cons in Ha as [Ha|Ha] | apply elem_of_app in Ha as [Ha|Ha] | by apply not_elem_of_nil in Ha];
    try done; try (by apply dropped_actions in Ha as (? & _ & [=])); injection Ha as _ Hr Hp; subst req p; by eexists.
Qed.

(** A session that another one replaced on its channel is never signalled
    again, whatever the client does, unless its process group comes back. *)
Lemma orphan_never_signalled t rs s p :
  (∀ c, as_pgid <$> (ss_active s !! c) ≠ Some p) →
  (∀ t' req sp, t ≤ t' → backend_spawn t' req = Ok sp → sp_pgid sp ≠ p) →
  ∀ c sig, AKill c p sig ∉ (ssh_run t rs s).2.
Proof.
  revert t s. induction rs as [|r rs IH]; intros t s Ha Hsp c sig; cbn [ssh_run]; [apply not_elem_of_nil|].
  assert (∀ c, as_pgid <$> (ss_active (ssh_handle t r s).1 !! c) ≠ Some p) as Ha'.
  { intros c' Hp. rewrite handle_session in Hp. apply foldl_session_some in Hp as [Hp|[req Hin]]; [by apply (Ha c')|].
    apply handle_spawn in Hin as (sp & He & Hq). by apply (Hsp t req sp (Nat.le_refl t) He). }
  pose proof (handle_actions t r s (AKill c p sig)) as Hk.
  destruct (ssh_handle t r s) as [s1 a1]. cbn [fst snd] in *.
  pose proof (IH (S t) s1 Ha' (λ t' req sp Ht, Hsp t' req sp ltac:(lia)) c sig) as Hr.
  destruct (ssh_run (S t) rs s1) as [s2 a2]. cbn [snd] in *. rewrite elem_of_app. intros [Hin|Hin]; [|done].
  destruct (Hk Hin) as (Hc & Hp & _). cbn in Hc. subst c. by apply (Ha (channel_of r)).
Qed.

(** A forwarded port is the requested one only below 65536. *)
Lemma tunnel_port t r s c host p :
  ATunnel c host p ∈ (ssh_handle t r s).2 → ∃ port, r = RDirectTcpip c host port ∧ p = (port mod 65536)%N.
Proof.
  destruct r; open_handlers; repeat case_match; cbn [snd]; intros Ha;
    repeat first [apply elem_of_cons in Ha as [Ha|Ha] | apply elem_of_app in Ha as [Ha|Ha] | by apply not_elem_of_nil in Ha];
    try done; try (by apply dropped_actions in Ha as (? & _ & [=])). injection Ha as -> -> ->. by exists port.
Qed.
End handler.

(** The accept loop and its start: one handler of its own per connection,
    until [accept] fails; nothing is served when the listener cannot be set up. *)
Fixpoint ssh_serve (accepts : list (result str unit)) (s : SshServer) : list SshServer :=
  match accepts with Ok _ :: accepts => new_client s :: ssh_serve accepts s | _ => [] end.

Definition ssh_spawn (set_nonblocking runtime from_std : result str unit) (authorized_key : str) (accepts : list (result str unit)) : list SshServer :=
  match set_nonblocking, runtime, from_std with
  | Ok _, Ok _, Ok _ => ssh_serve accepts (ssh_new authorized_key)
  | _, _, _ => []
  end.

(** Every connection starts empty, whatever the others did, and knows the same
    one key. *)
Lemma connections_start_empty nb rt fs key accepts s :
  s ∈ ssh_spawn nb rt fs key accepts → s = ssh_new key ∧ ∀ k, auth_publickey s k = true ↔ k = key.
Proof.
  unfold ssh_spawn. destruct nb, rt, fs; try (by intros ?%not_elem_of_nil).
  induction accepts as [|[|] accepts IH]; cbn; try (by intros ?%not_elem_of_nil).
  intros [->|Hs]%elem_of_cons; [|by apply IH]. split; [done|]. intros k. apply bool_decide_eq_true.
Qed.

(** Forwarding to port 65558 opens port 22. *)
Lemma tunnel_wraps env dir spawn write :
  (ssh_handle env dir spawn write (λ _ _ _, true) 0 (RDirectTcpip 1 "db" 65558) (ssh_new [])).2 = [AAccept 1; ATunnel 1 "db" 22].
Proof. reflexivity. Qed.

(** A second shell on a channel leaves the first without anyone to end it. *)
Lemma second_shell_orphans :
  let spawn (t : nat) (_ : SpawnRequest) : result str SpawnedSession :=
    Ok {| sp_child := 100 + Z.of_nat t; sp_pgid := 100 + Z.of_nat t; sp_stdin := Some ChildStdin; sp_stdout := ChildStdout;
          sp_stderr := Some ChildStderr; sp_resize := None |}%Z in
  let run := ssh_run (λ _, None) (Ok ("/p" : str)) spawn (λ _, true) (λ _ _ _, true) 0 [RShell 1; RShell 1; RClose 1] (ssh_new []) in
  AKill 1 101 SIGTERM ∈ run.2 ∧ (∀ sig, AKill 1 100 sig ∉ run.2) ∧ ss_active run.1 !! 1%N = None.
Proof.
  split; [|split; [|reflexivity]].
  - vm_compute. repeat first [apply list_elem_of_here | apply list_elem_of_further].
  - intros sig. vm_compute. intros Hin. repeat (apply elem_of_cons in Hin as [[=]|Hin]). by apply not_elem_of_nil in Hin.
Qed.
