(* ===== verification/SshRelay.v ===== *)
(** * The relay of a session to its SSH channel ([src/ssh/server.rs])

    [relay_session_to_channel] as a step relation: the two output pumps, the
    thread that waits for the child, the bounded queue between them and the
    task that drains it into the channel; and [NotifyOnEof], which withholds
    the end of the [sftp] stream until the exit status was sent. *)

From S2P Require Import Prelude Protocol Connection Exec.

#[local] Set Default Proof Using "Type".

(** ** Data *)

Inductive RelayEvent := EStdout (b : str) | EStderr (b : str) | EExit (status : ExitStatus).

(** What is sent on the channel; extended data is of type 1, standard error. *)
Inductive Wire := WData (b : str) | WExtended (b : str) | WExitStatus (code : N) | WEof | WClose.

(** The capacity of the queue. *)
Definition QUEUE : nat := 64.

(** [i32 as u32]. *)
Definition as_u32 (z : Z) : N := Z.to_N (z mod 4294967296).

Definition wire_of (e : RelayEvent) : Wire :=
  match e with
  | EStdout b => WData b
  | EStderr b => WExtended b
  | EExit status => WExitStatus (as_u32 (exit_code_from status))
  end.

Inductive relay_wait := RJoinStdout | RJoinStderr | RWait | RSend | RDone.
Inductive relay_task := TDrain | TEof | TClose | TDone.

#[export] Instance relay_task_dec : EqDecision relay_task. Proof. solve_decision. Defined.

Record Relay := {
  rl_out : option (list read_result); rl_err : option (list read_result);   (* what the pumps still have to read *)
  rl_waiter : relay_wait;
  rl_queue : list RelayEvent;
  rl_task : relay_task;
  rl_wire : list Wire;
}.

Definition relay_session_to_channel (s : Session) : Relay :=
  {| rl_out := Some (ses_stdout s); rl_err := ses_stderr s; rl_waiter := RJoinStdout; rl_queue := []; rl_task := TDrain; rl_wire := [] |}.

Definition set_out (o : option (list read_result)) (r : Relay) : Relay :=
  {| rl_out := o; rl_err := rl_err r; rl_waiter := rl_waiter r; rl_queue := rl_queue r; rl_task := rl_task r; rl_wire := rl_wire r |}.
Definition set_err (o : option (list read_result)) (r : Relay) : Relay :=
  {| rl_out := rl_out r; rl_err := o; rl_waiter := rl_waiter r; rl_queue := rl_queue r; rl_task := rl_task r; rl_wire := rl_wire r |}.
Definition set_wait (w : relay_wait) (r : Relay) : Relay :=
  {| rl_out := rl_out r; rl_err := rl_err r; rl_waiter := w; rl_queue := rl_queue r; rl_task := rl_task r; rl_wire := rl_wire r |}.
Definition push (e : RelayEvent) (r : Relay) : Relay :=
  {| rl_out := rl_out r; rl_err := rl_err r; rl_waiter := rl_waiter r; rl_queue := rl_queue r ++ [e]; rl_task := rl_task r; rl_wire := rl_wire r |}.
Definition send_wire (q : list RelayEvent) (t : relay_task) (ws : list Wire) (r : Relay) : Relay :=
  {| rl_out := rl_out r; rl_err := rl_err r; rl_waiter := rl_waiter r; rl_queue := q; rl_task := t; rl_wire := rl_wire r ++ ws |}.

(** [blocking_send] waits for room; the task keeps the receiver until every
    sender is gone, so a send never fails. *)
Inductive relay_step (wait : result str (option Z * option Z)) : Relay → Relay → Prop :=
| rs_out_send r x xs b :
    rl_out r = Some (x :: xs) → pump_read x = Some b → length (rl_queue r) < QUEUE →
    relay_step wait r (push (EStdout b) (set_out (Some xs) r))
| rs_out_stop r x xs : rl_out r = Some (x :: xs) → pump_read x = None → relay_step wait r (set_out None r)
| rs_err_send r x xs b :
    rl_err r = Some (x :: xs) → pump_read x = Some b → length (rl_queue r) < QUEUE →
    relay_step wait r (push (EStderr b) (set_err (Some xs) r))
| rs_err_stop r x xs : rl_err r = Some (x :: xs) → pump_read x = None → relay_step wait r (set_err None r)
| rs_join_stdout r : rl_waiter r = RJoinStdout → rl_out r = None → relay_step wait r (set_wait RJoinStderr r)
| rs_join_stderr r : rl_waiter r = RJoinStderr → rl_err r = None → relay_step wait r (set_wait RWait r)
| rs_wait r : rl_waiter r = RWait → relay_step wait r (set_wait RSend r)
| rs_send_exit r :
    rl_waiter r = RSend → length (rl_queue r) < QUEUE →
    relay_step wait r (push (EExit (to_exit_status wait)) (set_wait RDone r))
| rs_drain r e q : rl_task r = TDrain → rl_queue r = e :: q → relay_step wait r (send_wire q TDrain [wire_of e] r)
| rs_ended r :
    rl_task r = TDrain → rl_queue r = [] → rl_out r = None → rl_err r = None → rl_waiter r = RDone →
    relay_step wait r (send_wire [] TEof [] r)
| rs_eof r : rl_task r = TEof → relay_step wait r (send_wire [] TClose [WEof] r)
| rs_close r : rl_task r = TClose → relay_step wait r (send_wire [] TDone [WClose] r).

(** ** What the client must see *)

Definition is_data (w : Wire) : Prop := match w with WData _ | WExtended _ => True | _ => False end.
Fixpoint data_of (ws : list Wire) : str := match ws with [] => [] | WData b :: ws => b ++ data_of ws | _ :: ws => data_of ws end.
Fixpoint extended_of (ws : list Wire) : str := match ws with [] => [] | WExtended b :: ws => b ++ extended_of ws | _ :: ws => extended_of ws end.

Section relay.
Context (s : Session).
#[local] Abbreviation wait := (ses_wait s).
Definition exit_wire : Wire := WExitStatus (as_u32 (exit_code_from (to_exit_status wait))).

Definition closing (t : relay_task) : list Wire := match t with TDrain | TEof => [] | TClose => [WEof] | TDone => [WEof; WClose] end.

(** What was sent and what is queued. *)
Definition flow (r : Relay) : list Wire := rl_wire r ++ (wire_of <$> rl_queue r).

Record relay_inv (r : Relay) : Prop := {
  ri_queue : length (rl_queue r) ≤ QUEUE;
  ri_stdout : rl_waiter r ≠ RJoinStdout → rl_out r = None;
  ri_stderr : rl_waiter r ≠ RJoinStdout → rl_waiter r ≠ RJoinStderr → rl_err r = None;
  ri_task : rl_task r ≠ TDrain → rl_waiter r = RDone ∧ rl_queue r = [];
  ri_flow : ∃ body, Forall is_data body ∧
    flow r = body ++ (match rl_waiter r with RDone => [exit_wire] | _ => [] end) ++ closing (rl_task r) ∧
    data_of body ++ remaining (rl_out r) = pump_all (ses_stdout s) ∧
    extended_of body ++ remaining (rl_err r) = remaining (ses_stderr s);
}.

Lemma data_of_app a b : data_of (a ++ b) = data_of a ++ data_of b.
Proof. induction a as [|[] a IH]; cbn; rewrite ?IH, ?app_assoc; done. Qed.
Lemma extended_of_app a b : extended_of (a ++ b) = extended_of a ++ extended_of b.
Proof. induction a as [|[] a IH]; cbn; rewrite ?IH, ?app_assoc; done. Qed.

Lemma relay_start_inv : relay_inv (relay_session_to_channel s).
Proof.
  split; cbn; try done; [lia|]. exists []. cbn. split; [done|]. split; [done|]. split; [done|]. by destruct (ses_stderr s).
Qed.

Lemma flow_push e r : flow (push e r) = flow r ++ [wire_of e].
Proof. unfold flow. cbn. by rewrite fmap_app, app_assoc. Qed.

Definition set_pumps_relay (o1 o2 : option (list read_result)) (r : Relay) : Relay := set_err o2 (set_out o1 r).

(** A pump only stops or reads while the waiter has not joined it. *)
Definition pumps_ok (o1 o2 : option (list read_result)) (r : Relay) : Prop :=
  (rl_waiter r ≠ RJoinStdout → o1 = None) ∧ (rl_waiter r ≠ RJoinStdout → rl_waiter r ≠ RJoinStderr → o2 = None).

Lemma draining r : relay_inv r → rl_waiter r ≠ RDone → rl_task r = TDrain.
Proof. intros [_ _ _ Ht _] Hw. destruct (decide (rl_task r = TDrain)) as [|Hn]; [done|]. by destruct (Ht Hn) as [E _]. Qed.

(** A pump stopped. *)
Lemma inv_stop r o1 o2 :
  relay_inv r → pumps_ok o1 o2 r → remaining o1 = remaining (rl_out r) → remaining o2 = remaining (rl_err r) →
  relay_inv (set_pumps_relay o1 o2 r).
Proof.
  intros [Hq Ho He Ht (body & Hb & Hf & Hd & Hx)] [P1 P2] E1 E2. split; try done.
  exists body. cbn. by rewrite E1, E2.
Qed.

(** A pump moved on and what it read was queued. *)
Lemma inv_output r e o1 o2 :
  relay_inv r → pumps_ok o1 o2 r → rl_waiter r ≠ RDone → is_data (wire_of e) → length (rl_queue r) < QUEUE →
  data_of [wire_of e] ++ remaining o1 = remaining (rl_out r) → extended_of [wire_of e] ++ remaining o2 = remaining (rl_err r) →
  relay_inv (push e (set_pumps_relay o1 o2 r)).
Proof.
  intros Hi [P1 P2] Hw Hdata Hlen E1 E2. pose proof (draining r Hi Hw) as Htk. destruct Hi as [Hq Ho He Ht (body & Hb & Hf & Hd & Hx)].
  split; try done.
  - cbn. rewrite length_app. cbn. lia.
  - exists (body ++ [wire_of e]). split; [by apply Forall_app; split; [|constructor]|]. split; [|split].
    + rewrite flow_push. change (flow (set_pumps_relay o1 o2 r)) with (flow r). rewrite Hf. cbn. rewrite Htk.
      destruct (rl_waiter r); try done; cbn; by rewrite !app_nil_r.
    + cbn [rl_out push set_pumps_relay set_err set_out]. by rewrite data_of_app, <- app_assoc, E1.
    + cbn [rl_err push set_pumps_relay set_err set_out]. by rewrite extended_of_app, <- app_assoc, E2.
Qed.

(** The waiter moved on, short of its last step. *)
Lemma inv_wait r w :
  relay_inv r → rl_waiter r ≠ RDone → w ≠ RDone → w ≠ RJoinStdout → rl_out r = None → (w ≠ RJoinStderr → rl_err r = None) →
  relay_inv (set_wait w r).
Proof.
  intros [Hq Ho He Ht (body & Hb & Hf & Hd & Hx)] Hr Hw Hw' E1 E2. split; cbn.
  - done.
  - done.
  - intros _. apply E2.
  - intros Htk. by destruct (Ht Htk) as [E _].
  - exists body. split; [done|]. split; [|done]. unfold flow in *. cbn. rewrite Hf. by destruct (rl_waiter r), w.
Qed.

Lemma relay_step_inv r r' : relay_step wait r r' → relay_inv r → relay_inv r'.
Proof.
  intros Hs Hi. pose proof Hi as [Hq Ho He Ht Hf].
  assert (∀ x xs, rl_out r = Some (x :: xs) → rl_waiter r = RJoinStdout) as Hout.
  { intros x xs Hx. destruct (rl_waiter r); try done; by rewrite Ho in Hx. }
  assert (∀ x xs, rl_err r = Some (x :: xs) → rl_waiter r = RJoinStdout ∨ rl_waiter r = RJoinStderr) as Herr.
  { intros x xs Hx. destruct (rl_waiter r); try (by auto); by rewrite He in Hx. }
  destruct Hs.
  - pose proof (Hout _ _ H) as Hw. change (relay_inv (push (EStdout b) (set_pumps_relay (Some xs) (rl_err r) r))).
    apply inv_output; try done; [by rewrite Hw|]. rewrite H. cbn. by rewrite H0, app_nil_r.
  - pose proof (Hout _ _ H) as Hw. change (relay_inv (set_pumps_relay None (rl_err r) r)).
    apply inv_stop; try done. rewrite H. cbn. by rewrite H0.
  - pose proof (Herr _ _ H) as Hw. change (relay_inv (push (EStderr b) (set_pumps_relay (rl_out r) (Some xs) r))).
    apply inv_output; try done; [split; [done|by destruct Hw]|by destruct Hw as [-> | ->]|]. rewrite H. cbn. by rewrite H0, app_nil_r.
  - pose proof (Herr _ _ H) as Hw. change (relay_inv (set_pumps_relay (rl_out r) None r)).
    apply inv_stop; try done. rewrite H. cbn. by rewrite H0.
  - apply inv_wait; try done; by rewrite H.
  - apply inv_wait; try done; [by rewrite H|apply Ho; by rewrite H].
  - apply inv_wait; try done; [by rewrite H|apply Ho; by rewrite H|intros _; apply He; by rewrite H].
  - assert (rl_task r = TDrain) as Htk by (apply (draining r Hi); by rewrite H).
    split; cbn; try (by intros; apply Ho; rewrite H); try (by intros; apply He; rewrite H).
    + rewrite length_app. cbn. lia.
    + intros Hn. by rewrite Htk in Hn.
    + destruct Hf as (body & Hb & Hf & Hd & Hx). exists body. split; [done|]. split; [|done].
      rewrite H, Htk in Hf. unfold flow in *. cbn in *. rewrite fmap_app, app_assoc, Hf, Htk. cbn. by rewrite !app_nil_r.
  - split; cbn; try done; [rewrite H0 in Hq; cbn in Hq; lia|]. destruct Hf as (body & Hb & Hf & Hd & Hx). exists body. split; [done|]. split; [|done].
    rewrite H in Hf. unfold flow in *. rewrite H0 in Hf. cbn in *. by rewrite <- app_assoc.
  - split; cbn; try done; [lia|]. destruct Hf as (body & Hb & Hf & Hd & Hx). exists body. split; [done|]. split; [|done].
    rewrite H in Hf. unfold flow in *. rewrite H0 in Hf. cbn in *. by rewrite !app_nil_r in *.
  - destruct Ht as [Hw Hqe]; [by rewrite H|]. split; cbn; try done; [lia|]. destruct Hf as (body & Hb & Hf & Hd & Hx). exists body.
    split; [done|]. split; [|done]. rewrite H, Hw in Hf. unfold flow in *. rewrite Hqe in Hf. cbn in *. rewrite Hw, !app_nil_r in *. by rewrite Hf, <- app_assoc.
  - destruct Ht as [Hw Hqe]; [by rewrite H|]. split; cbn; try done; [lia|]. destruct Hf as (body & Hb & Hf & Hd & Hx). exists body.
    split; [done|]. split; [|done]. rewrite H, Hw in Hf. unfold flow in *. rewrite Hqe in Hf. cbn in *. rewrite Hw, !app_nil_r in *. by rewrite Hf, <- app_assoc.
Qed.

Lemma relay_reach_inv r : rtc (relay_step wait) (relay_session_to_channel s) r → relay_inv r.
Proof.
  intros Hr. assert (relay_inv (relay_session_to_channel s)) as Hi by apply relay_start_inv. revert Hi.
  induction Hr as [|r1 r2 r3 Hs _ IH]; [done|]. intros Hi. by apply IH, (relay_step_inv r1).
Qed.

(** ** Termination and progress *)

Definition relay_wait_rank (w : relay_wait) : nat :=
  match w with RJoinStdout => 5 | RJoinStderr => 4 | RWait => 3 | RSend => 2 | RDone => 0 end.
Definition relay_task_rank (t : relay_task) : nat := match t with TDrain => 3 | TEof => 2 | TClose => 1 | TDone => 0 end.
Definition relay_work (r : Relay) : nat :=
  pump_rank (rl_out r) + pump_rank (rl_err r) + relay_wait_rank (rl_waiter r) + length (rl_queue r) + relay_task_rank (rl_task r).

Lemma relay_step_work r r' : relay_inv r → relay_step wait r r' → relay_work r' < relay_work r.
Proof.
  intros Hi Hs. destruct Hs; unfold relay_work; cbn; rewrite ?length_app; cbn;
    repeat match goal with H : _ r = _ |- _ => rewrite ?H; clear H end; cbn; try lia;
    destruct (rl_queue r); cbn; lia.
Qed.

Lemma relay_progress r :
  relay_inv r → rl_task r = TDone ∨ rl_out r = Some [] ∨ rl_err r = Some [] ∨ ∃ r', relay_step wait r r'.
Proof.
  intros Hi. destruct (rl_queue r) as [|e q] eqn:Eq.
  2: { right. right. right. destruct (decide (rl_task r = TDrain)) as [Ed|Hn]; [eexists; by eapply rs_drain|].
       destruct (ri_task _ Hi Hn) as [_ E]. by rewrite E in Eq. }
  assert (length (rl_queue r) < QUEUE) as Hlen by (rewrite Eq; cbn; unfold QUEUE; lia).
  destruct (rl_out r) as [[|x xs]|] eqn:Eo; [by right; left| |].
  { right. right. right. destruct (pump_read x) eqn:Ex; eexists; [by eapply rs_out_send|by eapply rs_out_stop]. }
  destruct (rl_err r) as [[|x xs]|] eqn:Ee; [by right; right; left| |].
  { right. right. right. destruct (pump_read x) eqn:Ex; eexists; [by eapply rs_err_send|by eapply rs_err_stop]. }
  destruct (rl_waiter r) eqn:Ew.
  - do 3 right. eexists. by eapply rs_join_stdout.
  - do 3 right. eexists. by eapply rs_join_stderr.
  - do 3 right. eexists. by eapply rs_wait.
  - do 3 right. eexists. by eapply rs_send_exit.
  - destruct (rl_task r) eqn:Et.
    + do 3 right. eexists. by eapply rs_ended.
    + do 3 right. eexists. by eapply rs_eof.
    + do 3 right. eexists. by eapply rs_close.
    + by left.
Qed.

(** What was sent, in terms of the child's output. *)
Lemma relay_conversation r :
  rtc (relay_step wait) (relay_session_to_channel s) r →
  ∃ body tail, rl_wire r `prefix_of` body ++ tail ∧ Forall is_data body ∧
    (tail = [] ∨
     tail = [exit_wire; WEof; WClose] ∧ data_of body = pump_all (ses_stdout s) ∧ extended_of body = remaining (ses_stderr s)).
Proof.
  intros Hr. pose proof (relay_reach_inv r Hr) as [Hq Ho He Ht (body & Hb & Hf & Hd & Hx)].
  assert (rl_wire r `prefix_of` flow r) as Hp by (by eexists).
  destruct (rl_waiter r) eqn:Ew.
  5: { exists body, [exit_wire; WEof; WClose]. split; [|split; [done|right]].
       - etrans; [exact Hp|]. rewrite Hf. apply prefix_app. change ([exit_wire; WEof; WClose]) with ([exit_wire] ++ [WEof; WClose]).
         apply prefix_app. destruct (rl_task r); [apply prefix_nil|apply prefix_nil|by exists [WClose]|done].
       - rewrite Ho, He in * by done. rewrite app_nil_r in *. by split. }
  all: exists body, []; rewrite app_nil_r; split; [|split; [done|by left]]; (etrans; [exact Hp|]); rewrite Hf;
    destruct (decide (rl_task r = TDrain)) as [-> |Hn]; [by rewrite !app_nil_r|by destruct (Ht Hn)].
Qed.

(** ** Properties *)

(** C17: whatever the interleaving of the pumps, the waiter and the draining task,
    the client receives a prefix of one conversation: standard output and
    standard error data, then one exit status, then the end of the stream and
    the close.  When the exit status is among what was sent, the data before
    it is everything the child wrote to each output, in order. *)
Theorem relay_in_order r (Hr : rtc (relay_step wait) (relay_session_to_channel s) r) :
  ∃ body tail, rl_wire r `prefix_of` body ++ tail ∧ Forall is_data body ∧
    (tail = [] ∨
     tail = [exit_wire; WEof; WClose] ∧ data_of body = pump_all (ses_stdout s) ∧ extended_of body = remaining (ses_stderr s)).
Proof. by apply relay_conversation. Qed.

(** The relay ends: no run is longer than the work it starts with, at most 64
    events are ever queued, and a run that cannot go on stopped because the child
    keeps an output open without writing, or after everything was sent: all the
    child's output, its exit status, the end of the stream and the close.  (Steps
    of the task may have to wait for the client to receive, and the reaping for
    the child to exit.) *)
Theorem relay_terminates :
  (∀ n r, nsteps (relay_step wait) n (relay_session_to_channel s) r → n ≤ relay_work (relay_session_to_channel s)) ∧
  (∀ r, rtc (relay_step wait) (relay_session_to_channel s) r →
     length (rl_queue r) ≤ QUEUE ∧
     ((∃ r', relay_step wait r r') ∨ rl_out r = Some [] ∨ rl_err r = Some [] ∨
      ∃ body, rl_wire r = body ++ [exit_wire; WEof; WClose] ∧ Forall is_data body ∧
        data_of body = pump_all (ses_stdout s) ∧ extended_of body = remaining (ses_stderr s))).
Proof.
  split.
  - assert (∀ n r r', relay_inv r → nsteps (relay_step wait) n r r' → n ≤ relay_work r) as Hn.
    { intros n r r' Hi Hs. induction Hs as [r|n r1 r2 r3 Hs _ IH]; [lia|].
      pose proof (relay_step_work r1 r2 Hi Hs). specialize (IH (relay_step_inv r1 r2 Hs Hi)). lia. }
    intros n r. apply Hn, relay_start_inv.
  - intros r Hr. pose proof (relay_reach_inv r Hr) as Hi. split; [apply (ri_queue _ Hi)|].
    destruct (relay_progress r Hi) as [Hd|[H1|[H1|H1]]]; [|tauto..]. do 3 right.
    destruct Hi as [_ Ho He Ht (body & Hb & Hf & Hdo & Hx)]. destruct Ht as [Hw Hq]; [by rewrite Hd|].
    exists body. unfold flow in Hf. rewrite Hw, Hq, Hd in Hf. cbn in Hf. rewrite app_nil_r in Hf. split; [done|]. split; [done|].
    rewrite Ho in Hdo by by rewrite Hw. rewrite He in Hx by by rewrite Hw. cbn in *. by rewrite !app_nil_r in *.
Qed.
End relay.

(** ** [NotifyOnEof] *)

(** The exit status is sent by a future that may need several polls: [rest]
    is what it has not sent yet. *)
Inductive EofState := EofPending | EofSending (rest : list Wire) | EofDone.

(** What a poll of a stream gives; [PollReady 0] is its end. *)
Inductive Poll := PollPending | PollReady (n : nat) | PollErr.

Definition completion : list Wire := [WExitStatus 0; WEof].

(** Polling the future, which gets to send [n] more messages. *)
Definition poll_send (n : nat) (rest : list Wire) : EofState * Poll * list Wire :=
  match drop n rest with
  | [] => (EofDone, PollReady 0, take n rest)
  | more => (EofSending more, PollPending, take n rest)
  end.

(** [poll_read]: the inner stream's answer is only asked for when the future
    is not in flight. *)
Definition poll_read (st : EofState) (inner : Poll) (n : nat) : EofState * Poll * list Wire :=
  match st with
  | EofSending rest => poll_send n rest
  | EofPending => match inner with PollReady 0 => poll_send n completion | p => (EofPending, p, []) end
  | EofDone => (EofDone, inner, [])
  end.

Fixpoint poll_all (st : EofState) (polls : list (Poll * nat)) : list (Poll * list Wire) :=
  match polls with
  | [] => []
  | (inner, n) :: polls => let '(st, p, ws) := poll_read st inner n in (p, ws) :: poll_all st polls
  end.

(** What is still to be sent in a state. *)
Definition unsent (st : EofState) : list Wire := match st with EofPending => completion | EofSending rest => rest | EofDone => [] end.

Lemma poll_read_sends st inner n st' p ws :
  poll_read st inner n = (st', p, ws) → unsent st = ws ++ unsent st' ∧ (p = PollReady 0 → unsent st' = []).
Proof.
  assert (∀ rest, poll_send n rest = (st', p, ws) → rest = ws ++ unsent st' ∧ (p = PollReady 0 → unsent st' = [])) as Hs.
  { intros rest. unfold poll_send. pose proof (take_drop n rest) as Htd. destruct (drop n rest) eqn:E; intros [= <- <- <-]; cbn; by rewrite Htd. }
  destruct st as [|rest|]; cbn.
  - destruct inner as [|[|k]|]; try (by intros [= <- <- <-]). apply Hs.
  - apply Hs.
  - by intros [= <- <- <-].
Qed.

(** The end of the stream is withheld until the exit status and the end of the
    channel's data were sent, each exactly once: when a poll reports the end,
    both have been sent by then, and nothing but them is ever sent. *)
Theorem eof_withheld polls :
  (∀ i ws, poll_all EofPending polls !! i = Some (PollReady 0, ws) →
     mjoin (take (S i) (poll_all EofPending polls)).*2 = completion) ∧
  mjoin (poll_all EofPending polls).*2 `prefix_of` completion.
Proof.
  change completion with (unsent EofPending) at 1 2. generalize EofPending as st.
  induction polls as [|[inner n] polls IH]; intros st; cbn [poll_all]; [split; [by intros i ws; rewrite lookup_nil|apply prefix_nil]|].
  destruct (poll_read st inner n) as [[st' p] ws] eqn:E. apply poll_read_sends in E as [Hu Hp]. destruct (IH st') as [IH1 IH2].
  split.
  - intros [|i] ws' Hi; cbn in *.
    + injection Hi as -> <-. rewrite Hu, Hp by done. by f_equal.
    + rewrite Hu. f_equal. by apply (IH1 i ws').
  - cbn. rewrite Hu. by apply prefix_app.
Qed.

(** ** Witness *)

Definition relay_session : Session :=
  {| ses_pgid := 9; ses_stdin := true; ses_stdout := [ReadBytes "a"; ReadBytes []]; ses_stderr := None; ses_resizable := false;
     ses_wait := Ok (Some 3%Z, None) |}.

Lemma relay_in_order_witness :
  ∃ r, rtc (relay_step (ses_wait relay_session)) (relay_session_to_channel relay_session) r ∧ rl_wire r = [WData "a"; WExitStatus 3] ∧
    ∃ body tail, rl_wire r `prefix_of` body ++ tail ∧ Forall is_data body.
Proof.
  assert (∃ r, rtc (relay_step (ses_wait relay_session)) (relay_session_to_channel relay_session) r ∧ rl_wire r = [WData "a"; WExitStatus 3])
    as (r & Hr & Hw).
  { eexists. split.
    - eapply rtc_l; [eapply rs_out_send; [reflexivity|reflexivity|cbn; unfold QUEUE; lia]|].
      eapply rtc_l; [eapply rs_out_stop; reflexivity|]. eapply rtc_l; [eapply rs_join_stdout; reflexivity|].
      eapply rtc_l; [eapply rs_join_stderr; reflexivity|]. eapply rtc_l; [eapply rs_drain; reflexivity|].
      eapply rtc_l; [eapply rs_wait; reflexivity|]. eapply rtc_l; [eapply rs_send_exit; [reflexivity|cbn; unfold QUEUE; lia]|].
      eapply rtc_l; [eapply rs_drain; reflexivity|]. apply rtc_refl.
    - reflexivity. }
  exists r. split; [exact Hr|]. split; [exact Hw|].
  destruct (relay_in_order relay_session r Hr) as (body & tail & Hp & Hb & _). exists body, tail. split; [exact Hp|exact Hb].
Defined.
