(* ===== verification/Sftp.v ===== *)
(** * The SFTP subsystem ([src/ssh/sftp.rs])

    [FsHandler] as a function of one request on the open handles and the disk.
    The protocol is a third-party crate's: a request is its decoded form.  What
    [std::fs] answers (names, permissions, metadata) is a parameter; the bytes
    of open files are modelled, as one content per file. *)

From S2P Require Import Prelude Registry.

#[local] Set Default Proof Using "Type".

(** ** Data *)

Inductive ErrorKind := NotFound | PermissionDenied | OtherError.
Inductive StatusCode := ScEof | ScNoSuchFile | ScPermissionDenied | ScFailure | ScOpUnsupported.

Definition map_io_err (e : ErrorKind) : StatusCode :=
  match e with NotFound => ScNoSuchFile | PermissionDenied => ScPermissionDenied | OtherError => ScFailure end.

(** The attributes of a file, and the contents of the files by number. *)
Abbreviation Attrs := (list (str * N)).
Abbreviation Disk := (gmap N str).

(** What iterating over a directory gives: an entry's name and the outcome of
    asking for its metadata, or an error. *)
Abbreviation DirItem := (result ErrorKind (str * result ErrorKind Attrs)).

(** An open file: its number, whether it was opened to append, and the
    position its reads and writes start from. *)
Record OpenFile := { of_number : N; of_append : bool; of_pos : N }.

Record FsHandler := {
  open_files : gmap str OpenFile;
  open_dirs : gmap str (list DirItem);
  next_handle : N;
}.
Definition handler_default : FsHandler := {| open_files := ∅; open_dirs := ∅; next_handle := 0 |}.

(** Operations on names only. *)
Inductive PathOp := PRemove (path : str) | PMkdir (path : str) | PRmdir (path : str) | PRename (old new : str) | PSymlink (link target : str).

Inductive SftpRequest :=
| SInit
| SOpen (id : N) (filename : str) (pflags : N)
| SClose (id : N) (handle : str)
| SRead (id : N) (handle : str) (offset len : N)
| SWrite (id : N) (handle : str) (offset : N) (data : str)
| SLstat (id : N) (path : str)
| SFstat (id : N) (handle : str)
| SFsetstat (id : N) (handle : str) (size : option N)
| SOpendir (id : N) (path : str)
| SReaddir (id : N) (handle : str)
| SRemove (id : N) (filename : str)
| SMkdir (id : N) (path : str)
| SRmdir (id : N) (path : str)
| SRealpath (id : N) (path : str)
| SStat (id : N) (path : str)
| SRename (id : N) (oldpath newpath : str)
| SReadlink (id : N) (path : str)
| SSymlink (id : N) (linkpath targetpath : str)
| SOther (id : N).

Inductive SftpReply :=
| RpVersion
| RpHandle (id : N) (handle : str)
| RpStatusOk (id : N)
| RpData (id : N) (data : str)
| RpAttrs (id : N) (attrs : Attrs)
| RpName (id : N) (files : list (str * Attrs))
| RpError (code : StatusCode).

Definition READDIR_BATCH : nat := 256.

(** [write] at an offset: a gap reads as zeros. *)
Definition pwrite (content : str) (offset : nat) (data : str) : str :=
  take offset content ++ replicate (offset - length content) "000"%char ++ data ++ drop (offset + length data) content.

(** The bytes of a file between two positions. *)
Definition pread (content : str) (offset len : nat) : str := take len (drop offset content).

(** The system: [std::fs] at a moment.  [sys_open] gives the file's number,
    whether it is open to append, and the disk; [sys_read] is how many of the bytes
    available one [read] gives; [sys_write] how many [write_all] wrote before
    its error. *)
Class FileSystem := {
  sys_open : nat → str → N → Disk → result ErrorKind (N * bool * Disk);
  sys_seek : nat → N → result ErrorKind unit;
  sys_read : nat → nat → result ErrorKind nat;
  sys_write : nat → str → option (nat * ErrorKind);
  sys_set_len : nat → N → N → result ErrorKind unit;
  sys_lstat : nat → str → result ErrorKind Attrs;
  sys_stat : nat → str → result ErrorKind Attrs;
  sys_fstat : nat → N → result ErrorKind Attrs;
  sys_read_dir : nat → str → result ErrorKind (list DirItem);
  sys_path : nat → PathOp → result ErrorKind unit;
  sys_canonicalize : nat → str → result ErrorKind str;
  sys_read_link : nat → str → result ErrorKind str;
}.

(** ** The handler *)

Definition content_of (d : Disk) (file : N) : str := default [] (d !! file).

Definition alloc_handle (h : FsHandler) : FsHandler * str :=
  ({| open_files := open_files h; open_dirs := open_dirs h; next_handle := u64_succ (next_handle h) |}, show_N (next_handle h)).

Definition set_file (handle : str) (file : OpenFile) (h : FsHandler) : FsHandler :=
  {| open_files := <[handle := file]> (open_files h); open_dirs := open_dirs h; next_handle := next_handle h |}.

(** The loop of [readdir]: at most [n] items, up to the first error. *)
Fixpoint readdir_batch (n : nat) (entries : list DirItem) (files : list (str * Attrs)) : result StatusCode (list (str * Attrs)) * list DirItem :=
  match n, entries with
  | S n, item :: entries =>
      match item with
      | Err e => (Err (map_io_err e), entries)
      | Ok (_, Err e) => (Err (map_io_err e), entries)
      | Ok (name, Ok meta) => readdir_batch n entries (files ++ [(from_utf8_lossy name, meta)])
      end
  | _, _ => (Ok files, entries)
  end.

Section handler.
Context `{FileSystem}.

(** The reply of an operation that may fail. *)
Definition reply {A : Type} (r : result ErrorKind A) (ok : A → SftpReply) : SftpReply :=
  match r with Ok a => ok a | Err e => RpError (map_io_err e) end.

Definition sftp_open (t : nat) (id : N) (filename : str) (pflags : N) (h : FsHandler) (d : Disk) : FsHandler * Disk * SftpReply :=
  match sys_open t filename pflags d with
  | Err e => (h, d, RpError (map_io_err e))
  | Ok (number, append, d) =>
      let '(h, handle) := alloc_handle h in
      (set_file handle {| of_number := number; of_append := append; of_pos := 0 |} h, d, RpHandle id handle)
  end.

Definition sftp_close (id : N) (handle : str) (h : FsHandler) : FsHandler * SftpReply :=
  ({| open_files := delete handle (open_files h); open_dirs := delete handle (open_dirs h); next_handle := next_handle h |}, RpStatusOk id).

(** [seek]: the position of the next read or write. *)
Definition at_pos (file : OpenFile) (pos : N) : OpenFile :=
  {| of_number := of_number file; of_append := of_append file; of_pos := pos |}.
Definition file_seek (t : nat) (offset : N) (file : OpenFile) : result ErrorKind OpenFile :=
  match sys_seek t offset with Err e => Err e | Ok _ => Ok (at_pos file offset) end.

(** One [read] into a buffer of [len] bytes, from the position on. *)
Definition file_read (t : nat) (len : N) (file : OpenFile) (d : Disk) : result ErrorKind (OpenFile * str) :=
  let available := pread (content_of d (of_number file)) (N.to_nat (of_pos file)) (N.to_nat len) in
  match sys_read t (length available) with
  | Err e => Err e
  | Ok n => let data := take n available in Ok (at_pos file (of_pos file + N.of_nat (length data)), data)
  end.

(** Where a write of a file lands: its position, or its end when it appends. *)
Definition write_start (file : OpenFile) (d : Disk) : nat :=
  if of_append file then length (content_of d (of_number file)) else N.to_nat (of_pos file).

Definition write_at (file : OpenFile) (data : str) (d : Disk) : OpenFile * Disk :=
  (at_pos file (N.of_nat (write_start file d + length data)),
   <[of_number file := pwrite (content_of d (of_number file)) (write_start file d) data]> d).

(** [write_all]: all of the data, or its first bytes and an error. *)
Definition file_write (t : nat) (data : str) (file : OpenFile) (d : Disk) : OpenFile * Disk * option ErrorKind :=
  if bool_decide (data = []) then (file, d, None)
  else match sys_write t data with
       | None => (write_at file data d, None)
       | Some (0, e) => (file, d, Some e)
       | Some (n, e) => (write_at file (take n data) d, Some e)
       end.

Definition sftp_read (t : nat) (id : N) (handle : str) (offset len : N) (h : FsHandler) (d : Disk) : FsHandler * SftpReply :=
  match open_files h !! handle with
  | None => (h, RpError ScFailure)
  | Some file =>
      match file_seek t offset file with
      | Err e => (h, RpError (map_io_err e))
      | Ok file =>
          match file_read t len file d with
          | Err e => (set_file handle file h, RpError (map_io_err e))
          | Ok (file, data) => (set_file handle file h, if bool_decide (data = []) then RpError ScEof else RpData id data)
          end
      end
  end.

Definition sftp_write (t : nat) (id : N) (handle : str) (offset : N) (data : str) (h : FsHandler) (d : Disk) : FsHandler * Disk * SftpReply :=
  match open_files h !! handle with
  | None => (h, d, RpError ScFailure)
  | Some file =>
      match file_seek t offset file with
      | Err e => (h, d, RpError (map_io_err e))
      | Ok file =>
          let '(file, d, err) := file_write t data file d in
          (set_file handle file h, d, match err with Some e => RpError (map_io_err e) | None => RpStatusOk id end)
      end
  end.

(** [set_len]: cut, or filled with zeros. *)
Definition set_len (content : str) (size : nat) : str := take size content ++ replicate (size - length content) "000"%char.

Definition sftp_fsetstat (t : nat) (id : N) (handle : str) (size : option N) (h : FsHandler) (d : Disk) : Disk * SftpReply :=
  match size with
  | None => (d, RpStatusOk id)
  | Some size =>
      match open_files h !! handle with
      | None => (d, RpError ScFailure)
      | Some file =>
          match sys_set_len t (of_number file) size with
          | Err e => (d, RpError (map_io_err e))
          | Ok _ => (<[of_number file := set_len (content_of d (of_number file)) (N.to_nat size)]> d, RpStatusOk id)
          end
      end
  end.

Definition sftp_opendir (t : nat) (id : N) (path : str) (h : FsHandler) : FsHandler * SftpReply :=
  match sys_read_dir t path with
  | Err e => (h, RpError (map_io_err e))
  | Ok entries =>
      let '(h, handle) := alloc_handle h in
      ({| open_files := open_files h; open_dirs := <[handle := entries]> (open_dirs h); next_handle := next_handle h |}, RpHandle id handle)
  end.

Definition sftp_readdir (id : N) (handle : str) (h : FsHandler) : FsHandler * SftpReply :=
  match open_dirs h !! handle with
  | None => (h, RpError ScFailure)
  | Some entries =>
      let '(r, entries) := readdir_batch READDIR_BATCH entries [] in
      ({| open_files := open_files h; open_dirs := <[handle := entries]> (open_dirs h); next_handle := next_handle h |},
       match r with
       | Err code => RpError code
       | Ok files => if bool_decide (files = []) then RpError ScEof else RpName id files
       end)
  end.

Definition sftp_lstat (t : nat) (id : N) (path : str) : SftpReply := reply (sys_lstat t path) (RpAttrs id).
Definition sftp_stat (t : nat) (id : N) (path : str) : SftpReply := reply (sys_stat t path) (RpAttrs id).
Definition sftp_fstat (t : nat) (id : N) (handle : str) (h : FsHandler) : SftpReply :=
  match open_files h !! handle with None => RpError ScFailure | Some file => reply (sys_fstat t (of_number file)) (RpAttrs id) end.

Definition sftp_remove (t : nat) (id : N) (filename : str) : SftpReply := reply (sys_path t (PRemove filename)) (λ _, RpStatusOk id).
Definition sftp_mkdir (t : nat) (id : N) (path : str) : SftpReply := reply (sys_path t (PMkdir path)) (λ _, RpStatusOk id).
Definition sftp_rmdir (t : nat) (id : N) (path : str) : SftpReply := reply (sys_path t (PRmdir path)) (λ _, RpStatusOk id).
Definition sftp_rename (t : nat) (id : N) (oldpath newpath : str) : SftpReply := reply (sys_path t (PRename oldpath newpath)) (λ _, RpStatusOk id).
Definition sftp_symlink (t : nat) (id : N) (linkpath targetpath : str) : SftpReply :=
  reply (sys_path t (PSymlink linkpath targetpath)) (λ _, RpStatusOk id).

Definition dummy_name (id : N) (name : str) : SftpReply := RpName id [(from_utf8_lossy name, [])].

Definition sftp_realpath (t : nat) (id : N) (path : str) : SftpReply :=
  dummy_name id (match sys_canonicalize t path with Ok resolved => resolved | Err _ => path end).
Definition sftp_readlink (t : nat) (id : N) (path : str) : SftpReply := reply (sys_read_link t path) (dummy_name id).

(** One request at a moment. *)
Definition sftp_handle (t : nat) (r : SftpRequest) (h : FsHandler) (d : Disk) : FsHandler * Disk * SftpReply :=
  match r with
  | SInit => (h, d, RpVersion)
  | SOpen id filename pflags => sftp_open t id filename pflags h d
  | SClose id handle => let '(h, rp) := sftp_close id handle h in (h, d, rp)
  | SRead id handle offset len => let '(h, rp) := sftp_read t id handle offset len h d in (h, d, rp)
  | SWrite id handle offset data => sftp_write t id handle offset data h d
  | SLstat id path => (h, d, sftp_lstat t id path)
  | SFstat id handle => (h, d, sftp_fstat t id handle h)
  | SFsetstat id handle size => let '(d, rp) := sftp_fsetstat t id handle size h d in (h, d, rp)
  | SOpendir id path => let '(h, rp) := sftp_opendir t id path h in (h, d, rp)
  | SReaddir id handle => let '(h, rp) := sftp_readdir id handle h in (h, d, rp)
  | SRemove id filename => (h, d, sftp_remove t id filename)
  | SMkdir id path => (h, d, sftp_mkdir t id path)
  | SRmdir id path => (h, d, sftp_rmdir t id path)
  | SRealpath id path => (h, d, sftp_realpath t id path)
  | SStat id path => (h, d, sftp_stat t id path)
  | SRename id oldpath newpath => (h, d, sftp_rename t id oldpath newpath)
  | SReadlink id path => (h, d, sftp_readlink t id path)
  | SSymlink id linkpath targetpath => (h, d, sftp_symlink t id linkpath targetpath)
  | SOther _ => (h, d, RpError ScOpUnsupported)
  end.

(** A session: its requests in order. *)
Fixpoint sftp_run (t : nat) (rs : list SftpRequest) (h : FsHandler) (d : Disk) : FsHandler * Disk * list SftpReply :=
  match rs with
  | [] => (h, d, [])
  | r :: rs =>
      let '(h, d, rp) := sftp_handle t r h d in
      let '(h, d, rps) := sftp_run (S t) rs h d in (h, d, rp :: rps)
  end.

(** ** Lemmas: handles *)

(** What a session leaves open, from its requests and their replies alone. *)
Definition files_step (s : gset str) (e : SftpRequest * SftpReply) : gset str :=
  match e with
  | (SOpen _ _ _, RpHandle _ handle) => {[handle]} ∪ s
  | (SClose _ handle, _) => s ∖ {[handle]}
  | _ => s
  end.
Definition dirs_step (s : gset str) (e : SftpRequest * SftpReply) : gset str :=
  match e with
  | (SOpendir _ _, RpHandle _ handle) => {[handle]} ∪ s
  | (SClose _ handle, _) => s ∖ {[handle]}
  | _ => s
  end.
Definition opened_files (rs : list SftpRequest) (rps : list SftpReply) : gset str := foldl files_step ∅ (zip rs rps).
Definition opened_dirs (rs : list SftpRequest) (rps : list SftpReply) : gset str := foldl dirs_step ∅ (zip rs rps).

Definition handle_of (rp : SftpReply) : option str := match rp with RpHandle _ handle => Some handle | _ => None end.

Lemma set_file_dom s file file0 h : open_files h !! s = Some file0 → dom (open_files (set_file s file h)) = dom (open_files h).
Proof. intros Hs%elem_of_dom_2. cbn. rewrite dom_insert_L. set_solver. Qed.

(** A request that leaves the handler as it was but for the state of a file. *)
Lemma read_keeps `{FileSystem} t id s offset len h d :
  dom (open_files (sftp_read t id s offset len h d).1) = dom (open_files h) ∧
  open_dirs (sftp_read t id s offset len h d).1 = open_dirs h ∧ next_handle (sftp_read t id s offset len h d).1 = next_handle h ∧
  handle_of (sftp_read t id s offset len h d).2 = None.
Proof.
  unfold sftp_read. destruct (open_files h !! s) as [file0|] eqn:Ef; [|done]. destruct (file_seek t offset file0) as [file|]; [|done].
  destruct (file_read t len file d) as [[file' data]|]; cbn [fst snd]; erewrite set_file_dom by done; [|done]. by case_bool_decide.
Qed.

Lemma write_keeps `{FileSystem} t id s offset data h d :
  let '(h', _, rp) := sftp_write t id s offset data h d in
  dom (open_files h') = dom (open_files h) ∧ open_dirs h' = open_dirs h ∧ next_handle h' = next_handle h ∧ handle_of rp = None.
Proof.
  unfold sftp_write. destruct (open_files h !! s) as [file0|] eqn:Ef; [|done]. destruct (file_seek t offset file0) as [file|]; [|done].
  destruct (file_write t data file d) as [[file' d'] err]. erewrite set_file_dom by done. by destruct err.
Qed.

(** Handles were numbered by the counter and each is of one kind. *)
Record handler_wf (h : FsHandler) : Prop := {
  wf_number : ∀ s, s ∈ dom (open_files h) ∪ dom (open_dirs h) → ∃ n, s = show_N n ∧ (n < next_handle h)%N;
  wf_kind : dom (open_files h) ## dom (open_dirs h);
}.

Lemma wf_kept h h1 :
  dom (open_files h1) = dom (open_files h) → open_dirs h1 = open_dirs h → next_handle h1 = next_handle h → handler_wf h → handler_wf h1.
Proof.
  intros Ef Ed En Hwf. split; rewrite Ef, Ed; [|apply (wf_kind _ Hwf)].
  intros s (n & -> & Hn)%(wf_number _ Hwf). exists n. by rewrite En.
Qed.

Lemma default_wf : handler_wf handler_default.
Proof. split; cbn; set_solver. Qed.

Lemma fresh_handle h n : handler_wf h → (next_handle h ≤ n)%N → show_N n ∉ dom (open_files h) ∪ dom (open_dirs h).
Proof. intros Hwf Hn Hin. apply (wf_number _ Hwf) in Hin as (m & ->%show_N_inj & Hm). lia. Qed.

Lemma handle_step t r h d h' d' rp :
  sftp_handle t r h d = (h', d', rp) → handler_wf h → (next_handle h < U64_MAX)%N →
  handler_wf h' ∧ dom (open_files h') = files_step (dom (open_files h)) (r, rp) ∧ dom (open_dirs h') = dirs_step (dom (open_dirs h)) (r, rp) ∧
  match handle_of rp with
  | Some s => s = show_N (next_handle h) ∧ next_handle h' = (next_handle h + 1)%N
  | None => next_handle h' = next_handle h
  end.
Proof.
  intros E Hwf Hn. pose proof (u64_succ_small _ Hn) as Hs. pose proof (fresh_handle h (next_handle h) Hwf ltac:(lia)) as Hf.
  assert (∀ s, s ∈ dom (open_files h) ∪ dom (open_dirs h) → ∃ n, s = show_N n ∧ (n < next_handle h + 1)%N) as Hlt.
  { intros s (n & -> & Hlt)%(wf_number _ Hwf). exists n. split; [done|lia]. }
  pose proof (wf_number _ Hwf) as Hnum. pose proof (wf_kind _ Hwf) as Hkind.
  destruct r; cbn in E; try (by simplify_eq);
    try (unfold sftp_lstat, sftp_stat, sftp_remove, sftp_mkdir, sftp_rmdir, sftp_rename, sftp_readlink, sftp_symlink, reply in E;
         case_match; simplify_eq; by repeat split).
  - unfold sftp_open in E. destruct (sys_open t filename pflags d) as [[[number append] d1]|]; simplify_eq/=; [|by repeat split].
    rewrite Hs, dom_insert_L. split; [split; cbn; rewrite dom_insert_L|done]; [|set_solver].
    intros s. rewrite !elem_of_union, elem_of_singleton. intros [[->|Hin]|Hin]; [exists (next_handle h); split; [done|lia]|apply Hlt; set_solver..].
  - unfold sftp_close in E. simplify_eq/=. rewrite !dom_delete_L. split; [split; cbn; rewrite !dom_delete_L; set_solver|done].
  - destruct (read_keeps t id handle offset len h d) as (Ef & Ed & En & Eh).
    destruct (sftp_read t id handle offset len h d) as [h1 rp1]. simplify_eq/=. rewrite Eh. split; [by apply (wf_kept h)|]. by rewrite Ef, Ed.
  - pose proof (write_keeps t id handle offset data h d) as Hk. rewrite E in Hk. destruct Hk as (Ef & Ed & En & ->).
    split; [by apply (wf_kept h)|]. by rewrite Ef, Ed.
  - unfold sftp_fstat, reply in E. repeat case_match; simplify_eq; by repeat split.
  - unfold sftp_fsetstat in E. repeat case_match; simplify_eq; by repeat split.
  - unfold sftp_opendir in E. destruct (sys_read_dir t path) as [entries|]; simplify_eq/=; [|by repeat split].
    rewrite Hs, dom_insert_L. split; [split; cbn; rewrite dom_insert_L|done]; [|set_solver].
    intros s. rewrite !elem_of_union, elem_of_singleton. intros [Hin|[->|Hin]]; [apply Hlt; set_solver|exists (next_handle h); split; [done|lia]|apply Hlt; set_solver].
  - unfold sftp_readdir in E. destruct (open_dirs h !! handle) as [entries|] eqn:Ed; [|simplify_eq; by repeat split].
    destruct (readdir_batch _ _ _) as [rr entries']. simplify_eq/=.
    assert (dom (<[handle:=entries']> (open_dirs h)) = dom (open_dirs h)) as Edom.
    { rewrite dom_insert_L. apply elem_of_dom_2 in Ed. set_solver. }
    rewrite Edom. split; [split; cbn; by rewrite Edom|]. split; [done|]. split; [done|]. by repeat case_match.
Qed.

Lemma run_handles t rs h d h' d' rps :
  sftp_run t rs h d = (h', d', rps) → handler_wf h → (next_handle h + N.of_nat (length rs) ≤ U64_MAX)%N →
  handler_wf h' ∧ dom (open_files h') = foldl files_step (dom (open_files h)) (zip rs rps) ∧
  dom (open_dirs h') = foldl dirs_step (dom (open_dirs h)) (zip rs rps) ∧
  NoDup (omap handle_of rps) ∧ (∀ s, s ∈ omap handle_of rps → ∃ n, s = show_N n ∧ (next_handle h ≤ n)%N).
Proof.
  revert t h d rps. induction rs as [|r rs IH]; intros t h d rps Hr Hwf Hn; cbn [sftp_run] in Hr.
  { injection Hr as <- <- <-. cbn. split; [done|]. do 2 (split; [done|]). split; [constructor|]. by intros s ?%not_elem_of_nil. }
  destruct (sftp_handle t r h d) as [[h1 d1] rp] eqn:E. destruct (sftp_run (S t) rs h1 d1) as [[h2 d2] rps2] eqn:E2.
  injection Hr as <- <- <-. cbn [length] in Hn.
  destruct (handle_step t r h d h1 d1 rp E Hwf ltac:(lia)) as (Hwf1 & Hf & Hd & Hh).
  assert (next_handle h ≤ next_handle h1 ≤ next_handle h + 1)%N as Hle by (destruct (handle_of rp); [destruct Hh|]; lia).
  destruct (IH (S t) h1 d1 rps2 E2 Hwf1 ltac:(lia)) as (Hwf2 & Hf2 & Hd2 & Hnd & Hge).
  cbn [zip zip_with foldl omap list_omap]. rewrite <- Hf, <- Hd. split; [done|]. do 2 (split; [done|]).
  destruct (handle_of rp) as [s|]; [destruct Hh as [-> Hnx]|].
  - split.
    + constructor; [|done]. intros (n & Hs%show_N_inj & Hlt)%Hge. lia.
    + intros s [->|(n & -> & Hlt)%Hge]%elem_of_cons; [by exists (next_handle h)|]. exists n. split; [done|lia].
  - split; [done|]. intros s (n & -> & Hlt)%Hge. exists n. split; [done|lia].
Qed.

(** C20: handles are typed: after any session the open file handles are exactly
    those an open returned and no close named since, likewise the directory
    handles; no handle is of both kinds or returned twice.  A read, write,
    [fstat], sized [fsetstat] or listing on a handle that is not open for it
    fails and changes nothing.  A close is acknowledged for every handle and
    removes just that one, of either kind, so that closing an unknown one
    changes nothing; an [fsetstat] without a size is acknowledged for every
    handle and changes nothing. *)
Theorem handles_typed rs d h d' rps (Hlen : (N.of_nat (length rs) ≤ U64_MAX)%N)
    (Hr : sftp_run 0 rs handler_default d = (h, d', rps)) :
  dom (open_files h) = opened_files rs rps ∧ dom (open_dirs h) = opened_dirs rs rps ∧
  opened_files rs rps ## opened_dirs rs rps ∧ NoDup (omap handle_of rps) ∧
  (∀ t id s offset len data size, s ∉ opened_files rs rps →
     sftp_handle t (SRead id s offset len) h d' = (h, d', RpError ScFailure) ∧
     sftp_handle t (SWrite id s offset data) h d' = (h, d', RpError ScFailure) ∧
     sftp_handle t (SFstat id s) h d' = (h, d', RpError ScFailure) ∧
     sftp_handle t (SFsetstat id s (Some size)) h d' = (h, d', RpError ScFailure)) ∧
  (∀ t id s, s ∉ opened_dirs rs rps → sftp_handle t (SReaddir id s) h d' = (h, d', RpError ScFailure)) ∧
  (∀ t id s, ∃ h', sftp_handle t (SClose id s) h d' = (h', d', RpStatusOk id) ∧ next_handle h' = next_handle h ∧
     s ∉ dom (open_files h') ∪ dom (open_dirs h') ∧
     (∀ s', s' ≠ s → open_files h' !! s' = open_files h !! s' ∧ open_dirs h' !! s' = open_dirs h !! s') ∧
     (s ∉ opened_files rs rps ∪ opened_dirs rs rps → h' = h)) ∧
  (∀ t id s, sftp_handle t (SFsetstat id s None) h d' = (h, d', RpStatusOk id)).
Proof.
  destruct (run_handles 0 rs handler_default d h d' rps Hr default_wf Hlen) as (Hwf & Hf & Hd & Hnd & _).
  change (dom (open_files handler_default)) with (∅ : gset str) in Hf. change (dom (open_dirs handler_default)) with (∅ : gset str) in Hd.
  fold (opened_files rs rps) in Hf. fold (opened_dirs rs rps) in Hd.
  split; [done|]. split; [done|]. split; [rewrite <- Hf, <- Hd; apply (wf_kind _ Hwf)|]. split; [done|]. split; [|split; [|split]].
  - intros t id s offset len data size Hs. rewrite <- Hf in Hs. apply not_elem_of_dom in Hs.
    cbn. unfold sftp_read, sftp_write, sftp_fstat, sftp_fsetstat. by rewrite Hs.
  - intros t id s Hs. rewrite <- Hd in Hs. apply not_elem_of_dom in Hs. cbn. unfold sftp_readdir. by rewrite Hs.
  - intros t id s. eexists. split; [done|]. cbn. rewrite !dom_delete_L. split; [done|]. split; [set_solver|]. split.
    + intros s' Hs'. by rewrite !lookup_delete_ne.
    + rewrite <- Hf, <- Hd. intros [Hs1%not_elem_of_dom Hs2%not_elem_of_dom]%not_elem_of_union.
      rewrite !delete_id by done. by destruct h.
  - done.
Qed.

(** ** Bytes *)

Lemma length_pwrite content offset data :
  length (pwrite content offset data) = length content `max` (offset + length data).
Proof. unfold pwrite. rewrite !length_app, length_take, length_replicate, length_drop. lia. Qed.

Lemma pread_pwrite_within content start data offset len :
  start ≤ offset → offset + len ≤ start + length data →
  pread (pwrite content start data) offset len = take len (drop (offset - start) data).
Proof.
  intros Hs Hl. unfold pread, pwrite. rewrite app_assoc.
  rewrite drop_app_ge by (rewrite length_app, length_take, length_replicate; lia).
  replace (offset - length (take start content ++ replicate (start - length content) "000"%char)) with (offset - start)
    by (rewrite length_app, length_take, length_replicate; lia).
  rewrite drop_app_le by lia. by rewrite take_app_le by (rewrite length_drop; lia).
Qed.

Lemma pwrite_elsewhere content offset data i :
  i < length content → i < offset ∨ offset + length data ≤ i → pwrite content offset data !! i = content !! i.
Proof.
  intros Hi Ho. unfold pwrite. destruct Ho as [Ho|Ho].
  - rewrite lookup_app_l by (rewrite length_take; lia). by rewrite lookup_take_lt by lia.
  - rewrite lookup_app_r by (rewrite length_take; lia). rewrite lookup_app_r by (rewrite length_take, length_replicate; lia).
    rewrite lookup_app_r by (rewrite length_take, length_replicate; lia). rewrite lookup_drop. f_equal.
    rewrite length_take, length_replicate. lia.
Qed.

Lemma take_same_len {A} (l : list A) n m : n `min` length l = m `min` length l → take n l = take m l.
Proof.
  intros E. destruct (decide (n < length l)).
  - assert (m = n) as -> by lia. done.
  - by rewrite !take_ge by lia.
Qed.

(** What a read gives. *)
Lemma read_data t id s offset len h d h' id' data :
  sftp_read t id s offset len h d = (h', RpData id' data) →
  id' = id ∧ data ≠ [] ∧ ∃ file n, open_files h !! s = Some file ∧
    data = take n (pread (content_of d (of_number file)) (N.to_nat offset) (N.to_nat len)).
Proof.
  unfold sftp_read. destruct (open_files h !! s) as [file|]; [|done]. unfold file_seek. destruct (sys_seek t offset); [|done].
  unfold file_read. cbn. destruct (sys_read t _) as [n|]; [|done]. case_bool_decide as Eb; [done|]. intros [= <- <- <-].
  split; [done|]. split; [done|]. by exists file, n.
Qed.

(** A read never gives more than was asked for, nor anything but the bytes of
    the file at the requested position, and at least one. *)
Theorem read_bounded t id s offset len h d h' file id' data
    (Hfile : open_files h !! s = Some file) (Hr : sftp_read t id s offset len h d = (h', RpData id' data)) :
  id' = id ∧ 1 ≤ length data ≤ N.to_nat len ∧ N.to_nat offset + length data ≤ length (content_of d (of_number file)) ∧
  data = pread (content_of d (of_number file)) (N.to_nat offset) (length data).
Proof.
  destruct (read_data _ _ _ _ _ _ _ _ _ _ Hr) as (-> & Hne & file' & n & Hfile' & Hd). assert (file' = file) as -> by congruence. split; [done|].
  assert (length data ≠ 0) as H0 by (by destruct data).
  pose proof (f_equal length Hd) as Hlen. unfold pread in *. rewrite !length_take, length_drop in Hlen. split; [lia|]. split; [lia|].
  rewrite Hd at 1. rewrite take_take. apply take_same_len. rewrite length_drop. lia.
Qed.

(** What an acknowledged write does: the file is [file] put at the offset. *)
Lemma write_ok t id s offset data h d h' d' file :
  open_files h !! s = Some file → data ≠ [] → sftp_handle t (SWrite id s offset data) h d = (h', d', RpStatusOk id) →
  h' = set_file s (write_at (at_pos file offset) data d).1 h ∧ d' = (write_at (at_pos file offset) data d).2.
Proof.
  intros Hfile Hne E. cbn in E. unfold sftp_write, file_seek in E. rewrite Hfile in E. destruct (sys_seek t offset); [|done].
  unfold file_write in E. rewrite bool_decide_false in E by done.
  destruct (sys_write t data) as [[[|n] e]|]; simplify_eq/=; by split.
Qed.

(** The requests that leave the bytes of every file as they are. *)
Definition quiet (r : SftpRequest) : bool :=
  match r with SOpen _ _ _ | SWrite _ _ _ _ | SFsetstat _ _ (Some _) => false | _ => true end.

Lemma quiet_step t r h d h' d' rp : sftp_handle t r h d = (h', d', rp) → quiet r = true → d' = d.
Proof.
  intros E Hq. destruct r; cbn in E, Hq; try done; try (by simplify_eq);
    try (destruct (sftp_read _ _ _ _ _ _ _); by simplify_eq); try (destruct (sftp_opendir _ _ _ _); by simplify_eq);
    try (destruct (sftp_readdir _ _ _); by simplify_eq).
  destruct size; [done|]. by simplify_eq/=.
Qed.

Lemma quiet_run t rs h d h' d' rps : sftp_run t rs h d = (h', d', rps) → Forall (λ r, quiet r = true) rs → d' = d.
Proof.
  revert t h d h' d' rps. induction rs as [|r rs IH]; intros t h d h' d' rps E Hq; cbn [sftp_run] in E; [by simplify_eq|].
  destruct (sftp_handle t r h d) as [[h1 d1] rp] eqn:E1. destruct (sftp_run (S t) rs h1 d1) as [[h2 d2] rps2] eqn:E2.
  injection E as <- <- <-. apply Forall_cons in Hq as [Hq Hqs]. apply IH in E2; [|done]. subst.
  by eapply quiet_step.
Qed.

Lemma take_prefix {A} n (l : list A) : take n l `prefix_of` l.
Proof. exists (drop n l). by rewrite take_drop. Qed.

(** C21: what an acknowledged write stored is what a read of it gives back: the
    write lands at its offset, or at the file's old end when the handle
    appends, and a later read of the same file within the bytes written,
    through any handle and after any requests that change no file, gives the
    written bytes from the place it asked for, in pieces of the read's own
    size.  Nothing else changed: the file's other bytes, the other files, and
    the handles but for the position of the one written. *)
Theorem written_read_back t t1 t2 id id' s s' offset offset' data len rs h d h1 d1 h2 d2 rps h3 d3 file file' got
    (start := if of_append file then length (content_of d (of_number file)) else N.to_nat offset)
    (Hfile : open_files h !! s = Some file) (Hne : data ≠ [])
    (Hw : sftp_handle t (SWrite id s offset data) h d = (h1, d1, RpStatusOk id))
    (Hquiet : Forall (λ r, quiet r = true) rs) (Hrun : sftp_run t1 rs h1 d1 = (h2, d2, rps))
    (Hfile' : open_files h2 !! s' = Some file') (Hsame : of_number file' = of_number file)
    (Hin : start ≤ N.to_nat offset' ∧ N.to_nat offset' + N.to_nat len ≤ start + length data)
    (Hr : sftp_handle t2 (SRead id' s' offset' len) h2 d2 = (h3, d3, RpData id' got)) :
  got `prefix_of` drop (N.to_nat offset' - start) data ∧ 1 ≤ length got ≤ N.to_nat len ∧
  (∀ i, i < length (content_of d (of_number file)) → i < start ∨ start + length data ≤ i →
     content_of d1 (of_number file) !! i = content_of d (of_number file) !! i) ∧
  length (content_of d1 (of_number file)) = length (content_of d (of_number file)) `max` (start + length data) ∧
  (∀ n, n ≠ of_number file → d1 !! n = d !! n) ∧
  (∀ x, x ≠ s → open_files h1 !! x = open_files h !! x) ∧
  open_files h1 !! s = Some (at_pos file (N.of_nat (start + length data))) ∧
  open_dirs h1 = open_dirs h ∧ next_handle h1 = next_handle h.
Proof.
  destruct (write_ok _ _ _ _ _ _ _ _ _ _ Hfile Hne Hw) as [-> ->]. apply quiet_run in Hrun as ->; [|done].
  change (write_at (at_pos file offset) data d) with
    (at_pos file (N.of_nat (start + length data)), <[of_number file := pwrite (content_of d (of_number file)) start data]> d) in *.
  cbn [fst snd] in *. set (d1 := <[_ := _]> d) in *.
  assert (content_of d1 (of_number file) = pwrite (content_of d (of_number file)) start data) as Hc.
  { unfold d1, content_of. by rewrite lookup_insert_eq. }
  cbn in Hr. destruct (sftp_read t2 id' s' offset' len h2 d1) as [h' rp] eqn:Er. assert (rp = RpData id' got) as -> by congruence.
  destruct (read_data _ _ _ _ _ _ _ _ _ _ Er) as (_ & Hg & file2 & n & Hfile2 & Hgot).
  assert (file2 = file') as -> by congruence. rewrite Hsame, Hc, pread_pwrite_within in Hgot by lia.
  assert (length got ≠ 0) as H0 by (by destruct got). rewrite take_take in Hgot.
  split; [rewrite Hgot; apply take_prefix|].
  split; [pose proof (f_equal length Hgot) as Hl; rewrite length_take in Hl; lia|]. rewrite Hc.
  split; [intros i; apply pwrite_elsewhere|]. split; [apply length_pwrite|].
  split; [intros m Hm; unfold d1; by rewrite lookup_insert_ne|].
  split; [intros x Hx; cbn; by rewrite lookup_insert_ne|]. cbn. by rewrite lookup_insert_eq.
Qed.

(** ** Directories *)

(** The names a directory gives, when nothing fails. *)
Definition item (e : str * Attrs) : DirItem := Ok (e.1, Ok e.2).
Definition shown (e : str * Attrs) : str * Attrs := (from_utf8_lossy e.1, e.2).

(** A list in batches of at most 256. *)
Fixpoint batches (fuel : nat) (l : list (str * Attrs)) : list (list (str * Attrs)) :=
  match fuel, l with
  | S fuel, _ :: _ => take READDIR_BATCH l :: batches fuel (drop READDIR_BATCH l)
  | _, _ => []
  end.

Lemma readdir_batch_ok n l files :
  readdir_batch n (item <$> l) files = (Ok (files ++ (shown <$> take n l)), item <$> drop n l).
Proof.
  revert l files. induction n as [|n IH]; intros [|[name meta] l] files; cbn; rewrite ?app_nil_r; [done..|].
  rewrite IH. by rewrite <- app_assoc.
Qed.

Lemma batches_spec fuel l :
  length l ≤ fuel → mjoin (batches fuel l) = l ∧ Forall (λ b, 1 ≤ length b ≤ READDIR_BATCH) (batches fuel l).
Proof.
  revert l. induction fuel as [|fuel IH]; intros [|x l] Hl; cbn [batches]; try done; [cbn in Hl; lia|].
  destruct (IH (drop READDIR_BATCH (x :: l))) as [H1 H2].
  { rewrite length_drop. unfold READDIR_BATCH. cbn [length] in *. lia. }
  split; [change (take READDIR_BATCH (x :: l) ++ mjoin (batches fuel (drop READDIR_BATCH (x :: l))) = x :: l); by rewrite H1, take_drop|]. constructor; [|done]. rewrite length_take. unfold READDIR_BATCH. cbn [length]. lia.
Qed.

Lemma batches_fuel f1 f2 l : length l ≤ f1 → length l ≤ f2 → batches f1 l = batches f2 l.
Proof.
  revert f2 l. induction f1 as [|f1 IH]; intros [|f2] [|x l] H1 H2; try done; [cbn in H1; lia|cbn in H2; lia|].
  cbn [batches]. f_equal. apply IH; rewrite length_drop; unfold READDIR_BATCH; cbn [length] in *; lia.
Qed.

Lemma take_padding {A} (l : list A) (e : A) n k : n ≤ k → take n (l ++ replicate k e) = take n (l ++ replicate n e).
Proof.
  intros Hk. rewrite !take_app. f_equal. rewrite !take_replicate. f_equal. lia.
Qed.

Lemma readdir_run n t id s l h d :
  open_dirs h !! s = Some (item <$> l) →
  (sftp_run t (replicate n (SReaddir id s)) h d).2 =
    take n ((RpName id <$> (fmap shown <$> batches (length l) l)) ++ replicate n (RpError ScEof)).
Proof.
  revert t l h. induction n as [|n IH]; intros t l h Hs; [done|].
  cbn [replicate sftp_run sftp_handle]. unfold sftp_readdir. rewrite Hs, readdir_batch_ok. cbn [app].
  set (h' := {| open_files := _ |}).
  assert (open_dirs h' !! s = Some (item <$> drop READDIR_BATCH l)) as Hs' by (cbn; by rewrite lookup_insert_eq).
  pose proof (IH (S t) _ h' Hs') as Hr. destruct (sftp_run (S t) (replicate n (SReaddir id s)) h' d) as [[h2 d2] rps]. cbn [snd] in *. rewrite Hr.
  destruct l as [|x l].
  - cbn. by f_equal.
  - cbn [length batches fmap list_fmap]. rewrite bool_decide_false by (by unfold READDIR_BATCH).
    cbn [app take]. f_equal. rewrite (batches_fuel (length l) (length (drop READDIR_BATCH (x :: l)))) by
      (rewrite ?length_drop; unfold READDIR_BATCH; cbn [length]; lia).
    symmetry. apply (take_padding _ _ n (S n)). lia.
Qed.

Lemma join_fmap_fmap {A B} (f : A → B) (bs : list (list A)) : mjoin (fmap (M := list) f <$> bs) = f <$> mjoin bs.
Proof.
  induction bs as [|b bs IH]; [done|]. change (mjoin (b :: bs)) with (b ++ mjoin bs). by rewrite fmap_app, <- IH.
Qed.

(** Listing a directory ends and is complete: reading it again and again gives
    every entry once, in the directory's order, at most 256 and at least one
    at a time, and then the end, as often as it is asked. *)
Theorem readdir_complete n t id s l h d (Hs : open_dirs h !! s = Some (item <$> l)) :
  ∃ parts, mjoin parts = shown <$> l ∧ Forall (λ b, 1 ≤ length b ≤ READDIR_BATCH) parts ∧
    (sftp_run t (replicate n (SReaddir id s)) h d).2 = take n ((RpName id <$> parts) ++ replicate n (RpError ScEof)).
Proof.
  destruct (batches_spec (length l) l) as [Hj Hb]; [done|]. exists (fmap (M := list) shown <$> batches (length l) l). split; [|split].
  - by rewrite join_fmap_fmap, Hj.
  - rewrite Forall_fmap. eapply Forall_impl; [exact Hb|]. intros b. cbn. by rewrite length_fmap.
  - by apply readdir_run.
Qed.

(** An entry whose metadata cannot be read takes the entries listed before it
    in its batch with it: they are in no later reply. *)
Lemma readdir_error_drops (id : N) (s : str) before e (rest : list DirItem) h :
  length before < READDIR_BATCH → open_dirs h !! s = Some ((item <$> before) ++ Err e :: rest) →
  (sftp_readdir id s h).2 = RpError (map_io_err e) ∧ open_dirs (sftp_readdir id s h).1 !! s = Some rest.
Proof.
  intros Hlen Hs. unfold sftp_readdir. rewrite Hs.
  assert (∀ n files, length before < n → readdir_batch n ((item <$> before) ++ Err e :: rest) files = (Err (map_io_err e), rest)) as Hb.
  { clear Hlen Hs. induction before as [|b before IH]; intros [|n] files Hn; cbn in *; try lia; [done|]. apply IH. lia. }
  rewrite Hb by done. cbn. by rewrite lookup_insert_eq.
Qed.
End handler.

(** ** Witnesses *)

(** A disk of empty files; every read gives at most two bytes. *)
Definition sample_system : FileSystem :=
  {| sys_open := λ t _ _ d, Ok (N.of_nat t, false, <[N.of_nat t := ([] : str)]> d);
     sys_seek := λ _ _, Ok tt; sys_read := λ _ available, Ok (available `min` 2); sys_write := λ _ _, None; sys_set_len := λ _ _ _, Ok tt;
     sys_lstat := λ _ _, Ok []; sys_stat := λ _ _, Err NotFound; sys_fstat := λ _ _, Ok [];
     sys_read_dir := λ _ _, Ok (item <$> [("a" : str, []); ("b" : str, [])]); sys_path := λ _ _, Ok tt;
     sys_canonicalize := λ _ p, Ok p; sys_read_link := λ _ p, Ok p |}.

Definition sample_requests : list SftpRequest := [SOpen 1 "f" 0; SOpendir 2 "d"; SWrite 3 "0" 0 "abc"; SClose 4 "0"; SReaddir 5 "1"].

Lemma handles_typed_witness :
  ∃ h d rps, sftp_run (H := sample_system) 0 sample_requests handler_default ∅ = (h, d, rps) ∧
    dom (open_files h) = opened_files sample_requests rps ∧ NoDup (omap handle_of rps).
Proof.
  destruct (sftp_run (H := sample_system) 0 sample_requests handler_default ∅) as [[h d] rps] eqn:E.
  exists h, d, rps. split; [reflexivity|].
  destruct (handles_typed (H := sample_system) sample_requests ∅ h d rps ltac:(vm_compute; discriminate) E) as (H1 & _ & _ & H2 & _).
  split; [exact H1|exact H2].
Defined.

(** One file open twice, the second time to append; a directory of two. *)
Definition open_handler : FsHandler :=
  {| open_files := <[("0" : str) := {| of_number := 7; of_append := false; of_pos := 0 |}]>
       {[ ("2" : str) := {| of_number := 7; of_append := true; of_pos := 0 |} ]};
     open_dirs := {[ ("1" : str) := item <$> [("a" : str, []); ("b" : str, [])] ]}; next_handle := 3 |}.

(** A write through the appending handle, then, after a listing, a read of its
    last two bytes through the other. *)
Lemma written_read_back_witness :
  ∃ h1 d1 h2 d2 rps h3 d3 got,
    sftp_handle (H := sample_system) 0 (SWrite 1 "2" 2 "xyz") open_handler {[ 7%N := ("hello!" : str) ]} = (h1, d1, RpStatusOk 1) ∧
    sftp_run (H := sample_system) 1 [SReaddir 2 "1"] h1 d1 = (h2, d2, rps) ∧
    sftp_handle (H := sample_system) 2 (SRead 3 "0" 7 2) h2 d2 = (h3, d3, RpData 3 got) ∧ got `prefix_of` ("yz" : str).
Proof.
  set (w := sftp_handle (H := sample_system) 0 (SWrite 1 "2" 2 "xyz") open_handler {[ 7%N := ("hello!" : str) ]}).
  set (r := sftp_run (H := sample_system) 1 [SReaddir 2 "1"] w.1.1 w.1.2).
  set (g := sftp_handle (H := sample_system) 2 (SRead 3 "0" 7 2) r.1.1 r.1.2).
  assert (w = (w.1.1, w.1.2, RpStatusOk 1)) as Hw by (vm_compute; reflexivity).
  assert (r = (r.1.1, r.1.2, r.2)) as Hr by (vm_compute; reflexivity).
  assert (g = (g.1.1, g.1.2, RpData 3 "yz")) as Hg by (vm_compute; reflexivity).
  exists w.1.1, w.1.2, r.1.1, r.1.2, r.2, g.1.1, g.1.2, "yz". split; [exact Hw|]. split; [exact Hr|]. split; [exact Hg|].
  destruct (written_read_back (H := sample_system) 0 1 2 1 3 "2" "0" 2 7 "xyz" 2 [SReaddir 2 "1"] open_handler
    {[ 7%N := ("hello!" : str) ]} w.1.1 w.1.2 r.1.1 r.1.2 r.2 g.1.1 g.1.2
    {| of_number := 7; of_append := true; of_pos := 0 |} {| of_number := 7; of_append := false; of_pos := 0 |} "yz"
    eq_refl ltac:(discriminate) Hw ltac:(by repeat constructor) Hr ltac:(vm_compute; reflexivity) eq_refl
    ltac:(vm_compute; lia) Hg) as [Hp _].
  exact Hp.
Defined.

Lemma read_bounded_witness :
  ∃ h' data, sftp_read (H := sample_system) 0 1 "0" 4 9 open_handler {[ 7%N := ("hello!" : str) ]} = (h', RpData 1 data) ∧ 1 ≤ length data ≤ 9.
Proof.
  set (r := sftp_read (H := sample_system) 0 1 "0" 4 9 open_handler {[ 7%N := ("hello!" : str) ]}).
  exists r.1, "o!". assert (r = (r.1, RpData 1 "o!")) as Hr by (vm_compute; reflexivity). split; [exact Hr|].
  apply (read_bounded (H := sample_system) 0 1 "0" 4 9 open_handler {[ 7%N := ("hello!" : str) ]} r.1 {| of_number := 7; of_append := false; of_pos := 0 |} 1 "o!" eq_refl Hr).
Defined.

Lemma readdir_complete_witness :
  ∃ parts, mjoin parts = [("a" : str, []); ("b" : str, [])] ∧
    (sftp_run (H := sample_system) 0 [SReaddir 1 "1"; SReaddir 1 "1"] open_handler ∅).2 = take 2 ((RpName 1 <$> parts) ++ replicate 2 (RpError ScEof)).
Proof.
  destruct (readdir_complete (H := sample_system) 2 0 1 "1" [("a" : str, []); ("b" : str, [])] open_handler ∅ eq_refl) as (parts & Hj & _ & Hr).
  exists parts. split; [exact Hj|exact Hr].
Defined.
