(* ===== verification/Tunnel.v ===== *)
(** * Tunnels: copying bytes both ways between two streams

    The relays of an established connection: [splice], [splice_unix] and
    [splice_tcp_to_unix] of the egress proxy ([src/proxy/server.rs]) and the
    stdio bridge of [devcroft proxy] ([src/ssh/proxy.rs]).  All four have one
    shape, the state machine of this file: a thread copies one way, the main
    thread the other, each shuts the stream it wrote to when its copy ends, and
    the main thread then waits for the other.  A read waits for the source's peer
    and a write for the destination to take it, which neither has to do.  The
    accept loops that start tunnels and the log they share are here too. *)

From S2P Require Import Prelude Paths Protocol State SshConfig Proxy.

#[local] Set Default Proof Using "Type".

(** ** Data *)

Inductive Phase := Copying | Shutting | Ended.
(** What the peer at the source's end has done: it may still write, it closed
    its side, or the connection to it broke. *)
Inductive Source := Open | Finished | Broken.

(** One direction. *)
Record Half := {
  h_written : str;      (* everything the source's peer wrote *)
  h_pending : str;      (* what of it is there to be read *)
  h_source : Source;
  h_buffer : str;       (* what the loop has read and not written yet *)
  h_accepts : bool;     (* whether the destination is still there *)
  h_room : nat;         (* how many bytes a write to it takes before it waits for its peer to read *)
  h_phase : Phase;
  h_delivered : str;    (* what the destination was given *)
  h_closed : bool;      (* whether the destination was told that no more follows *)
}.

Record Tunnel := { t_up : Half; t_down : Half; t_returned : bool }.

Definition fresh_half : Half :=
  {| h_written := []; h_pending := []; h_source := Open; h_buffer := []; h_accepts := true; h_room := 0; h_phase := Copying;
     h_delivered := []; h_closed := false |}.

(** [try_clone] of both streams may fail: the connection is then dropped. *)
Definition splice (clones : bool) : option Tunnel :=
  if clones then Some {| t_up := fresh_half; t_down := fresh_half; t_returned := false |} else None.

(** The same code over the other stream types: a unix client and a TCP
    upstream, and the other way round. *)
Definition splice_unix (clones : bool) : option Tunnel := splice clones.
Definition splice_tcp_to_unix (clones : bool) : option Tunnel := splice clones.

(** The copy loop read [n] bytes. *)
Definition took (n : nat) (h : Half) : Half :=
  {| h_written := h_written h; h_pending := drop n (h_pending h); h_source := h_source h; h_buffer := take n (h_pending h);
     h_accepts := h_accepts h; h_room := h_room h; h_phase := h_phase h; h_delivered := h_delivered h; h_closed := h_closed h |}.
(** The destination took [k] bytes of the buffer. *)
Definition gave (k : nat) (h : Half) : Half :=
  {| h_written := h_written h; h_pending := h_pending h; h_source := h_source h; h_buffer := drop k (h_buffer h);
     h_accepts := h_accepts h; h_room := h_room h - k; h_phase := h_phase h;
     h_delivered := h_delivered h ++ take k (h_buffer h); h_closed := h_closed h |}.
Definition set_phase (p : Phase) (closed : bool) (h : Half) : Half :=
  {| h_written := h_written h; h_pending := h_pending h; h_source := h_source h; h_buffer := h_buffer h; h_accepts := h_accepts h;
     h_room := h_room h; h_phase := p; h_delivered := h_delivered h; h_closed := closed |}.
Definition peer_wrote (bs : str) (h : Half) : Half :=
  {| h_written := h_written h ++ bs; h_pending := h_pending h ++ bs; h_source := h_source h; h_buffer := h_buffer h;
     h_accepts := h_accepts h; h_room := h_room h; h_phase := h_phase h; h_delivered := h_delivered h; h_closed := h_closed h |}.
(** A connection that breaks may lose what was not read yet. *)
Definition peer_ended (s : Source) (k : nat) (h : Half) : Half :=
  {| h_written := h_written h; h_pending := take k (h_pending h); h_source := s; h_buffer := h_buffer h; h_accepts := h_accepts h;
     h_room := h_room h; h_phase := h_phase h; h_delivered := h_delivered h; h_closed := h_closed h |}.
Definition hung_up (h : Half) : Half :=
  {| h_written := h_written h; h_pending := h_pending h; h_source := h_source h; h_buffer := h_buffer h; h_accepts := false;
     h_room := h_room h; h_phase := h_phase h; h_delivered := h_delivered h; h_closed := h_closed h |}.
Definition made_room (n : nat) (h : Half) : Half :=
  {| h_written := h_written h; h_pending := h_pending h; h_source := h_source h; h_buffer := h_buffer h; h_accepts := h_accepts h;
     h_room := h_room h + n; h_phase := h_phase h; h_delivered := h_delivered h; h_closed := h_closed h |}.

(** ** Steps *)

(** The calls of a copy loop over a buffer of [limit] bytes: a read; the
    [write]s of a [write_all], each taking part of the buffer; one that fails;
    the end of the source, or a read error; and then the shutdown of the
    destination's write half ([shuts]: whether this direction has one). *)
Inductive copy_step (limit : nat) (shuts : bool) (h : Half) : Half → Prop :=
| cs_read n :
    h_phase h = Copying → h_buffer h = [] → 0 < n ≤ limit → n ≤ length (h_pending h) → copy_step limit shuts h (took n h)
| cs_write k :
    h_phase h = Copying → h_accepts h = true → 0 < k ≤ length (h_buffer h) → k ≤ h_room h → copy_step limit shuts h (gave k h)
| cs_write_fails :
    h_phase h = Copying → h_accepts h = false → h_buffer h ≠ [] → copy_step limit shuts h (set_phase Shutting (h_closed h) h)
| cs_end :
    h_phase h = Copying → h_buffer h = [] → h_pending h = [] → h_source h ≠ Open →
    copy_step limit shuts h (set_phase Shutting (h_closed h) h)
| cs_shut :
    h_phase h = Shutting → copy_step limit shuts h (set_phase Ended (shuts || h_closed h) h).

(** What the two peers do, at any moment: the source's writes, closes or
    breaks; the destination's reads, which makes room, or hangs up. *)
Inductive peer_step (h : Half) : Half → Prop :=
| ps_write bs : h_source h = Open → peer_step h (peer_wrote bs h)
| ps_finish : h_source h = Open → peer_step h (peer_ended Finished (length (h_pending h)) h)
| ps_break k : h_source h = Open → peer_step h (peer_ended Broken k h)
| ps_room n : peer_step h (made_room n h)
| ps_hang_up : peer_step h (hung_up h).

Definition with_up (h : Half) (t : Tunnel) : Tunnel := {| t_up := h; t_down := t_down t; t_returned := t_returned t |}.
Definition with_down (h : Half) (t : Tunnel) : Tunnel := {| t_up := t_up t; t_down := h; t_returned := t_returned t |}.

(** The tunnel's own steps: the spawned thread's copy, the main thread's copy,
    and the join, after which the function returns.  [shuts] says whether the
    main thread's direction ends with a shutdown. *)
Inductive tunnel_step (limit : nat) (shuts : bool) (t : Tunnel) : Tunnel → Prop :=
| ts_thread h : copy_step limit true (t_up t) h → tunnel_step limit shuts t (with_up h t)
| ts_main h : copy_step limit shuts (t_down t) h → tunnel_step limit shuts t (with_down h t)
| ts_join :
    h_phase (t_up t) = Ended → h_phase (t_down t) = Ended → t_returned t = false →
    tunnel_step limit shuts t {| t_up := t_up t; t_down := t_down t; t_returned := true |}.

Inductive tunnel_world (limit : nat) (shuts : bool) (t : Tunnel) : Tunnel → Prop :=
| tw_own t' : tunnel_step limit shuts t t' → tunnel_world limit shuts t t'
| tw_up h : peer_step (t_up t) h → tunnel_world limit shuts t (with_up h t)
| tw_down h : peer_step (t_down t) h → tunnel_world limit shuts t (with_down h t).

(** [devcroft proxy]: standard input goes to the socket on its own thread, the
    socket to standard output on the main one, which ends without a shutdown;
    [relay] reads at most 8192 bytes at a time. *)
Definition PROXY_BUFFER : nat := N.to_nat 8192.

Definition proxy_step : Tunnel → Tunnel → Prop := tunnel_world PROXY_BUFFER false.

(** [proxy]: the tunnel it runs, once connected. *)
Definition proxy (linux : bool) (v : ProcView) (accepts : str → bool) (clones : bool) (home : option str) (f : fs) (sandbox_name : str)
  : result ProxyError (str * Tunnel) :=
  sock ← proxy_socket_of linux v accepts home f sandbox_name;
  t ← ok_or (ProxyConnect (IoFailure "try_clone")) (splice clones);
  Ok (sock, t).

(** ** Accepting connections *)

(** [for stream in listener.incoming() { let Ok(stream) = stream else { continue }; .. }]. *)
Definition accepted {A} (incoming : list (result str A)) : list A :=
  omap (λ r, match r with Ok c => Some c | Err _ => None end) incoming.

Section accepting.
Context {C : Type} (connects clones : C → bool).

(** Each accepted client and its tunnel, [None] when it is dropped because
    the other side does not answer. *)
Definition relay_to_host_proxy (incoming : list (result str C)) : list (C * option Tunnel) :=
  (λ c, (c, if connects c then splice_tcp_to_unix (clones c) else None)) <$> accepted incoming.

(** [bridge_unix_to_tcp]: the same loop from the host's unix socket to the
    proxy's own port. *)
Definition bridge_unix_to_tcp (incoming : list (result str C)) : list (C * option Tunnel) :=
  (λ c, (c, if connects c then splice_unix (clones c) else None)) <$> accepted incoming.
End accepting.

(** ** The proxy's accept loop and log *)

Section serving.
Context (b64_decode : str → option str) {IpAddr Decision : Type}
        (to_socket_addrs : str → N → option (list IpAddr))
        (new_strict : list str → str → list IpAddr → Decision)
        (is_allowed : Decision → bool) (reason : Decision → str)
        (connect : IpAddr → N → bool).

(** A connection: the peer's address, when it can be told, the reads of its
    socket, and whether writes to it and to its upstream succeed. *)
Record Accepted := { ac_peer : option str; ac_reads : list (result str str); ac_client_ok : bool; ac_upstream_ok : bool }.

(** [run]: what each connection does; [None] when the log cannot be opened,
    which panics.  The allow list becomes one strict filter for all of them. *)
Definition run (allow : list str) (log_opens : bool) (token : str) (incoming : list (result str Accepted))
  : option (list (list (action IpAddr))) :=
  if log_opens then
    Some ((λ c, handle_connection b64_decode to_socket_addrs (new_strict allow) is_allowed reason connect
             (ac_client_ok c) (ac_upstream_ok c) (default ("unknown" : str) (ac_peer c)) token (ac_reads c)) <$> accepted incoming)
  else None.

(** The records of one connection, in order. *)
Definition records (l : list (action IpAddr)) : list str := omap (λ a, match a with Log line => Some line | _ => None end) l.
End serving.

(** [log_line]: one append per record; a poisoned lock or a failed write loses
    it (a write that fails is taken to have written nothing). *)
Definition log_line (usable : bool) (log line : str) : str := if usable then log ++ line ++ [NL] else log.

(** The file after these records, each with whether the log was usable then. *)
Definition log_after (recs : list (bool * str)) : str := foldl (λ (log : str) (e : bool * str), log_line e.1 log e.2) [] recs.
Definition kept (recs : list (bool * str)) : list str := omap (λ e : bool * str, if e.1 then Some e.2 else None) recs.

(** ** One direction *)

Record half_inv (h : Half) : Prop := {
  hi_prefix : h_delivered h `prefix_of` h_written h;
  hi_copying : h_phase h = Copying →
    ∃ lost, h_written h = h_delivered h ++ h_buffer h ++ h_pending h ++ lost ∧ (h_source h ≠ Broken → lost = []);
  hi_ended : h_phase h ≠ Copying → h_source h ≠ Open ∨ h_accepts h = false;
  hi_whole : h_phase h ≠ Copying → h_accepts h = true → h_source h = Finished → h_delivered h = h_written h;
  hi_closed : h_closed h = true → h_phase h = Ended;
}.

Lemma fresh_half_inv : half_inv fresh_half.
Proof. split; try done. by exists []. Qed.

Lemma peer_step_inv h h' : peer_step h h' → half_inv h → half_inv h'.
Proof.
  intros Hs [Hp Hc He Hw Hcl]. destruct Hs as [bs Ho|Ho|k Ho|n| ]; split; cbn; try done; try tauto.
  - by apply prefix_app_r.
  - intros Hph. destruct (Hc Hph) as (lost & E & Hl). rewrite Hl in E by by rewrite Ho. exists []. rewrite E, !app_nil_r, <- !app_assoc. done.
  - intros Hph Ha Hf. congruence.
  - intros Hph. destruct (Hc Hph) as (lost & E & Hl). rewrite Hl in E by by rewrite Ho. exists []. by rewrite firstn_all.
  - intros Hph Ha _. destruct (He Hph); congruence.
  - intros Hph. destruct (Hc Hph) as (lost & E & _). exists (drop k (h_pending h) ++ lost).
    rewrite E. split; [by rewrite take_drop_app|done].
Qed.

Lemma copy_step_inv limit shuts h h' : copy_step limit shuts h h' → half_inv h → half_inv h'.
Proof.
  intros Hs [Hp Hc He Hw Hcl]. destruct Hs as [n Hph Hb Hn Hl|k Hph Ha Hk Hr|Hph Ha Hb|Hph Hb Hnil Ho|Hph]; split; cbn; try done.
  - intros _. destruct (Hc Hph) as (lost & E & Hlost). exists lost. split; [|done]. by rewrite E, Hb, take_drop_app.
  - destruct (Hc Hph) as (lost & -> & _). apply prefix_app, prefix_app_r, prefix_take.
  - intros _. destruct (Hc Hph) as (lost & E & Hlost). exists lost. split; [|done]. by rewrite E, <- app_assoc, take_drop_app.
  - intros _. by right.
  - congruence.
  - intros Hx. specialize (Hcl Hx). congruence.
  - intros _. by left.
  - intros _ Ha Hf. destruct (Hc Hph) as (lost & E & Hlost). rewrite E, Hb, Hnil, Hlost by by rewrite Hf. by rewrite app_nil_r.
  - intros Hx. specialize (Hcl Hx). congruence.
  - intros _. apply He. by rewrite Hph.
  - intros _ Ha Hf. apply Hw; [by rewrite Hph|done..].
Qed.

(** ** Both directions *)

Section tunnel.
Context (limit : nat) (shuts : bool).

Record tunnel_inv (t : Tunnel) : Prop := {
  ti_up : half_inv (t_up t);
  ti_down : half_inv (t_down t);
  ti_returned : t_returned t = true → h_phase (t_up t) = Ended ∧ h_phase (t_down t) = Ended;
}.

Lemma peer_step_phase h h' : peer_step h h' → h_phase h' = h_phase h.
Proof. by destruct 1. Qed.

Lemma copy_step_running b h h' : copy_step limit b h h' → h_phase h ≠ Ended.
Proof. destruct 1; congruence. Qed.

Lemma tunnel_step_inv t t' : tunnel_step limit shuts t t' → tunnel_inv t → tunnel_inv t'.
Proof.
  intros Hs [Hu Hd Hr]. destruct Hs as [h Hs|h Hs|]; split; cbn; try done;
    try (by eapply copy_step_inv); intros Ht; destruct (Hr Ht); by apply copy_step_running in Hs.
Qed.

Lemma tunnel_world_inv t t' : tunnel_world limit shuts t t' → tunnel_inv t → tunnel_inv t'.
Proof.
  intros [t1 Hs|h Hs|h Hs]; [by apply tunnel_step_inv|..]; intros [Hu Hd Hr]; split; cbn; try done;
    try (by eapply peer_step_inv); by rewrite (peer_step_phase _ _ Hs).
Qed.

Lemma tunnel_reach_inv t0 t : splice true = Some t0 → rtc (tunnel_world limit shuts) t0 t → tunnel_inv t.
Proof.
  intros [= <-] Hr. match type of Hr with rtc _ ?t0 _ => assert (tunnel_inv t0) as Hi by (by split; [apply fresh_half_inv..|]) end.
  revert Hi. induction Hr as [|t1 t2 t3 Hs _ IH]; [done|]. intros Hi. by apply IH, (tunnel_world_inv t1).
Qed.

(** ** Termination *)

Definition phase_rank (p : Phase) : nat := match p with Copying => 2 | Shutting => 1 | Ended => 0 end.
Definition half_work (h : Half) : nat := 2 * length (h_pending h) + length (h_buffer h) + phase_rank (h_phase h).
Definition tunnel_work (t : Tunnel) : nat := half_work (t_up t) + half_work (t_down t) + (if t_returned t then 0 else 1).

Lemma copy_step_work b h h' : copy_step limit b h h' → half_work h' < half_work h.
Proof.
  intros Hs. destruct Hs as [n Hp Hb|k Hp|Hp|Hp Hn|Hp]; unfold half_work; cbn; rewrite ?length_drop, ?length_take, ?Hp, ?Hb; cbn; lia.
Qed.

Lemma tunnel_step_work t t' : tunnel_step limit shuts t t' → tunnel_work t' < tunnel_work t.
Proof.
  intros [h Hs|h Hs|_ _ Hr]; unfold tunnel_work; cbn [t_up t_down t_returned with_up with_down]; [apply copy_step_work in Hs; lia..|rewrite Hr; lia].
Qed.

(** A direction whose thread waits: for a source that may still write, or for
    its destination to take what was read. *)
Definition waits_source (h : Half) : Prop := h_phase h = Copying ∧ h_buffer h = [] ∧ h_pending h = [] ∧ h_source h = Open.
Definition waits_room (h : Half) : Prop := h_phase h = Copying ∧ h_buffer h ≠ [] ∧ h_accepts h = true ∧ h_room h = 0.
Definition waits (h : Half) : Prop := waits_source h ∨ waits_room h.

Lemma half_progress b h : 0 < limit → h_phase h = Ended ∨ waits h ∨ ∃ h', copy_step limit b h h'.
Proof.
  intros Hl. destruct (h_phase h) eqn:Hp; [|do 2 right; eexists; by apply cs_shut|by left].
  destruct (h_buffer h) as [|c buf] eqn:Hb.
  - destruct (h_pending h) as [|c p] eqn:Hn.
    + destruct (h_source h) eqn:Hs; [by right; left; left|do 2 right; eexists; apply cs_end; congruence..].
    + do 2 right. eexists. apply (cs_read _ _ _ 1); [done|done|lia|rewrite Hn; cbn; lia].
  - destruct (h_accepts h) eqn:Ha; [|do 2 right; eexists; apply cs_write_fails; congruence].
    destruct (h_room h) eqn:Hr; [right; left; right; split_and!; congruence|].
    do 2 right. eexists. apply (cs_write _ _ _ 1); [done|done|rewrite Hb; cbn; lia|lia].
Qed.

Lemma tunnel_progress t :
  0 < limit → t_returned t = true ∨ waits (t_up t) ∨ waits (t_down t) ∨ ∃ t', tunnel_step limit shuts t t'.
Proof.
  intros Hl. destruct (half_progress true (t_up t) Hl) as [Hu|[Hu|[h Hu]]]; [|tauto|do 3 right; eexists; by apply ts_thread].
  destruct (half_progress shuts (t_down t) Hl) as [Hd|[Hd|[h Hd]]]; [|tauto|do 3 right; eexists; by apply ts_main].
  destruct (t_returned t) eqn:Hr; [by left|]. do 3 right. eexists. by apply ts_join.
Qed.

(** A direction no peer has to do anything for any more: its source ended, and
    its destination takes all that is left, or is gone. *)
Definition settled (h : Half) : Prop :=
  h_source h ≠ Open ∧ (h_accepts h = false ∨ length (h_buffer h) + length (h_pending h) ≤ h_room h).

Lemma settled_step b h h' : copy_step limit b h h' → settled h → settled h'.
Proof.
  intros Hs [Ho Hr]. split; [by destruct Hs|]. destruct Hs as [n Hp Hb Hn Hl|k Hp Ha Hk Hk'|Hp Ha Hb|Hp Hb|Hp]; cbn; try done.
  - rewrite Hb in Hr. cbn in Hr. rewrite length_take, length_drop. destruct Hr as [?|Hr]; [by left|right; lia].
  - right. rewrite length_drop. destruct Hr as [?|Hr]; [congruence|lia].
Qed.

Lemma settled_waits h : settled h → ¬ waits h.
Proof.
  intros [Ho Hr] [(_ & _ & _ & Hs)|(_ & Hb & Ha & Hz)]; [done|]. destruct Hr as [?|Hr]; [congruence|].
  destruct (h_buffer h); [done|]. cbn in Hr. lia.
Qed.

(** A waiting direction does not move. *)
Lemma waits_stuck b h h' : waits h → ¬ copy_step limit b h h'.
Proof.
  intros [(Hp & Hb & Hn & Hs)|(Hp & Hb & Ha & Hz)] H; destruct H as [n ? ? ? Hl|k ? ? Hk Hr|?|?|?]; try congruence.
  - rewrite Hn in Hl. cbn in Hl. lia.
  - rewrite Hb in Hk. cbn in Hk. lia.
  - lia.
Qed.

Lemma waits_kept t t' :
  waits (t_up t) ∨ waits (t_down t) → t_returned t = false → rtc (tunnel_step limit shuts) t t' → t_returned t' = false.
Proof.
  intros Hw Hr Hs. induction Hs as [|t1 t2 t3 Hs _ IH]; [done|]. destruct Hs as [h Hs|h Hs|Hu Hd _]; cbn in *.
  - destruct Hw as [Hw|Hw]; [by apply waits_stuck in Hs|]. apply IH; [by right|done].
  - destruct Hw as [Hw|Hw]; [|by apply waits_stuck in Hs]. apply IH; [by left|done].
  - destruct Hw as [[(Hp & _)|(Hp & _)]|[(Hp & _)|(Hp & _)]]; congruence.
Qed.

(** ** Properties *)

(** C19: whatever the interleaving of the two copies with what the
    peers do, each direction delivers, in order and unaltered, a prefix of what
    its source wrote; a direction stops only because its source ended or its
    destination hung up; one whose source closed and whose destination still
    listens stops having delivered everything, and a destination is told that
    no more follows only after that; and the tunnel returns only after both
    directions stopped. *)
Theorem tunnel_in_order t0 t h (Ht0 : splice true = Some t0) (Ht : rtc (tunnel_world limit shuts) t0 t)
    (Hh : h = t_up t ∨ h = t_down t) :
  h_delivered h `prefix_of` h_written h ∧
  (h_closed h = true ∨ t_returned t = true → h_phase h = Ended) ∧
  (h_phase h ≠ Copying → (h_source h ≠ Open ∨ h_accepts h = false) ∧
     (h_source h = Finished → h_accepts h = true → h_delivered h = h_written h)).
Proof.
  destruct (tunnel_reach_inv t0 t Ht0 Ht) as [Hu Hd Hr].
  assert (half_inv h) as [Hp _ He Hw Hc] by by destruct Hh as [->| ->].
  split; [done|]. split; [|split; [by apply He|intros; by apply Hw]].
  intros [Hx|Hx]; [by apply Hc|]. destruct (Hr Hx). by destruct Hh as [->| ->].
Qed.

(** C18: the tunnel makes finitely many steps between two actions of
    its peers, and it stops there only when it has returned or when a direction
    waits for a peer: for a source that neither wrote nor closed, or for a
    destination that neither reads nor hangs up.  Such a peer holds the whole
    tunnel; once both sources have ended and each destination takes what is
    left, or is gone, the tunnel goes on until it returns, whatever the order
    of its steps. *)
Theorem tunnel_returns (Hlimit : 0 < limit) t :
  (∀ n t', nsteps (tunnel_step limit shuts) n t t' → n ≤ tunnel_work t) ∧
  (t_returned t = true ∨ waits (t_up t) ∨ waits (t_down t) ∨ ∃ t', tunnel_step limit shuts t t') ∧
  (waits (t_up t) ∨ waits (t_down t) → t_returned t = false → ∀ t', rtc (tunnel_step limit shuts) t t' → t_returned t' = false) ∧
  (settled (t_up t) → settled (t_down t) →
     (∃ t', rtc (tunnel_step limit shuts) t t' ∧ t_returned t' = true) ∧
     ∀ t', rtc (tunnel_step limit shuts) t t' → t_returned t' = true ∨ ∃ t'', tunnel_step limit shuts t' t'').
Proof.
  assert (∀ t t', tunnel_step limit shuts t t' → settled (t_up t) ∧ settled (t_down t) → settled (t_up t') ∧ settled (t_down t')) as Hset.
  { intros t1 t2 [h Hs|h Hs|_ _ _] [Hu Hd]; cbn; [split; [by eapply settled_step|done]|split; [done|by eapply settled_step]|done]. }
  split; [|split; [by apply tunnel_progress|split; [by intros Hw Hr t'; apply waits_kept|]]].
  - intros n t' Hn. induction Hn as [|n t1 t2 t3 Hs _ IH]; [lia|]. apply tunnel_step_work in Hs. lia.
  - intros Hu Hd. assert (∀ t, settled (t_up t) ∧ settled (t_down t) → t_returned t = true ∨ ∃ t', tunnel_step limit shuts t t') as Hgo.
    { intros t1 [H1 H2]. destruct (tunnel_progress t1 Hlimit) as [?|[Hw|[Hw|?]]]; [by left|by apply settled_waits in Hw..|by right]. }
    split.
    + remember (tunnel_work t) as w eqn:Ew. revert t Ew Hu Hd. induction (lt_wf w) as [w _ IH]. intros t -> Hu Hd.
      destruct (Hgo t (conj Hu Hd)) as [Hr|[t1 Hs]]; [by exists t|]. destruct (Hset _ _ Hs (conj Hu Hd)) as [Hu' Hd'].
      destruct (IH (tunnel_work t1) (tunnel_step_work t t1 Hs) t1 eq_refl Hu' Hd') as (t' & Ht' & Hr).
      exists t'. split; [|done]. by eapply rtc_l.
    + intros t' Hr. apply Hgo. revert Hu Hd. induction Hr as [|t1 t2 t3 Hs _ IH]; intros Hu Hd; [done|].
      destruct (Hset _ _ Hs (conj Hu Hd)). by apply IH.
Qed.
End tunnel.

(** ** Compositions *)

(** A tunnel whose client neither closed nor stopped listening has not
    returned, whatever its other side did. *)
Lemma open_client_holds_tunnel limit shuts t0 t :
  splice true = Some t0 → rtc (tunnel_world limit shuts) t0 t → h_source (t_up t) = Open → h_accepts (t_up t) = true →
  t_returned t = false.
Proof.
  intros Ht0 Ht Ho Ha. destruct (t_returned t) eqn:Hr; [|done].
  destruct (tunnel_reach_inv limit shuts t0 t Ht0 Ht) as [[_ _ He _ _] _ Hret]. destruct (Hret Hr) as [Hu _].
  destruct He as [Hs|Hs]; [by rewrite Hu|done|congruence].
Qed.

(** Two tunnels end to end, as an isolated sandbox's [relay_to_host_proxy] and
    the host's [bridge_unix_to_tcp]: what the first delivered is what the
    second reads, and the other way round. *)
Lemma hops_in_order limit1 shuts1 limit2 shuts2 t0 t1 t2 :
  splice true = Some t0 → rtc (tunnel_world limit1 shuts1) t0 t1 → rtc (tunnel_world limit2 shuts2) t0 t2 →
  h_written (t_up t2) `prefix_of` h_delivered (t_up t1) → h_written (t_down t1) `prefix_of` h_delivered (t_down t2) →
  h_delivered (t_up t2) `prefix_of` h_written (t_up t1) ∧ h_delivered (t_down t1) `prefix_of` h_written (t_down t2).
Proof.
  intros Ht0 H1 H2 Hu Hd.
  destruct (tunnel_reach_inv limit1 shuts1 t0 t1 Ht0 H1) as [[Hp1 _ _ _ _] [Hp1' _ _ _ _] _].
  destruct (tunnel_reach_inv limit2 shuts2 t0 t2 Ht0 H2) as [[Hp2 _ _ _ _] [Hp2' _ _ _ _] _].
  split; (etrans; [eassumption|]); etrans; eassumption.
Qed.

(** [devcroft proxy] bridges to the socket of a running sandbox. *)
Lemma proxy_bridges linux v accepts clones home f name sock t :
  proxy linux v accepts clones home f name = Ok (sock, t) →
  splice true = Some t ∧ ∃ p pid, state_paths home name = Ok p ∧ sock = ssh_socket p ∧ health linux v accepts f p = Ok (Healthy pid).
Proof.
  unfold proxy. destruct (proxy_socket_of linux v accepts home f name) as [s|] eqn:E; [|done]. cbn [mbind result_bind].
  destruct clones; [|done]. intros [= <- <-]. split; [done|]. by apply proxy_reaches_running in E as [_ ?].
Qed.

(** ** The log *)

Lemma position_none {A} (f : A → bool) l x : position f l = None → x ∈ l → f x = false.
Proof.
  induction l as [|y l IH]; [by intros _ ?%elem_of_nil|]. cbn. destruct (f y) eqn:Ey; [done|].
  destruct (position f l); [done|]. intros _ [->|Hx]%elem_of_cons; [done|by apply IH].
Qed.

Lemma position_first {A} (f : A → bool) l i :
  position f l = Some i → ∃ a x b, l = a ++ x :: b ∧ length a = i ∧ f x = true ∧ ∀ y, y ∈ a → f y = false.
Proof.
  revert i. induction l as [|y l IH]; intros i; cbn; [done|]. destruct (f y) eqn:Ey.
  - intros [= <-]. exists [], y, l. split_and!; [done..|]. by intros z ?%elem_of_nil.
  - destruct (position f l) as [j|]; [|done]. intros [= <-]. destruct (IH j eq_refl) as (a & x & b & -> & Hl & Hx & Ha).
    exists (y :: a), x, b. split_and!; [done|by rewrite <- Hl|done|]. intros z [->|Hz]%elem_of_cons; [done|by apply Ha].
Qed.

Lemma no_nl_prefix l : position is_nl l = None → NL ∉ l.
Proof. intros Hp Hin. apply (position_none _ _ _ Hp) in Hin. by vm_compute in Hin. Qed.

Lemma one_line_app a l : NL ∉ a → one_line l → one_line (a ++ l).
Proof.
  intros Ha (b & Hb & Hl). exists (a ++ b). split; [rewrite elem_of_app; tauto|].
  destruct Hl as [->| ->]; [by left|right; by rewrite app_assoc].
Qed.

(** What the reads of a connection may fail with: texts of one line. *)
Definition one_line_errors (chunks : list (result str str)) : Prop := ∀ e : str, Err e ∈ chunks → NL ∉ e.

Lemma read_until_nl_line limit buf chunks :
  one_line_errors chunks →
  match read_until_nl limit buf chunks with
  | Ok (l, r) => one_line l ∧ one_line_errors (rd_chunks r)
  | Err e => NL ∉ e
  end.
Proof.
  revert limit buf. induction chunks as [|c chunks IH]; intros limit buf Hc; cbn [read_until_nl];
    destruct (position is_nl (take limit buf)) as [i|] eqn:Ei.
  1, 3: split; [|done]; apply position_first in Ei as (a & x & b & Et & <- & Hx & Ha); unfold is_nl in Hx;
    apply bool_decide_eq_true in Hx; subst x; rewrite <- (take_drop limit buf), Et, <- app_assoc; cbn [app];
    rewrite (cons_middle NL a), app_assoc, take_app_length' by (rewrite length_app; cbn; lia);
    exists a; split; [|by right]; intros Hin; specialize (Ha _ Hin); by vm_compute in Ha.
  all: apply no_nl_prefix in Ei; destruct (limit <=? length buf) eqn:El; [by split; [exists (take limit buf); auto|]|];
    apply Nat.leb_gt in El; rewrite take_ge in Ei by lia.
  - split; [|done]. exists buf. auto.
  - assert (one_line_errors chunks) as Hc' by (intros e He; apply Hc; by right).
    destruct c as [[|x c]|e]; [split; [exists buf; by auto|done]| |apply Hc; by left].
    specialize (IH (limit - length buf) (x :: c) Hc'). destruct (read_until_nl _ _ _) as [[l r]|]; [|done].
    destruct IH as [IH ?]. split; [|done]. by apply one_line_app.
Qed.

Lemma read_capped_line_line r budget :
  one_line_errors (rd_chunks r) →
  match read_capped_line r budget with
  | Ok (line, r', _) => one_line line ∧ one_line_errors (rd_chunks r')
  | Err e => NL ∉ e
  end.
Proof.
  intros Hc. unfold read_capped_line. assert (∀ s : str, NL ∉ s → NL ∉ ("reading request: " ++ s : str)) as Hr.
  { intros s Hs. apply not_elem_of_app. split; [|done]. by apply (bool_decide_unpack _); vm_compute. }
  case_bool_decide; [by apply (bool_decide_unpack _); vm_compute|].
  pose proof (read_until_nl_line budget (rd_buf r) (rd_chunks r) Hc) as Hl.
  destruct (read_until_nl budget (rd_buf r) (rd_chunks r)) as [[out r1]|e]; [|by apply Hr].
  destruct (negb (utf8_valid out)); [apply Hr; by apply (bool_decide_unpack _); vm_compute|].
  destruct ((length out =? budget) && _); [by apply (bool_decide_unpack _); vm_compute|done].
Qed.

Lemma one_line_suffix a b : one_line (a ++ b) → one_line b.
Proof.
  intros (x & Hx & [<-|E]); [exists b; split; [|by left]; rewrite elem_of_app in Hx; tauto|].
  destruct b as [|z b _] using rev_ind; [exists []; split; [apply not_elem_of_nil|by left]|].
  rewrite app_assoc in E. apply app_inj_tail in E as [<- ->]. exists b. split; [|by right]. rewrite elem_of_app in Hx. tauto.
Qed.

(** The values of the headers are of one line. *)
Definition one_line_headers (h : headers) : Prop := ∀ v, h_host h = Some v → NL ∉ v.

Lemma header_line_one_line line h : one_line line → one_line_headers h → one_line_headers (header_line line h).
Proof.
  intros Hl Hh v. unfold header_line. destruct (split_once COLON line) as [[name value]|] eqn:E; [|apply Hh].
  apply split_once_spec in E as [E _]. rewrite E, (cons_middle COLON), app_assoc in Hl. apply one_line_suffix in Hl.
  destruct (eq_ignore_ascii_case _ "host"); [cbn; intros [= <-]; by apply trim_one_line|].
  destruct (eq_ignore_ascii_case _ _); cbn; apply Hh.
Qed.

Lemma read_headers_one_line fuel r budget h res :
  one_line_errors (rd_chunks r) → one_line_headers h → read_headers fuel r budget h = Some res →
  match res with Ok (h', _) => one_line_headers h' | Err e => NL ∉ e end.
Proof.
  revert r budget h. induction fuel as [|fuel IH]; intros r budget h Hr Hh; [done|]. cbn [read_headers].
  pose proof (read_capped_line_line r budget Hr) as Hl.
  destruct (read_capped_line r budget) as [[[line r1] b]|e]; [|by intros [= <-]]. destruct Hl as [Hl Hr1].
  destruct (_ || _); [by intros [= <-]|]. apply IH; [done|]. by apply header_line_one_line.
Qed.

Lemma split_host_port_one_line a d :
  NL ∉ a → match split_host_port a d with Ok (h, _) => NL ∉ h | Err e => NL ∉ e end.
Proof.
  intros Ha. assert (NL ∉ bad_host_port) as Hb by by apply (bool_decide_unpack _); vm_compute.
  assert (∀ p, match parse_port p with Ok _ => True | Err e => NL ∉ e end) as Hp.
  { intros p. unfold parse_port. by destruct (parse_unsigned _ _). }
  unfold split_host_port. destruct (strip_prefix "[" a) as [rest|] eqn:Es.
  - apply strip_prefix_spec in Es as ->. unfold ok_or. destruct (split_once "]" rest) as [[h t]|] eqn:E; [|done].
    apply split_once_spec in E as [-> _]. cbn [mbind result_bind].
    destruct (strip_prefix ":" t) as [p|]; [specialize (Hp p); destruct (parse_port p); [|done]|]; cbn;
      rewrite !elem_of_app in Ha; tauto.
  - destruct (rsplit_once COLON a) as [[h p]|] eqn:E; [|done]. apply rsplit_once_spec in E as [-> _].
    case_bool_decide; [done|]. specialize (Hp p). destruct (parse_port p); cbn; [|done]. rewrite elem_of_app in Ha. tauto.
Qed.

Lemma until_path_in x s : x ∈ until_path s → x ∈ s.
Proof.
  induction s as [|c s IH]; [done|]. cbn. destruct (_ || _); [by intros ?%elem_of_nil|].
  intros [->|Hx]%elem_of_cons; [by left|right; by apply IH].
Qed.

Lemma authority_one_line t o :
  NL ∉ t → (∀ v, o = Some v → NL ∉ v) → match authority_of t o with Ok a => NL ∉ a | Err e => NL ∉ e end.
Proof.
  intros Ht Ho. assert (∀ p r, strip_prefix p t = Some r → NL ∉ until_path r) as Hs.
  { intros p r ->%strip_prefix_spec Hin. apply until_path_in in Hin. apply Ht, elem_of_app. by right. }
  unfold authority_of. destruct (strip_prefix "http://" t) as [r|] eqn:E1; [by eapply Hs|].
  destruct (strip_prefix "https://" t) as [r|] eqn:E2; [by eapply Hs|].
  destruct o as [v|]; cbn; [by apply Ho|]. by apply (bool_decide_unpack _); vm_compute.
Qed.

Lemma request_parts_one_line l : NL ∉ l → match (request_parts l).2 with Some t => NL ∉ t | None => True end.
Proof.
  intros Hl. unfold request_parts. destruct (split_once SPACE l) as [[m r]|] eqn:E; [|done]. apply split_once_spec in E as [-> _].
  assert (NL ∉ r) as Hr by (intros Hin; apply Hl, elem_of_app; right; by right). cbn.
  destruct (split_once SPACE r) as [[t u]|] eqn:E2; [|done]. apply split_once_spec in E2 as [-> _]. rewrite elem_of_app in Hr. tauto.
Qed.

(** A request's host and the complaint about a malformed one are of one line. *)
Lemma read_target_one_line client :
  one_line_errors client →
  match read_target client with
  | Some (Ok (Some (t, _))) => NL ∉ host t
  | Some (Err e) => NL ∉ e
  | _ => True
  end.
Proof.
  intros Hc. unfold read_target.
  pose proof (read_capped_line_line {| rd_buf := []; rd_chunks := client |} MAX_HEADER_BYTES Hc) as Hl.
  destruct (read_capped_line _ _) as [[[line r] budget]|e]; [|done]. destruct Hl as [Hl Hr].
  destruct (length line =? 0); [done|]. pose proof (request_parts_one_line _ (trim_end_one_line _ Hl)) as Hp.
  destruct (request_parts (trim_end line)) as [method [t|]]; [|by apply (bool_decide_unpack _); vm_compute].
  cbn [snd] in Hp. destruct (read_headers _ _ _ _) as [hs|] eqn:Eh; [|done].
  apply read_headers_one_line in Eh; [|done..]. cbn [mbind option_bind].
  destruct hs as [[h r']|e]; [|done]. cbn [mbind result_bind]. destruct (eq_ignore_ascii_case method "CONNECT").
  - pose proof (split_host_port_one_line t 443 Hp) as Hs. by destruct (split_host_port t 443) as [[h0 p]|].
  - pose proof (authority_one_line t (h_host h) Hp Eh) as Ha. destruct (authority_of t (h_host h)) as [a|]; [|done]. cbn.
    pose proof (split_host_port_one_line a 80 Ha) as Hs. by destruct (split_host_port a 80) as [[h0 p]|].
Qed.

Lemma log_lines recs pre :
  (∀ l, l ∈ recs → NL ∉ l) → split_on NL (foldl (log_line true) (pre ++ [NL]) recs) = split_on NL pre ++ recs ++ [[]].
Proof.
  revert pre. induction recs as [|l recs IH]; intros pre Hn; cbn [foldl]; [by rewrite split_on_app|].
  unfold log_line at 2. rewrite app_assoc, IH by (intros; apply Hn; by right).
  rewrite <- app_assoc. cbn [app]. rewrite split_on_app, (split_on_plain _ l) by (apply Hn; by left). by rewrite <- app_assoc.
Qed.

Lemma log_lines_fresh recs : (∀ l, l ∈ recs → NL ∉ l) → split_on NL (foldl (log_line true) [] recs) = recs ++ [[]].
Proof.
  intros Hn. destruct recs as [|l recs]; [done|]. cbn [foldl]. unfold log_line at 2. cbn [app].
  rewrite log_lines by (intros; apply Hn; by right). by rewrite split_on_plain by (apply Hn; by left).
Qed.

Lemma log_after_kept recs : log_after recs = foldl (log_line true) [] (kept recs).
Proof.
  unfold log_after. generalize (@nil ascii) at 1 2. induction recs as [|[[] l] recs IH]; intros log; [done|exact (IH _)..].
Qed.

Section logging.
Context (b64_decode : str → option str) {IpAddr Decision : Type}
        (to_socket_addrs : str → N → option (list IpAddr))
        (new_strict : list str → str → list IpAddr → Decision)
        (is_allowed : Decision → bool) (reason : Decision → str)
        (connect : IpAddr → N → bool).

#[local] Abbreviation connection_of allow token c := (handle_connection b64_decode to_socket_addrs (new_strict allow) is_allowed reason connect
  (ac_client_ok c) (ac_upstream_ok c) (default ("unknown" : str) (ac_peer c)) token (ac_reads c)).

(** The request of a connection was authenticated, allowed, and its upstream answered. *)
Definition let_through (allow : list str) (token : str) (c : Accepted) (t : Target) : Prop :=
  ∃ r ips ip, read_target (ac_reads c) = Some (Ok (Some (t, r))) ∧ authorized b64_decode (proxy_auth t) token = true ∧
    default [] (to_socket_addrs (host t) (port t)) = ips ∧ is_allowed (new_strict allow (host t) ips) = true ∧
    ip ∈ ips ∧ connect ip (port t) = true.

Lemma records_dials (l : list IpAddr) p k : records (((λ ip, Dial ip p) <$> l) ++ k) = records k.
Proof. induction l as [|x l IH]; [done|]. exact IH. Qed.

(** The one record of a connection. *)
Lemma connection_records allow token c :
  let peer := default ("unknown" : str) (ac_peer c) in
  (records (connection_of allow token c) = [] ∧ ∀ a, a ∈ connection_of allow token c → outward a = false) ∨
  (∃ t, let_through allow token c t ∧ records (connection_of allow token c) = [log_target "allow" peer t]) ∨
  (∃ rest, records (connection_of allow token c) = ["refuse peer=" ++ peer ++ rest] ∧
     (∀ a, a ∈ connection_of allow token c → (∀ ip bs, a ≠ SendUpstream ip bs) ∧ ∀ ip k, a ≠ Splice ip k) ∧
     (one_line_errors (ac_reads c) → (∀ d, NL ∉ reason d) → NL ∉ rest)).
Proof.
  cbv zeta. set (peer := default ("unknown" : str) (ac_peer c)). unfold handle_connection.
  pose proof (read_target_one_line (ac_reads c)) as Hone.
  destruct (read_target (ac_reads c)) as [[[[t r]|]|e]|] eqn:Er.
  2, 4: left; split; [done|by intros a ?%elem_of_nil].
  2: { right. right. exists (" reason=malformed-request detail=" ++ e). split; [done|]. split; [by intros a Ha; in_list Ha|].
       intros Hc _. apply not_elem_of_app. split; [by apply (bool_decide_unpack _); vm_compute|by apply Hone]. }
  unfold handle_target. destruct (authorized b64_decode (proxy_auth t) token) eqn:Ea; cbn [negb].
  2: { right. right. exists " reason=unauthenticated". split; [done|]. split; [by intros a Ha; in_list Ha|].
       intros _ _. by apply (bool_decide_unpack _); vm_compute. }
  set (ips := default [] (to_socket_addrs (host t) (port t))).
  assert (∀ v, one_line_errors (ac_reads c) → NL ∉ v →
    NL ∉ (" host=" ++ host t ++ " port=" ++ show_N (port t)) ++ v) as Hrest.
  { intros v Hc Hv. rewrite !not_elem_of_app. split_and!; [by apply (bool_decide_unpack _); vm_compute|by apply Hone|
      by apply (bool_decide_unpack _); vm_compute|by apply show_N_not_in|done]. }
  destruct (is_allowed (new_strict allow (host t) ips)) eqn:Hal; cbn [negb].
  2: { right. right. exists ((" host=" ++ host t ++ " port=" ++ show_N (port t)) ++ " reason=" ++ reason (new_strict allow (host t) ips)).
       split; [unfold records, log_target; cbn; by rewrite <- !app_assoc|]. split; [by intros a Ha; in_list Ha|].
       intros Hc Hd. apply Hrest; [done|]. apply not_elem_of_app. split; [by apply (bool_decide_unpack _); vm_compute|done]. }
  pose proof (dial_spec connect ips (port t)) as Hd. destruct (dial connect ips (port t)) as [tried [ip|]].
  - destruct Hd as (failed & rest & _ & Hips & Hco & ->). right. left. exists t. split.
    + exists r, ips, ip. split_and!; try done. rewrite Hips. apply elem_of_app. right. by left.
    + cbn [records omap list_omap]. fold (records (IpAddr := IpAddr)).
      destruct (is_connect t), (ac_client_ok c), (ac_upstream_ok c);
        (etrans; [apply records_dials|done]).
  - destruct Hd as (failed & rest & _ & Hips & ->). right. right.
    exists ((" host=" ++ host t ++ " port=" ++ show_N (port t)) ++ " reason=connect-failed"). split; [|split].
    + etrans; [apply records_dials|]. unfold records, log_target. cbn. by rewrite <- !app_assoc.
    + intros a [->|[(x & -> & _)%list_elem_of_fmap|Ha]%elem_of_app]%elem_of_cons; [done..|by in_list Ha].
    + intros Hc Hd. apply Hrest; [done|]. by apply (bool_decide_unpack _); vm_compute.
Qed.

Lemma run_connection allow token incoming conns conn :
  run b64_decode to_socket_addrs new_strict is_allowed reason connect allow true token incoming = Some conns → conn ∈ conns →
  ∃ c, Ok c ∈ incoming ∧ conn = connection_of allow token c.
Proof.
  intros [= <-] (c & -> & Hc)%list_elem_of_fmap. exists c. split; [|done].
  apply list_elem_of_omap in Hc as ([c'|] & Hin & E); [|done]. by injection E as ->.
Qed.

Lemma log_target_plain verb peer t : NL ∉ verb → NL ∉ peer → NL ∉ host t → NL ∉ log_target verb peer t.
Proof.
  intros Hv Hp Hh. unfold log_target. rewrite !not_elem_of_app.
  split_and!; try done; try (by apply show_N_not_in); by apply (bool_decide_unpack _); vm_compute.
Qed.

End logging.

(** ** Concrete tunnels *)

(** The upstream answers and closes while the client stays connected and
    silent: the client gets the answer and the end of the stream, and the two
    threads of the tunnel wait for it. *)
Definition half_open : Tunnel :=
  {| t_up := fresh_half;
     t_down := {| h_written := "bye"; h_pending := []; h_source := Finished; h_buffer := []; h_accepts := true; h_room := 0;
                  h_phase := Ended; h_delivered := "bye"; h_closed := true |};
     t_returned := false |}.

Lemma half_open_reached : ∃ t0, splice true = Some t0 ∧ rtc (tunnel_world 64 true) t0 half_open.
Proof.
  eexists. split; [done|].
  eapply rtc_l; [apply tw_down, (ps_write _ "bye"); done|].
  eapply rtc_l; [apply tw_down, (ps_room _ 3)|].
  eapply rtc_l; [apply tw_own, ts_main, (cs_read _ _ _ 3); [done|done|vm_compute; lia..]|].
  eapply rtc_l; [apply tw_own, ts_main, (cs_write _ _ _ 3); [done|done|vm_compute; lia..]|].
  eapply rtc_l; [apply tw_down, ps_finish; done|].
  eapply rtc_l; [by apply tw_own, ts_main, cs_end|].
  eapply rtc_l; [by apply tw_own, ts_main, cs_shut|]. done.
Qed.

(** The two threads of such a connection stay for as long as the client does. *)
Lemma half_open_stuck t : ¬ tunnel_step 64 true half_open t.
Proof.
  intros Hs. inversion Hs as [h Hh|h Hh|Hu]; subst; [|inversion Hh; subst; cbn in *; (done || lia)|done].
  apply waits_stuck in Hh; [done|]. by left.
Qed.

(** A client that asked for much, closed its write half and stopped reading
    holds its tunnel too, long after its upstream has closed. *)
Definition unread_answer : Tunnel :=
  {| t_up := {| h_written := []; h_pending := []; h_source := Finished; h_buffer := []; h_accepts := true; h_room := 0; h_phase := Ended;
                h_delivered := []; h_closed := true |};
     t_down := {| h_written := "answer"; h_pending := []; h_source := Finished; h_buffer := "wer"; h_accepts := true; h_room := 0;
                  h_phase := Copying; h_delivered := "ans"; h_closed := false |};
     t_returned := false |}.

Lemma unread_answer_held : (∃ t0, splice true = Some t0 ∧ rtc (tunnel_world 64 true) t0 unread_answer) ∧
  ∀ t, ¬ tunnel_step 64 true unread_answer t.
Proof.
  split.
  - eexists. split; [done|].
    eapply rtc_l; [by apply tw_up, ps_finish|]. eapply rtc_l; [by apply tw_own, ts_thread, cs_end|].
    eapply rtc_l; [by apply tw_own, ts_thread, cs_shut|].
    eapply rtc_l; [apply tw_down, (ps_write _ "answer"); done|]. eapply rtc_l; [by apply tw_down, ps_finish|].
    eapply rtc_l; [apply tw_down, (ps_room _ 3)|].
    eapply rtc_l; [apply tw_own, ts_main, (cs_read _ _ _ 6); [done|done|vm_compute; lia..]|].
    eapply rtc_l; [apply tw_own, ts_main, (cs_write _ _ _ 3); [done|done|vm_compute; lia..]|]. done.
  - intros t Hs. inversion Hs as [h Hh|h Hh|Hu]; subst; [inversion Hh; subst; cbn in *; (done || lia)| |done].
    apply waits_stuck in Hh; [done|]. by right.
Qed.

Lemma tunnel_in_order_witness :
  ∃ t0, splice true = Some t0 ∧ rtc (tunnel_world 64 true) t0 half_open ∧
    h_delivered (t_down half_open) = h_written (t_down half_open).
Proof.
  destruct half_open_reached as (t0 & Ht0 & Hr). exists t0. split; [done|]. split; [done|].
  destruct (tunnel_in_order 64 true t0 half_open _ Ht0 Hr (or_intror eq_refl)) as (_ & _ & Hs).
  destruct Hs as [_ Hs]; [done|]. by apply Hs.
Defined.

Lemma tunnel_returns_witness :
  ∃ t, rtc (tunnel_step 64 true)
    {| t_up := peer_ended Finished 0 fresh_half; t_down := made_room 2 (peer_ended Finished 2 (peer_wrote "ok" fresh_half)); t_returned := false |} t ∧
    t_returned t = true.
Proof.
  destruct (tunnel_returns 64 true ltac:(lia)
    {| t_up := peer_ended Finished 0 fresh_half; t_down := made_room 2 (peer_ended Finished 2 (peer_wrote "ok" fresh_half)); t_returned := false |})
    as (_ & _ & _ & Hr).
  apply Hr; (split; [done|right; vm_compute; lia]).
Defined.

(** Two connections, one of them without a credential. *)
Definition sample_incoming : list (result str Accepted) :=
  [Ok {| ac_peer := Some ("127.0.0.1:9" : str); ac_reads := [Ok connect_request]; ac_client_ok := true; ac_upstream_ok := true |};
   Err ("aborted" : str);
   Ok {| ac_peer := None; ac_reads := [Ok ("GET http://ex.com/ HTTP/1.1" ++ CRLF ++ CRLF)]; ac_client_ok := true; ac_upstream_ok := true |}].

Definition sample_serve : option (list (list (action N))) :=
  run sample_b64 (λ _ _, Some [1%N]) (λ _ _ _, true) (λ b : bool, b) (λ _, "no" : str) (λ _ _, true) [] true "tok" sample_incoming.

Definition sample_records : list (bool * str) :=
  [(true, "refuse peer=unknown reason=unauthenticated" : str); (false, "refuse peer=unknown reason=unauthenticated" : str);
   (true, "allow peer=127.0.0.1:9 host=ex.com port=443" : str)].

