(* ===== verification/Netns.v ===== *)
(** * Network namespaces and the probes ([src/fleet/netns.rs], [src/bin/devcroft.rs])

    How a process gets a network namespace of its own with a working loopback,
    and the hidden subcommands in which [doctor] and [up] try out what a host
    allows: each runs in a process of its own, because what it does cannot be
    undone.  The kernel's answers are parameters; what a process asks of it is
    the sequence of its calls. *)

From S2P Require Import Prelude Manifest Policy Capability.

#[local] Set Default Proof Using "Type".

(** ** Calls *)

(** [ifreq]: the 16 bytes of the name and the flags. *)
Record IfReq := { if_name : str; if_flags : Z }.

Inductive KCall :=
| KSetsid
| KUnshare                       (* CLONE_NEWUSER | CLONE_NEWNET *)
| KWriteFile (path text : str)
| KSocket
| KGetFlags (fd : Z) (name : str)
| KSetFlags (fd : Z) (req : IfReq)
| KClose (fd : Z).

#[export] Instance KCall_dec : EqDecision KCall.
Proof. assert (EqDecision IfReq) by solve_decision. solve_decision. Defined.

(** Computations that call the kernel: the calls made, and the result. *)
Definition Sys (A : Type) : Type := list KCall * result str A.

#[export] Instance Sys_ret : MRet Sys := λ A a, ([], Ok a).
#[export] Instance Sys_bind : MBind Sys := λ A B f m,
  match m with
  | (ks, Ok a) => let '(ks', r) := f a in (ks ++ ks', r)
  | (ks, Err e) => (ks, Err e)
  end.

Definition IFF_UP : Z := 1.
Definition IFF_RUNNING : Z := 64.
Definition IF_NAMESIZE : nat := 16.

(** The name of the loopback interface, padded with zero bytes. *)
Definition LO : str := "lo".
Definition lo_name : str := LO ++ replicate (IF_NAMESIZE - length LO) "000"%char.

Section netns.
(** Whether this is Linux; the kernel's answer to a call and, for a socket and a
    flags query, the value; the ids of this process. *)
Context (linux : bool) (kernel : KCall → result str unit) (socket_fd : Z) (flags_of : Z) (uid gid : N).

Definition kcall (k : KCall) : Sys unit := ([k], kernel k).

Definition unsupported {A} (e : str) : Sys A := ([], Err e).

(** The ids are those before the new namespaces are entered. *)
Definition enter_network_namespace : Sys unit :=
  if linux then
    _ ← kcall KUnshare;
    _ ← kcall (KWriteFile "/proc/self/setgroups" "deny");
    _ ← kcall (KWriteFile "/proc/self/uid_map" ("0 " ++ show_N uid ++ " 1"));
    kcall (KWriteFile "/proc/self/gid_map" ("0 " ++ show_N gid ++ " 1"))
  else unsupported "per-agent network namespaces are Linux-only; fleet does not run on this platform".

Definition set_loopback_up_flag (fd : Z) : Sys unit :=
  _ ← kcall (KGetFlags fd lo_name);
  kcall (KSetFlags fd {| if_name := lo_name; if_flags := Z.lor flags_of (Z.lor IFF_UP IFF_RUNNING) |}).

(** The socket is closed whatever became of the flags. *)
Definition bring_loopback_up : Sys unit :=
  if linux then
    _ ← kcall KSocket;
    let '(ks, r) := set_loopback_up_flag socket_fd in (ks ++ [KClose socket_fd], r)
  else unsupported "loopback configuration is Linux-only".

(** What [spawn_keeper]'s child does before it becomes the keeper. *)
Definition keeper_pre_exec (isolate_network : bool) : Sys unit :=
  _ ← kcall KSetsid;
  if isolate_network then _ ← enter_network_namespace; bring_loopback_up else mret tt.

(** ** The namespace probe *)

(** [__netns_probe [--reachable]]: the exit code.  [listens] is whether a
    listener can be bound to a free port of 127.0.0.1 and named, [reply] what a
    client of it reads, if it can connect. *)
Definition netns_probe_main (args : list str) (listens : bool) (reply : option str) : Z :=
  match enter_network_namespace.2 with
  | Err _ => 1
  | Ok _ =>
      if negb (existsb (λ a, bool_decide (a = ("--reachable" : str))) args) then 0
      else match bring_loopback_up.2 with
           | Err _ => 1
           | Ok _ => if negb listens then 1 else if bool_decide (reply = Some ("PONG" : str)) then 0 else 1
           end
  end.

(** [__netns_agent_sim <agent> <port> [--hold]]: the exit code and what it prints. *)
Definition netns_agent_sim_main (args : list str) (binds : N → bool) (reply : option str) : Z * str :=
  match args with
  | agent :: port_arg :: _ =>
      match parse_unsigned U16_MAX port_arg with
      | None => (2, [])
      | Some port =>
          match (_ ← enter_network_namespace; bring_loopback_up).2 with
          | Err _ => (1, [])
          | Ok _ =>
              if negb (binds port) then (1, [])
              else if existsb (λ a, bool_decide (a = ("--hold" : str))) args then (0, ("READY" : str))
              else match reply with
                   | None => (1, [])
                   | Some buf => ((if bool_decide (buf = "served-by-" ++ agent) then 0 else 1), buf)
                   end
          end
      end
  | _ => (2, [])
  end%Z.
End netns.

(** [probe]: whether a child running [__netns_probe] ended with code 0 (no code
    when a signal killed it); an error when it could not be started. *)
Definition probe (child : result str (option Z)) : result str bool := (λ status, bool_decide (status = Some 0%Z)) <$> child.

(** ** The policy probes *)

Section probes.
Context {caps : Type} `{CapBuilder caps}.
Context (home : str) (exists_path is_dir : str → bool) (canonicalize : str → result str str)
        (current_dir : result str str) (apply_auto : caps → result str unit).

(** The plan [__bind_probe] restricts itself to. *)
Definition bind_probe_plan (port : N) : CapabilityPlan :=
  {| plan_allow := []; plan_read := []; plan_deny := []; plan_block := true; plan_ports := [port];
     plan_proxy_port := None; plan_sockets := []; plan_signal_mode := SIGNAL_MODE |}.

Definition bind_probe_main (args : list str) (binds : N → bool) : Z :=
  match head args ≫= parse_unsigned U16_MAX with
  | None => 2
  | Some port =>
      let cwd := match current_dir with Ok d => d | Err _ => ("/" : str) end in
      match to_capability_set home exists_path is_dir canonicalize (bind_probe_plan port) cwd with
      | Err _ => 1
      | Ok c => match apply_auto c with Err _ => 1 | Ok _ => if binds port then 0 else 1 end
      end
  end.

(** [__uds_probe <socket> [--grant]]: can a process restricted to its directory
    reach a socket, with or without a grant for it? *)
Definition uds_probe_main (args : list str) (connects : str → bool) : Z :=
  match args with
  | [] => 2
  | sock :: _ =>
      let grant := existsb (λ a, bool_decide (a = ("--grant" : str))) args in
      match current_dir with
      | Err _ => 2
      | Ok cwd =>
          match
            (c ← cap_apply cap_new (AllowPath cwd ModeReadWrite);
             c ← (if grant then cap_apply c (AllowFile sock ModeReadWrite) else Ok c);
             apply_auto c)
          with
          | Err _ => 2
          | Ok _ => if connects sock then 0 else 1
          end
      end
  end.
End probes.

(** ** Properties *)

Section isolated.
Context (kernel : KCall → result str unit) (socket_fd flags_of : Z) (uid gid : N).

(** Everything that must succeed, in order. *)
Definition SETUP : list KCall :=
  [KSetsid; KUnshare; KWriteFile "/proc/self/setgroups" "deny"; KWriteFile "/proc/self/uid_map" ("0 " ++ show_N uid ++ " 1");
   KWriteFile "/proc/self/gid_map" ("0 " ++ show_N gid ++ " 1"); KSocket; KGetFlags socket_fd lo_name;
   KSetFlags socket_fd {| if_name := lo_name; if_flags := Z.lor flags_of (Z.lor IFF_UP IFF_RUNNING) |}].

(** The calls up to and including the first that fails. *)
Fixpoint attempted (ks : list KCall) : list KCall :=
  match ks with
  | [] => []
  | k :: ks => k :: (match kernel k with Ok _ => attempted ks | Err _ => [] end)
  end.

Fixpoint outcome (ks : list KCall) : result str unit :=
  match ks with
  | [] => Ok tt
  | k :: ks => match kernel k with Ok _ => outcome ks | Err e => Err e end
  end.

Lemma outcome_ok ks : is_ok (outcome ks) = true ↔ Forall (λ k, is_ok (kernel k) = true) ks.
Proof.
  induction ks as [|k ks IH]; cbn; [by split|]. rewrite Forall_cons, <- IH. destruct (kernel k); cbn; naive_solver.
Qed.

Lemma attempted_prefix ks : attempted ks `prefix_of` ks.
Proof. induction ks as [|k ks IH]; cbn; [done|]. apply prefix_cons. destruct (kernel k); [done|apply prefix_nil]. Qed.

(** The keeper's child, before it becomes the keeper: it leads a
    session of its own and then takes the steps of the namespace in the one order
    that works (the mapping of groups after [setgroups] was denied, the loopback
    after the mappings), stops at the first that fails, which is its error, and
    succeeds exactly when all do; the socket it opened for the loopback is
    closed whatever happened after. *)
Theorem keeper_child_isolated :
  keeper_pre_exec true kernel socket_fd flags_of uid gid true =
    (attempted SETUP ++ (if bool_decide (KGetFlags socket_fd lo_name ∈ attempted SETUP) then [KClose socket_fd] else []),
     outcome SETUP) ∧
  attempted SETUP `prefix_of` SETUP ∧
  (is_ok (outcome SETUP) = true ↔ Forall (λ k, is_ok (kernel k) = true) SETUP).
Proof.
  split; [|split; [apply attempted_prefix|apply outcome_ok]].
  unfold keeper_pre_exec, enter_network_namespace, bring_loopback_up, set_loopback_up_flag, SETUP, kcall.
  cbn -[lo_name show_N Z.lor]. repeat match goal with
    | |- context [match kernel ?k with Ok _ => _ | Err _ => _ end] => destruct (kernel k) as [[]|]; cbn -[lo_name show_N Z.lor] end;
    try reflexivity.
  all: rewrite bool_decide_true by (rewrite !elem_of_cons; tauto); reflexivity.
Qed.

(** The flags that are set are the ones read, with the two of an interface that
    is up; the name fills its 16 bytes. *)
Lemma loopback_request :
  length lo_name = IF_NAMESIZE ∧ strip_prefix LO lo_name = Some (replicate 14 "000"%char) ∧
  ∀ i, (0 ≤ i)%Z → Z.testbit (Z.lor flags_of (Z.lor IFF_UP IFF_RUNNING)) i =
    (Z.testbit flags_of i || bool_decide (i = 0%Z) || bool_decide (i = 6%Z)).
Proof.
  split; [done|]. split; [done|]. intros i Hi. rewrite !Z.lor_spec, <- orb_assoc. f_equal.
  change IFF_UP with (2 ^ 0)%Z. change IFF_RUNNING with (2 ^ 6)%Z. rewrite !Z.pow2_bits_eqb by lia. f_equal.
  - case_bool_decide; [apply Z.eqb_eq; lia|apply Z.eqb_neq; lia].
  - case_bool_decide; [apply Z.eqb_eq; lia|apply Z.eqb_neq; lia].
Qed.

(** The steps [up]'s probe tries out. *)
Definition PROBED : list KCall := take 4 (drop 1 SETUP).

(** [up] asks only whether the namespace can be entered: its probe succeeds
    exactly when those four steps do. *)
Lemma probe_asks listens reply :
  netns_probe_main true kernel socket_fd flags_of uid gid [] listens reply = 0%Z ↔ Forall (λ k, is_ok (kernel k) = true) PROBED.
Proof.
  unfold netns_probe_main, enter_network_namespace, kcall, PROBED, SETUP. cbn -[show_N].
  rewrite !Forall_cons, Forall_nil.
  repeat match goal with |- context [match kernel ?k with Ok _ => _ | Err _ => _ end] => destruct (kernel k) as [[]|]; cbn -[show_N] end;
    naive_solver.
Qed.
End isolated.

(** A host on which the namespace can be entered and its loopback not brought
    up: the probe succeeds, so [up] asks for isolation instead of degrading,
    and the keeper it starts fails. *)
Definition no_loopback (k : KCall) : result str unit :=
  match k with KSetFlags _ _ => Err ("Operation not permitted" : str) | _ => Ok tt end.

Lemma probe_misses_loopback :
  probe (Ok (Some (netns_probe_main true no_loopback 3 8 1000 1000 [] true None))) = Ok true ∧
  is_ok (keeper_pre_exec true no_loopback 3 8 1000 1000 true).2 = false.
Proof. by vm_compute. Qed.

(** ** The policy probes *)

(** The calls of a plan that concern the network and signals. *)
Definition network_calls (plan : CapabilityPlan) : list cap_call :=
  network_call plan :: (AllowLocalhostPort <$> plan_ports plan) ++ (AllowUnixSocket <$> plan_sockets plan) ++ [SetSignalIsolated].

Section bind_probe.
Context {caps : Type} `{CapBuilder caps}.
Context (home : str) (exists_path is_dir : str → bool) (canonicalize : str → result str str)
        (current_dir : result str str) (apply_auto : caps → result str unit).

(** [doctor]'s bind probe tells what a manifest's services may
    expect: its exit code is 0 exactly when the backend accepts and applies the
    restrictions the probe asks for and the port can then be bound, and those
    are, call for call, the network restrictions of every manifest that denies
    the network but for that port; it grants no path. *)
Theorem bind_probe_is_manifest os m port (binds : N → bool)
    (Hdeny : net_default (m_network m) = Deny) (Hports : net_ports (m_network m) = [port]) (Hp : (port ≤ U16_MAX)%N) :
  network_calls (bind_probe_plan port) = network_calls (to_capability_plan (compile os m)) ∧
  (bind_probe_main home exists_path is_dir canonicalize current_dir apply_auto [show_N port] binds = 0%Z ↔
     ∃ c, replay cap_new (network_calls (bind_probe_plan port)) = Ok c ∧ is_ok (apply_auto c) = true ∧ binds port = true).
Proof.
  split.
  - unfold network_calls, network_call, to_capability_plan, compile. cbn. rewrite Hdeny, Hports. done.
  - unfold bind_probe_main. cbn [head mbind option_bind]. rewrite parse_show_N by done.
    unfold to_capability_set, bind_probe_plan, network_calls, network_call. cbn.
    unfold call. destruct (cap_apply cap_new BlockNetwork) as [c1|]; cbn; [|naive_solver].
    destruct (cap_apply c1 (AllowLocalhostPort port)) as [c2|]; cbn; [|naive_solver].
    destruct (cap_apply c2 SetSignalIsolated) as [c3|]; cbn; [|naive_solver].
    rewrite bool_decide_true by done. split.
    + destruct (apply_auto c3) eqn:Ea; [|done]. destruct (binds port) eqn:Eb; [|done]. intros _. exists c3. by rewrite Ea.
    + intros (c & [= <-] & Ha & ->). by destruct (apply_auto c3).
Qed.

(** What the socket probe grants. *)
Lemma uds_probe_codes sock args (connects : str → bool) :
  let code := uds_probe_main current_dir apply_auto (sock :: args) connects in
  (code = 0%Z → connects sock = true) ∧ (code = 1%Z → connects sock = false) ∧ (0 ≤ code ≤ 2)%Z.
Proof.
  unfold uds_probe_main. destruct current_dir as [cwd|]; [|done].
  destruct (cap_apply cap_new _) as [c|]; cbn; [|done].
  match goal with |- context [?m ≫= _] => destruct (m ≫= λ c, apply_auto c) end; [|done]. by destruct (connects sock).
Qed.
End bind_probe.

Definition port_manifest : Manifest :=
  let m := sample_manifest (strs ["."]) [] in
  {| m_sandbox := m_sandbox m; m_env := m_env m; m_filesystem := m_filesystem m;
     m_network := {| net_default := Deny; net_allow := []; net_ports := [47823%N] |}; m_ssh := m_ssh m; m_hooks := m_hooks m |}.

Lemma bind_probe_is_manifest_witness :
  network_calls (bind_probe_plan 47823) = network_calls (to_capability_plan (compile Linux port_manifest)).
Proof.
  apply (bind_probe_is_manifest (caps := list cap_call) "/h" (λ _, true) (λ _, true) Ok (Ok ("/p" : str)) (λ _, Ok tt)
    Linux port_manifest 47823 (λ _, true)); [reflexivity|reflexivity|by vm_compute].
Defined.
