(* ===== verification/Doctor.v ===== *)
(** * The host check ([doctor] in [src/bin/devcroft.rs])

    What [devcroft doctor] prints and its exit code.  Each check is the lines it
    prints and its verdict; what the checks ask of the host (commands, probes
    run as processes of their own, a socket, the backend) are the fields of the
    interface [Probes]. *)

From S2P Require Import Prelude Paths ProviderKind Manifest Validate Config Policy Capability Protocol Exec Services State World Flox Up SshConfig Status Init Cli Netns.

#[local] Set Default Proof Using "Type".

(** ** Data *)

Inductive Level := PASS | WARN | FAIL | INFO | MORE.
#[export] Instance Level_dec : EqDecision Level. Proof. solve_decision. Defined.

(** A printed line; [MORE] continues the line before it. *)
Record Line := { ln_level : Level; ln_text : str }.

(** [nono::Sandbox::support_info]. *)
Record SupportInfo := { is_supported : bool; platform : str; details : str }.

(** What the checks ask.  A command's answer is [None] when it could not be
    started, otherwise its success and standard output; [pb_self] runs this
    executable with arguments ([None] when it does not know its own path) and
    gives its exit code, if it had one. *)
Class Probes := {
  pb_os : Os;
  pb_support : SupportInfo;
  pb_flox_version : option (bool * str);
  pb_nix_version : option (bool * str);
  pb_devbox_version : option (bool * str);
  pb_nix_eval : option bool;
  pb_daemon_socket_exists : bool;
  pb_daemon_socket_accepts : bool;
  pb_self : list str → option (result str (option Z));
  pb_current_dir : result str str;
  pb_home : option str;
}.

Definition line (l : Level) (t : str) : Line := {| ln_level := l; ln_text := t |}.

(** [host_can_build_nix_closures]. *)
Definition host_can_build_nix_closures `{Probes} : bool := negb pb_daemon_socket_exists || pb_daemon_socket_accepts.

(** A successful [--version]: the version it printed. *)
Definition version_of (out : option (bool * str)) : option str :=
  match out with Some (true, stdout) => Some (trim (from_utf8_lossy stdout)) | _ => None end.

Definition DAEMON_SOCKET : str := "/nix/var/nix/daemon-socket/socket".
(** A double quote. *)
Definition DQ : str := ["034"%char].
Definition PROBE_PORT : N := 47823.

(** ** Checks *)

Section doctor.
Context `{Probes}.
Context (parse_table : str → result str (list (str * toml))) (try_into : list (str * toml) → result str RawManifest).

Definition doctor_backend : list Line * bool :=
  let s := pb_support in
  (if is_supported s then
     line PASS ("backend: " ++ platform s ++ " — " ++ details s)
     :: ((λ d, line WARN ("backend: " ++ show_degraded d)) <$> host_limitations pb_os)
   else [line FAIL ("backend: " ++ platform s ++ " does not support sandboxing — " ++ details s)],
   is_supported s).

Definition doctor_flox_provider (required : bool) : list Line * bool :=
  match version_of pb_flox_version with
  | Some version => ([line PASS ("provider: flox found (" ++ version ++ ")")], true)
  | None =>
      if required then ([line FAIL "provider: flox not found on PATH — install it from https://flox.dev"], false)
      else ([line WARN ("provider: flox not found on PATH — only needed for projects with `provider = " ++ DQ ++ "flox" ++ DQ ++ "`")], true)
  end.

(** [nix eval --expr 1]. *)
Definition nix_eval_ok : bool := default false pb_nix_eval.

Definition doctor_nix_provider (required : bool) : list Line * bool :=
  match version_of pb_nix_version with
  | None =>
      if required then
        ([line FAIL ("provider: nix not found on PATH, but this project declares `provider = " ++ DQ ++ "nix" ++ DQ ++ "` — install it from https://nixos.org/download")], false)
      else ([line WARN ("provider: nix not found on PATH — only needed for projects with `provider = " ++ DQ ++ "nix" ++ DQ ++ "`")], true)
  | Some version =>
      if nix_eval_ok then ([line PASS ("provider: nix found (" ++ version ++ "), flakes enabled")], true)
      else ([line FAIL ("provider: nix found (" ++ version ++ ") but flake commands are rejected — add `experimental-features = nix-command flakes` to nix.conf")], false)
  end.

Definition doctor_devbox_provider (required : bool) : list Line * bool :=
  match version_of pb_devbox_version with
  | None =>
      if required then
        ([line FAIL ("provider: devbox not found on PATH, but this project declares `provider = " ++ DQ ++ "devbox" ++ DQ ++ "` — install it from https://www.jetify.com/devbox")], false)
      else ([line WARN ("provider: devbox not found on PATH — only needed for projects with `provider = " ++ DQ ++ "devbox" ++ DQ ++ "`")], true)
  | Some version =>
      if nix_eval_ok then ([line PASS ("provider: devbox found (" ++ version ++ "), nix usable")], true)
      else if required then
        ([line FAIL ("provider: devbox found (" ++ version ++ ") but Nix is not usable — devbox is a frontend over Nix and cannot resolve packages without it; install it from https://nixos.org/download")], false)
      else
        ([line WARN ("provider: devbox found (" ++ version ++ (") but Nix is not usable — needed only if a project declares `provider = " ++ DQ ++ "devbox" ++ DQ ++ "`"))], true)
  end.

(** The provider of the nearest manifest, when there is one that can be read and parsed. *)
Definition discovered_provider (f : fs) : option str :=
  cwd ← (match pb_current_dir with Ok d => Some d | Err _ => None end);
  path ← find_manifest f cwd;
  text ← (match read_to_string f (abs_path path) with Ok (Some text) => Some text | _ => None end);
  match parse parse_table try_into text with
  | Ok (manifest, _) => Some (provider (m_env manifest))
  | Err _ => None
  end.

Definition doctor_provider (f : fs) : list Line * bool :=
  match discovered_provider f with
  | Some name =>
      if bool_decide (name = ("nix" : str)) then doctor_nix_provider true
      else if bool_decide (name = ("devbox" : str)) then doctor_devbox_provider true
      else doctor_flox_provider true
  | None =>
      (line INFO "provider: no devcroft.toml found from here; reporting every provider, requiring none"
       :: (doctor_flox_provider false).1 ++ (doctor_nix_provider false).1 ++ (doctor_devbox_provider false).1, true)
  end.

Definition doctor_nix_store : list Line * bool :=
  if negb pb_daemon_socket_exists then ([], true)
  else if host_can_build_nix_closures then ([line PASS "nix store: the daemon socket accepts connections"], true)
  else ([line FAIL ("nix store: " ++ DAEMON_SOCKET ++ " exists but refuses connections — the nix daemon is not running, and every provider materializes through it, so `up` will fail for flox, nix and devbox alike; start it with your installer's service command (e.g. `systemctl start nix-daemon`)")], false).

(** [None] when the probe could not be run. *)
Definition probe_listening_socket : option bool :=
  match pb_self ["__bind_probe" : str; show_N PROBE_PORT] with
  | Some (Ok status) => Some (bool_decide (status = Some 0%Z))
  | _ => None
  end.

Definition doctor_listening_sockets : list Line :=
  match probe_listening_socket with
  | Some true =>
      [line PASS "listening sockets: a deny-default network policy still permits loopback binding on this host, so provider-declared services that listen on a port work"]
  | Some false =>
      [line WARN ("listening sockets: this host denies bind/listen under `network.default = " ++ DQ ++ "deny" ++ DQ ++ "`, so a provider-declared service that listens on a port will fail to bind");
       line MORE ("workaround: `network.default = " ++ DQ ++ "allow" ++ DQ ++ "`, which restores binding but drops egress filtering entirely — every outbound destination becomes reachable")]
  | None => [line INFO "listening sockets: the probe could not be run on this host; service port binding is unverified"]
  end.

Definition doctor_agent_namespaces : list Line :=
  match probe <$> pb_self ["__netns_probe" : str] with
  | None => []
  | Some (Ok true) =>
      [line INFO ("network namespaces: available on this host (sandboxes with `network.default = " ++ DQ ++ "deny" ++ DQ ++ "`, no `network.allow`, and services or `network.ports` each get their own port table)")]
  | Some _ =>
      [line INFO "network namespaces: unavailable on this host; qualifying sandboxes fall back to the host's shared port table, and `up` warns when that happens"]
  end.

Definition doctor_ssh_config (f : fs) : list Line :=
  match pb_home with
  | None => [line WARN "ssh-config: HOME is not set"]
  | Some home =>
      let path := path_join home ".ssh/config" in
      if is_installed f path then [line PASS ("ssh-config: managed block present in " ++ path)]
      else [line WARN ("ssh-config: no devcroft managed block in " ++ path ++ " — run `devcroft ssh-config --write`")]
  end.

Definition doctor_manifest_degradation (f : fs) : list Line :=
  match pb_current_dir with
  | Err _ => []
  | Ok cwd =>
      match find_manifest f cwd with
      | None => [line INFO "manifest: no devcroft.toml found from here; skipping the degraded-capability check"]
      | Some path =>
          match read_to_string f (abs_path path) with
          | Ok (Some text) =>
              match parse parse_table try_into text with
              | Err _ => [line WARN ("manifest: " ++ abs_path path ++ " did not parse; run `devcroft up` to see the full error")]
              | Ok (manifest, _) =>
                  match detect pb_os (compile pb_os manifest) with
                  | [] => [line PASS ("manifest: no degraded capabilities for " ++ abs_path path ++ " on this host")]
                  | degraded => (λ d, line WARN ("manifest: " ++ show_degraded d)) <$> degraded
                  end
              end
          | _ => []
          end
      end
  end.

Definition doctor_service_supervisor (f : fs) : list Line :=
  match pb_current_dir with
  | Err _ => []
  | Ok cwd =>
      match find_manifest f cwd with
      | None => []
      | Some path =>
          match declared_service_names parse_table f (abs_path (removelast path)) with
          | [] => []
          | declared =>
              [line INFO ("services: " ++ show_nat (length declared) ++ " declared (" ++ join ", " declared ++
                 ") — devcroft supervises these itself, so `flox services status` will not list them; use `devcroft status`/`ps`/`logs`")]
          end
      end
  end.

(** [cli_doctor]: the lines between its heading and its summary, and the exit code. *)
Definition cli_doctor (f : fs) : list Line * Z :=
  let '(backend, ok1) := doctor_backend in
  let '(found, ok2) := doctor_provider f in
  let '(store, ok3) := doctor_nix_store in
  (backend ++ found ++ store ++ doctor_listening_sockets ++ doctor_agent_namespaces ++ doctor_ssh_config f
     ++ doctor_manifest_degradation f ++ doctor_service_supervisor f,
   if ok1 && ok2 && ok3 then 0%Z else 1%Z).
End doctor.

(** ** Properties *)

Definition has_fail (ls : list Line) : bool := existsb (λ l, bool_decide (ln_level l = FAIL)) ls.

Lemma has_fail_app a b : has_fail (a ++ b) = has_fail a || has_fail b.
Proof. apply existsb_app. Qed.

Section doctor_spec.
Context `{Probes}.
Context (parse_table : str → result str (list (str * toml))) (try_into : list (str * toml) → result str RawManifest).

#[local] Abbreviation found := (discovered_provider parse_table try_into).
#[local] Abbreviation report := (cli_doctor parse_table try_into).

(** What a declared provider needs. *)
Definition provider_ready (name : str) : Prop :=
  if bool_decide (name = ("nix" : str)) then is_Some (version_of pb_nix_version) ∧ nix_eval_ok = true
  else if bool_decide (name = ("devbox" : str)) then is_Some (version_of pb_devbox_version) ∧ nix_eval_ok = true
  else is_Some (version_of pb_flox_version).

(** Nix is there, its flakes are not. *)
Definition flakes_rejected : Prop := is_Some (version_of pb_nix_version) ∧ nix_eval_ok = false.

Lemma warnings_no_fail {A} (f : A → str) (l : list A) : has_fail ((λ d, line WARN (f d)) <$> l) = false.
Proof. by induction l. Qed.

Lemma advice_no_fail f :
  has_fail (doctor_listening_sockets ++ doctor_agent_namespaces ++ doctor_ssh_config f
    ++ doctor_manifest_degradation parse_table try_into f ++ doctor_service_supervisor parse_table f) = false.
Proof.
  rewrite !has_fail_app. repeat (apply orb_false_iff; split).
  - unfold doctor_listening_sockets. by destruct probe_listening_socket as [[]|].
  - unfold doctor_agent_namespaces. by destruct (probe <$> _) as [[[]|]|].
  - unfold doctor_ssh_config. destruct pb_home; [|done]. by destruct (is_installed _ _).
  - unfold doctor_manifest_degradation. destruct pb_current_dir; [|done]. destruct (find_manifest _ _); [|done].
    destruct (read_to_string _ _) as [[]|]; try done. destruct (parse _ _ _) as [[m ws]|]; [|done].
    destruct (detect pb_os (compile pb_os m)) as [|d ds] eqn:E; [done|]. apply warnings_no_fail.
  - unfold doctor_service_supervisor. destruct pb_current_dir; [|done]. destruct (find_manifest _ _); [|done].
    by destruct (declared_service_names _ _ _).
Qed.

Lemma backend_verdict : has_fail doctor_backend.1 = negb doctor_backend.2 ∧ doctor_backend.2 = is_supported pb_support.
Proof. unfold doctor_backend. destruct (is_supported pb_support); [|done]. split; [|done]. cbn. apply warnings_no_fail. Qed.

Lemma store_verdict : has_fail doctor_nix_store.1 = negb doctor_nix_store.2 ∧ doctor_nix_store.2 = host_can_build_nix_closures.
Proof. unfold doctor_nix_store, host_can_build_nix_closures. by destruct pb_daemon_socket_exists, pb_daemon_socket_accepts. Qed.

Lemma provider_verdict f :
  match found f with
  | Some name => has_fail (doctor_provider parse_table try_into f).1 = negb (doctor_provider parse_table try_into f).2 ∧
      ((doctor_provider parse_table try_into f).2 = true ↔ provider_ready name)
  | None => (doctor_provider parse_table try_into f).2 = true ∧
      (has_fail (doctor_provider parse_table try_into f).1 = true ↔ flakes_rejected)
  end.
Proof.
  unfold doctor_provider. destruct (found f) as [name|].
  - unfold provider_ready, doctor_nix_provider, doctor_devbox_provider, doctor_flox_provider.
    repeat case_bool_decide; repeat case_match; cbn; split; try done; naive_solver.
  - split; [done|]. cbn [fst]. change (has_fail (?a :: ?l)) with (has_fail l). cbn [has_fail existsb].
    unfold flakes_rejected, doctor_nix_provider, doctor_devbox_provider, doctor_flox_provider.
    destruct (version_of pb_flox_version), (version_of pb_nix_version), nix_eval_ok, (version_of pb_devbox_version); cbn; naive_solver.
Qed.

(** [doctor] exits with 0 exactly when the backend works, the nix
    daemon is not broken and the provider of the project's manifest, if there
    is one, is usable (no other provider matters), and with 1 otherwise; a
    failure is always among the lines it prints, and a failing line means exit code 1
    but for one case: without a manifest it prints that nix's flakes are rejected
    as a failure and still ends with all checks passed. *)
Theorem doctor_verdict f :
  let '(ls, code) := report f in
  (code = 0%Z ∨ code = 1%Z) ∧
  (code = 0%Z ↔ is_supported pb_support = true ∧ host_can_build_nix_closures = true ∧
                 match found f with Some name => provider_ready name | None => True end) ∧
  (has_fail ls = true ↔ code = 1%Z ∨ found f = None ∧ flakes_rejected).
Proof.
  unfold cli_doctor. pose proof backend_verdict as [Hb1 Hb2]. pose proof store_verdict as [Hs1 Hs2]. pose proof (provider_verdict f) as Hp.
  pose proof (advice_no_fail f) as Ha.
  destruct doctor_backend as [backend ok1], (doctor_provider parse_table try_into f) as [prov ok2], doctor_nix_store as [store ok3].
  cbn [fst snd] in *. rewrite (has_fail_app backend), (has_fail_app prov), (has_fail_app store), Ha, Hb1, Hs1, <- Hb2, <- Hs2.
  split; [destruct (_ && _); auto|].
  destruct (found f) as [name|]; destruct Hp as [Hp1 Hp2]; [rewrite Hp1; destruct ok1, ok2, ok3; cbn; naive_solver|].
  subst ok2. destruct (has_fail prov) eqn:E, ok1, ok3; cbn; naive_solver.
Qed.

Lemma doctor_code f : (report f).2 = 0%Z ∨ (report f).2 = 1%Z.
Proof.
  unfold cli_doctor. destruct doctor_backend as [l1 ok1], (doctor_provider parse_table try_into f) as [l2 ok2], doctor_nix_store as [l3 ok3].
  destruct ok1, ok2, ok3; cbn; auto.
Qed.

(** A manifest that does not parse is reported as missing by the provider check
    and only as a warning by the last one: nothing is required. *)
Lemma unparsed_manifest_requires_nothing f cwd path text e :
  pb_current_dir = Ok cwd → find_manifest f cwd = Some path → read_to_string f (abs_path path) = Ok (Some text) →
  parse parse_table try_into text = Err e →
  found f = None ∧
  line INFO "provider: no devcroft.toml found from here; reporting every provider, requiring none" ∈ (doctor_provider parse_table try_into f).1 ∧
  doctor_manifest_degradation parse_table try_into f =
    [line WARN ("manifest: " ++ abs_path path ++ " did not parse; run `devcroft up` to see the full error")].
Proof.
  intros Hc Hf Hr Hp. assert (found f = None) as Hn.
  { unfold discovered_provider. rewrite Hc. cbn. rewrite Hf. cbn. rewrite Hr. cbn. by rewrite Hp. }
  split; [done|]. split; [unfold doctor_provider; rewrite Hn; by left|]. unfold doctor_manifest_degradation. by rewrite Hc, Hf, Hr, Hp.
Qed.
End doctor_spec.

(** ** The command *)

Section entry.
Context `{Host} `{Provider} `{Codec} {caps : Type} `{CapBuilder caps} `{Probes}.
Context (parse_table : str → result str (list (str * toml))) (try_into : list (str * toml) → result str RawManifest)
        (current_dir : result str str) (current_exe : option str) (stdout_is_tty : bool) (write_ok : str → bool) (path_hash : str → N).
Context (attempts : str → nat → nat → SpawnRequest → Attempt) (shell_var : option str) (terminal : option PtySize)
        (query_frame : nat → str → result state_error Frame) (query_services : nat → str → result Unreachable (list ServiceState))
        (data_entries : fs → result state_error (option (list (str * bool)))) (remove_error : str → option state_error)
        (is_stale : str → str → str → fs → result ProviderError bool) (check_host : list str → str → bool * str).

(** The verdict {!Cli.main} takes as a parameter. *)
Definition doctor_passes (f : fs) : bool := bool_decide ((cli_doctor parse_table try_into f).2 = 0%Z).

Lemma doctor_entry args w :
  main parse_table try_into current_dir current_exe stdout_is_tty write_ok path_hash attempts shell_var terminal
    query_frame query_services data_entries remove_error is_stale check_host (doctor_passes (w_fs w)) (("doctor" : str) :: args) w =
  ((cli_doctor parse_table try_into (w_fs w)).2, w).
Proof.
  unfold doctor_passes. pose proof (doctor_code parse_table try_into (w_fs w)) as Hc.
  destruct (cli_doctor parse_table try_into (w_fs w)) as [ls code]. cbn [snd] in *.
  unfold main. change (table_get COMMANDS ("doctor" : str)) with (Some CDoctor). cbn [run_command]. by destruct Hc as [->| ->].
Qed.
End entry.

(** No manifest, nix without flakes: a [FAIL] line, and exit code 0. *)
Definition flakeless : Probes :=
  {| pb_os := Linux; pb_support := {| is_supported := true; platform := "Linux"; details := "Landlock V6" |};
     pb_flox_version := Some (true, "1.9.0" ++ [NL] : str); pb_nix_version := Some (true, "nix (Nix) 2.24" : str);
     pb_devbox_version := None; pb_nix_eval := Some false; pb_daemon_socket_exists := false; pb_daemon_socket_accepts := false;
     pb_self := λ _, Some (Ok (Some 0%Z)); pb_current_dir := Ok ("/home/me" : str); pb_home := Some ("/home/me" : str) |}.

Lemma fail_line_all_passed :
  let '(ls, code) := cli_doctor (H := flakeless) (λ _, Err ("none" : str)) (λ _, Err ("none" : str)) ∅ in
  has_fail ls = true ∧ code = 0%Z.
Proof. by vm_compute. Qed.
