(* ===== verification/Lifecycle.v ===== *)
(** * Lifecycle commands side by side

    Several [devcroft] processes act on one sandbox at the same time.  The lock
    of [src/lifecycle/state.rs] ([acquire_lifecycle_lock]) keeps them apart: a
    process is a program that takes a lock, acts on the shared world in steps of
    any size, and gives the lock back; processes interleave, and can be killed
    at any moment, which gives back what they hold.  The commands of {!Up} and
    {!Terminate} are such programs, except the end of [rm]. *)

From S2P Require Import Prelude Paths ProviderKind Manifest Validate Policy Capability State Services Hooks Flox Shell World Terminate SshKeys Up.

#[local] Set Default Proof Using "Type".

(** ** Programs and their steps *)

Section flock.
Context {W : Type}.

(** What is left of a process.  An action's outcome decides how it goes on. *)
Inductive Prog :=
| Exited (code : Z)
| Killed
| Acquire (l : str) (k : Prog)
| Release (l : str) (k : Prog)
| Act (f : W → W) (k : W → Prog).

Record Sys := { sys_world : W; sys_locks : gmap str nat; sys_procs : list Prog }.

Definition running (p : Prog) : Prop := match p with Exited _ | Killed => False | _ => True end.

#[local] Instance running_dec p : Decision (running p).
Proof. destruct p; cbn; apply _. Defined.

(** [flock]: taking waits until nobody holds the lock; the kernel gives back
    the locks of a process that ends. *)
Inductive lstep (s : Sys) : Sys → Prop :=
| ls_acquire i l k :
    sys_procs s !! i = Some (Acquire l k) → sys_locks s !! l = None →
    lstep s {| sys_world := sys_world s; sys_locks := <[l := i]> (sys_locks s); sys_procs := <[i := k]> (sys_procs s) |}
| ls_release i l k :
    sys_procs s !! i = Some (Release l k) →
    lstep s {| sys_world := sys_world s; sys_locks := delete l (sys_locks s); sys_procs := <[i := k]> (sys_procs s) |}
| ls_act i f k :
    sys_procs s !! i = Some (Act f k) →
    lstep s {| sys_world := f (sys_world s); sys_locks := sys_locks s; sys_procs := <[i := k (sys_world s)]> (sys_procs s) |}.

(** The same, with processes killed at any moment. *)
Inductive lworld (s : Sys) : Sys → Prop :=
| lw_own s' : lstep s s' → lworld s s'
| lw_kill i p :
    sys_procs s !! i = Some p → running p →
    lworld s {| sys_world := sys_world s; sys_locks := filter (λ '(_, j), j ≠ i) (sys_locks s); sys_procs := <[i := Killed]> (sys_procs s) |}.

Definition start (w : W) (ps : list Prog) : Sys := {| sys_world := w; sys_locks := ∅; sys_procs := ps |}.

(** ** Critical sections *)

(** A program that acts, gives the lock back and ends. *)
Inductive section_of (l : str) : Prog → Prop :=
| so_release c : section_of l (Release l (Exited c))
| so_act f k : (∀ w, section_of l (k w)) → section_of l (Act f k).

(** The actions of one process, undisturbed. *)
Inductive acts : W → Prog → W → Prog → Prop :=
| acts_refl w p : acts w p w p
| acts_step w f k w' p' : acts (f w) (k w) w' p' → acts w (Act f k) w' p'.

(** A command: its exit code and what it makes of the world. *)
Definition performs (l : str) (m : W → Z * W) (k : Prog) : Prop :=
  section_of l k ∧ ∀ w, acts w k (m w).2 (Release l (Exited (m w).1)).

(** The coarsest division of a command into steps: none. *)
Definition in_one_step (l : str) (m : W → Z * W) : Prog := Act (λ w, (m w).2) (λ w, Release l (Exited (m w).1)).

Lemma in_one_step_performs l m : performs l m (in_one_step l m).
Proof. split; [constructor; intros w; constructor|]. intros w. apply acts_step. constructor. Qed.

Lemma acts_trans w p w1 p1 w2 p2 : acts w p w1 p1 → acts w1 p1 w2 p2 → acts w p w2 p2.
Proof. induction 1; [done|]. intros. apply acts_step. auto. Qed.

Lemma acts_section l w k w' p : acts w k w' p → section_of l k → section_of l p.
Proof. induction 1 as [|w f k w' p' _ IH]; [done|]. inversion 1; subst. auto. Qed.

Lemma acts_end l w k w1 p1 w2 p2 : acts w k w1 (Release l p1) → acts w k w2 (Release l p2) → w1 = w2 ∧ p1 = p2.
Proof.
  intros H1. remember (Release l p1) as q1 eqn:E. revert w2 p2 E.
  induction H1 as [w q|w f k w' p' H1 IH]; intros w2 p2 -> H2; inversion H2; subst; [done|by apply IH].
Qed.

(** ** One section after another *)

(** [serial ps l h w w']: the processes of the history [h] ran their sections
    one after another, each until what the history says is left of it. *)
Inductive serial (ps : list Prog) (l : str) : list (nat * Prog) → W → W → Prop :=
| serial_nil w : serial ps l [] w w
| serial_snoc h i k p w w1 w2 :
    serial ps l h w w1 → ps !! i = Some (Acquire l k) → acts w1 k w2 p → i ∉ h.*1 → serial ps l (h ++ [(i, p)]) w w2.

(** Where a process stands. *)
Definition stands (ps : list Prog) (l : str) (h : list (nat * Prog)) (i : nat) (p : Prog) : Prop :=
  (i ∉ h.*1 ∧ (ps !! i = Some p ∨ p = Killed)) ∨
  (∃ c, (i, Release l (Exited c)) ∈ h ∧ p = Exited c) ∨
  (i ∈ h.*1 ∧ p = Killed).

Definition lock_inv (ps : list Prog) (l : str) (w0 : W) (s : Sys) : Prop :=
  length (sys_procs s) = length ps ∧
  (∀ l', l' ≠ l → sys_locks s !! l' = None) ∧
  ∃ h,
    match sys_locks s !! l with
    | None => serial ps l h w0 (sys_world s) ∧ ∀ i p, sys_procs s !! i = Some p → stands ps l h i p
    | Some j => ∃ w1 k p, serial ps l h w0 w1 ∧ j ∉ h.*1 ∧ ps !! j = Some (Acquire l k) ∧ acts w1 k (sys_world s) p ∧
        sys_procs s !! j = Some p ∧ ∀ i p, i ≠ j → sys_procs s !! i = Some p → stands ps l h i p
    end.

(** Every process starts by taking this lock, for a section. *)
Definition guarded (l : str) (p : Prog) : Prop := ∃ k, p = Acquire l k ∧ section_of l k.

Section guarded.
Context (ps : list Prog) (l : str) (w0 : W) (Hps : ∀ i p, ps !! i = Some p → guarded l p).

#[local] Set Default Proof Using "Type Hps".

Lemma stands_start h i p : stands ps l h i p → running p → i ∉ h.*1 ∧ ps !! i = Some p ∧ ∃ k, p = Acquire l k ∧ section_of l k.
Proof.
  intros [[Hn [Hp| ->]]|[(c & _ & ->)|[_ ->]]] Hr; [|done..]. split; [done|]. split; [done|]. exact (Hps i p Hp).
Qed.

Lemma stands_more h e i p : i ≠ e.1 → stands ps l h i p → stands ps l (h ++ [e]) i p.
Proof using Type.
  intros Hi [[Hn Hp]|[(c & Hin & Hp)|[Hin Hp]]]; unfold stands; rewrite fmap_app.
  - left. split; [|done]. rewrite not_elem_of_app. split; [done|]. by apply not_elem_of_cons; split; [|apply not_elem_of_nil].
  - right. left. exists c. split; [|done]. apply elem_of_app. by left.
  - right. right. split; [|done]. apply elem_of_app. by left.
Qed.

Lemma in_history (h : list (nat * Prog)) i p : (i, p) ∈ h → i ∈ h.*1.
Proof using Type. intros Hin. apply list_elem_of_fmap. by exists (i, p). Qed.

Lemma lock_inv_start : lock_inv ps l w0 (start w0 ps).
Proof using Type.
  split; [done|]. split; [intros; apply lookup_empty|]. exists []. cbn. rewrite lookup_empty. split; [constructor|].
  intros i p Hp. left. split; [apply not_elem_of_nil|by left].
Qed.

Lemma other_locks_free (locks : gmap str nat) i :
  (∀ l', l' ≠ l → locks !! l' = None) → ∀ l', l' ≠ l → filter (λ '(_, j), j ≠ i) locks !! l' = None.
Proof using Type. intros Hl l' Hn. apply map_lookup_filter_None. left. by apply Hl. Qed.

(** The lock is free: only taking it, or dying, is possible. *)
Lemma lock_inv_free s s' h :
  lworld s s' → length (sys_procs s) = length ps → (∀ l', l' ≠ l → sys_locks s !! l' = None) → sys_locks s !! l = None →
  serial ps l h w0 (sys_world s) → (∀ i p, sys_procs s !! i = Some p → stands ps l h i p) → lock_inv ps l w0 s'.
Proof.
  intros Hs Hlen Ho Hfree Hser Hst.
  assert (∀ i p, sys_procs s !! i = Some p → i < length (sys_procs s)) as Hlt by (intros; by eapply lookup_lt_Some).
  destruct Hs as [? [i l' k Hi Hl'|i l' k Hi|i f k Hi]|i p Hi Hr].
  - destruct (stands_start h i _ (Hst i _ Hi) I) as (Hn & Hp & k' & [= -> ->] & Hk).
    split; [by cbn; rewrite length_insert|]. split; [intros l'' Hl''; cbn; rewrite lookup_insert_ne by done; by apply Ho|].
    exists h. cbn. rewrite lookup_insert_eq. exists (sys_world s), k', k'.
    split; [done|]. split; [done|]. split; [done|]. split; [constructor|]. split; [by rewrite list_lookup_insert_eq by eauto|].
    intros i' p Hi' Hp'. rewrite list_lookup_insert_ne in Hp' by done. by apply Hst.
  - destruct (stands_start h i _ (Hst i _ Hi) I) as (_ & _ & k' & ? & _). done.
  - destruct (stands_start h i _ (Hst i _ Hi) I) as (_ & _ & k' & ? & _). done.
  - split; [by cbn; rewrite length_insert|]. split; [by apply other_locks_free|]. exists h. cbn.
    rewrite map_lookup_filter, Hfree. cbn. split; [done|]. intros i' p' Hp'.
    destruct (decide (i' = i)) as [->|Hne]; [|rewrite list_lookup_insert_ne in Hp' by done; by apply Hst].
    rewrite list_lookup_insert_eq in Hp' by eauto. injection Hp' as <-.
    destruct (stands_start h i p (Hst i p Hi) Hr) as (Hn & _). left. split; [done|by right].
Qed.

(** The lock is held: only its holder acts. *)
Lemma lock_inv_held s s' h j w1 k p :
  lworld s s' → length (sys_procs s) = length ps → (∀ l', l' ≠ l → sys_locks s !! l' = None) → sys_locks s !! l = Some j →
  serial ps l h w0 w1 → j ∉ h.*1 → ps !! j = Some (Acquire l k) → acts w1 k (sys_world s) p →
  sys_procs s !! j = Some p → (∀ i p, i ≠ j → sys_procs s !! i = Some p → stands ps l h i p) → lock_inv ps l w0 s'.
Proof.
  intros Hs Hlen Ho Hheld Hser Hj Hpj Hacts Hp Hst.
  assert (∀ i p, sys_procs s !! i = Some p → i < length (sys_procs s)) as Hlt by (intros; by eapply lookup_lt_Some).
  assert (section_of l p) as Hsec.
  { destruct (Hps j _ Hpj) as (k' & [= <-] & Hk). by eapply acts_section. }
  assert (∀ i q, sys_procs s !! i = Some q → i ≠ j → running q → ∃ k', q = Acquire l k') as Hothers.
  { intros i q Hi Hne Hr. destruct (stands_start h i q (Hst i q Hne Hi) Hr) as (_ & _ & k' & -> & _). by exists k'. }
  assert (∀ i q procs, i ≠ j → <[j:=procs]> (sys_procs s) !! i = Some q → sys_procs s !! i = Some q) as Hkeep.
  { intros i q procs Hne Hi. by rewrite list_lookup_insert_ne in Hi. }
  assert (∀ e i q, e.1 = j → i ≠ j → sys_procs s !! i = Some q → stands ps l (h ++ [e]) i q) as Hmore.
  { intros e i q He Hne Hq. apply stands_more; [by rewrite He|by apply Hst]. }
  destruct Hs as [? [i l' k' Hi Hl'|i l' k' Hi|i f k' Hi]|i q Hi Hr].
  - destruct (decide (i = j)) as [->|Hne]; [rewrite Hp in Hi; injection Hi as ->; inversion Hsec|].
    destruct (Hothers i _ Hi Hne I) as (k2 & [= -> _]). congruence.
  - destruct (decide (i = j)) as [->|Hne]; [|by destruct (Hothers i _ Hi Hne I)].
    rewrite Hp in Hi. injection Hi as ->. assert (l' = l ∧ ∃ c, k' = Exited c) as [-> [c ->]] by (inversion Hsec; eauto).
    split; [by cbn; rewrite length_insert|]. split; [intros l'' Hl''; cbn; rewrite lookup_delete_ne by done; by apply Ho|].
    exists (h ++ [(j, Release l (Exited c))]). cbn. rewrite lookup_delete_eq. split; [by eapply serial_snoc|].
    intros i q Hq. destruct (decide (i = j)) as [->|Hne]; [|apply (Hmore (j, Release l (Exited c)) i q eq_refl Hne); by eapply Hkeep].
    rewrite list_lookup_insert_eq in Hq by eauto. injection Hq as <-. right. left. exists c. split; [|done].
    apply elem_of_app. right. by left.
  - destruct (decide (i = j)) as [->|Hne]; [|by destruct (Hothers i _ Hi Hne I)].
    rewrite Hp in Hi. injection Hi as ->. split; [by cbn; rewrite length_insert|]. split; [done|]. exists h. cbn. rewrite Hheld.
    exists w1, k, (k' (sys_world s)). split; [done|]. split; [done|]. split; [done|].
    split; [eapply acts_trans; [exact Hacts|apply acts_step; constructor]|].
    split; [by rewrite list_lookup_insert_eq by eauto|]. intros i q Hne Hq. apply Hst; [done|by eapply Hkeep].
  - split; [by cbn; rewrite length_insert|]. split; [by apply other_locks_free|]. destruct (decide (i = j)) as [->|Hne].
    + rewrite Hp in Hi. injection Hi as <-. exists (h ++ [(j, p)]). cbn. rewrite map_lookup_filter, Hheld. cbn.
      rewrite option_guard_False by (intros Hx; by apply Hx). split; [by eapply serial_snoc|]. intros i q Hq.
      destruct (decide (i = j)) as [->|Hne]; [|apply (Hmore (j, p) i q eq_refl Hne); by eapply Hkeep].
      rewrite list_lookup_insert_eq in Hq by eauto. injection Hq as <-. right. right. split; [|done].
      rewrite fmap_app. apply elem_of_app. right. by left.
    + exists h. cbn. rewrite map_lookup_filter, Hheld. cbn. rewrite option_guard_True by done.
      exists w1, k, p. split; [done|]. split; [done|]. split; [done|]. split; [done|].
      split; [by rewrite list_lookup_insert_ne by done|]. intros i' q' Hne' Hq'.
      destruct (decide (i' = i)) as [->|Hn]; [|rewrite list_lookup_insert_ne in Hq' by done; by apply Hst].
      rewrite list_lookup_insert_eq in Hq' by eauto. injection Hq' as <-.
      destruct (stands_start h i q (Hst i q Hne Hi) Hr) as (Hn & _). left. split; [done|by right].
Qed.

Lemma lock_inv_step s s' : lworld s s' → lock_inv ps l w0 s → lock_inv ps l w0 s'.
Proof.
  intros Hs (Hlen & Ho & h & Hinv). destruct (sys_locks s !! l) as [j|] eqn:El.
  - destruct Hinv as (w1 & k & p & H1 & H2 & H3 & H4 & H5 & H6). by eapply lock_inv_held.
  - destruct Hinv as [H1 H2]. by eapply lock_inv_free.
Qed.

Lemma lock_inv_reach s : rtc lworld (start w0 ps) s → lock_inv ps l w0 s.
Proof.
  intros Hr. pose proof lock_inv_start as Hi. revert Hi. generalize (start w0 ps) Hr. clear Hr.
  intros s0 Hr. induction Hr as [|s1 s2 s3 Hs _ IH]; [done|]. intros Hi. by apply IH, (lock_inv_step s1).
Qed.

(** A history names each process once, and every process that exited is in it
    with its whole section. *)
Lemma serial_nodup h w w' : serial ps l h w w' → NoDup h.*1.
Proof using Type.
  induction 1 as [|h i k p w w1 w2 _ IH _ _ Hn]; [constructor|]. rewrite fmap_app. apply NoDup_app. split; [done|].
  split; [|apply NoDup_singleton]. intros x Hx Hx'. apply list_elem_of_singleton in Hx' as ->. done.
Qed.

Lemma exited_in_history h i c : stands ps l h i (Exited c) → (i, Release l (Exited c)) ∈ h.
Proof.
  intros [[Hn [Hp|?]]|[(c' & Hin & [= ->])|[_ ?]]]; [|done..]. by destruct (Hps i _ Hp) as (k & ? & _).
Qed.
End guarded.

(** ** Termination *)

(** What is left of a program after one step. *)
Inductive smaller : Prog → Prog → Prop :=
| sm_kill p : running p → smaller Killed p
| sm_acquire l k : smaller k (Acquire l k)
| sm_release l k : smaller k (Release l k)
| sm_act f k w : smaller (k w) (Act f k).

Lemma killed_acc : Acc smaller Killed.
Proof. constructor. intros q Hq. inversion Hq; subst. done. Qed.

Lemma smaller_acc p : Acc smaller p.
Proof.
  induction p as [c| |l k IH|l k IH|f k IH].
  - constructor. intros q Hq. inversion Hq as [q' Hr| | |]; subst. destruct Hr.
  - apply killed_acc.
  - constructor. intros q Hq. inversion Hq; subst; [apply killed_acc|exact IH].
  - constructor. intros q Hq. inversion Hq; subst; [apply killed_acc|exact IH].
  - constructor. intros q Hq. inversion Hq; subst; [apply killed_acc|apply IH].
Qed.

Definition one_smaller (qs ps : list Prog) : Prop := ∃ i p q, ps !! i = Some p ∧ smaller q p ∧ qs = <[i := q]> ps.

Lemma one_smaller_acc ps : Acc one_smaller ps.
Proof.
  induction ps as [|p ps IH]; [constructor; intros qs (i & p & q & Hi & _); done|].
  revert ps IH. induction (smaller_acc p) as [p _ IHp]. intros ps Hps. induction Hps as [ps Hps IHps].
  constructor. intros qs ([|i] & p' & q & Hi & Hs & ->).
  - injection Hi as <-. apply IHp; [done|]. by constructor.
  - apply IHps. by exists i, p', q.
Qed.

Lemma lworld_smaller s s' : lworld s s' → one_smaller (sys_procs s') (sys_procs s).
Proof.
  intros [? [i l k Hi _|i l k Hi|i f k Hi]|i p Hi Hr]; cbn.
  - exists i, (Acquire l k), k. split; [done|]. split; [constructor|done].
  - exists i, (Release l k), k. split; [done|]. split; [constructor|done].
  - exists i, (Act f k), (k (sys_world s)). split; [done|]. split; [constructor|done].
  - exists i, p, Killed. split; [done|]. split; [by constructor|done].
Qed.

(** However the commands interleave and whichever are killed, every
    run is finite, and it can only stop when all of them have ended: the lock
    never leaves a command waiting for ever. *)
Theorem commands_finish (ps : list Prog) (l : str) (w0 : W) (Hps : ∀ i p, ps !! i = Some p → guarded l p) :
  (∀ s, Acc (flip lworld) s) ∧
  (∀ s, rtc lworld (start w0 ps) s → (∃ s', lstep s s') ∨ ∀ i p, sys_procs s !! i = Some p → ¬ running p).
Proof.
  split.
  - intros s. remember (sys_procs s) as qs eqn:E. revert s E. induction (one_smaller_acc qs) as [qs _ IH]. intros s ->.
    constructor. intros s' Hs. by apply (IH (sys_procs s')); [apply lworld_smaller|].
  - intros s Hs. destruct (lock_inv_reach ps l w0 Hps s Hs) as (_ & _ & h & Hinv). destruct (sys_locks s !! l) as [j|] eqn:El.
    + left. destruct Hinv as (w1 & k & p & _ & _ & Hpj & Hacts & Hp & _).
      destruct (Hps j _ Hpj) as (k' & [= <-] & Hk). destruct (acts_section l _ _ _ _ Hacts Hk); eexists; [by eapply ls_release|by eapply ls_act].
    + destruct Hinv as [_ Hst]. destruct (decide (Exists running (sys_procs s))) as [Hr|Hn].
      * left. apply Exists_exists in Hr as (p & Hin & Hr). apply list_elem_of_lookup in Hin as [i Hi].
        destruct (stands_start ps l Hps h i p (Hst i p Hi) Hr) as (_ & _ & k & -> & _). eexists. by eapply ls_acquire.
      * right. intros i p Hi Hr. apply Hn, Exists_exists. exists p. split; [by eapply list_elem_of_lookup_2|done].
Qed.

(** ** Commands as if one after another *)

(** The commands of a list, by their numbers, in an order: the exit codes and the last world. *)
Fixpoint run_all (ms : list (W → Z * W)) (order : list nat) (w : W) : list Z * W :=
  match order with
  | [] => ([], w)
  | i :: order =>
      match ms !! i with
      | Some m => let '(c, w1) := m w in let '(cs, w2) := run_all ms order w1 in (c :: cs, w2)
      | None => run_all ms order w
      end
  end.

Lemma run_all_snoc ms order i m w :
  ms !! i = Some m →
  run_all ms (order ++ [i]) w = ((run_all ms order w).1 ++ [(m (run_all ms order w).2).1], (m (run_all ms order w).2).2).
Proof.
  intros Hm. revert w. induction order as [|j order IH]; intros w; cbn; [rewrite Hm; by destruct (m w)|].
  destruct (ms !! j) as [mj|]; [|apply IH]. destruct (mj w) as [c w1]. rewrite IH.
  by destruct (run_all ms order w1) as [cs w2].
Qed.

(** The steps on a system given by its parts. *)
Lemma step_acquire (w : W) (locks : gmap str nat) (procs : list Prog) (i : nat) (l : str) (k : Prog) :
  procs !! i = Some (Acquire l k) → locks !! l = None →
  lworld {| sys_world := w; sys_locks := locks; sys_procs := procs |}
    {| sys_world := w; sys_locks := <[l := i]> locks; sys_procs := <[i := k]> procs |}.
Proof. intros Hi Hl. apply lw_own. exact (ls_acquire {| sys_world := w; sys_locks := locks; sys_procs := procs |} i l k Hi Hl). Qed.

Lemma step_release (w : W) (locks : gmap str nat) (procs : list Prog) (i : nat) (l : str) (k : Prog) :
  procs !! i = Some (Release l k) →
  lworld {| sys_world := w; sys_locks := locks; sys_procs := procs |}
    {| sys_world := w; sys_locks := delete l locks; sys_procs := <[i := k]> procs |}.
Proof. intros Hi. apply lw_own. exact (ls_release {| sys_world := w; sys_locks := locks; sys_procs := procs |} i l k Hi). Qed.

Lemma step_act (w : W) (locks : gmap str nat) (procs : list Prog) (i : nat) (f : W → W) (k : W → Prog) :
  procs !! i = Some (Act f k) →
  lworld {| sys_world := w; sys_locks := locks; sys_procs := procs |}
    {| sys_world := f w; sys_locks := locks; sys_procs := <[i := k w]> procs |}.
Proof. intros Hi. apply lw_own. exact (ls_act {| sys_world := w; sys_locks := locks; sys_procs := procs |} i f k Hi). Qed.

Lemma run_acts (w : W) (k : Prog) (w' : W) (q : Prog) (locks : gmap str nat) (procs : list Prog) (i : nat) :
  acts w k w' q → i < length procs →
  rtc lworld {| sys_world := w; sys_locks := locks; sys_procs := <[i := k]> procs |}
    {| sys_world := w'; sys_locks := locks; sys_procs := <[i := q]> procs |}.
Proof.
  intros Ha Hlt. induction Ha as [w q|w f k w' q _ IH]; [done|]. eapply rtc_l; [|exact IH].
  rewrite <- (list_insert_insert_eq procs i (k w) (Act f k)). apply step_act. by rewrite list_lookup_insert_eq.
Qed.

(** A process that does its whole section while the others wait. *)
Lemma runs_section (l : str) (k : Prog) (m : W → Z * W) (w : W) (locks : gmap str nat) (i : nat) (c : Z) (w' : W) (procs : list Prog) :
  performs l m k → procs !! i = Some (Acquire l k) → locks !! l = None → m w = (c, w') →
  rtc lworld {| sys_world := w; sys_locks := locks; sys_procs := procs |}
    {| sys_world := w'; sys_locks := locks; sys_procs := <[i := Exited c]> procs |}.
Proof.
  intros [_ Hk] Hi Hl Hp. specialize (Hk w). rewrite Hp in Hk. cbn [fst snd] in Hk.
  assert (i < length procs) as Hlt by by eapply lookup_lt_Some.
  assert (delete l (<[l := i]> locks) = locks) as El by (rewrite delete_insert_eq; by apply delete_id).
  eapply rtc_l; [by apply step_acquire|]. etrans; [by apply run_acts|].
  rewrite <- El at 2. rewrite <- (list_insert_insert_eq procs i (Exited c) (Release l (Exited c))).
  apply rtc_once, step_release. by rewrite list_lookup_insert_eq.
Qed.

Definition guards (l : str) (m : W → Z * W) (p : Prog) : Prop := ∃ k, p = Acquire l k ∧ performs l m k.

Lemma guards_guarded ms ps l : Forall2 (guards l) ms ps → ∀ i p, ps !! i = Some p → guarded l p.
Proof.
  intros Hf i p Hp. destruct (Forall2_lookup_r _ _ _ _ _ Hf Hp) as (m & _ & k & -> & Hk & _). by exists k.
Qed.

Lemma run_all_length ms order w : Forall (λ i, is_Some (ms !! i)) order → length (run_all ms order w).1 = length order.
Proof.
  intros Hf. revert w. induction Hf as [|i order [m Hm] _ IH]; intros w; [done|]. cbn. rewrite Hm. destruct (m w) as [c w1].
  specialize (IH w1). destruct (run_all ms order w1). cbn in *. by rewrite IH.
Qed.

Lemma serial_range ms ps l h w w' : Forall2 (guards l) ms ps → serial ps l h w w' → Forall (λ i, is_Some (ms !! i)) h.*1.
Proof.
  intros Hf. induction 1 as [|h i k p w w1 w2 _ IH Hi _ _]; [constructor|]. rewrite fmap_app. apply Forall_app. split; [done|].
  apply Forall_singleton. destruct (Forall2_lookup_r _ _ _ _ _ Hf Hi) as (m & Hm & _). by exists m.
Qed.

Lemma serial_runs ms ps l h w w' :
  Forall2 (guards l) ms ps → serial ps l h w w' → (∀ i p, (i, p) ∈ h → ∃ c, p = Release l (Exited c)) →
  (run_all ms h.*1 w).2 = w' ∧ ∀ n i p, h !! n = Some (i, p) → ∃ c, (run_all ms h.*1 w).1 !! n = Some c ∧ p = Release l (Exited c).
Proof.
  intros Hf Hs. induction Hs as [w|h i k p w w1 w2 Hs IH Hi Hacts Hn]; intros Hall; [done|].
  destruct IH as [IHw IHc]; [intros i' p' Hin; apply (Hall i'); apply elem_of_app; by left|].
  destruct (Forall2_lookup_r _ _ _ _ _ Hf Hi) as (m & Hm & k' & [= <-] & _ & Hk).
  destruct (Hall i p) as [c ->]; [apply elem_of_app; right; by left|].
  destruct (acts_end l _ _ _ _ _ _ Hacts (Hk w1)) as [-> [= ->]].
  rewrite fmap_app. cbn [fmap list_fmap fst]. rewrite (run_all_snoc ms _ i m w Hm). cbn [fst snd]. rewrite IHw. split; [done|].
  pose proof (run_all_length ms h.*1 w (serial_range ms ps l h w w1 Hf Hs)) as Hlen. rewrite length_fmap in Hlen.
  intros n j q Hq. apply lookup_app_Some in Hq as [Hq|[Hge Hq]].
  - destruct (IHc n j q Hq) as (c & Hc & ->). exists c. split; [by apply lookup_app_l_Some|done].
  - apply list_lookup_singleton_Some in Hq as [Hz [= <- <-]]. eexists. split; [|done].
    rewrite lookup_app_r by lia. by rewrite Hlen, Hz.
Qed.

(** Commands on one sandbox, each holding its lock for what it does,
    have the effect of running one after another, in some order, however their
    steps interleave: when all have exited, the world is what that order makes
    of it and every exit code is the one the command has at its turn. *)
Lemma commands_serializable (ms : list (W → Z * W)) (ps : list Prog) (l : str) (w0 : W) (s : Sys)
    (Hps : Forall2 (guards l) ms ps) (Hs : rtc lworld (start w0 ps) s)
    (Hend : ∀ i p, sys_procs s !! i = Some p → ∃ c, p = Exited c) :
  ∃ order, order ≡ₚ seq 0 (length ms) ∧ (run_all ms order w0).2 = sys_world s ∧
    ∀ n i, order !! n = Some i → ∃ c, (run_all ms order w0).1 !! n = Some c ∧ sys_procs s !! i = Some (Exited c).
Proof.
  pose proof (guards_guarded ms ps l Hps) as Hg.
  destruct (lock_inv_reach ps l w0 Hg s Hs) as (Hlen & _ & h & Hinv). destruct (sys_locks s !! l) as [j|] eqn:El.
  { destruct Hinv as (w1 & k & p & _ & _ & Hpj & Hacts & Hp & _). destruct (Hg j _ Hpj) as (k' & [= <-] & Hk).
    pose proof (acts_section l _ _ _ _ Hacts Hk) as Hsec. destruct (Hend j p Hp) as [c ->]. inversion Hsec. }
  destruct Hinv as [Hser Hst]. pose proof (serial_nodup ps l h w0 _ Hser) as Hnd. pose proof (serial_range ms ps l h w0 _ Hps Hser) as Hrange.
  assert (∀ i, i < length ps → ∃ c, sys_procs s !! i = Some (Exited c) ∧ (i, Release l (Exited c)) ∈ h) as Hin.
  { intros i Hi. rewrite <- Hlen in Hi. apply lookup_lt_is_Some_2 in Hi as [p Hp]. destruct (Hend i p Hp) as [c ->].
    exists c. split; [done|]. apply (exited_in_history ps l Hg h i c), Hst, Hp. }
  assert (length ms = length ps) as Hlm by by eapply Forall2_length.
  assert (∀ i p, (i, p) ∈ h → ∃ c, p = Release l (Exited c) ∧ sys_procs s !! i = Some (Exited c)) as Hall.
  { intros i p Hip. pose proof (in_history h i p Hip) as Hi. rewrite Forall_forall in Hrange.
    destruct (Hrange i Hi) as [m Hm]. apply lookup_lt_Some in Hm. destruct (Hin i) as (c & Hc & Hx); [lia|]. exists c. split; [|done].
    apply list_elem_of_lookup in Hip as [a Ha]. apply list_elem_of_lookup in Hx as [b Hb].
    assert (a = b) as ->; [|congruence]. eapply (NoDup_lookup h.*1); [done|rewrite list_lookup_fmap, Ha; done|by rewrite list_lookup_fmap, Hb]. }
  exists h.*1. destruct (serial_runs ms ps l h w0 _ Hps Hser) as [Hw Hc]; [intros i p Hip; destruct (Hall i p Hip) as (c & -> & _); by exists c|].
  split; [|split; [done|]].
  - apply NoDup_Permutation; [done|apply NoDup_seq|]. intros i. rewrite elem_of_seq. split.
    + intros Hi. rewrite Forall_forall in Hrange. destruct (Hrange i Hi) as [m Hm]. apply lookup_lt_Some in Hm. lia.
    + intros [_ Hi]. destruct (Hin i) as (c & _ & Hx); [lia|]. by eapply in_history.
  - intros n i Hi. rewrite list_lookup_fmap in Hi. destruct (h !! n) as [[i' p]|] eqn:Hn; [|done]. injection Hi as ->.
    destruct (Hc n i p Hn) as (c & Hcn & ->). exists c. split; [done|].
    destruct (Hall i (Release l (Exited c))) as (c' & [= <-] & Hx); [by eapply list_elem_of_lookup_2|done].
Qed.
End flock.

(** ** The commands *)

Definition command {E A : Type} (code : result E A → Z) (m : M E A) : World → Z * World :=
  λ w, let '(r, w') := m w in (code r, w').

Section ups.
Context `{Host} `{Provider} `{Codec} {caps : Type} `{CapBuilder caps}.
Context (code : result UpError UpOutcome → Z).

(** One call of [lifecycle::up]. *)
Record UpCall := { uc_manifest : Manifest; uc_root : str; uc_opts : UpOptions }.
Definition up_command (c : UpCall) : World → Z * World := command code (up (caps := caps) (uc_manifest c) (uc_root c) (uc_opts c)).

(** The moment passed by one look at the sandbox. *)
Definition looked (n : nat) (w : World) : World := {| w_fs := w_fs w; w_time := n + w_time w; w_events := w_events w |}.

Lemma up_when_healthy c w p pid :
  state_paths h_home (sandbox_name (m_sandbox (uc_manifest c))) = Ok p → h_lock (lifecycle_lock p) = Ok tt →
  recreate (uc_opts c) = false → health is_linux (h_view (w_time w)) (h_accepts (w_time w)) (w_fs w) p = Ok (Healthy pid) →
  up_command c w = (code (Ok AlreadyUp), looked 1 w).
Proof.
  intros Hp Hlock Hr Hh. unfold up_command, command. rewrite (up_unlocked _ _ _ w p Hp Hlock).
  unfold up_outcome. rewrite Hr. unfold mbind, M_bind, check_health. by rewrite Hh.
Qed.

Lemma ups_when_healthy calls order w p :
  Forall (λ c, state_paths h_home (sandbox_name (m_sandbox (uc_manifest c))) = Ok p ∧ recreate (uc_opts c) = false) calls →
  h_lock (lifecycle_lock p) = Ok tt → Forall (λ i, i < length calls) order →
  (∀ t, w_time w ≤ t → ∃ pid, health is_linux (h_view t) (h_accepts t) (w_fs w) p = Ok (Healthy pid)) →
  run_all (up_command <$> calls) order w = (replicate (length order) (code (Ok AlreadyUp)), looked (length order) w).
Proof.
  intros Hc Hlock Ho. revert w. induction Ho as [|i order Hi _ IH]; intros w Hh; cbn [run_all length replicate]; [by destruct w|].
  apply lookup_lt_is_Some_2 in Hi as [c Hi]. rewrite list_lookup_fmap, Hi. cbn [fmap option_fmap option_map].
  rewrite Forall_forall in Hc. destruct (Hc c) as [Hp Hr]; [by eapply list_elem_of_lookup_2|].
  destruct (Hh (w_time w)) as [pid Hpid]; [lia|]. rewrite (up_when_healthy c w p pid Hp Hlock Hr Hpid).
  rewrite IH by (intros t Ht; apply Hh; cbn in Ht; lia). unfold looked. cbn. by rewrite Nat.add_succ_r.
Qed.

(** C31: what the lock is for: of any number of [up]s of one sandbox run
    at the same time, one runs as if alone; if what it leaves is a sandbox that
    is up and stays so, the others change nothing, start and signal no process,
    and report that it is already up.  No keeper is started twice. *)
Theorem concurrent_ups_one_keeper calls ps p w0 s
    (Hcalls : Forall (λ c, state_paths h_home (sandbox_name (m_sandbox (uc_manifest c))) = Ok p ∧ recreate (uc_opts c) = false) calls)
    (Hlock : h_lock (lifecycle_lock p) = Ok tt) (Hne : calls ≠ [])
    (Hps : Forall2 (guards (lifecycle_lock p)) (up_command <$> calls) ps) (Hs : rtc lworld (Lifecycle.start w0 ps) s)
    (Hend : ∀ i q, sys_procs s !! i = Some q → ∃ c, q = Exited c) :
  ∃ i c, calls !! i = Some c ∧
    let '(code1, w1) := up_command c w0 in
    sys_procs s !! i = Some (Exited code1) ∧
    ((∀ t, w_time w1 ≤ t → ∃ pid, health is_linux (h_view t) (h_accepts t) (w_fs w1) p = Ok (Healthy pid)) →
     w_fs (sys_world s) = w_fs w1 ∧ w_events (sys_world s) = w_events w1 ∧
     ∀ j q, j ≠ i → sys_procs s !! j = Some q → q = Exited (code (Ok AlreadyUp))).
Proof.
  destruct (commands_serializable (up_command <$> calls) ps (lifecycle_lock p) w0 s Hps Hs Hend) as (order & Hperm & Hw & Hcodes).
  rewrite length_fmap in Hperm.
  assert (Forall (λ i, i < length calls) order) as Hrange.
  { apply Forall_forall. intros i Hi. rewrite Hperm, elem_of_seq in Hi. lia. }
  assert (NoDup order) as Hnd by (rewrite Hperm; apply NoDup_seq).
  assert (∀ j q, sys_procs s !! j = Some q → j ∈ order) as Hin.
  { intros j q Hj. rewrite Hperm, elem_of_seq. split; [lia|]. destruct (Hend j q Hj) as [c ->].
    destruct (lock_inv_reach ps _ w0 (guards_guarded _ _ _ Hps) s Hs) as (Hlen & _). apply lookup_lt_Some in Hj.
    rewrite Hlen, <- (Forall2_length _ _ _ Hps), length_fmap in Hj. lia. }
  destruct order as [|i order].
  { apply Permutation_length in Hperm. rewrite length_seq in Hperm. by destruct calls. }
  apply Forall_cons in Hrange as [Hi Hrange]. apply NoDup_cons in Hnd as [Hn _].
  apply lookup_lt_is_Some_2 in Hi as [c Hi]. exists i, c. split; [done|].
  cbn [run_all] in Hw, Hcodes. rewrite list_lookup_fmap, Hi in Hw, Hcodes. cbn [fmap option_fmap option_map] in Hw, Hcodes.
  destruct (up_command c w0) as [code1 w1].
  split.
  { destruct (Hcodes 0 i eq_refl) as (c' & Hc' & ?). destruct (run_all _ order w1). cbn in Hc'. by injection Hc' as ->. }
  intros Hh. rewrite (ups_when_healthy calls order w1 p Hcalls Hlock Hrange Hh) in Hw, Hcodes. cbn [snd fst] in Hw, Hcodes.
  rewrite <- Hw. split; [done|]. split; [done|]. intros j q Hj Hq.
  pose proof (Hin j q Hq) as Hjo. apply elem_of_cons in Hjo as [->|Hjo]; [done|]. apply list_elem_of_lookup in Hjo as [n Hjo].
  destruct (Hcodes (S n) j Hjo) as (c' & Hc' & Hq'). rewrite Hq in Hq'. injection Hq' as ->. cbn in Hc'.
  apply lookup_replicate in Hc' as [-> _]. done.
Qed.
End ups.

(** ** [rm] *)

Section rm.
Context (linux : bool) (view : nat → ProcView) (polls : nat) (home : option str) (acquire_lock : str → result state_error unit)
        (from_str : str → result str Meta) (remove_error : str → option state_error).
Context (code : result TerminateError unit → Z).

#[local] Abbreviation the_rm := (rm linux view polls home acquire_lock from_str remove_error).
#[local] Abbreviation the_rm_at := (rm_at linux view polls acquire_lock remove_error).

(** What [rm] does after the lock was given back. *)
Definition rm_tail (sandbox_name : str) (project_root : option str) : M TerminateError unit :=
  match project_root with
  | None => mret tt
  | Some root =>
      _ ← remove_dir_all remove_error (artifact_dir root sandbox_name);
      modify_fs (remove_derived (path_join root ARTIFACT_DIR))
  end.

(** [rm] as a program: it reads the metadata, then [rm_at] holds the lock
    until it returns, and the rest follows without it. *)
Definition rm_prog (sandbox_name : str) : Prog (W := World) :=
  match state_paths home sandbox_name with
  | Err e => Exited (code (Err (TermState e)))
  | Ok p =>
      Act id (λ w, let project_root := recorded_project from_str (w_fs w) p in
        Acquire (lifecycle_lock p)
          (Act (λ w, (the_rm_at p w).2) (λ w, Release (lifecycle_lock p)
             (match (the_rm_at p w).1 with
              | Err e => Exited (code (Err e))
              | Ok _ => Act (λ w, (rm_tail sandbox_name project_root w).2) (λ w, Exited (code (rm_tail sandbox_name project_root w).1))
              end))))
  end.

Lemma rm_in_parts name p w :
  state_paths home name = Ok p →
  the_rm name w = (_ ← the_rm_at p; rm_tail name (recorded_project from_str (w_fs w) p)) w.
Proof. intros Hp. unfold rm, mbind, M_bind, lift, get_fs. rewrite Hp. done. Qed.


(** Alone, the program is [rm]. *)
Lemma rm_alone name w :
  rtc lworld (Lifecycle.start w [rm_prog name])
    {| sys_world := (the_rm name w).2; sys_locks := ∅; sys_procs := [Exited (code (the_rm name w).1)] |}.
Proof.
  unfold rm_prog. destruct (state_paths home name) as [p|e] eqn:Ep.
  2: { unfold rm, mbind, M_bind, lift. rewrite Ep. apply rtc_refl. }
  rewrite (rm_in_parts name p w Ep). set (proj := recorded_project from_str (w_fs w) p).
  eapply rtc_l; [by apply (step_act w ∅ _ 0)|]. eapply rtc_l; [by apply (step_acquire (id w) ∅ _ 0)|].
  eapply rtc_l; [by apply (step_act (id w) (<[lifecycle_lock p := 0]> ∅) _ 0)|]. cbn [id].
  eapply rtc_l; [by apply (step_release _ (<[lifecycle_lock p := 0]> ∅) _ 0)|]. rewrite delete_insert_eq, delete_empty.
  cbn [list_insert insert]. unfold mbind, M_bind. destruct (the_rm_at p w) as [[[]|e] w1]; cbn [fst snd]; [|apply rtc_refl].
  apply rtc_once. set (f := λ w, (rm_tail name proj w).2). set (k := λ w, Exited (W := World) (code (rm_tail name proj w).1)).
  exact (step_act w1 ∅ [Act f k] 0 f k eq_refl).
Qed.
End rm.

(** Everything of an artifact directory is gone after the end of [rm]. *)
Lemma rm_tail_removes remove_error name root w :
  remove_error (artifact_dir root name) = None →
  (rm_tail remove_error name (Some root) w).1 = Ok tt ∧
  w_events (rm_tail remove_error name (Some root) w).2 = w_events w ∧
  ∀ x, is_within x (artifact_dir root name) = true → w_fs (rm_tail remove_error name (Some root) w).2 !! x = None.
Proof.
  intros Hr. unfold rm_tail, remove_dir_all, mbind, M_bind, modify_fs. rewrite Hr. cbn. split; [done|]. split; [done|].
  intros x Hx. set (g := remove_dir (artifact_dir root name) (w_fs w)).
  destruct (lookup_remove_derived (path_join root ARTIFACT_DIR) g x) as [->|(_ & _ & ->)]; [|done].
  unfold g. by rewrite lookup_remove_dir, Hx.
Qed.

Section race.
Context `{Host} `{Provider} `{Codec} {caps : Type} `{CapBuilder caps} (remove_error : str → option state_error).
Context (rm_code : result TerminateError unit → Z) (up_code : result UpError UpOutcome → Z).

(** The end of [rm] is not a section of the lock: an [up] of the
    same sandbox can start it anew between the two parts of an [rm], and then
    loses the artifacts it has just written, among them the configuration and
    the socket of its services' supervisor, while both commands report
    success and the keeper runs. *)
Theorem rm_tail_races name p proj c w0 w1 w2 o
    (Hp : state_paths h_home name = Ok p)
    (Hproj : recorded_project meta_of_json (w_fs w0) p = Some proj) (Hok : remove_error (artifact_dir proj name) = None)
    (Hrm : rm_at is_linux h_view h_polls h_lock remove_error p w0 = (Ok tt, w1))
    (Hup : up (caps := caps) (uc_manifest c) (uc_root c) (uc_opts c) w1 = (Ok o, w2)) :
  ∃ s, rtc lworld
      (Lifecycle.start w0 [rm_prog is_linux h_view h_polls h_home h_lock meta_of_json remove_error rm_code name;
                           Acquire (lifecycle_lock p) (in_one_step (lifecycle_lock p) (up_command (caps := caps) up_code c))]) s ∧
    sys_procs s = [Exited (rm_code (Ok tt)); Exited (up_code (Ok o))] ∧
    w_events (sys_world s) = w_events w2 ∧
    ∀ x, is_within x (artifact_dir proj name) = true → w_fs (sys_world s) !! x = None.
Proof.
  destruct (rm_tail_removes remove_error name proj w2 Hok) as (Ht1 & Ht2 & Ht3).
  set (upk := in_one_step (lifecycle_lock p) (up_command (caps := caps) up_code c)).
  exists {| sys_world := (rm_tail remove_error name (Some proj) w2).2; sys_locks := ∅;
            sys_procs := [Exited (rm_code (Ok tt)); Exited (up_code (Ok o))] |}.
  split; [|by split_and!]. unfold rm_prog. rewrite Hp.
  eapply rtc_l; [by apply (step_act w0 ∅ _ 0)|]. cbn [list_insert insert id]. cbv zeta. rewrite Hproj.
  eapply rtc_l; [by apply (step_acquire w0 ∅ _ 0)|].
  eapply rtc_l; [by apply (step_act w0 (<[lifecycle_lock p := 0]> ∅) _ 0)|]. cbn [list_insert insert]. cbv beta. rewrite Hrm. cbn [fst snd].
  eapply rtc_l; [by apply (step_release w1 (<[lifecycle_lock p := 0]> ∅) _ 0)|]. rewrite delete_insert_eq, delete_empty. cbn [list_insert insert].
  etrans; [apply (runs_section (lifecycle_lock p) upk (up_command (caps := caps) up_code c) w1 ∅ 1 (up_code (Ok o)) w2);
    [apply in_one_step_performs|done|apply lookup_empty|unfold up_command, command; by rewrite Hup]|].
  cbn [list_insert insert]. apply rtc_once. rewrite <- Ht1.
  set (f := λ w, (rm_tail remove_error name (Some proj) w).2).
  set (k := λ w, Exited (W := World) (rm_code (rm_tail remove_error name (Some proj) w).1)).
  exact (step_act w2 ∅ [Act f k; Exited (up_code (Ok o))] 0 f k eq_refl).
Qed.
End race.

(** ** Concrete commands *)

Definition plain_call : UpCall := {| uc_manifest := up_manifest; uc_root := "/p"; uc_opts := plain_up |}.

Definition sample_code (r : result UpError UpOutcome) : Z := match r with Ok _ => 0 | Err _ => 1 end.
Definition sample_up_command (c : UpCall) : World → Z * World :=
  @up_command (sample_host false) sample_provider sample_codec _ recorder sample_code c.

Definition web_lock : str := "/h/.local/share/devcroft/web.lock".
Definition two_ups : list (Prog (W := World)) := replicate 2 (Acquire web_lock (in_one_step web_lock (sample_up_command plain_call))).

Lemma concurrent_ups_one_keeper_witness :
  ∃ s i c, rtc lworld (Lifecycle.start empty_world two_ups) s ∧ replicate 2 plain_call !! i = Some c ∧
    sys_procs s !! i = Some (Exited (sample_up_command c empty_world).1).
Proof.
  destruct (state_paths (Some ("/h" : str)) "web") as [p|] eqn:Ep; [|vm_compute in Ep; discriminate Ep].
  assert (lifecycle_lock p = web_lock) as El by (vm_compute in Ep; by injection Ep as <-).
  destruct (sample_up_command plain_call empty_world) as [c1 w1] eqn:E1. destruct (sample_up_command plain_call w1) as [c2 w2] eqn:E2.
  set (s := {| sys_world := w2; sys_locks := ∅; sys_procs := [Exited c1; Exited c2] |}).
  assert (rtc lworld (Lifecycle.start empty_world two_ups) s) as Hs.
  { etrans; [apply (runs_section web_lock (in_one_step web_lock (sample_up_command plain_call)) (sample_up_command plain_call) empty_world ∅ 0 c1 w1 two_ups);
      [apply in_one_step_performs|reflexivity|apply lookup_empty|exact E1]|].
    apply (runs_section web_lock (in_one_step web_lock (sample_up_command plain_call)) (sample_up_command plain_call) w1 ∅ 1 c2 w2
      [Exited c1; Acquire web_lock (in_one_step web_lock (sample_up_command plain_call))]);
      [apply in_one_step_performs|reflexivity|apply lookup_empty|exact E2]. }
  destruct (@concurrent_ups_one_keeper (sample_host false) sample_provider sample_codec _ recorder sample_code
    (replicate 2 plain_call) two_ups p empty_world s) as (i & c & Hi & Hc).
  - apply Forall_replicate. split; [exact Ep|reflexivity].
  - reflexivity.
  - discriminate.
  - rewrite El. repeat constructor; eexists; (split; [reflexivity|apply in_one_step_performs]).
  - exact Hs.
  - intros [|[|i]] q Hq; [injection Hq as <-; by exists c1|injection Hq as <-; by exists c2|discriminate Hq].
  - exists s, i, c. split; [exact Hs|]. split; [exact Hi|]. unfold sample_up_command in *.
    destruct (up_command sample_code c empty_world) as [code1 w3]. apply Hc.
Defined.

Lemma commands_finish_witness : ∃ s', lstep (Lifecycle.start empty_world two_ups) s'.
Proof.
  destruct (commands_finish two_ups web_lock empty_world) as [_ Hf].
  - intros i q Hq. apply lookup_replicate in Hq as [-> _]. eexists. split; [reflexivity|apply in_one_step_performs].
  - destruct (Hf _ (rtc_refl _ _)) as [Hs|Hn]; [exact Hs|]. exfalso. by apply (Hn 0 _ eq_refl).
Defined.

(** A sandbox that is up, of the project [/p]. *)
Definition web_world : World :=
  {| w_fs := {[ ("/h/.local/share/devcroft/web/keeper.pid" : str) := ("42 777" : str);
                ("/h/.local/share/devcroft/web/meta.json" : str) := ("m" : str) ]}; w_time := 0; w_events := [] |}.

Lemma rm_tail_races_witness :
  ∃ s, (∃ ps, rtc lworld (Lifecycle.start web_world ps) s) ∧ sys_procs s = [Exited 0%Z; Exited 0%Z] ∧
    ∀ x, is_within x (artifact_dir "/p" "web") = true → w_fs (sys_world s) !! x = None.
Proof.
  destruct (state_paths (Some ("/h" : str)) "web") as [p|] eqn:Ep; [|vm_compute in Ep; discriminate Ep].
  destruct (@rm_at true (λ _, sample_view) 2 (λ _, Ok tt) (λ _, None) p web_world) as [r1 w1] eqn:E1.
  assert (r1 = Ok tt) as ->.
  { apply (f_equal fst) in E1. vm_compute in Ep. injection Ep as <-. vm_compute in E1. by rewrite <- E1. }
  destruct (@up (sample_host false) sample_provider sample_codec _ recorder up_manifest "/p" plain_up w1) as [r2 w2] eqn:E2.
  destruct r2 as [o|e].
  2: { exfalso. vm_compute in Ep. injection Ep as <-. apply (f_equal snd) in E1. vm_compute in E1. subst w1.
       apply (f_equal fst) in E2. vm_compute in E2. discriminate E2. }
  destruct (@rm_tail_races (sample_host false) sample_provider sample_codec _ recorder (λ _, None) (λ _, 0%Z) sample_code
    "web" p "/p" plain_call web_world w1 w2 o Ep) as (s & Hs & Hc & _ & Hx).
  - vm_compute in Ep. injection Ep as <-. reflexivity.
  - reflexivity.
  - exact E1.
  - exact E2.
  - exists s. split; [by eexists|]. split; [exact Hc|exact Hx].
Defined.

(** Two sandboxes of one project, [web] stopped and [api] running without
    services of its own, and the environment flox derived for them. *)
Definition neighbours : fs :=
  {[ ("/h/.local/share/devcroft/web/meta.json" : str) := ("m" : str);
     ("/h/.local/share/devcroft/api/keeper.pid" : str) := ("42 777" : str);
     ("/p/.devcroft/flox-env-1/.flox/env/manifest.toml" : str) := ("[install]" : str) ]}.

(** Removing the one takes the derived environment from the other, which is
    still running: a sandbox without services leaves no entry that would tell
    [rm] it is there. *)
Lemma rm_takes_derived_environment :
  let w := (rm true (λ _, sample_view) 2 (Some ("/h" : str)) (λ _, Ok tt) (meta_of_json (Codec := sample_codec)) (λ _, None) "web"
              {| w_fs := neighbours; w_time := 0; w_events := [] |}).2 in
  w_fs w !! ("/p/.devcroft/flox-env-1/.flox/env/manifest.toml" : str) = None ∧
  (p ← state_paths (Some ("/h" : str)) "api"; health true sample_view (λ _, true) (w_fs w) p) = Ok (Healthy 42).
Proof. by vm_compute. Qed.
