(* ===== verification/KeeperSystem.v ===== *)
(** * All connections of one keeper ([src/keeper/mod.rs], [connection.rs], [bin/devcroft.rs])

    {!Connection} treats one connection against an environment that may insert
    and remove other sessions.  Here the keeper runs as it is: a thread per
    accepted connection over one registry, the shutdown thread of
    [install_shutdown_handler] beside them, and a kernel that hands out process
    ids.  The environment assumed by {!Connection} is what the other connections
    do, so its theorems hold for every connection of every run.  The children of
    SSH sessions, which are not in the registry, are among the processes the
    kernel also gives ids to ([s_foreign]). *)

From S2P Require Import Prelude Protocol Registry Connection Exec Services KeeperMain.

#[local] Set Default Proof Using "Type".

(** ** State *)

(** A connection whose first frame was a [Spawn]: the child is started, then the
    session has a number but no entry in the registry yet, then it is served. *)
Inductive Thread :=
| Spawned (req : SpawnRequest) (s : Session) (input : list Frame)
| Numbered (id : N) (req : SpawnRequest) (s : Session) (input : list Frame)
| Serving (req : SpawnRequest) (now : N) (s : Session) (input : list Frame) (c : Conn).

(** The shutdown thread: asleep in [sigwait], sweeping with SIGTERM, in its grace
    period, sweeping with SIGKILL, gone with the process.  It keeps the
    registry as each of its two snapshots saw it. *)
Inductive ShutdownPhase :=
| Waiting
| Terminating (before : Registry) (todo svc : list Z)
| Killing (before after : Registry) (todo svc : list Z)
| Exited (before after : Registry) (svc : list Z).

(** Who called [kill]: a connection's thread, or the shutdown thread. *)
Inductive Sender := ByConnection (i : nat) | ByShutdown.
#[export] Instance sender_eq_dec : EqDecision Sender.
Proof. solve_decision. Defined.

Record System := {
  s_services : gmap N SessionInfo;        (* what [startup] registered: it is never waited for *)
  s_registry : Registry;
  s_threads : list Thread;
  s_shutdown : ShutdownPhase;
  s_replies : list Frame;                 (* to connections that started no session *)
  s_kills : list (Sender * (Z * Z));      (* the arguments of [kill], in order *)
  s_foreign : gset Z;                     (* process groups of processes the keeper did not start for a session *)
}.

(** The keeper when [serve] is called, with the registry [startup] leaves. *)
Definition system_new (r : Registry) (foreign : gset Z) : System :=
  {| s_services := reg_sessions r; s_registry := r; s_threads := []; s_shutdown := Waiting;
     s_replies := []; s_kills := []; s_foreign := foreign |}.

(** The group of a child that the keeper has not waited for yet: its process id
    is taken. *)
Definition unreaped (t : Thread) : option Z :=
  match t with
  | Spawned _ s _ | Numbered _ _ s _ => Some (ses_pgid s)
  | Serving _ _ s _ c => if reaped (c_waiter c) then None else Some (ses_pgid s)
  end.
Definition held (k : System) : list Z :=
  ((λ e : N * SessionInfo, info_pgid e.2) <$> map_to_list (s_services k)) ++ omap unreaped (s_threads k).

(** The one registry, seen by a connection. *)
Definition share (r : Registry) (t : Thread) : Thread :=
  match t with
  | Spawned _ _ _ | Numbered _ _ _ _ => t
  | Serving req now s input c => Serving req now s input (upd_reg (λ _, r) c)
  end.

Definition pid_of (t : Thread) : Z := match t with Spawned _ s _ | Numbered _ _ s _ | Serving _ _ s _ _ => ses_pgid s end.

(** The number of its session. *)
Definition session_id (t : Thread) : option N :=
  match t with Spawned _ _ _ => None | Numbered id _ _ _ => Some id | Serving _ _ _ _ c => Some (c_id c) end.

Definition with_threads (r : Registry) (ts : list Thread) (kills : list (Sender * (Z * Z))) (k : System) : System :=
  {| s_services := s_services k; s_registry := r; s_threads := ts; s_shutdown := s_shutdown k;
     s_replies := s_replies k; s_kills := s_kills k ++ kills; s_foreign := s_foreign k |}.
Definition with_shutdown (p : ShutdownPhase) (kills : list (Sender * (Z * Z))) (k : System) : System :=
  {| s_services := s_services k; s_registry := s_registry k; s_threads := s_threads k; s_shutdown := p;
     s_replies := s_replies k; s_kills := s_kills k ++ kills; s_foreign := s_foreign k |}.
Definition with_reply (f : Frame) (k : System) : System :=
  {| s_services := s_services k; s_registry := s_registry k; s_threads := s_threads k; s_shutdown := s_shutdown k;
     s_replies := s_replies k ++ [f]; s_kills := s_kills k; s_foreign := s_foreign k |}.
Definition with_foreign (foreign : gset Z) (k : System) : System :=
  {| s_services := s_services k; s_registry := s_registry k; s_threads := s_threads k; s_shutdown := s_shutdown k;
     s_replies := s_replies k; s_kills := s_kills k; s_foreign := foreign |}.

(** Thread [i] acts: the others see the registry it leaves. *)
Definition thread_moves (i : nat) (t : Thread) (r : Registry) (kills : list (Sender * (Z * Z))) (k : System) : System :=
  with_threads r (<[i := t]> (share r <$> s_threads k)) kills k.

(** The [kill] calls of a connection's step: the signals it added to its record. *)
Definition kill_calls (i : nat) (s : Session) (c c' : Conn) : list (Sender * (Z * Z)) :=
  (λ sig, (ByConnection i, (wrap_i32 (- ses_pgid s), sig))) <$> drop (length (c_signals c)) (c_signals c').

(** The process ids of a snapshot, then the services'. *)
Definition targets (r : Registry) (svc : list Z) : list Z :=
  ((λ e : N * SessionInfo, info_pgid e.2) <$> snapshot r) ++ svc.

Definition running (k : System) : Prop := match s_shutdown k with Exited _ _ _ => False | _ => True end.

(** ** Steps *)

Inductive sys_step (k : System) : System → Prop :=
(* connections *)
| step_reply spawn uptime first f :
    running k → handle_first spawn (s_registry k) uptime first = ReplyAndClose f →
    sys_step k (with_reply f k)
| step_spawn req s input :
    running k → (0 < ses_pgid s ≤ 2147483647)%Z → ses_pgid s ∉ held k → ses_pgid s ∉ s_foreign k →
    sys_step k (with_threads (s_registry k) (s_threads k ++ [Spawned req s input]) [] k)
| step_number i req s input :
    running k → s_threads k !! i = Some (Spawned req s input) → (next_id (s_registry k) < U64_MAX)%N →
    let '(r, id) := registry_number (s_registry k) in
    sys_step k (thread_moves i (Numbered id req s input) r [] k)
| step_register i id req s input now :
    running k → s_threads k !! i = Some (Numbered id req s input) →
    let c := start_session id (s_registry k) now s req input in
    sys_step k (thread_moves i (Serving req now s input c) (c_reg c) [] k)
| step_connection i req now s input c c' :
    running k → s_threads k !! i = Some (Serving req now s input c) → internal c c' →
    sys_step k (thread_moves i (Serving req now s input c') (c_reg c') (kill_calls i s c c') k)
(* the shutdown thread *)
| step_signal requested answer :
    s_shutdown k = Waiting →
    let svc := service_process_groups requested answer in
    sys_step k (with_shutdown (Terminating (s_registry k) (targets (s_registry k) svc) svc) [] k)
| step_term before p todo svc :
    s_shutdown k = Terminating before (p :: todo) svc →
    sys_step k (with_shutdown (Terminating before todo svc) [(ByShutdown, (wrap_i32 (- p), SIGTERM))] k)
| step_grace before svc :
    s_shutdown k = Terminating before [] svc →
    sys_step k (with_shutdown (Killing before (s_registry k) (targets (s_registry k) svc) svc) [] k)
| step_kill before after p todo svc :
    s_shutdown k = Killing before after (p :: todo) svc →
    sys_step k (with_shutdown (Killing before after todo svc) [(ByShutdown, (wrap_i32 (- p), SIGKILL))] k)
| step_exit before after svc :
    s_shutdown k = Killing before after [] svc → sys_step k (with_shutdown (Exited before after svc) [] k)
(* the rest of the machine: a group id that is not taken may come into use *)
| step_foreign_new p : p ∉ held k → sys_step k (with_foreign ({[p]} ∪ s_foreign k) k)
| step_foreign_gone p : sys_step k (with_foreign (s_foreign k ∖ {[p]}) k).

(** ** What a connection's own step does to the registry and to its signals *)

Lemma internal_registry c c' :
  internal c c' →
  (c_reg c' = c_reg c ∧ registered (c_waiter c') = registered (c_waiter c)) ∨
  (c_waiter c = WRemove ∧ c_waiter c' = WSend ∧ c_reg c' = (registry_remove (c_id c) (c_reg c)).1).
Proof.
  destruct 1; try (left; unfold send; simpl; repeat case_match; simplify_eq/=; (done || (split; [done|congruence]))).
  - left. destruct (on_client_frame_frame failed f c) as [[= _ _ Er _ _ _ Ew _] _]. simpl. by rewrite Er, Ew.
  - left. simpl. by rewrite H.
  - left. simpl. by rewrite H.
  - left. simpl. by rewrite H.
  - by right.
  - left. unfold send. simpl. by case_match; simpl; rewrite H.
Qed.

Lemma internal_reaped c c' : internal c c' → reaped (c_waiter c) = true → reaped (c_waiter c') = true.
Proof.
  destruct 1; try (unfold send; simpl; repeat case_match; simplify_eq/=; (done || congruence)).
  1: { destruct (on_client_frame_frame failed f c) as [[= _ _ _ _ _ _ Ew _] _]. simpl. by rewrite Ew. }
  all: by rewrite H.
Qed.

(** To another connection, such a step is nothing or a removal of another's
    session: a step of the environment {!Connection} assumes. *)
Lemma env_remove c c' d :
  internal c c' → c_reg d = c_reg c → c_id d ≠ c_id c → rtc other d (upd_reg (λ _, c_reg c') d).
Proof.
  intros Hs Hr Hid. destruct (internal_registry _ _ Hs) as [[E _]|(_ & _ & E)]; rewrite E, <- Hr.
  - replace (upd_reg (λ _, c_reg d) d) with d by by destruct d. done.
  - apply rtc_once. change (upd_reg _ d) with (upd_reg (λ r, (registry_remove (c_id c) r).1) d).
    apply other_remove. congruence.
Qed.

Lemma env_number reg d : (next_id reg < U64_MAX)%N → c_reg d = reg → rtc other d (upd_reg (λ _, (registry_number reg).1) d).
Proof.
  intros Hn <-. apply rtc_once.
  change (upd_reg _ d) with (upd_reg (λ r, (registry_number r).1) d). by apply other_number.
Qed.

Lemma env_put id reg pgid command now d :
  (1 ≤ id ≤ next_id reg)%N → c_reg d = reg → c_id d ≠ id → rtc other d (upd_reg (λ _, registry_put id pgid command now reg) d).
Proof.
  intros Hn <- Hid. apply rtc_once.
  change (upd_reg _ d) with (upd_reg (registry_put id pgid command now) d). apply other_put; [congruence|done].
Qed.

Lemma env_step d d' : rtc other d d' → rtc step d d'.
Proof. apply rtc_subrel. intros ??. by right. Qed.

(** The signals of a step: one the client asked for, or, while the session is
    registered, one of the escalation. *)
Definition signal_of_step (c : Conn) (sig : Z) : Prop :=
  (∃ f, c_main c = MFrame (FSignal f) ∧ sig = as_libc f) ∨
  (contains_me c = true ∧ (sig = SIGTERM ∨ sig = SIGKILL)).

Lemma internal_signals c c' :
  internal c c' → ∃ sigs, c_signals c' = c_signals c ++ sigs ∧ Forall (signal_of_step c) sigs.
Proof.
  destruct 1; try (exists []; unfold send; simpl; repeat case_match; simpl; by rewrite app_nil_r).
  - destruct f; simpl; repeat case_match; simpl; try (exists []; by rewrite app_nil_r).
    eexists. split; [done|]. constructor; [|done]. left. by eexists.
  - case_match; simpl; [|exists []; by rewrite app_nil_r].
    eexists. split; [done|]. constructor; [|done]. right. split; [done|by left].
  - case_match; simpl; [|exists []; by rewrite app_nil_r].
    eexists. split; [done|]. constructor; [|done]. right. split; [done|by right].
Qed.

Lemma kill_calls_spec i s c c' e :
  internal c c' → e ∈ kill_calls i s c c' → ∃ sig, e = (ByConnection i, (wrap_i32 (- ses_pgid s), sig)) ∧ signal_of_step c sig.
Proof.
  intros Hs. destruct (internal_signals _ _ Hs) as (sigs & E & Hf). unfold kill_calls. rewrite E, drop_app_length.
  rewrite list_elem_of_fmap. intros (sig & -> & Hin). exists sig. split; [done|]. by eapply Forall_forall in Hin.
Qed.

(** ** Lists of threads *)

Lemma unreaped_share r t : unreaped (share r t) = unreaped t.
Proof. by destruct t. Qed.

Lemma omap_unreaped_share r (ts : list Thread) : omap unreaped (share r <$> ts) = omap unreaped ts.
Proof. induction ts as [|t ts IH]; [done|]. rewrite fmap_cons. cbn. by rewrite unreaped_share, IH. Qed.

Lemma omap_insert {A B} (f : A → option B) (l : list A) i x y :
  l !! i = Some y → f x = f y → omap f (<[i := x]> l) = omap f l.
Proof.
  revert i. induction l as [|a l IH]; intros [|i] Hl E; simplify_eq/=; [by rewrite E|].
  by rewrite (IH _ Hl E).
Qed.

Lemma omap_insert_sublist {A B} (f : A → option B) (l : list A) i x y :
  l !! i = Some y → f x = f y ∨ f x = None → sublist (omap f (<[i := x]> l)) (omap f l).
Proof.
  intros Hl [E|E]; [by rewrite (omap_insert _ _ _ _ _ Hl E)|].
  revert i Hl. induction l as [|a l IH]; intros [|i] Hl; simplify_eq/=.
  - rewrite E. case_match; [by apply sublist_cons|done].
  - case_match; [by apply sublist_skip, IH|by apply IH].
Qed.

Definition serves (k : System) (i : nat) (req : SpawnRequest) (now : N) (s : Session) (input : list Frame) (c : Conn) : Prop :=
  s_threads k !! i = Some (Serving req now s input c).

(** After thread [i] moved: it is in its new state, the others are where they
    were, with the new registry. *)
Lemma moves_serves i t r kills k t0 j req now s input d :
  s_threads k !! i = Some t0 → serves (thread_moves i t r kills k) j req now s input d →
  (j = i ∧ t = Serving req now s input d) ∨
  (j ≠ i ∧ ∃ d0, serves k j req now s input d0 ∧ d = upd_reg (λ _, r) d0).
Proof.
  intros Hi Hj. unfold serves in *. simpl in Hj. destruct (decide (j = i)) as [->|Hne].
  - left. rewrite list_lookup_insert_eq in Hj; [by simplify_eq|].
    rewrite length_fmap. by eapply lookup_lt_Some.
  - right. rewrite list_lookup_insert_ne, list_lookup_fmap in Hj by done.
    split; [done|]. destruct (s_threads k !! j) as [[]|] eqn:E; simplify_eq/=. by eexists.
Qed.

Lemma moves_serves_other i t r kills k j req now s input d :
  j ≠ i → serves k j req now s input d → serves (thread_moves i t r kills k) j req now s input (upd_reg (λ _, r) d).
Proof. intros Hne Hj. unfold serves in *. simpl. rewrite list_lookup_insert_ne, list_lookup_fmap by done. by rewrite Hj. Qed.

Lemma moves_serves_self i req now s input c r kills k t0 :
  s_threads k !! i = Some t0 → serves (thread_moves i (Serving req now s input c) r kills k) i req now s input c.
Proof. intros Hi. unfold serves. simpl. apply list_lookup_insert_eq. rewrite length_fmap. by eapply lookup_lt_Some. Qed.

(** ** The invariant *)

Definition entry (req : SpawnRequest) (now : N) (s : Session) : SessionInfo :=
  {| info_pgid := ses_pgid s; info_command := describe req; info_started := now |}.

(** A session as {!Connection} runs it, from some registry. *)
Definition conn_run (req : SpawnRequest) (now : N) (s : Session) (input : list Frame) (c : Conn) : Prop :=
  ∃ id reg, registry_wf reg ∧ (1 ≤ id ≤ next_id reg)%N ∧ reg_sessions reg !! id = None ∧
    rtc step (start_session id reg now s req input) c.

Record sys_inv (k : System) : Prop := {
  si_wf : registry_wf (s_registry k);
  si_run i req now s input c : serves k i req now s input c → conn_run req now s input c;
  si_shared i req now s input c : serves k i req now s input c → c_reg c = s_registry k;
  si_sids i j t t' id :
    s_threads k !! i = Some t → s_threads k !! j = Some t' → session_id t = Some id → session_id t' = Some id → i = j;
  si_numbered i t id :
    s_threads k !! i = Some t → session_id t = Some id → (1 ≤ id ≤ next_id (s_registry k))%N ∧ s_services k !! id = None;
  si_registry id info :
    reg_sessions (s_registry k) !! id = Some info ↔
    s_services k !! id = Some info ∨
    ∃ i req now s input c, serves k i req now s input c ∧ c_id c = id ∧ registered (c_waiter c) = true ∧ info = entry req now s;
  si_held : NoDup (held k);
  si_pids : Forall (λ t, (0 < pid_of t ≤ 2147483647)%Z) (s_threads k);
  si_foreign p : p ∈ held k → p ∉ s_foreign k;
}.

(** What [startup] leaves: numbered entries with distinct groups that no other
    process uses. *)
Record startable (r : Registry) (foreign : gset Z) : Prop := {
  st_wf : registry_wf r;
  st_groups : NoDup ((λ e : N * SessionInfo, info_pgid e.2) <$> map_to_list (reg_sessions r));
  st_foreign id info : reg_sessions r !! id = Some info → info_pgid info ∉ foreign;
}.

Lemma si_ids k (Hk : sys_inv k) i j req now s input c req' now' s' input' c' :
  serves k i req now s input c → serves k j req' now' s' input' c' → c_id c = c_id c' → i = j.
Proof. intros Hi Hj E. apply (si_sids _ Hk _ _ _ _ (c_id c) Hi Hj); [done|]. by rewrite E. Qed.

Lemma si_services k (Hk : sys_inv k) i req now s input c : serves k i req now s input c → s_services k !! c_id c = None.
Proof. intros Hi. by apply (si_numbered _ Hk _ _ _ Hi). Qed.

(** A number with no entry yet is not in the registry. *)
Lemma numbered_absent k i id req s input :
  sys_inv k → s_threads k !! i = Some (Numbered id req s input) → reg_sessions (s_registry k) !! id = None.
Proof.
  intros Hk Hi. apply eq_None_not_Some. intros [info Hs].
  apply (si_registry _ Hk) in Hs as [Hs|(j & req' & now & s' & input' & c & Hj & Ec & _)].
  - destruct (si_numbered _ Hk _ _ id Hi eq_refl) as [_ E]. congruence.
  - assert (i = j) as <- by (apply (si_sids _ Hk i j _ _ id Hi Hj); simpl; congruence). unfold serves in Hj. congruence.
Qed.

Lemma run_inv req now s input c : conn_run req now s input c → conn_inv c ∧ c_session c = s.
Proof.
  intros (id & reg & Hwf & Hn & _ & Hr). split; [exact (reach_inv _ _ Hr (start_inv id reg now s req input Hwf Hn))|].
  by destruct (reach_fixed _ _ Hr).
Qed.

Lemma held_moves i t r kills k t0 :
  s_threads k !! i = Some t0 → unreaped t = unreaped t0 ∨ unreaped t = None →
  sublist (held (thread_moves i t r kills k)) (held k).
Proof.
  intros Hi Ht. unfold held. simpl. apply sublist_app; [done|].
  rewrite <- (omap_unreaped_share r (s_threads k)).
  eapply (omap_insert_sublist _ _ _ _ (share r t0)); [by rewrite list_lookup_fmap, Hi|].
  by rewrite unreaped_share.
Qed.

Lemma inv_held i t r kills k t0 :
  sys_inv k → s_threads k !! i = Some t0 → unreaped t = unreaped t0 ∨ unreaped t = None → pid_of t = pid_of t0 →
  NoDup (held (thread_moves i t r kills k)) ∧
  Forall (λ t, (0 < pid_of t ≤ 2147483647)%Z) (s_threads (thread_moves i t r kills k)) ∧
  ∀ p, p ∈ held (thread_moves i t r kills k) → p ∉ s_foreign k.
Proof.
  intros Hk Hi Ht Hp. pose proof (held_moves i t r kills k t0 Hi Ht) as Hsub. split; [|split].
  - eapply sublist_NoDup; [apply Hk|exact Hsub].
  - simpl. apply Forall_insert.
    + apply Forall_fmap. eapply Forall_impl; [apply Hk|]. by intros [].
    + rewrite Hp. eapply (Forall_lookup_1 (λ t, (0 < pid_of t ≤ 2147483647)%Z)); [apply Hk|done].
  - intros p Hp'. apply (si_foreign _ Hk). by eapply elem_of_sublist.
Qed.

Lemma inv_new r foreign : startable r foreign → sys_inv (system_new r foreign).
Proof.
  intros [Hwf Hg Hf]. split; unfold serves; simpl; try done.
  - intros id info. split; [by left|]. intros [?|(? & ? & ? & ? & ? & ? & Hs & _)]; done.
  - unfold held. simpl. by rewrite app_nil_r.
  - intros p. unfold held. simpl. rewrite app_nil_r, list_elem_of_fmap.
    intros ([id info] & -> & Hin%elem_of_map_to_list). simpl. by eapply Hf.
Qed.

(** Steps that leave the threads and the registry alone. *)
Lemma inv_frame k k' :
  sys_inv k → s_services k' = s_services k → s_registry k' = s_registry k → s_threads k' = s_threads k →
  (∀ p, p ∈ held k → p ∉ s_foreign k') → sys_inv k'.
Proof.
  intros [] E1 E2 E3 Hf. assert (held k' = held k) as Eh by (unfold held; by rewrite E1, E3).
  split; unfold serves in *; rewrite ?E1, ?E2, ?E3, ?Eh; try done.
Qed.

Lemma spawned_serves k r req s input j req' now s' input' c :
  serves (with_threads r (s_threads k ++ [Spawned req s input]) [] k) j req' now s' input' c ↔ serves k j req' now s' input' c.
Proof.
  unfold serves. simpl. split.
  - intros [Hj|[_ Hj]]%lookup_app_Some; [done|]. by apply list_lookup_singleton_Some in Hj as [_ ?].
  - intros Hj. by apply lookup_app_l_Some.
Qed.

Lemma inv_spawn k req s input :
  sys_inv k → (0 < ses_pgid s ≤ 2147483647)%Z → ses_pgid s ∉ held k → ses_pgid s ∉ s_foreign k →
  sys_inv (with_threads (s_registry k) (s_threads k ++ [Spawned req s input]) [] k).
Proof.
  intros Hk Hpid Hh Hf.
  assert (held (with_threads (s_registry k) (s_threads k ++ [Spawned req s input]) [] k) = held k ++ [ses_pgid s]) as Eh.
  { unfold held. simpl. by rewrite omap_app, app_assoc. }
  split.
  - apply Hk.
  - intros j req' now s' input' c Hj%spawned_serves. by eapply (si_run _ Hk).
  - intros j req' now s' input' c Hj%spawned_serves. by eapply (si_shared _ Hk).
  - simpl. intros j j' t t' id [H1|[_ H1]]%lookup_app_Some [H2|[_ H2]]%lookup_app_Some;
      try (apply list_lookup_singleton_Some in H1 as [_ <-]; done); try (apply list_lookup_singleton_Some in H2 as [_ <-]; done).
    by eapply (si_sids _ Hk).
  - simpl. intros j t id [H1|[_ H1]]%lookup_app_Some; [by eapply (si_numbered _ Hk)|].
    by apply list_lookup_singleton_Some in H1 as [_ <-].
  - intros id info. setoid_rewrite spawned_serves. apply (si_registry _ Hk).
  - rewrite Eh. apply NoDup_app. split; [apply Hk|]. split; [|apply NoDup_singleton].
    intros p Hp ->%list_elem_of_singleton. done.
  - simpl. apply Forall_app. split; [apply Hk|by constructor].
  - intros p. rewrite Eh, elem_of_app, list_elem_of_singleton. intros [Hp| ->]; [|done]. by apply (si_foreign _ Hk).
Qed.

Lemma registry_numbered k id info :
  sys_inv k → reg_sessions (s_registry k) !! id = Some info → (id ≤ next_id (s_registry k))%N.
Proof. intros Hk Hid. apply (si_wf _ Hk). by eexists. Qed.

(** A thread that keeps its session's number, or gets the next one, keeps the
    numbers apart. *)
Lemma inv_numbers i t r kills k t0 :
  sys_inv k → s_threads k !! i = Some t0 → (next_id (s_registry k) ≤ next_id r)%N →
  session_id t = session_id t0 ∨ (session_id t = Some (next_id r) ∧ (next_id (s_registry k) < next_id r)%N) →
  (∀ j j' u u' id, s_threads (thread_moves i t r kills k) !! j = Some u → s_threads (thread_moves i t r kills k) !! j' = Some u' →
     session_id u = Some id → session_id u' = Some id → j = j') ∧
  (∀ j u id, s_threads (thread_moves i t r kills k) !! j = Some u → session_id u = Some id →
     (1 ≤ id ≤ next_id r)%N ∧ s_services k !! id = None).
Proof.
  intros Hk Hi Hle Ht.
  assert (∀ j u id, s_threads (thread_moves i t r kills k) !! j = Some u → session_id u = Some id →
    (∃ u0, s_threads k !! j = Some u0 ∧ session_id u0 = Some id) ∨ (j = i ∧ id = next_id r ∧ (next_id (s_registry k) < next_id r)%N)) as Hback.
  { simpl. intros j u id Hj Hid. destruct (decide (j = i)) as [->|Hne].
    - rewrite list_lookup_insert_eq in Hj by (rewrite length_fmap; by eapply lookup_lt_Some). injection Hj as <-.
      destruct Ht as [Ht|[Ht Hlt]]; [left; exists t0; by rewrite <- Ht|right; by simplify_eq].
    - left. rewrite list_lookup_insert_ne, list_lookup_fmap in Hj by done. destruct (s_threads k !! j) as [u0|] eqn:E; [|done].
      injection Hj as <-. exists u0. split; [done|]. by destruct u0. }
  split.
  - intros j j' u u' id Hj Hj' Hu Hu'.
    destruct (Hback _ _ _ Hj Hu) as [(v & Hv & Ev)|(-> & -> & Hlt)], (Hback _ _ _ Hj' Hu') as [(v' & Hv' & Ev')|(-> & E & Hlt')]; try done.
    + by eapply (si_sids _ Hk).
    + subst id. pose proof (si_numbered _ Hk _ _ _ Hv Ev). lia.
    + pose proof (si_numbered _ Hk _ _ _ Hv' Ev'). lia.
  - intros j u id Hj Hu. destruct (Hback _ _ _ Hj Hu) as [(v & Hv & Ev)|(-> & -> & Hlt)].
    + destruct (si_numbered _ Hk _ _ _ Hv Ev). split; [lia|done].
    + split; [lia|]. apply eq_None_not_Some. intros [info Hs].
      assert (reg_sessions (s_registry k) !! next_id r = Some info) as Hin by (apply (si_registry _ Hk); by left).
      apply (registry_numbered _ _ _ Hk) in Hin. lia.
Qed.

Lemma inv_number k i req s input :
  sys_inv k → s_threads k !! i = Some (Spawned req s input) → (next_id (s_registry k) < U64_MAX)%N →
  sys_inv (thread_moves i (Numbered (registry_number (s_registry k)).2 req s input) (registry_number (s_registry k)).1 [] k).
Proof.
  intros Hk Hi Hn. set (t := Numbered _ req s input). set (r := (registry_number (s_registry k)).1).
  assert (next_id r = (next_id (s_registry k) + 1)%N) as Er by (simpl; by apply u64_succ_small).
  destruct (inv_held i t r [] k _ Hk Hi (or_introl eq_refl) eq_refl) as (Hh & Hpid & Hf).
  destruct (inv_numbers i t r [] k _ Hk Hi ltac:(lia) ltac:(right; split; [done|lia])) as [Hs1 Hs2].
  assert (∀ j req' now' s' input' d, serves (thread_moves i t r [] k) j req' now' s' input' d →
    ∃ d0, serves k j req' now' s' input' d0 ∧ d = upd_reg (λ _, r) d0) as Hback.
  { intros j req' now' s' input' d [[_ ?]|(_ & d0 & Hd & ->)]%(moves_serves _ _ _ _ _ _ _ _ _ _ _ _ Hi); [done|by exists d0]. }
  split; [| | |exact Hs1|exact Hs2| |done|done|done].
  - simpl. by apply registry_number_wf; [apply Hk|].
  - intros j req' now' s' input' d (d0 & Hd & ->)%Hback.
    destruct (si_run _ Hk _ _ _ _ _ _ Hd) as (id & reg & ? & ? & ? & Hr). exists id, reg. do 3 (split; [done|]).
    etrans; [exact Hr|]. apply env_step, env_number; [done|]. by eapply (si_shared _ Hk).
  - by intros j req' now' s' input' d (d0 & Hd & ->)%Hback.
  - intros id info. change (reg_sessions (s_registry (thread_moves i t r [] k))) with (reg_sessions (s_registry k)).
    change (s_services (thread_moves i t r [] k)) with (s_services k). rewrite (si_registry _ Hk). split.
    + intros [Hs|(j & req' & now' & s' & input' & d & Hd & <- & Hreg & ->)]; [by left|right].
      exists j, req', now', s', input', (upd_reg (λ _, r) d). split_and!; try done.
      apply moves_serves_other; [|done]. intros ->. unfold serves in Hd. congruence.
    + intros [Hs|(j & req' & now' & s' & input' & d & (d0 & Hd & ->)%Hback & <- & Hreg & ->)]; [by left|right].
      by exists j, req', now', s', input', d0.
Qed.

(** Registering a numbered session: its entry is the only change. *)
Lemma inv_register k i id req s input now :
  sys_inv k → s_threads k !! i = Some (Numbered id req s input) →
  let c := start_session id (s_registry k) now s req input in
  sys_inv (thread_moves i (Serving req now s input c) (c_reg c) [] k).
Proof.
  intros Hk Hi c. destruct (si_numbered _ Hk _ _ id Hi eq_refl) as [Hid Hsvc]. pose proof (numbered_absent _ _ _ _ _ _ Hk Hi) as Habs.
  assert (conn_run req now s input c) as Hrun by (exists id, (s_registry k); split; [apply Hk|split; [done|split; [done|apply rtc_refl]]]).
  assert (∀ j req' now' s' input' d, serves k j req' now' s' input' d → j ≠ i ∧ c_id d ≠ id) as Hne.
  { intros j req' now' s' input' d Hd. assert (j ≠ i) as Hj by (intros ->; unfold serves in Hd; congruence).
    split; [done|]. intros E. apply Hj, (si_sids _ Hk j i _ _ id Hd Hi); simpl; congruence. }
  destruct (inv_held i (Serving req now s input c) (c_reg c) [] k _ Hk Hi (or_introl eq_refl) eq_refl) as (Hh & Hpid & Hf).
  destruct (inv_numbers i (Serving req now s input c) (c_reg c) [] k _ Hk Hi ltac:(done) (or_introl eq_refl)) as [Hs1 Hs2].
  split; [| | |exact Hs1|exact Hs2| |done|done|done].
  - simpl. by apply registry_put_wf; [apply Hk|].
  - intros j req' now' s' input' d [[-> [= <- <- <- <- <-]]|(_ & d0 & Hd & ->)]%(moves_serves _ _ _ _ _ _ _ _ _ _ _ _ Hi); [done|].
    destruct (si_run _ Hk _ _ _ _ _ _ Hd) as (id0 & reg & ? & ? & ? & Hr). exists id0, reg. do 3 (split; [done|]).
    etrans; [exact Hr|]. apply env_step, env_put; [done|by eapply (si_shared _ Hk)|by eapply Hne].
  - by intros j req' now' s' input' d [[-> [= <- <- <- <- <-]]|(_ & d0 & Hd & ->)]%(moves_serves _ _ _ _ _ _ _ _ _ _ _ _ Hi).
  - intros id' info. change (s_registry _) with (registry_put id (ses_pgid s) (describe req) now (s_registry k)).
    change (s_services _) with (s_services k).
    change (reg_sessions _) with (<[id := entry req now s]> (reg_sessions (s_registry k))).
    rewrite lookup_insert_Some, (si_registry _ Hk). split.
    + intros [[<- <-]|[_ [Hs|(j & req' & now' & s' & input' & d & Hd & <- & Hreg & ->)]]]; [|by left|].
      * right. exists i, req, now, s, input, c. split_and!; try done. by eapply moves_serves_self.
      * right. exists j, req', now', s', input', (upd_reg (λ _, c_reg c) d). split_and!; try done.
        apply moves_serves_other; [|done]. by eapply Hne.
    + intros [Hs|(j & req' & now' & s' & input' & d & Hd & <- & Hreg & ->)].
      * right. split; [|by left]. intros <-. congruence.
      * apply (moves_serves _ _ _ _ _ _ _ _ _ _ _ _ Hi) in Hd as [[-> [= <- <- <- <- <-]]|(_ & d0 & Hd & ->)]; [by left|].
        right. split; [intros E; by eapply Hne|]. right. by exists j, req', now', s', input', d0.
Qed.

(** What the registry holds of a session after a connection's step. *)
Lemma registry_after c c' id :
  internal c c' → contains_me c = registered (c_waiter c) → contains_me c' = registered (c_waiter c') → c_id c' = c_id c →
  reg_sessions (c_reg c') !! id =
    if decide (id = c_id c) then if registered (c_waiter c') then reg_sessions (c_reg c) !! id else None
    else reg_sessions (c_reg c) !! id.
Proof.
  intros Hs Hc Hc' Hid. unfold contains_me in *. rewrite Hid in Hc'.
  destruct (internal_registry _ _ Hs) as [[E Ew]|(_ & Ew & E)]; rewrite E in *.
  - case_decide as Ei; [subst id|done]. destruct (registered (c_waiter c')); [done|].
    by apply registry_contains_false in Hc'.
  - rewrite Ew. simpl. case_decide as Ei; [subst id; by rewrite lookup_delete_eq|by rewrite lookup_delete_ne].
Qed.

Lemma unregistered_stays c c' : internal c c' → registered (c_waiter c') = true → registered (c_waiter c) = true.
Proof. intros Hs H. destruct (internal_registry _ _ Hs) as [[_ <-]|(Ew & _)]; [done|by rewrite Ew]. Qed.

Section connection_step.
Context (k : System) (i : nat) (req : SpawnRequest) (now : N) (s : Session) (input : list Frame) (c c' : Conn).
Hypothesis (Hk : sys_inv k) (Hi : serves k i req now s input c) (Hstep : internal c c').
#[local] Set Default Proof Using "Type*".

Local Abbreviation k' := (thread_moves i (Serving req now s input c') (c_reg c') (kill_calls i s c c') k).

Lemma moved_run : conn_run req now s input c' ∧ c_id c' = c_id c ∧ c_session c' = s.
Proof.
  destruct (si_run _ Hk _ _ _ _ _ _ Hi) as (id & reg & Hwf & Hn & Ha & Hr).
  assert (rtc step (start_session id reg now s req input) c') as Hr' by (eapply rtc_r; [exact Hr|by left]).
  split; [by exists id, reg|]. split; [by destruct (step_fixed c c' (or_introl Hstep))|]. by destruct (reach_fixed _ _ Hr').
Qed.

Lemma moved_unreaped : unreaped (Serving req now s input c') = unreaped (Serving req now s input c) ∨ unreaped (Serving req now s input c') = None.
Proof.
  simpl. destruct (reaped (c_waiter c)) eqn:E; [rewrite (internal_reaped _ _ Hstep E); by left|].
  destruct (reaped (c_waiter c')); [by right|by left].
Qed.

(** Who serves what afterwards, with the same ids. *)
Lemma moved_before j req' now' s' input' d :
  serves k' j req' now' s' input' d → ∃ d0, serves k j req' now' s' input' d0 ∧ c_id d = c_id d0 ∧
    ((j = i ∧ d = c' ∧ d0 = c) ∨ (j ≠ i ∧ d = upd_reg (λ _, c_reg c') d0)).
Proof.
  destruct moved_run as (_ & Hid & _).
  intros [[-> [= <- <- <- <- <-]]|(Hne & d0 & Hd & ->)]%(moves_serves _ _ _ _ _ _ _ _ _ _ _ _ Hi).
  - exists c. split_and!; [done..|by left].
  - exists d0. split_and!; [done..|by right].
Qed.

Lemma moved_registry id info :
  reg_sessions (s_registry k') !! id = Some info ↔
  s_services k' !! id = Some info ∨
  ∃ i req now s input c, serves k' i req now s input c ∧ c_id c = id ∧ registered (c_waiter c) = true ∧ info = entry req now s.
Proof.
  destruct moved_run as (Hrun & Hid & _). pose proof (run_inv _ _ _ _ _ Hrun) as [Hci' _].
  pose proof (run_inv _ _ _ _ _ (si_run _ Hk _ _ _ _ _ _ Hi)) as [Hci _].
  change (s_registry k') with (c_reg c'). change (s_services k') with (s_services k).
  rewrite (registry_after c c' id Hstep (inv_contains _ Hci) (inv_contains _ Hci') Hid), (si_shared _ Hk _ _ _ _ _ _ Hi).
  split.
  - intros Hin. case_decide as Ei; [subst id; destruct (registered _) eqn:Er; [|done]|];
      apply (si_registry _ Hk) in Hin as [Hs|(j & req' & now' & s' & input' & d & Hd & Ed & Hreg & ->)];
      try (by left); right.
    + assert (j = i) as -> by by eapply (si_ids _ Hk). unfold serves in *. simplify_eq.
      exists i, req, now, s, input, c'. split_and!; try done. by eapply moves_serves_self.
    + exists j, req', now', s', input', (upd_reg (λ _, c_reg c') d). split_and!; try done.
      apply moves_serves_other; [|done]. intros ->. unfold serves in *. simplify_eq.
  - intros [Hs|(j & req' & now' & s' & input' & d & Hd & Ed & Hreg & ->)].
    + rewrite decide_False; [by apply (si_registry _ Hk); left|].
      intros ->. by rewrite (si_services _ Hk _ _ _ _ _ _ Hi) in Hs.
    + destruct (moved_before _ _ _ _ _ _ Hd) as (d0 & Hd0 & Ed0 & [(-> & -> & ->)|[Hne ->]]).
      * rewrite decide_True, Hreg by congruence. apply (si_registry _ Hk). right.
        exists i, req', now', s', input', c. split_and!; [done|congruence| |done]. by eapply unregistered_stays.
      * rewrite decide_False; [apply (si_registry _ Hk); right; exists j, req', now', s', input', d0; by rewrite <- Ed0|].
        intros E. apply Hne. eapply (si_ids _ Hk); [done..|congruence].
Qed.

Lemma inv_connection : sys_inv k'.
Proof.
  destruct moved_run as (Hrun & Hid & _). pose proof (run_inv _ _ _ _ _ Hrun) as [Hci' _].
  destruct (inv_held i (Serving req now s input c') (c_reg c') (kill_calls i s c c') k _ Hk Hi moved_unreaped eq_refl) as (Hh & Hpid & Hf).
  assert (next_id (c_reg c') = next_id (s_registry k)) as Hnext.
  { rewrite <- (si_shared _ Hk _ _ _ _ _ _ Hi). by destruct (internal_registry _ _ Hstep) as [[-> _]|(_ & _ & ->)]. }
  destruct (inv_numbers i (Serving req now s input c') (c_reg c') (kill_calls i s c c') k _ Hk Hi ltac:(by rewrite Hnext)
    ltac:(left; simpl; by rewrite Hid)) as [Hs1 Hs2].
  split; [| | |exact Hs1|exact Hs2|exact moved_registry|exact Hh|exact Hpid|exact Hf].
  - apply Hci'.
  - intros j req' now' s' input' d Hd. destruct (moved_before _ _ _ _ _ _ Hd) as (d0 & Hd0 & Ed0 & [(-> & -> & ->)|[Hne ->]]).
    + unfold serves in *. by simplify_eq.
    + destruct (si_run _ Hk _ _ _ _ _ _ Hd0) as (id & reg & ? & ? & ? & Hr). exists id, reg. do 3 (split; [done|]).
      etrans; [exact Hr|]. apply env_step, (env_remove c); [done| |].
      * by rewrite (si_shared _ Hk _ _ _ _ _ _ Hd0), (si_shared _ Hk _ _ _ _ _ _ Hi).
      * intros E. apply Hne. by eapply (si_ids _ Hk).
  - intros j req' now' s' input' d Hd. by destruct (moved_before _ _ _ _ _ _ Hd) as (d0 & _ & _ & [(-> & -> & ->)|[Hne ->]]).
Qed.
End connection_step.

Lemma sys_step_inv k k' : sys_step k k' → sys_inv k → sys_inv k'.
Proof.
  intros Hs Hk. destruct Hs.
  - apply (inv_frame k); try done. apply Hk.
  - by apply inv_spawn.
  - by apply inv_number.
  - by apply inv_register.
  - by apply inv_connection.
  - apply (inv_frame k); try done. apply Hk.
  - apply (inv_frame k); try done. apply Hk.
  - apply (inv_frame k); try done. apply Hk.
  - apply (inv_frame k); try done. apply Hk.
  - apply (inv_frame k); try done. apply Hk.
  - apply (inv_frame k); try done. intros q Hq. simpl. pose proof (si_foreign _ Hk q Hq). set_solver.
  - apply (inv_frame k); try done. intros q Hq. simpl. pose proof (si_foreign _ Hk q Hq). set_solver.
Qed.

Lemma sys_reach_inv k k' : rtc sys_step k k' → sys_inv k → sys_inv k'.
Proof. induction 1 as [|k1 k2 k3 Hs _ IH]; [done|]. intros Hk. by eapply IH, sys_step_inv. Qed.

(** ** The registry as a list of sessions *)

(** The entry a session in service has in the registry. *)
Definition registration (t : Thread) : option (N * SessionInfo) :=
  match t with
  | Serving req now s _ c => if registered (c_waiter c) then Some (c_id c, entry req now s) else None
  | Spawned _ _ _ | Numbered _ _ _ _ => None
  end.

Lemma NoDup_omap_inj {A B} (f : A → option B) (l : list A) :
  (∀ i j x y b, l !! i = Some x → l !! j = Some y → f x = Some b → f y = Some b → i = j) → NoDup (omap f l).
Proof.
  induction l as [|x l IH]; intros Hinj; cbn; [constructor|].
  assert (NoDup (omap f l)) as Hl.
  { apply IH. intros i j y z b Hi Hj Hy Hz. by specialize (Hinj (S i) (S j) y z b Hi Hj Hy Hz) as [=]. }
  destruct (f x) as [b|] eqn:E; [|done]. constructor; [|done].
  intros (y & Hy & Ey)%list_elem_of_omap. apply list_elem_of_lookup in Hy as [j Hj].
  by specialize (Hinj 0 (S j) x y b eq_refl Hj E Ey).
Qed.

Lemma elem_registration k id info :
  (id, info) ∈ omap registration (s_threads k) ↔
  ∃ i req now s input c, serves k i req now s input c ∧ c_id c = id ∧ registered (c_waiter c) = true ∧ info = entry req now s.
Proof.
  rewrite list_elem_of_omap. split.
  - intros ([| |req now s input c] & Ht & E); [done..|]. simpl in E. destruct (registered _) eqn:Er; simplify_eq.
    apply list_elem_of_lookup in Ht as [i Hi]. by exists i, req, now, s, input, c.
  - intros (i & req & now & s & input & c & Hc & <- & Hreg & ->).
    exists (Serving req now s input c). split; [by eapply list_elem_of_lookup_2|]. simpl. by rewrite Hreg.
Qed.

Lemma snapshot_live k :
  sys_inv k → snapshot (s_registry k) ≡ₚ map_to_list (s_services k) ++ omap registration (s_threads k).
Proof.
  intros Hk. apply NoDup_Permutation; [apply NoDup_map_to_list| |].
  - apply NoDup_app. split; [apply NoDup_map_to_list|]. split.
    + intros [id info] Hs%elem_of_map_to_list (i & req & now & s & input & c & Hc & <- & _)%elem_registration.
      by rewrite (si_services _ Hk _ _ _ _ _ _ Hc) in Hs.
    + apply NoDup_omap_inj. intros i j x y [id info] Hi Hj Ex Ey.
      destruct x as [| |req now s input c]; [done..|]. destruct y as [| |req' now' s' input' c']; [done..|].
      simpl in Ex, Ey. destruct (registered (c_waiter c)), (registered (c_waiter c')); simplify_eq.
      by eapply (si_ids _ Hk).
  - intros [id info]. unfold snapshot.
    by rewrite elem_of_app, !elem_of_map_to_list, elem_registration, (si_registry _ Hk).
Qed.

(** Every frame a connection without a session was answered with. *)
Lemma query_answer spawn k uptime :
  handle_first spawn (s_registry k) uptime (Ok FQuery) =
  ReplyAndClose (FQueryResult {| uptime_secs := uptime; sessions := summary <$> snapshot (s_registry k) |}).
Proof. done. Qed.

(** ** The shutdown thread *)

Definition by_shutdown (kills : list (Sender * (Z * Z))) : list (Z * Z) :=
  omap (λ e, match e.1 with ByShutdown => Some e.2 | ByConnection _ => None end) kills.

Definition signal_all (sig : Z) (pgids : list Z) : list (Z * Z) := (λ p, (wrap_i32 (- p), sig)) <$> pgids.

Lemma by_shutdown_app a b : by_shutdown (a ++ b) = by_shutdown a ++ by_shutdown b.
Proof. apply omap_app. Qed.

Lemma by_shutdown_calls i s c c' : by_shutdown (kill_calls i s c c') = [].
Proof. unfold kill_calls, by_shutdown. induction (drop _ _) as [|sig l IH]; [done|]. rewrite fmap_cons. cbn. exact IH. Qed.

Lemma sweep_targets sig r svc : sweep sig r svc = signal_all sig (targets r svc).
Proof.
  unfold sweep, signal_all, targets. rewrite fmap_app, <- list_fmap_compose. f_equal.
  apply list_fmap_ext. by intros i [] _.
Qed.

(** The progress of the shutdown: what it sent and what is left are the two
    sweeps over the registry at two moments of the run. *)
Definition shut_inv (k0 k : System) : Prop :=
  match s_shutdown k with
  | Waiting => by_shutdown (s_kills k) = []
  | Terminating before todo svc =>
      (∃ requested answer, svc = service_process_groups requested answer) ∧
      (∃ k1, rtc sys_step k0 k1 ∧ rtc sys_step k1 k ∧ before = s_registry k1) ∧
      by_shutdown (s_kills k) ++ signal_all SIGTERM todo = sweep SIGTERM before svc
  | Killing before after todo svc =>
      (∃ requested answer, svc = service_process_groups requested answer) ∧
      (∃ k1 k2, rtc sys_step k0 k1 ∧ rtc sys_step k1 k2 ∧ rtc sys_step k2 k ∧
         before = s_registry k1 ∧ after = s_registry k2) ∧
      by_shutdown (s_kills k) ++ signal_all SIGKILL todo = sweep SIGTERM before svc ++ sweep SIGKILL after svc
  | Exited before after svc =>
      (∃ requested answer, svc = service_process_groups requested answer) ∧
      (∃ k1 k2, rtc sys_step k0 k1 ∧ rtc sys_step k1 k2 ∧ rtc sys_step k2 k ∧
         before = s_registry k1 ∧ after = s_registry k2) ∧
      by_shutdown (s_kills k) = sweep SIGTERM before svc ++ sweep SIGKILL after svc
  end.

(** Steps of the others send nothing in its name. *)
Lemma shut_inv_same k0 k k' :
  shut_inv k0 k → sys_step k k' → s_shutdown k' = s_shutdown k → by_shutdown (s_kills k') = by_shutdown (s_kills k) →
  shut_inv k0 k'.
Proof.
  unfold shut_inv. intros Hinv Hs -> ->. pose proof (rtc_once _ _ Hs) as Hs'. destruct (s_shutdown k); [done|..].
  - destruct Hinv as (? & (k1 & ? & ? & ?) & ?). split; [done|]. split; [|done]. exists k1. split_and!; try done. by etrans.
  - destruct Hinv as (? & (k1 & k2 & ? & ? & ? & ? & ?) & ?). split; [done|]. split; [|done].
    exists k1, k2. split_and!; try done. by etrans.
  - destruct Hinv as (? & (k1 & k2 & ? & ? & ? & ? & ?) & ?). split; [done|]. split; [|done].
    exists k1, k2. split_and!; try done. by etrans.
Qed.

Lemma shut_inv_step k0 k k' : rtc sys_step k0 k → sys_step k k' → shut_inv k0 k → shut_inv k0 k'.
Proof.
  intros Hr Hs Hinv. pose proof Hs as Hs'. destruct Hs.
  1-5, 11-12: eapply shut_inv_same; [exact Hinv|exact Hs'|done|]; simpl; rewrite ?by_shutdown_app, ?by_shutdown_calls; by rewrite ?app_nil_r.
  all: unfold shut_inv in *; rewrite H in Hinv; simpl; rewrite ?app_nil_r, ?by_shutdown_app.
  - split; [by exists requested, answer|]. split.
    + exists k. split; [done|]. split; [by apply rtc_once|done].
    + by rewrite Hinv, sweep_targets.
  - destruct Hinv as (? & (k1 & ? & ? & ?) & E). split; [done|]. split; [exists k1; split_and!; [done|eapply rtc_r; eassumption|done]|].
    by rewrite <- app_assoc.
  - destruct Hinv as (? & (k1 & ? & ? & ->) & E). split; [done|]. split.
    + exists k1, k. split_and!; try done. by apply rtc_once.
    + simpl in E. rewrite app_nil_r in E. by rewrite E, !sweep_targets.
  - destruct Hinv as (? & (k1 & k2 & ? & ? & ? & ? & ?) & E). split; [done|].
    split; [exists k1, k2; split_and!; [done..|eapply rtc_r; eassumption|done|done]|]. by rewrite <- app_assoc.
  - destruct Hinv as (? & (k1 & k2 & ? & ? & ? & ? & ?) & E). split; [done|].
    split; [exists k1, k2; split_and!; [done..|eapply rtc_r; eassumption|done|done]|]. simpl in E. by rewrite app_nil_r in E.
Qed.

Lemma shut_reach k0 k : s_shutdown k0 = Waiting → s_kills k0 = [] → rtc sys_step k0 k → shut_inv k0 k.
Proof.
  intros Hw Hl Hr. assert (shut_inv k0 k0) as H0 by (unfold shut_inv; by rewrite Hw, Hl).
  refine (rtc_ind_r (R := sys_step) (shut_inv k0) k0 H0 _ k Hr).
  intros k1 k2 H1 Hs IH. by eapply shut_inv_step.
Qed.

(** ** Work *)

Definition still_to_do (t : Thread) : nat := match t with Serving _ _ _ _ c => work c | _ => 0 end.
Definition total_work (k : System) : nat := sum_list (still_to_do <$> s_threads k).

Lemma still_to_do_share r t : still_to_do (share r t) = still_to_do t.
Proof. by destruct t. Qed.

Lemma sum_insert {A} (f : A → nat) (l : list A) i x y :
  l !! i = Some y → f x < f y → sum_list (f <$> <[i := x]> l) < sum_list (f <$> l).
Proof.
  intros Hi Hlt. revert i Hi. induction l as [|a l IH]; intros [|i] Hi; simplify_eq/=; [lia|].
  apply Nat.add_lt_mono_l. by apply IH.
Qed.

Lemma work_insert (ts : list Thread) r i t t' :
  ts !! i = Some t → still_to_do t' < still_to_do t →
  sum_list (still_to_do <$> <[i := t']> (share r <$> ts)) < sum_list (still_to_do <$> ts).
Proof.
  intros Hi Hlt. replace (still_to_do <$> ts) with (still_to_do <$> (share r <$> ts)).
  - eapply sum_insert; [by rewrite list_lookup_fmap, Hi|]. by rewrite still_to_do_share.
  - rewrite <- list_fmap_compose. apply list_fmap_ext. intros j x _. apply still_to_do_share.
Qed.

(** ** Going back in a run: ids are never handed out again *)

Lemma step_next_id k k' : sys_inv k → sys_step k k' → (next_id (s_registry k) ≤ next_id (s_registry k'))%N.
Proof.
  intros Hk Hs. destruct Hs; try done.
  - simpl. rewrite u64_succ_small by done. lia.
  - destruct (internal_registry _ _ H1) as [[E _]|(_ & _ & E)]; simpl; rewrite E; simpl; by rewrite (si_shared _ Hk _ _ _ _ _ _ H0).
Qed.

(** A number that was handed out and whose entry was made, if it was. *)
Definition settled (k : System) (id : N) : Prop :=
  (id ≤ next_id (s_registry k))%N ∧ ∀ i req s input, s_threads k !! i ≠ Some (Numbered id req s input).

Lemma registered_settled k id : sys_inv k → is_Some (reg_sessions (s_registry k) !! id) → settled k id.
Proof.
  intros Hk [info Hin]. split; [by eapply registry_numbered|]. intros i req s input Hi.
  rewrite (numbered_absent _ _ _ _ _ _ Hk Hi) in Hin. done.
Qed.

Lemma numbered_moves i t r kills k t0 j id req s input :
  s_threads k !! i = Some t0 → s_threads (thread_moves i t r kills k) !! j = Some (Numbered id req s input) →
  t = Numbered id req s input ∨ s_threads k !! j = Some (Numbered id req s input).
Proof.
  intros Hi. simpl. destruct (decide (j = i)) as [->|Hne].
  - rewrite list_lookup_insert_eq by (rewrite length_fmap; by eapply lookup_lt_Some). intros [= ->]. by left.
  - rewrite list_lookup_insert_ne, list_lookup_fmap by done. destruct (s_threads k !! j) as [[]|]; intros [=]; right; congruence.
Qed.

Lemma step_settled k k' id : sys_inv k → sys_step k k' → settled k id → settled k' id.
Proof.
  intros Hk Hs [Hle Hn]. pose proof (step_next_id _ _ Hk Hs) as Hnext. split; [lia|]. intros j req' s' input' Hj.
  destruct Hs; try (by eapply Hn).
  - simpl in Hj. apply lookup_app_Some in Hj as [Hj|[_ Hj]]; [by eapply Hn|]. by apply list_lookup_singleton_Some in Hj as [_ ?].
  - apply (numbered_moves _ _ _ _ _ _ _ _ _ _ _ H0) in Hj as [[= E _ _ _]|Hj]; [|by eapply Hn].
    rewrite u64_succ_small in E by done. lia.
  - apply (numbered_moves _ _ _ _ _ _ _ _ _ _ _ H0) in Hj as [?|Hj]; [done|by eapply Hn].
  - apply (numbered_moves _ _ _ _ _ _ _ _ _ _ _ H0) in Hj as [?|Hj]; [done|by eapply Hn].
Qed.

Lemma step_registry_back k k' id info :
  sys_inv k → sys_step k k' → settled k id →
  reg_sessions (s_registry k') !! id = Some info → reg_sessions (s_registry k) !! id = Some info.
Proof.
  intros Hk Hs [Hle Hn]. destruct Hs; try done.
  - simpl. rewrite lookup_insert_ne; [done|]. intros ->. by eapply Hn.
  - cbn [thread_moves with_threads s_registry]. rewrite <- (si_shared _ Hk _ _ _ _ _ _ H0).
    destruct (internal_registry _ _ H1) as [[E _]|(_ & _ & E)]; rewrite E; [done|]. simpl. by intros [_ ?]%lookup_delete_Some.
Qed.

Lemma registry_back k k' id info :
  sys_inv k → rtc sys_step k k' → settled k id →
  reg_sessions (s_registry k') !! id = Some info → reg_sessions (s_registry k) !! id = Some info.
Proof.
  intros Hk Hr Hle. induction Hr as [|k1 k2 k3 Hs _ IH]; [done|]. intros Hin.
  eapply step_registry_back; [done..|]. apply IH; [by eapply sys_step_inv|by eapply step_settled|done].
Qed.

(** To a connection, whatever happens next is a step of its own or of the
    environment {!Connection} assumes. *)
Lemma serves_step k k' i req now s input c :
  sys_inv k → sys_step k k' → serves k i req now s input c →
  ∃ c', serves k' i req now s input c' ∧ (internal c c' ∨ rtc other c c').
Proof.
  intros Hk Hs Hc. pose proof (si_shared _ Hk _ _ _ _ _ _ Hc) as Hreg.
  destruct Hs; try (exists c; split; [exact Hc|by right]).
  - exists c. split; [by apply spawned_serves|by right].
  - assert (i ≠ i0) as Hne by (intros ->; unfold serves in Hc; congruence).
    eexists. split; [by apply moves_serves_other|]. right. by apply env_number.
  - assert (i ≠ i0) as Hne by (intros ->; unfold serves in Hc; congruence).
    eexists. split; [by apply moves_serves_other|]. right. apply env_put; [by apply (si_numbered _ Hk _ _ id H0)|done|].
    intros E. apply Hne, (si_sids _ Hk i i0 _ _ id Hc H0); simpl; congruence.
  - destruct (decide (i = i0)) as [<-|Hne].
    + unfold serves in Hc. simplify_eq. exists c'. split; [by eapply moves_serves_self|by left].
    + eexists. split; [by apply moves_serves_other|]. right. apply (env_remove c0); [done| |].
      * by rewrite Hreg, (si_shared _ Hk _ _ _ _ _ _ H0).
      * intros E. apply Hne. by eapply (si_ids _ Hk).
Qed.

(** The environment moves no thread of it and makes none wait. *)
Lemma other_waits c c' th : rtc other c c' → waits c' th = waits c th.
Proof. induction 1 as [|c1 c2 c3 Ho _ IH]; [done|]. rewrite IH. by destruct Ho, th. Qed.

(** ** Properties *)

Section runs.
Context (r : Registry) (foreign : gset Z) (k : System).
Context (Hstart : startable r foreign) (Hrun : rtc sys_step (system_new r foreign) k).
#[local] Set Default Proof Using "Type*".

Lemma run_sys_inv : sys_inv k.
Proof. exact (sys_reach_inv _ _ Hrun (inv_new _ _ Hstart)). Qed.

Lemma services_fixed : s_services k = reg_sessions r.
Proof.
  clear Hstart. refine (rtc_ind_r (R := sys_step) (λ k, s_services k = reg_sessions r) _ _ _ k Hrun); [done|].
  intros k1 k2 _ Hs E. by destruct Hs.
Qed.

(** C10: at every moment of every run of a keeper, the registry holds what the
    services put there and exactly the sessions whose waiter has not removed
    them, each once, under its own id and with its own command and process
    group; so that is what a query is answered with.  The process groups of
    children not waited for are pairwise distinct and used by nobody else. *)
Theorem registry_is_live_sessions :
  snapshot (s_registry k) ≡ₚ snapshot r ++ omap registration (s_threads k) ∧
  NoDup (omap registration (s_threads k)).*1 ∧
  (∀ spawn uptime, ∃ q, handle_first spawn (s_registry k) uptime (Ok FQuery) = ReplyAndClose (FQueryResult q) ∧
     sessions q ≡ₚ summary <$> (snapshot r ++ omap registration (s_threads k))) ∧
  NoDup (held k) ∧ ∀ p, p ∈ held k → p ∉ s_foreign k.
Proof.
  pose proof run_sys_inv as Hk. pose proof (snapshot_live k Hk) as Hp. rewrite services_fixed in Hp.
  split; [exact Hp|]. split; [|split].
  - pose proof (NoDup_fst_map_to_list (reg_sessions (s_registry k))) as Hn.
    change (map_to_list _) with (snapshot (s_registry k)) in Hn. rewrite Hp, fmap_app in Hn. by apply NoDup_app in Hn as (_ & _ & ?).
  - intros spawn uptime. eexists. split; [apply query_answer|]. simpl. by apply fmap_Permutation.
  - split; [apply Hk|]. intros p. apply (si_foreign _ Hk).
Qed.

(** C11: every connection of a keeper runs as {!Connection} describes one, over the
    one registry: its state is reached there from the start of its session, and
    whatever any thread of the keeper, the shutdown or the machine does next is
    for it a step of its own or of the environment assumed there. *)
Theorem connections_refine i req now s input c (Hc : serves k i req now s input c) :
  conn_run req now s input c ∧ c_reg c = s_registry k ∧
  ∀ k', sys_step k k' → ∃ c', serves k' i req now s input c' ∧ (internal c c' ∨ rtc other c c').
Proof.
  pose proof run_sys_inv as Hk.
  split; [by apply (si_run _ Hk _ _ _ _ _ _ Hc)|]. split; [by apply (si_shared _ Hk _ _ _ _ _ _ Hc)|].
  intros k' Hs. by eapply serves_step.
Qed.

(** Whom the keeper signals.  A connection's thread only ever signals its own
    session's process group; unless the child was reaped already, that group's
    leader is that child, so that the signal reaches nobody else; and what is
    not a signal the client sent goes out only while the session is
    registered. *)
Theorem signals_reach_own_groups k' i target sig (Hs : sys_step k k') (Hin : (ByConnection i, (target, sig)) ∈ drop (length (s_kills k)) (s_kills k')) :
  ∃ req now s input c, serves k i req now s input c ∧ target = (- ses_pgid s)%Z ∧
    (reaped (c_waiter c) = false → ses_pgid s ∈ held k ∧ ses_pgid s ∉ s_foreign k) ∧
    ((∃ f, c_main c = MFrame (FSignal f) ∧ sig = as_libc f) ∨
     (registered (c_waiter c) = true ∧ (sig = SIGTERM ∨ sig = SIGKILL))).
Proof.
  pose proof run_sys_inv as Hk.
  destruct Hs; simpl in Hin; rewrite ?drop_app_length, ?drop_ge in Hin by done;
    try (by apply elem_of_nil in Hin); try (apply list_elem_of_singleton in Hin; discriminate Hin).
  apply kill_calls_spec in Hin as (sig' & [= -> -> ->] & Hsig); [|done].
  exists req, now, s, input, c. split; [done|].
  destruct (run_inv _ _ _ _ _ (si_run _ Hk _ _ _ _ _ _ H0)) as [Hci _].
  assert (0 < ses_pgid s ≤ 2147483647)%Z as Hpid.
  { exact (Forall_lookup_1 _ _ _ _ (si_pids _ Hk) H0). }
  split; [by apply wrap_i32_neg|]. split.
  - intros Er. assert (ses_pgid s ∈ held k) as Hh.
    { unfold held. apply elem_of_app. right. apply list_elem_of_omap. exists (Serving req now s input c).
      split; [by eapply list_elem_of_lookup_2|]. simpl. by rewrite Er. }
    split; [done|]. by apply (si_foreign _ Hk).
  - destruct Hsig as [?|[Hm ?]]; [by left|right]. split; [|done]. by rewrite <- (inv_contains _ Hci).
Qed.

(** C28: the shutdown among the connections: its signals are those of
    {!KeeperMain.shutdown} for the registry at two moments of this run, the
    second after the first.  A session still registered when the process exits
    that was registered at the second moment has been sent SIGKILL, and SIGTERM
    before it when it was registered at the first. *)
Theorem shutdown_interleaved before after svc (Hx : s_shutdown k = Exited before after svc) :
  ∃ requested answer k1 k2,
    rtc sys_step (system_new r foreign) k1 ∧ rtc sys_step k1 k2 ∧ rtc sys_step k2 k ∧
    before = s_registry k1 ∧ after = s_registry k2 ∧
    by_shutdown (s_kills k) = shutdown requested answer before after ∧
    ∀ i req now s input c, serves k i req now s input c → registered (c_waiter c) = true →
      (registry_contains (c_id c) after = true → (- ses_pgid s, SIGKILL)%Z ∈ sweep SIGKILL after svc) ∧
      (registry_contains (c_id c) before = true → (- ses_pgid s, SIGTERM)%Z ∈ sweep SIGTERM before svc).
Proof.
  pose proof run_sys_inv as Hk. pose proof (inv_new _ _ Hstart) as H0.
  pose proof (shut_reach (system_new r foreign) k eq_refl eq_refl Hrun) as Hinv.
  unfold shut_inv in Hinv. rewrite Hx in Hinv. destruct Hinv as ((requested & answer & ->) & (k1 & k2 & H1 & H2 & H3 & -> & ->) & E).
  exists requested, answer, k1, k2. do 5 (split; [done|]). split; [exact E|].
  pose proof (sys_reach_inv _ _ H1 H0) as Hk1. pose proof (sys_reach_inv _ _ H2 Hk1) as Hk2.
  intros i req now s input c Hc Hreg.
  assert (reg_sessions (s_registry k) !! c_id c = Some (entry req now s)) as Hin.
  { apply (si_registry _ Hk). right. by exists i, req, now, s, input, c. }
  assert (- ses_pgid s = wrap_i32 (- info_pgid (entry req now s)))%Z as Hpid.
  { symmetry. apply wrap_i32_neg. exact (Forall_lookup_1 _ _ _ _ (si_pids _ Hk) Hc). }
  assert (∀ k0, sys_inv k0 → rtc sys_step k0 k → registry_contains (c_id c) (s_registry k0) = true →
    reg_sessions (s_registry k0) !! c_id c = Some (entry req now s)) as Hback.
  { intros k0 Hk0 Hr0 Hle. eapply registry_back; [done..| |done]. by apply registered_settled, registry_contains_spec. }
  split; intros Hle; apply elem_sweep; (split; [done|]); left; exists (c_id c), (entry req now s); (split; [|done]); apply Hback; try done.
  by etrans.
Qed.

End runs.

(** ** Windows *)

Lemma share_share r r' t : share r (share r' t) = share r t.
Proof. by destruct t. Qed.

(** A run of one connection's threads is a run of the keeper. *)
Lemma lift_run k i req now s input c c' :
  running k → serves k i req now s input c → tc internal c c' →
  ∃ k', rtc sys_step k k' ∧ running k' ∧ s_foreign k' = s_foreign k ∧ s_services k' = s_services k ∧
    s_threads k' = <[i := Serving req now s input c']> (share (c_reg c') <$> s_threads k).
Proof.
  intros Hrn Hi Hr. revert k Hrn Hi. induction Hr as [c c' Hs|c c1 c' Hs Hr IH]; intros k Hrn Hi.
  - eexists. split; [by apply rtc_once, (step_connection k i req now s input c c')|]. done.
  - set (k1 := thread_moves i (Serving req now s input c1) (c_reg c1) (kill_calls i s c c1) k).
    assert (sys_step k k1) as Hs1 by by apply step_connection.
    destruct (IH k1 Hrn) as (k' & R1 & R2 & R3 & R4 & R5); [by eapply moves_serves_self|].
    exists k'. split_and!; try done; [by eapply rtc_l|]. rewrite R5. simpl.
    rewrite list_fmap_insert, <- list_fmap_compose, list_insert_insert_eq. f_equal.
    apply list_fmap_ext. intros j t _. apply share_share.
Qed.

Lemma sample_reaped : ∃ c, tc internal sample_start c ∧ c_waiter c = WRemove ∧ c_main c = MFrame (FSignal Int) ∧ c_signals c = [].
Proof.
  eexists. split.
  - eapply tc_l; [by eapply pump_out_send|].
    eapply tc_l; [eapply pump_out_stop; [done|by left]|].
    eapply tc_l; [eapply pump_err_stop; [done|by left]|].
    eapply tc_l; [by eapply wait_join_stdout|].
    eapply tc_l; [by eapply wait_join_stderr|].
    eapply tc_l; [by eapply main_read|].
    apply tc_once. by eapply wait_reap.
  - vm_compute. done.
Qed.

(** The keeper of the samples, with its one session started. *)
Definition sample_served : System :=
  thread_moves 0 (Serving sample_request 0 sample_session [FSignal Int] sample_start) (c_reg sample_start) []
    (thread_moves 0 (Numbered 1 sample_request sample_session [FSignal Int]) (registry_number registry_new).1 []
      (with_threads registry_new [Spawned sample_request sample_session [FSignal Int]] [] (system_new registry_new ∅))).

Lemma sample_startable : startable registry_new ∅.
Proof.
  split; [apply registry_new_wf| |].
  - simpl. rewrite map_to_list_empty. constructor.
  - intros id info. simpl. by rewrite lookup_empty.
Qed.

Lemma sample_served_run : rtc sys_step (system_new registry_new ∅) sample_served.
Proof.
  eapply rtc_l; [apply (step_spawn _ sample_request sample_session [FSignal Int]); [done|simpl; lia|apply (bool_decide_unpack _); by vm_compute..]|].
  eapply rtc_l.
  - apply (step_number (with_threads registry_new [Spawned sample_request sample_session [FSignal Int]] [] (system_new registry_new ∅))
      0 sample_request sample_session [FSignal Int]); [done|done|by vm_compute].
  - apply rtc_once.
    apply (step_register (thread_moves 0 (Numbered 1 sample_request sample_session [FSignal Int]) (registry_number registry_new).1 []
      (with_threads registry_new [Spawned sample_request sample_session [FSignal Int]] [] (system_new registry_new ∅)))
      0 1 sample_request sample_session [FSignal Int] 0); done.
Qed.

(** Between its number and its entry a session is in no snapshot: a sweep then
    misses it, though its number is not above the counter's. *)
Lemma numbered_session_missed :
  ∃ k before svc, rtc sys_step (system_new registry_new ∅) k ∧ s_shutdown k = Terminating before [] svc ∧
    serves k 0 sample_request 0 sample_session [FSignal Int] (upd_reg (λ _, s_registry k) sample_start) ∧
    (c_id sample_start ≤ next_id before)%N ∧ by_shutdown (s_kills k) = [].
Proof.
  set (k0 := thread_moves 0 (Numbered 1 sample_request sample_session [FSignal Int]) (registry_number registry_new).1 []
    (with_threads registry_new [Spawned sample_request sample_session [FSignal Int]] [] (system_new registry_new ∅))).
  assert (targets (s_registry k0) [] = []) as Ht by by vm_compute.
  eexists _, (s_registry k0), []. split; [|split; [|split; [|split]]].
  - eapply rtc_l; [apply (step_spawn _ sample_request sample_session [FSignal Int]); [done|simpl; lia|apply (bool_decide_unpack _); by vm_compute..]|].
    eapply rtc_l; [apply (step_number _ 0 sample_request sample_session [FSignal Int]); [done|done|by vm_compute]|].
    eapply rtc_l; [by apply (step_signal k0 false (Ok []))|].
    change (service_process_groups _ _) with (@nil Z). rewrite Ht. apply rtc_once.
    by apply (step_register _ 0 1 sample_request sample_session [FSignal Int] 0).
  - done.
  - done.
  - by vm_compute.
  - by vm_compute.
Qed.

(** A client's signal that arrives after its session's child was reaped goes to
    whoever has the process group by then: the reader loop looks at the
    registry only after it has called [kill]. *)
Lemma foreign_group_signalled :
  ∃ k k', rtc sys_step (system_new registry_new ∅) k ∧ sys_step k k' ∧ (42%Z ∈ s_foreign k) ∧ 42%Z ∉ held k ∧
    (ByConnection 0, (-42, 2)%Z) ∈ drop (length (s_kills k)) (s_kills k').
Proof.
  destruct sample_reaped as (c & Hr & Hw & Hm & Hsig).
  destruct (lift_run sample_served 0 sample_request 0 sample_session [FSignal Int] sample_start c) as (k & R1 & R2 & R3 & R4 & R5); [done|done|done|].
  assert (held k = []) as Hh.
  { unfold held. rewrite R4, R5. cbn. rewrite Hw. cbn. by rewrite map_to_list_empty. }
  set (k1 := with_foreign ({[42%Z]} ∪ s_foreign k) k).
  eexists k1, _. split; [|split; [|split; [|split]]].
  - etrans; [apply sample_served_run|]. eapply rtc_r; [exact R1|]. apply step_foreign_new. rewrite Hh. by apply not_elem_of_nil.
  - apply (step_connection k1 0 sample_request 0 sample_session [FSignal Int] c); [done|unfold k1; simpl; by rewrite R5|].
    by apply (main_frame c _ None Hm).
  - unfold k1. simpl. set_solver.
  - change (held k1) with (held k). rewrite Hh. by apply not_elem_of_nil.
  - cbn [thread_moves with_threads s_kills]. rewrite drop_app_length. unfold kill_calls. simpl. rewrite Hsig. simpl. by left.
Qed.

(** A session whose child is started while the second sweep runs is not in the
    snapshot: the process exits and leaves it running, without any signal. *)
Lemma late_session_survives req s input :
  (0 < ses_pgid s ≤ 2147483647)%Z →
  ∃ k before after svc, rtc sys_step (system_new registry_new ∅) k ∧ s_shutdown k = Exited before after svc ∧
    s_threads k = [Spawned req s input] ∧ s_kills k = [].
Proof.
  intros Hp. assert (targets registry_new [] = []) as Ht by by vm_compute.
  eexists _, registry_new, registry_new, []. split.
  - eapply rtc_l; [by apply (step_signal _ false (Ok []))|].
    cbn [system_new with_shutdown s_registry]. change (service_process_groups _ _) with (@nil Z). rewrite Ht.
    eapply rtc_l; [by apply step_grace|]. cbn [system_new with_shutdown s_registry]. rewrite Ht.
    eapply rtc_l; [apply (step_spawn _ req s input); [done|done| |]|].
    + apply (bool_decide_unpack _). by vm_compute.
    + simpl. set_solver.
    + apply rtc_once. by apply step_exit.
  - done.
Qed.

(** ** Witnesses *)

Lemma registry_is_live_sessions_witness :
  snapshot (s_registry sample_served) ≡ₚ [(1%N, entry sample_request 0 sample_session)] ∧ held sample_served = [42%Z].
Proof.
  destruct (registry_is_live_sessions registry_new ∅ sample_served sample_startable sample_served_run) as [Hp _].
  split; [|by vm_compute]. rewrite Hp. by vm_compute.
Defined.

Lemma connections_refine_witness :
  serves sample_served 0 sample_request 0 sample_session [FSignal Int] sample_start ∧
  conn_run sample_request 0 sample_session [FSignal Int] sample_start.
Proof.
  assert (serves sample_served 0 sample_request 0 sample_session [FSignal Int] sample_start) as Hc by done.
  split; [exact Hc|].
  exact (proj1 (connections_refine registry_new ∅ sample_served sample_startable sample_served_run _ _ _ _ _ _ Hc)).
Defined.

(** The client's signal is read while its session runs. *)
Definition sample_read : Conn := set_main (MFrame (FSignal Int)) [] sample_start.
Definition sample_reading : System :=
  thread_moves 0 (Serving sample_request 0 sample_session [FSignal Int] sample_read) (c_reg sample_read) [] sample_served.
Definition sample_signalled : System :=
  let c' := set_main MCheck [] (on_client_frame None (FSignal Int) sample_read) in
  thread_moves 0 (Serving sample_request 0 sample_session [FSignal Int] c') (c_reg c') (kill_calls 0 sample_session sample_read c') sample_reading.

Lemma sample_reading_run : rtc sys_step (system_new registry_new ∅) sample_reading.
Proof.
  eapply rtc_r; [apply sample_served_run|].
  apply (step_connection sample_served 0 sample_request 0 sample_session [FSignal Int] sample_start); [done|done|].
  by apply main_read.
Qed.

Lemma sample_signalled_step : sys_step sample_reading sample_signalled.
Proof.
  apply (step_connection sample_reading 0 sample_request 0 sample_session [FSignal Int] sample_read); [done|done|].
  by apply (main_frame sample_read (FSignal Int) None).
Qed.

Lemma signals_reach_own_groups_witness :
  (ByConnection 0, (-42, 2)%Z) ∈ drop (length (s_kills sample_reading)) (s_kills sample_signalled) ∧
  ∃ req now s input c, serves sample_reading 0 req now s input c ∧ (-42)%Z = (- ses_pgid s)%Z.
Proof.
  assert ((ByConnection 0, (-42, 2)%Z) ∈ drop (length (s_kills sample_reading)) (s_kills sample_signalled)) as Hin
    by (apply (bool_decide_unpack _); by vm_compute).
  split; [exact Hin|].
  destruct (signals_reach_own_groups registry_new ∅ sample_reading sample_startable sample_reading_run _ _ _ _ sample_signalled_step Hin)
    as (req & now & s & input & c & Hc & E & _).
  by exists req, now, s, input, c.
Defined.

Lemma shutdown_interleaved_witness :
  ∃ k before after svc, s_shutdown k = Exited before after svc ∧ serves k 0 sample_request 0 sample_session [FSignal Int] sample_start ∧
  (∃ requested answer, by_shutdown (s_kills k) = shutdown requested answer before after) ∧
  by_shutdown (s_kills k) = [(-42, SIGTERM); (-42, SIGKILL)]%Z.
Proof.
  assert (∃ k before after svc, rtc sys_step sample_served k ∧ s_shutdown k = Exited before after svc ∧
    serves k 0 sample_request 0 sample_session [FSignal Int] sample_start ∧
    by_shutdown (s_kills k) = [(-42, SIGTERM); (-42, SIGKILL)]%Z) as (k & before & after & svc & Hr & Hx & Hc & Hk).
  { assert (targets (s_registry sample_served) [] = [42%Z]) as Ht by by vm_compute.
    eexists _, _, _, []. split; [|split; [|split]].
    - eapply rtc_l; [by apply (step_signal _ false (Ok []))|].
      change (service_process_groups _ _) with (@nil Z). rewrite Ht.
      eapply rtc_l; [by apply step_term|]. eapply rtc_l; [by apply step_grace|].
      cbn [with_shutdown s_registry]. rewrite Ht.
      eapply rtc_l; [by apply step_kill|]. apply rtc_once. by apply step_exit.
    - done.
    - done.
    - by vm_compute. }
  exists k, before, after, svc. split; [exact Hx|]. split; [exact Hc|]. split; [|exact Hk].
  destruct (shutdown_interleaved registry_new ∅ k sample_startable (rtc_trans _ _ _ sample_served_run Hr) _ _ _ Hx)
    as (requested & answer & k1 & k2 & _ & _ & _ & _ & _ & E & _).
  by exists requested, answer.
Defined.

