(* ===== verification/SshSystem.v ===== *)
(** * The SSH connections of a keeper ([src/ssh/server.rs], [src/keeper/mod.rs])

    {!SshServer} treats the requests of one SSH connection and {!SshRelay} the
    relay of one of its sessions.  Here they run as they do in the keeper: any
    number of connections, each with its own handler, the relays of all the
    sessions they started, which outlive their connection, and beside them the
    rest of the keeper, {!KeeperSystem}.  The kernel hands out the process ids
    of both kinds of session: the children of SSH sessions are the processes
    {!KeeperSystem} knows as foreign. *)

From S2P Require Import Prelude Protocol Registry Session Connection Exec Services KeeperMain KeeperSystem SshServer SshRelay.

#[local] Set Default Proof Using "Type".

(** ** State *)

(** One accepted connection: what its client asked, its handler, what the
    handler did, and whether it still runs.  A handler whose connection has
    ended is dropped with all it holds, which closes the standard input of the
    children of its sessions ([cl_dropped]). *)
Record SshClient := {
  cl_requests : list SshRequest; cl_server : SshServer; cl_actions : list SshAction; cl_open : bool; cl_dropped : list SshAction;
}.

(** A session started by an SSH connection: where, for which request, its child
    and its relay. *)
Record SshSession := { x_conn : nat; x_chan : N; x_req : SpawnRequest; x_child : Connection.Session; x_relay : Relay }.

Record SshKeeper := {
  y_keeper : System;
  y_clients : list SshClient;
  y_sessions : list SshSession;
  y_kills : list (nat * (Z * Z));   (* the arguments of [kill], with the connection that called it *)
}.

(** The child the handler got behaves as [s]. *)
Definition plays (sp : SpawnedSession) (s : Connection.Session) : Prop :=
  sp_pgid sp = ses_pgid s ∧ ses_stdin s = bool_decide (is_Some (sp_stdin sp)) ∧
  ses_resizable s = bool_decide (is_Some (sp_resize sp)) ∧ (is_Some (sp_stderr sp) ↔ is_Some (ses_stderr s)).

(** The session a handler's actions start. *)
Definition relayed_by (a : SshAction) : option (N * SpawnedSession) := match a with ARelay c sp => Some (c, sp) | _ => None end.
Definition relayed (acts : list SshAction) : option (N * SpawnedSession) := head (omap relayed_by acts).
Definition requested_by (a : SshAction) : option SpawnRequest := match a with ASpawn _ req _ => Some req | _ => None end.

(** [libc::kill(-active.pgid, ..)]. *)
Definition kill_of (i : nat) (a : SshAction) : option (nat * (Z * Z)) :=
  match a with AKill _ pgid sig => Some (i, (wrap_i32 (- pgid), sig)) | _ => None end.
Definition kills_of (i : nat) (acts : list SshAction) : list (nat * (Z * Z)) := omap (kill_of i) acts.

(** The process id of a session's child until its waiter returns from [wait]. *)
Definition ssh_unreaped (x : SshSession) : option Z :=
  match rl_waiter (x_relay x) with RSend | RDone => None | _ => Some (ses_pgid (x_child x)) end.
Definition ssh_held (y : SshKeeper) : list Z := omap ssh_unreaped (y_sessions y).

Definition with_keeper (k : System) (y : SshKeeper) : SshKeeper :=
  {| y_keeper := k; y_clients := y_clients y; y_sessions := y_sessions y; y_kills := y_kills y |}.
Definition with_clients (cls : list SshClient) (kills : list (nat * (Z * Z))) (y : SshKeeper) : SshKeeper :=
  {| y_keeper := y_keeper y; y_clients := cls; y_sessions := y_sessions y; y_kills := y_kills y ++ kills |}.
Definition with_sessions (xs : list SshSession) (y : SshKeeper) : SshKeeper :=
  {| y_keeper := y_keeper y; y_clients := y_clients y; y_sessions := xs; y_kills := y_kills y |}.

Definition with_relay (rl : Relay) (x : SshSession) : SshSession :=
  {| x_conn := x_conn x; x_chan := x_chan x; x_req := x_req x; x_child := x_child x; x_relay := rl |}.

(** The keeper when its SSH server starts to accept. *)
Definition ssh_keeper_new (k : System) : SshKeeper := {| y_keeper := k; y_clients := []; y_sessions := []; y_kills := [] |}.

Section system.
(** The key, the keeper's environment and directory, and what the machine
    answers to the [t]-th request of the [i]-th connection. *)
Context (key : str) (env : str → option str) (process_cwd : result str str).
Context (backend_spawn : nat → nat → SpawnRequest → result str SpawnedSession) (write_ok : nat → nat → bool)
        (connect : nat → nat → str → N → bool).

(** One request of connection [i], and all of them. *)
Definition handle_request (i : nat) : nat → SshRequest → SshServer → SshServer * list SshAction :=
  ssh_handle env process_cwd (backend_spawn i) (write_ok i) (connect i).
Definition handle_requests (i : nat) : nat → list SshRequest → SshServer → SshServer * list SshAction :=
  ssh_run env process_cwd (backend_spawn i) (write_ok i) (connect i).

Definition answered (r : SshRequest) (sv : SshServer) (acts : list SshAction) (cl : SshClient) : SshClient :=
  {| cl_requests := cl_requests cl ++ [r]; cl_server := sv; cl_actions := cl_actions cl ++ acts; cl_open := cl_open cl;
     cl_dropped := cl_dropped cl |}.
(** Dropping the handler drops every [ActiveSession] it holds; the sessions'
    relays and waiters go on. *)
Definition drop_handler (sv : SshServer) : list SshAction :=
  map_to_list (ss_active sv) ≫= λ e, dropped e.1 (Some e.2).
Definition disconnected (cl : SshClient) : SshClient :=
  {| cl_requests := cl_requests cl; cl_server := cl_server cl; cl_actions := cl_actions cl; cl_open := false;
     cl_dropped := drop_handler (cl_server cl) |}.
Definition new_connection : SshClient :=
  {| cl_requests := []; cl_server := new_client (ssh_new key); cl_actions := []; cl_open := true; cl_dropped := [] |}.
Definition new_session (i : nat) (c : N) (req : SpawnRequest) (s : Connection.Session) : SshSession :=
  {| x_conn := i; x_chan := c; x_req := req; x_child := s; x_relay := relay_session_to_channel s |}.

(** ** Steps *)

Inductive ssh_step (y : SshKeeper) : SshKeeper → Prop :=
(* the rest of the keeper and of the machine: it does not take the process id of a child nobody waited for *)
| ssh_keeper k : sys_step (y_keeper y) k → (∀ p, p ∈ ssh_held y → p ∈ s_foreign k) → ssh_step y (with_keeper k y)
(* [serve] *)
| ssh_accept : running (y_keeper y) → ssh_step y (with_clients (y_clients y ++ [new_connection]) [] y)
(* a request that starts no session, and one that does *)
| ssh_request i cl r sv acts :
    running (y_keeper y) → y_clients y !! i = Some cl → cl_open cl = true →
    handle_request i (length (cl_requests cl)) r (cl_server cl) = (sv, acts) → relayed acts = None →
    ssh_step y (with_clients (<[i := answered r sv acts cl]> (y_clients y)) (kills_of i acts) y)
| ssh_start i cl r sv acts c sp req s :
    running (y_keeper y) → y_clients y !! i = Some cl → cl_open cl = true →
    handle_request i (length (cl_requests cl)) r (cl_server cl) = (sv, acts) →
    relayed acts = Some (c, sp) → head (omap requested_by acts) = Some req → plays sp s →
    (0 < ses_pgid s ≤ 2147483647)%Z → ses_pgid s ∉ held (y_keeper y) → ses_pgid s ∉ s_foreign (y_keeper y) →
    ssh_step y
      (with_keeper (with_foreign ({[ses_pgid s]} ∪ s_foreign (y_keeper y)) (y_keeper y))
        (with_sessions (y_sessions y ++ [new_session i c req s])
          (with_clients (<[i := answered r sv acts cl]> (y_clients y)) (kills_of i acts) y)))
(* the connection ends, whoever ended it *)
| ssh_disconnect i cl :
    y_clients y !! i = Some cl → cl_open cl = true → ssh_step y (with_clients (<[i := disconnected cl]> (y_clients y)) [] y)
(* the pumps, the waiter and the task of a session *)
| ssh_relay j x rl :
    running (y_keeper y) → y_sessions y !! j = Some x → relay_step (ses_wait (x_child x)) (x_relay x) rl →
    ssh_step y (with_sessions (<[j := with_relay rl x]> (y_sessions y)) y).

(** ** What one request does *)

#[local] Arguments dropped : simpl never.

Lemma dropped_quiet {B} (f : SshAction → option B) c a : (∀ c p, f (ACloseStdin c p) = None) → omap f (dropped c a) = [].
Proof. intros Hf. destruct a as [a|]; [|done]. unfold dropped. destruct (as_stdin a); [|done]. cbn. by rewrite Hf. Qed.

Lemma relayed_start c req p sp old : relayed (ASpawn c req p :: ASuccess c :: dropped c old ++ [ARelay c sp]) = Some (c, sp).
Proof. unfold relayed. cbn. by rewrite omap_app, dropped_quiet. Qed.

(** The case analyses of a handler, in its equation only. *)
Ltac cases_of E :=
  repeat match type of E with context [match ?x with _ => _ end] => destruct x eqn:? end.

(** A request that starts a session records it as the one of its channel; any
    other leaves each channel with the session it had, or with none. *)
Lemma handle_relayed i t r s sv acts :
  handle_request i t r s = (sv, acts) →
  match relayed acts with
  | Some (c, sp) =>
      c = channel_of r ∧
      (∃ req, head (omap requested_by acts) = Some req ∧ ASpawn c req (sp_pgid sp) ∈ acts ∧ backend_spawn i t req = Ok sp) ∧
      ss_active sv = <[c := {| as_stdin := sp_stdin sp; as_resize := sp_resize sp; as_pgid := sp_pgid sp |}]> (ss_active s)
  | None => ∀ c p, as_pgid <$> (ss_active sv !! c) = Some p → as_pgid <$> (ss_active s !! c) = Some p
  end.
Proof.
  assert (∀ c cmd arguments, SshServer.start_session process_cwd (backend_spawn i) t c cmd arguments s = (sv, acts) → c = channel_of r →
    match relayed acts with
    | Some (c, sp) =>
        c = channel_of r ∧
        (∃ req, head (omap requested_by acts) = Some req ∧ ASpawn c req (sp_pgid sp) ∈ acts ∧ backend_spawn i t req = Ok sp) ∧
        ss_active sv = <[c := {| as_stdin := sp_stdin sp; as_resize := sp_resize sp; as_pgid := sp_pgid sp |}]> (ss_active s)
    | None => ∀ c p, as_pgid <$> (ss_active sv !! c) = Some p → as_pgid <$> (ss_active s !! c) = Some p
    end) as Hst.
  { intros c cmd arguments E ->. unfold SshServer.start_session in E.
    destruct (backend_spawn i t _) as [sp|e] eqn:Es; injection E as <- <-; [|cbn; by intros c p].
    rewrite relayed_start. split; [done|]. split; [|done]. eexists. split; [done|]. split; [by left|exact Es]. }
  unfold handle_request. destruct r; cbn [ssh_handle channel_of]; intros E.
  4, 5: by eapply Hst.
  all: unfold channel_open_session, pty_request, env_request, window_change_request, channel_data, channel_eof, channel_close,
    subsystem_request, channel_open_direct_tcpip in E; cases_of E; injection E as <- <-; unfold relayed; cbn;
    rewrite ?dropped_quiet by done; cbn; intros c' p; try done.
  all: destruct (decide (c' = c)) as [->|]; [|by rewrite ?lookup_insert_ne, ?lookup_delete_ne].
  all: rewrite ?lookup_insert_eq, ?lookup_delete_eq; try match goal with E : ss_active _ !! _ = Some _ |- _ => rewrite E end; done.
Qed.

Lemma handle_requests_snoc i rs r sv0 :
  handle_requests i 0 (rs ++ [r]) sv0 =
  let '(s1, a1) := handle_requests i 0 rs sv0 in let '(s2, a2) := handle_request i (length rs) r s1 in (s2, a1 ++ a2).
Proof.
  unfold handle_requests. rewrite ssh_run_app. destruct (ssh_run _ _ _ _ _ 0 rs sv0) as [s1 a1]. cbn [ssh_run plus].
  unfold handle_request. destruct (ssh_handle _ _ _ _ _ (length rs) r s1) as [s2 a2]. by rewrite app_nil_r.
Qed.

(** ** What a client's requests must lead to *)

(** The command a request starts on a channel: the shell, or the shell with a
    command line. *)
Definition starts (r : SshRequest) : option (N * list str) :=
  match r with
  | RShell c => Some (c, [])
  | RExec c data => Some (c, ["-c" : str; from_utf8_lossy data])
  | _ => None
  end.

(** The sessions started so far and, per channel, the last of them there; the
    groups signalled.  No handler and no pending request appear here. *)
Record Expected := { ex_current : gmap N Z; ex_started : list (N * SpawnRequest * Z); ex_signalled : list Z }.
Definition ex_none : Expected := {| ex_current := ∅; ex_started := []; ex_signalled := [] |}.

(** The next request, after [before]. *)
Definition expect (i : nat) (before : list SshRequest) (r : SshRequest) (e : Expected) : Expected :=
  match starts r with
  | Some (c, arguments) =>
      let req := session_request env process_cwd c before arguments in
      match backend_spawn i (length before) req with
      | Ok sp => {| ex_current := <[c := sp_pgid sp]> (ex_current e); ex_started := ex_started e ++ [(c, req, sp_pgid sp)];
                    ex_signalled := ex_signalled e |}
      | Err _ => e
      end
  | None =>
      match r with
      | RClose c =>
          match ex_current e !! c with
          | Some p => {| ex_current := delete c (ex_current e); ex_started := ex_started e; ex_signalled := ex_signalled e ++ [p] |}
          | None => e
          end
      | _ => e
      end
  end.

Fixpoint expect_all (i : nat) (before rs : list SshRequest) (e : Expected) : Expected :=
  match rs with [] => e | r :: rs => expect_all i (before ++ [r]) rs (expect i before r e) end.
Definition expected (i : nat) (rs : list SshRequest) : Expected := expect_all i [] rs ex_none.

Lemma expect_all_snoc i before rs r e :
  expect_all i before (rs ++ [r]) e = expect i (before ++ rs) r (expect_all i before rs e).
Proof.
  revert before e. induction rs as [|x rs IH]; intros before e; cbn [app expect_all]; [by rewrite app_nil_r|].
  by rewrite IH, <- app_assoc.
Qed.

Lemma expected_snoc i rs r : expected i (rs ++ [r]) = expect i rs r (expected i rs).
Proof. apply (expect_all_snoc i []). Qed.

(** Only sessions that were started are signalled. *)
Lemma expected_pids i rs p :
  (p ∈ ex_signalled (expected i rs) ∨ ∃ c, ex_current (expected i rs) !! c = Some p) → ∃ c req, (c, req, p) ∈ ex_started (expected i rs).
Proof.
  induction rs as [|r rs IH] using rev_ind; [intros [?%not_elem_of_nil|[c ?]]; done|]. rewrite expected_snoc.
  assert ((p ∈ ex_signalled (expected i rs) ∨ ∃ c, ex_current (expected i rs) !! c = Some p) →
    ∃ c req, (c, req, p) ∈ ex_started (expect i rs r (expected i rs))) as Hold.
  { intros H. destruct (IH H) as (c & req & Hin). exists c, req. unfold expect.
    destruct (starts r) as [[c' arguments]|]; [|destruct r; try done; by destruct (ex_current _ !! _)].
    destruct (backend_spawn _ _ _); [|done]. apply elem_of_app. by left. }
  intros H. unfold expect in H. destruct (starts r) as [[c' arguments]|] eqn:Es.
  - destruct (backend_spawn i (length rs) _) as [sp|] eqn:Eb; [|by apply Hold]. destruct H as [H|[c H]]; [apply Hold; by left|].
    cbn in H. apply lookup_insert_Some in H as [[<- <-]|[_ H]]; [|apply Hold; right; by exists c].
    exists c', (session_request env process_cwd c' rs arguments). unfold expect. rewrite Es, Eb. apply elem_of_app. right. by left.
  - destruct r; try (by apply Hold). destruct (ex_current (expected i rs) !! c) as [q|] eqn:Ec; [|by apply Hold].
    destruct H as [H|[c' H]]; cbn in H.
    + apply elem_of_app in H as [H|H]; [apply Hold; by left|]. apply list_elem_of_singleton in H as ->. apply Hold. right. by exists c.
    + apply lookup_delete_Some in H as [_ H]. apply Hold. right. by exists c'.
Qed.

(** What a handler does of it. *)
Definition follows (i : nat) (sv : SshServer) (acts : list SshAction) (e e' : Expected) : Prop :=
  as_pgid <$> ss_active sv = ex_current e' ∧
  kills_of i acts = (λ p, (i, (wrap_i32 (- p), SIGTERM))) <$> drop (length (ex_signalled e)) (ex_signalled e') ∧
  ex_signalled e `prefix_of` ex_signalled e' ∧
  match relayed acts with
  | Some (c, sp) => ∀ req, head (omap requested_by acts) = Some req → ex_started e' = ex_started e ++ [(c, req, sp_pgid sp)]
  | None => ex_started e' = ex_started e
  end.

Lemma follows_quiet i sv acts e :
  as_pgid <$> ss_active sv = ex_current e → kills_of i acts = [] → relayed acts = None → follows i sv acts e e.
Proof. intros H1 H2 H3. split; [done|]. rewrite drop_all, H2, H3. done. Qed.

Lemma follows_start i c arguments rs sv acts e :
  SshServer.start_session process_cwd (backend_spawn i) (length rs) c (session_shell env) arguments (handle_requests i 0 rs (ssh_new key)).1 = (sv, acts) →
  as_pgid <$> ss_active (handle_requests i 0 rs (ssh_new key)).1 = ex_current e →
  follows i sv acts e
    (let req := session_request env process_cwd c rs arguments in
     match backend_spawn i (length rs) req with
     | Ok sp => {| ex_current := <[c := sp_pgid sp]> (ex_current e); ex_started := ex_started e ++ [(c, req, sp_pgid sp)];
                   ex_signalled := ex_signalled e |}
     | Err _ => e
     end).
Proof.
  intros E Hcur. unfold SshServer.start_session in E.
  assert (pending_of c (handle_requests i 0 rs (ssh_new key)).1 = asked c rs) as Hp by apply run_pending.
  rewrite Hp in E. fold (session_request env process_cwd c rs arguments) in E. cbv zeta.
  destruct (backend_spawn i _ _) as [sp|e']; injection E as <- <-; [|by apply follows_quiet].
  split; [|split; [|split]].
  - cbn. by rewrite fmap_insert, Hcur.
  - cbn [ex_signalled]. rewrite drop_all. unfold kills_of. cbn. by rewrite omap_app, dropped_quiet.
  - done.
  - rewrite relayed_start. by intros req [= <-].
Qed.

Lemma handle_follows i rs r sv acts e :
  handle_request i (length rs) r (handle_requests i 0 rs (ssh_new key)).1 = (sv, acts) →
  as_pgid <$> ss_active (handle_requests i 0 rs (ssh_new key)).1 = ex_current e → follows i sv acts e (expect i rs r e).
Proof.
  unfold handle_request. intros E Hcur. destruct r; cbn [ssh_handle expect starts] in *.
  4, 5: by apply follows_start.
  7: { unfold expect. cbn [starts]. unfold channel_close in E. injection E as <- <-. rewrite <- Hcur, lookup_fmap.
       destruct (ss_active _ !! c) as [a|] eqn:Ea; cbn [fmap option_fmap option_map].
       - split; [|split; [|split]]; cbn.
         + by rewrite fmap_delete, Hcur.
         + rewrite drop_app_length. unfold kills_of. cbn. by rewrite dropped_quiet.
         + by apply prefix_app_r.
         + unfold relayed. cbn. by rewrite dropped_quiet.
       - apply follows_quiet; [|done..]. cbn. by rewrite fmap_delete, delete_id, Hcur by by rewrite lookup_fmap, Ea. }
  all: unfold channel_open_session, pty_request, env_request, window_change_request, channel_data, channel_eof,
    subsystem_request, channel_open_direct_tcpip in E; cases_of E; injection E as <- <-; apply follows_quiet; cbn; unfold kills_of, relayed; cbn;
    rewrite ?dropped_quiet by done; try done;
    rewrite fmap_insert, insert_id; try done; rewrite lookup_fmap; match goal with E : ss_active _ !! _ = Some _ |- _ => by rewrite E end.
Qed.

(** ** The invariant *)

(** A session as {!SshServer} and {!SshRelay} have it: its connection's handler
    started it on its channel, and its relay runs from the start. *)
Definition session_ok (cls : list SshClient) (x : SshSession) : Prop :=
  rtc (relay_step (ses_wait (x_child x))) (relay_session_to_channel (x_child x)) (x_relay x) ∧
  (0 < ses_pgid (x_child x) ≤ 2147483647)%Z ∧
  ∃ cl, cls !! x_conn x = Some cl ∧ ASpawn (x_chan x) (x_req x) (ses_pgid (x_child x)) ∈ cl_actions cl.

(** What connection [i] started and signalled. *)
Definition started_by (i : nat) (x : SshSession) : option (N * SpawnRequest * Z) :=
  if decide (x_conn x = i) then Some (x_chan x, x_req x, ses_pgid (x_child x)) else None.
Definition signalled_by (i : nat) (k : nat * (Z * Z)) : option (Z * Z) := if decide (k.1 = i) then Some k.2 else None.

(** Session [j] is the last one started on channel [c] of connection [i]. *)
Definition last_on (xs : list SshSession) (i : nat) (c : N) (j : nat) (x : SshSession) : Prop :=
  xs !! j = Some x ∧ x_conn x = i ∧ x_chan x = c ∧
  ∀ j' x', j < j' → xs !! j' = Some x' → ¬ (x_conn x' = i ∧ x_chan x' = c).

(** The session a handler has on a channel is that one. *)
Definition runs_on (xs : list SshSession) (i : nat) (c : N) (p : Z) : Prop :=
  ∃ j x, last_on xs i c j x ∧ ses_pgid (x_child x) = p.

(** A connection did what its requests must lead to. *)
Definition done_as_expected (y : SshKeeper) (i : nat) (rs : list SshRequest) (sv : SshServer) : Prop :=
  as_pgid <$> ss_active sv = ex_current (expected i rs) ∧
  omap (started_by i) (y_sessions y) = ex_started (expected i rs) ∧
  omap (signalled_by i) (y_kills y) = (λ p, (wrap_i32 (- p), SIGTERM)) <$> ex_signalled (expected i rs).

Record ssh_inv (k0 : System) (y : SshKeeper) : Prop := {
  yi_keeper : rtc sys_step k0 (y_keeper y);
  yi_held : NoDup (ssh_held y);
  yi_foreign p : p ∈ ssh_held y → p ∈ s_foreign (y_keeper y);
  yi_clients i cl : y_clients y !! i = Some cl →
    handle_requests i 0 (cl_requests cl) (ssh_new key) = (cl_server cl, cl_actions cl);
  yi_sessions : Forall (session_ok (y_clients y)) (y_sessions y);
  yi_active i cl c p : y_clients y !! i = Some cl → as_pgid <$> (ss_active (cl_server cl) !! c) = Some p → runs_on (y_sessions y) i c p;
  yi_expected i cl : y_clients y !! i = Some cl → done_as_expected y i (cl_requests cl) (cl_server cl);
  yi_known i : length (y_clients y) ≤ i → omap (started_by i) (y_sessions y) = [] ∧ omap (signalled_by i) (y_kills y) = [];
  yi_dropped i cl : y_clients y !! i = Some cl → cl_dropped cl = if cl_open cl then [] else drop_handler (cl_server cl);
}.

(** Connections only do more. *)
Definition extends (cls cls' : list SshClient) : Prop :=
  ∀ i cl, cls !! i = Some cl → ∃ cl', cls' !! i = Some cl' ∧ ∀ a, a ∈ cl_actions cl → a ∈ cl_actions cl'.

Lemma extends_insert cls i cl cl' :
  cls !! i = Some cl → (∀ a, a ∈ cl_actions cl → a ∈ cl_actions cl') → extends cls (<[i := cl']> cls).
Proof.
  intros Hi Ha j d Hj. destruct (decide (j = i)) as [->|Hne].
  - exists cl'. rewrite list_lookup_insert_eq by by eapply lookup_lt_Some. simplify_eq. done.
  - exists d. by rewrite list_lookup_insert_ne.
Qed.

Lemma extends_app cls cls' : extends cls (cls ++ cls').
Proof. intros i cl Hi. exists cl. split; [by apply lookup_app_l_Some|done]. Qed.

Lemma session_ok_extends cls cls' x : extends cls cls' → session_ok cls x → session_ok cls' x.
Proof.
  intros He (H1 & H2 & cl & Hc & Ha). split; [done|]. split; [done|]. destruct (He _ _ Hc) as (cl' & Hc' & Hs). exists cl'. auto.
Qed.

Lemma sessions_extend cls cls' xs : extends cls cls' → Forall (session_ok cls) xs → Forall (session_ok cls') xs.
Proof. intros He H. eapply Forall_impl; [exact H|]. intros x. by apply session_ok_extends. Qed.

Lemma runs_on_app xs x' i c p : ¬ (x_conn x' = i ∧ x_chan x' = c) → runs_on xs i c p → runs_on (xs ++ [x']) i c p.
Proof.
  intros Hn (j & x & (Hj & H1 & H2 & Hl) & Hp). exists j, x. split; [|done]. split; [by apply lookup_app_l_Some|]. split_and!; [done..|].
  intros j' d Hlt [Hd|[_ Hd]]%lookup_app_Some; [by eapply Hl|]. by apply list_lookup_singleton_Some in Hd as [_ <-].
Qed.

Lemma relay_lookup (xs : list SshSession) (j : nat) (x : SshSession) (rl : Relay) (j' : nat) (x' : SshSession) :
  xs !! j = Some x → <[j := with_relay rl x]> xs !! j' = Some x' → ∃ d, xs !! j' = Some d ∧ x_conn x' = x_conn d ∧ x_chan x' = x_chan d ∧ x_child x' = x_child d.
Proof.
  intros Hj. destruct (decide (j' = j)) as [->|Hne].
  - rewrite list_lookup_insert_eq by by eapply lookup_lt_Some. intros [= <-]. by exists x.
  - rewrite list_lookup_insert_ne by done. intros Hj'. by exists x'.
Qed.

Lemma runs_on_relay (xs : list SshSession) j x rl i c p : xs !! j = Some x → runs_on xs i c p → runs_on (<[j := with_relay rl x]> xs) i c p.
Proof.
  intros Hj (j0 & x0 & (Hj0 & H1 & H2 & Hl) & Hp).
  assert (∃ d, <[j := with_relay rl x]> xs !! j0 = Some d ∧ x_conn d = i ∧ x_chan d = c ∧ ses_pgid (x_child d) = p) as (d & Hd & E1 & E2 & E3).
  { destruct (decide (j0 = j)) as [->|Hne].
    - assert (x0 = x) as -> by congruence. exists (with_relay rl x). by rewrite list_lookup_insert_eq by by eapply lookup_lt_Some.
    - exists x0. by rewrite list_lookup_insert_ne. }
  exists j0, d. split; [|done]. split_and!; try done. intros j' x' Hlt Hx'.
  destruct (relay_lookup _ _ _ _ _ _ Hj Hx') as (e & He & -> & -> & _). by eapply Hl.
Qed.

Lemma relay_step_unreaped x rl :
  relay_step (ses_wait (x_child x)) (x_relay x) rl → ssh_unreaped (with_relay rl x) = ssh_unreaped x ∨ ssh_unreaped (with_relay rl x) = None.
Proof. unfold ssh_unreaped. destruct 1; cbn; try (by left); try (by right); rewrite H; by left. Qed.

Lemma held_relay y j x rl :
  y_sessions y !! j = Some x → relay_step (ses_wait (x_child x)) (x_relay x) rl →
  sublist (omap ssh_unreaped (<[j := with_relay rl x]> (y_sessions y))) (ssh_held y).
Proof. intros Hj Hs. eapply omap_insert_sublist; [exact Hj|]. by apply relay_step_unreaped. Qed.

(** What a connection's next request leaves of its history and of its channels. *)
Lemma inv_answered k0 y i cl r sv acts :
  ssh_inv k0 y → y_clients y !! i = Some cl → handle_request i (length (cl_requests cl)) r (cl_server cl) = (sv, acts) →
  (∀ j d, <[i := answered r sv acts cl]> (y_clients y) !! j = Some d → handle_requests j 0 (cl_requests d) (ssh_new key) = (cl_server d, cl_actions d)) ∧
  extends (y_clients y) (<[i := answered r sv acts cl]> (y_clients y)).
Proof.
  intros Hy Hi Hh. split.
  - intros j d. destruct (decide (j = i)) as [->|Hne].
    + rewrite list_lookup_insert_eq by by eapply lookup_lt_Some. intros [= <-]. cbn [cl_requests cl_server cl_actions answered].
      by rewrite handle_requests_snoc, (yi_clients _ _ Hy _ _ Hi), Hh.
    + rewrite list_lookup_insert_ne by done. apply (yi_clients _ _ Hy).
  - eapply extends_insert; [exact Hi|]. intros a Ha. cbn. apply elem_of_app. by left.
Qed.

Lemma active_insert (P : nat → N → Z → Prop) y i cl cl' :
  y_clients y !! i = Some cl →
  (∀ c p, as_pgid <$> (ss_active (cl_server cl') !! c) = Some p → P i c p) →
  (∀ j d c p, j ≠ i → y_clients y !! j = Some d → as_pgid <$> (ss_active (cl_server d) !! c) = Some p → P j c p) →
  ∀ j d c p, <[i := cl']> (y_clients y) !! j = Some d → as_pgid <$> (ss_active (cl_server d) !! c) = Some p → P j c p.
Proof.
  intros Hi Hnew Hold j d c p. destruct (decide (j = i)) as [->|Hne].
  - rewrite list_lookup_insert_eq by by eapply lookup_lt_Some. intros [= <-]. apply Hnew.
  - rewrite list_lookup_insert_ne by done. by apply Hold.
Qed.

Lemma omap_signalled j i (ps : list Z) :
  omap (signalled_by j) ((λ p, (i, (wrap_i32 (- p), SIGTERM))) <$> ps) = if decide (i = j) then (λ p, (wrap_i32 (- p), SIGTERM)) <$> ps else [].
Proof.
  induction ps as [|p ps IH]; [by destruct (decide (i = j))|]. rewrite fmap_cons. cbn. unfold signalled_by at 1. cbn.
  destruct (decide (i = j)); cbn; by rewrite IH.
Qed.

Lemma answered_follows k0 y i cl r sv acts :
  ssh_inv k0 y → y_clients y !! i = Some cl → handle_request i (length (cl_requests cl)) r (cl_server cl) = (sv, acts) →
  follows i sv acts (expected i (cl_requests cl)) (expected i (cl_requests cl ++ [r])).
Proof.
  intros Hy Hi Hh. rewrite expected_snoc. destruct (yi_expected _ _ Hy _ _ Hi) as (Hcur & _).
  assert ((handle_requests i 0 (cl_requests cl) (ssh_new key)).1 = cl_server cl) as E by by rewrite (yi_clients _ _ Hy _ _ Hi).
  apply handle_follows; by rewrite E.
Qed.

(** What connection [i] has done once it handled a request, with the sessions
    there are then. *)
Lemma expected_self k0 y i cl r sv acts xs :
  ssh_inv k0 y → y_clients y !! i = Some cl → handle_request i (length (cl_requests cl)) r (cl_server cl) = (sv, acts) →
  omap (started_by i) xs = ex_started (expected i (cl_requests cl ++ [r])) →
  done_as_expected (with_sessions xs (with_clients (<[i := answered r sv acts cl]> (y_clients y)) (kills_of i acts) y)) i (cl_requests cl ++ [r]) sv.
Proof.
  intros Hy Hi Hh Hx. destruct (answered_follows _ _ _ _ _ _ _ Hy Hi Hh) as (Hcur & Hk & [l Hl] & _).
  destruct (yi_expected _ _ Hy _ _ Hi) as (_ & _ & Hold). split; [done|]. split; [done|].
  cbn [with_sessions with_clients y_kills]. rewrite omap_app, Hold, Hk, Hl, drop_app_length, omap_signalled, decide_True by done.
  by rewrite fmap_app.
Qed.

(** The others signalled nothing. *)
Lemma expected_others k0 y i cl r sv acts j :
  ssh_inv k0 y → y_clients y !! i = Some cl → handle_request i (length (cl_requests cl)) r (cl_server cl) = (sv, acts) → j ≠ i →
  omap (signalled_by j) (y_kills y ++ kills_of i acts) = omap (signalled_by j) (y_kills y).
Proof.
  intros Hy Hi Hh Hne. destruct (answered_follows _ _ _ _ _ _ _ Hy Hi Hh) as (_ & Hk & _).
  by rewrite omap_app, Hk, omap_signalled, decide_False, app_nil_r.
Qed.

Lemma inv_expected k0 y i cl r sv acts xs :
  ssh_inv k0 y → y_clients y !! i = Some cl → cl_open cl = true → handle_request i (length (cl_requests cl)) r (cl_server cl) = (sv, acts) →
  (∀ j, j ≠ i → omap (started_by j) xs = omap (started_by j) (y_sessions y)) →
  omap (started_by i) xs = ex_started (expected i (cl_requests cl ++ [r])) →
  let y' := with_sessions xs (with_clients (<[i := answered r sv acts cl]> (y_clients y)) (kills_of i acts) y) in
  (∀ j d, y_clients y' !! j = Some d → done_as_expected y' j (cl_requests d) (cl_server d)) ∧
  (∀ j, length (y_clients y') ≤ j → omap (started_by j) (y_sessions y') = [] ∧ omap (signalled_by j) (y_kills y') = []) ∧
  (∀ j d, y_clients y' !! j = Some d → cl_dropped d = if cl_open d then [] else drop_handler (cl_server d)).
Proof.
  intros Hy Hi Ho Hh Hothers Hself. cbn [with_sessions with_clients y_clients y_sessions y_kills].
  assert (∀ j d, <[i := answered r sv acts cl]> (y_clients y) !! j = Some d →
    (j = i ∧ d = answered r sv acts cl) ∨ (j ≠ i ∧ y_clients y !! j = Some d)) as Hlook.
  { intros j d. destruct (decide (j = i)) as [->|Hne]; [|rewrite list_lookup_insert_ne by done; auto].
    rewrite list_lookup_insert_eq by by eapply lookup_lt_Some. intros [= <-]. auto. }
  split; [|split].
  - intros j d [[-> ->]|[Hne Hj]]%Hlook; [by eapply expected_self|]. destruct (yi_expected _ _ Hy _ _ Hj) as (H1 & H2 & H3).
    split; [done|]. cbn [with_sessions with_clients y_sessions y_kills]. by rewrite (Hothers j Hne), (expected_others _ _ _ _ _ _ _ j Hy Hi Hh Hne).
  - intros j Hj. rewrite length_insert in Hj. assert (j ≠ i) as Hne by (apply lookup_lt_Some in Hi; lia).
    rewrite (Hothers j Hne), (expected_others _ _ _ _ _ _ _ j Hy Hi Hh Hne). by apply (yi_known _ _ Hy).
  - intros j d [[-> ->]|[Hne Hj]]%Hlook; [|by apply (yi_dropped _ _ Hy _ _ Hj)]. cbn. rewrite (yi_dropped _ _ Hy _ _ Hi). by rewrite Ho.
Qed.

Lemma started_snoc j i xs c req s :
  omap (started_by j) (xs ++ [new_session i c req s]) =
  omap (started_by j) xs ++ (if decide (i = j) then [(c, req, ses_pgid s)] else []).
Proof. rewrite omap_app. cbn. unfold started_by at 2. cbn. by destruct (decide (i = j)). Qed.

Lemma inv_start k0 y i cl r sv acts c sp req s :
  ssh_inv k0 y → y_clients y !! i = Some cl → cl_open cl = true →
  handle_request i (length (cl_requests cl)) r (cl_server cl) = (sv, acts) →
  relayed acts = Some (c, sp) → head (omap requested_by acts) = Some req → plays sp s →
  (0 < ses_pgid s ≤ 2147483647)%Z → ses_pgid s ∉ held (y_keeper y) → ses_pgid s ∉ s_foreign (y_keeper y) →
  ssh_inv k0
    (with_keeper (with_foreign ({[ses_pgid s]} ∪ s_foreign (y_keeper y)) (y_keeper y))
      (with_sessions (y_sessions y ++ [new_session i c req s])
        (with_clients (<[i := answered r sv acts cl]> (y_clients y)) (kills_of i acts) y))).
Proof.
  intros Hy Hi Ho Hh Hrel Hreq Hplays Hp Hheld Hforeign. destruct (inv_answered _ _ _ _ _ _ _ Hy Hi Hh) as [Hcls Hext].
  pose proof (handle_relayed _ _ _ _ _ _ Hh) as Hr. rewrite Hrel in Hr. destruct Hr as (_ & (req' & Hreq' & Hin & _) & Hact).
  rewrite Hreq in Hreq'. injection Hreq' as <-. destruct Hplays as [Hpg _]. rewrite Hpg in Hin.
  destruct (answered_follows _ _ _ _ _ _ _ Hy Hi Hh) as (_ & _ & _ & Hstd). rewrite Hrel in Hstd. specialize (Hstd _ Hreq). rewrite Hpg in Hstd.
  destruct (inv_expected k0 y i cl r sv acts (y_sessions y ++ [new_session i c req s]) Hy Hi Ho Hh) as (Hx1 & Hx2 & Hx3).
  { intros j Hne. rewrite started_snoc, decide_False, app_nil_r by done. done. }
  { rewrite started_snoc, decide_True by done. destruct (yi_expected _ _ Hy _ _ Hi) as (_ & -> & _). by rewrite Hstd. }
  assert (ssh_unreaped (new_session i c req s) = Some (ses_pgid s)) as Hu by done.
  split; cbn [with_keeper with_sessions with_clients y_keeper y_clients y_sessions].
  - eapply rtc_r; [apply (yi_keeper _ _ Hy)|]. by apply step_foreign_new.
  - unfold ssh_held. cbn [with_keeper with_sessions y_sessions]. rewrite omap_app. apply NoDup_app. split; [apply (yi_held _ _ Hy)|]. cbn. split; [|apply NoDup_singleton].
    intros p Hpin ->%list_elem_of_singleton. by apply (yi_foreign _ _ Hy) in Hpin.
  - intros p. unfold ssh_held. cbn [with_keeper with_sessions y_sessions]. rewrite omap_app, elem_of_app. cbn.
    intros [Hpin|Hpin]; [apply (yi_foreign _ _ Hy) in Hpin|apply list_elem_of_singleton in Hpin]; set_solver.
  - exact Hcls.
  - apply Forall_app. split; [eapply sessions_extend; [exact Hext|apply Hy]|]. constructor; [|done].
    split; [apply rtc_refl|]. split; [done|]. exists (answered r sv acts cl). cbn. split.
    + apply list_lookup_insert_eq. by eapply lookup_lt_Some.
    + apply elem_of_app. by right.
  - apply (active_insert (λ j c p, runs_on _ j c p) y i cl); [done| |].
    + intros c' p. cbn [answered cl_server]. rewrite Hact. destruct (decide (c' = c)) as [->|Hne].
      * rewrite lookup_insert_eq. intros [= <-]. exists (length (y_sessions y)), (new_session i c req s). split; [|by cbn].
        split; [by rewrite lookup_app_r, Nat.sub_diag|]. split_and!; [done..|].
        intros j' x' Hlt Hx'%lookup_lt_Some. rewrite length_app in Hx'. cbn in Hx'. lia.
      * rewrite lookup_insert_ne by done. intros Ha. apply runs_on_app; [cbn; naive_solver|]. by eapply (yi_active _ _ Hy).
    + intros j d c' p Hne Hj Ha. apply runs_on_app; [cbn; naive_solver|]. by eapply (yi_active _ _ Hy).
  - exact Hx1.
  - exact Hx2.
  - exact Hx3.
Qed.

Lemma inv_request k0 y i cl r sv acts :
  ssh_inv k0 y → y_clients y !! i = Some cl → cl_open cl = true →
  handle_request i (length (cl_requests cl)) r (cl_server cl) = (sv, acts) → relayed acts = None →
  ssh_inv k0 (with_clients (<[i := answered r sv acts cl]> (y_clients y)) (kills_of i acts) y).
Proof.
  intros Hy Hi Ho Hh Hr. destruct (inv_answered _ _ _ _ _ _ _ Hy Hi Hh) as [Hcls Hext]. pose proof (handle_relayed _ _ _ _ _ _ Hh) as Hact. rewrite Hr in Hact.
  destruct (answered_follows _ _ _ _ _ _ _ Hy Hi Hh) as (_ & _ & _ & Hstd). rewrite Hr in Hstd.
  destruct (inv_expected k0 y i cl r sv acts (y_sessions y) Hy Hi Ho Hh) as (Hx1 & Hx2 & Hx3); [done| |].
  { destruct (yi_expected _ _ Hy _ _ Hi) as (_ & -> & _). by rewrite Hstd. }
  split; try apply Hy; [done|by eapply sessions_extend; [exact Hext|apply Hy]| |exact Hx1|exact Hx2|exact Hx3].
  apply (active_insert (λ j c p, runs_on _ j c p) y i cl); [done| |].
  - intros c p Ha%Hact. by eapply (yi_active _ _ Hy).
  - intros j d c p _. apply (yi_active _ _ Hy).
Qed.

Lemma inv_accept k0 y : ssh_inv k0 y → ssh_inv k0 (with_clients (y_clients y ++ [new_connection]) [] y).
Proof.
  intros Hy. split; try apply Hy.
  - intros i cl [Hi|[_ Hi]]%lookup_app_Some; [by apply Hy|]. by apply list_lookup_singleton_Some in Hi as [_ <-].
  - eapply sessions_extend; [apply extends_app|apply Hy].
  - intros i cl c p [Hi|[_ Hi]]%lookup_app_Some; [by apply (yi_active _ _ Hy)|]. by apply list_lookup_singleton_Some in Hi as [_ <-].
  - intros i cl Hi. unfold done_as_expected. cbn [with_clients y_sessions y_kills]. rewrite app_nil_r. cbn in Hi.
    apply lookup_app_Some in Hi as [Hi|[Hle Hi]]; [by apply (yi_expected _ _ Hy)|]. apply list_lookup_singleton_Some in Hi as [_ <-].
    destruct (yi_known _ _ Hy i Hle) as [-> ->]. split; [cbn; by rewrite fmap_empty|done].
  - intros i. cbn [with_clients y_clients y_sessions y_kills]. rewrite app_nil_r, length_app. cbn. intros Hi. apply (yi_known _ _ Hy). lia.
  - intros i cl [Hi|[_ Hi]]%lookup_app_Some; [by apply (yi_dropped _ _ Hy _ _ Hi)|]. by apply list_lookup_singleton_Some in Hi as [_ <-].
Qed.

Lemma inv_disconnect k0 y i cl :
  ssh_inv k0 y → y_clients y !! i = Some cl → ssh_inv k0 (with_clients (<[i := disconnected cl]> (y_clients y)) [] y).
Proof.
  intros Hy Hi. assert (∀ j d, <[i := disconnected cl]> (y_clients y) !! j = Some d →
    (j = i ∧ d = disconnected cl) ∨ (j ≠ i ∧ y_clients y !! j = Some d)) as Hlook.
  { intros j d. destruct (decide (j = i)) as [->|Hne]; [|rewrite list_lookup_insert_ne by done; auto].
    rewrite list_lookup_insert_eq by by eapply lookup_lt_Some. intros [= <-]. auto. }
  split; try apply Hy.
  - intros j d [[-> ->]|[_ Hj]]%Hlook; [exact (yi_clients _ _ Hy _ _ Hi)|by apply Hy].
  - eapply sessions_extend; [|apply Hy]. by eapply extends_insert.
  - apply (active_insert (λ j c p, runs_on _ j c p) y i cl); [done| |].
    + intros c p. exact (yi_active _ _ Hy _ _ _ _ Hi).
    + intros j d c p _. apply (yi_active _ _ Hy).
  - intros j d Hd. unfold done_as_expected. cbn [with_clients y_sessions y_kills]. rewrite app_nil_r.
    apply Hlook in Hd as [[-> ->]|[_ Hj]]; [exact (yi_expected _ _ Hy _ _ Hi)|by apply (yi_expected _ _ Hy)].
  - intros j. cbn [with_clients y_clients y_sessions y_kills]. rewrite app_nil_r, length_insert. apply (yi_known _ _ Hy).
  - intros j d [[-> ->]|[_ Hj]]%Hlook; [done|by apply (yi_dropped _ _ Hy _ _ Hj)].
Qed.

Lemma started_relay i (xs : list SshSession) j x rl :
  xs !! j = Some x → omap (started_by i) (<[j := with_relay rl x]> xs) = omap (started_by i) xs.
Proof. intros Hj. by eapply omap_insert. Qed.

Lemma inv_relay k0 y j x rl :
  ssh_inv k0 y → y_sessions y !! j = Some x → relay_step (ses_wait (x_child x)) (x_relay x) rl →
  ssh_inv k0 (with_sessions (<[j := with_relay rl x]> (y_sessions y)) y).
Proof.
  intros Hy Hj Hr. pose proof (held_relay y j x rl Hj Hr) as Hsub. split; try apply Hy.
  - eapply sublist_NoDup; [apply Hy|exact Hsub].
  - intros p Hp. apply (yi_foreign _ _ Hy). by eapply elem_of_sublist.
  - cbn. apply Forall_insert; [apply Hy|]. pose proof (Forall_lookup_1 _ _ _ _ (yi_sessions _ _ Hy) Hj) as (H1 & H2 & H3).
    split; [|done]. by eapply rtc_r.
  - intros i cl c p Hi Ha. eapply runs_on_relay; [exact Hj|]. by eapply (yi_active _ _ Hy).
  - intros i cl Hi. unfold done_as_expected. cbn [with_sessions y_sessions y_kills]. rewrite (started_relay _ _ _ _ _ Hj). by apply (yi_expected _ _ Hy).
  - intros i. cbn [with_sessions y_clients y_sessions y_kills]. rewrite (started_relay _ _ _ _ _ Hj). apply (yi_known _ _ Hy).
Qed.

Lemma ssh_step_inv k0 y y' : ssh_step y y' → ssh_inv k0 y → ssh_inv k0 y'.
Proof.
  intros Hs Hy. destruct Hs as [k Hk Hf|Hrn|i cl r sv acts Hrn Hi Ho Hh Hr|i cl r sv acts c sp req s Hrn Hi Ho Hh Hr Hq Hpl Hp Hp1 Hp2|i cl Hi Ho|j x rl Hrn Hj Hr].
  - split; try apply Hy; [|done]. eapply rtc_r; [apply Hy|done].
  - by apply inv_accept.
  - by apply inv_request.
  - by eapply inv_start.
  - by apply inv_disconnect.
  - by apply inv_relay.
Qed.

Lemma ssh_inv_new k0 : ssh_inv k0 (ssh_keeper_new k0).
Proof. split; cbn; try done; [apply NoDup_nil_2|by intros p ?%not_elem_of_nil]. Qed.

Lemma ssh_reach_inv k0 y : rtc ssh_step (ssh_keeper_new k0) y → ssh_inv k0 y.
Proof.
  intros Hr. refine (rtc_ind_r (R := ssh_step) (ssh_inv k0) _ (ssh_inv_new k0) _ y Hr). intros y1 y2 _ Hs. by apply ssh_step_inv.
Qed.

(** ** Who does what in a step *)

(** A step is one of the rest of the keeper or of nothing there. *)
Lemma step_keeper y y' : ssh_step y y' → rtc sys_step (y_keeper y) (y_keeper y').
Proof.
  intros Hs. destruct Hs; try done; [by apply rtc_once|]. apply rtc_once. by apply step_foreign_new.
Qed.

(** A session of before the step is where it was and did at most one step. *)
Lemma step_session y y' j x :
  ssh_step y y' → y_sessions y !! j = Some x →
  ∃ rl, y_sessions y' !! j = Some (with_relay rl x) ∧ (rl = x_relay x ∨ relay_step (ses_wait (x_child x)) (x_relay x) rl).
Proof.
  intros Hs Hj. assert (y_sessions y !! j = Some (with_relay (x_relay x) x)) as Hx by (rewrite Hj; by destruct x).
  destruct Hs; try (exists (x_relay x); split; [exact Hx|by left]).
  - exists (x_relay x). split; [|by left]. by apply lookup_app_l_Some.
  - destruct (decide (j0 = j)) as [->|Hne].
    + simplify_eq. exists rl. split; [|by right]. apply list_lookup_insert_eq. by eapply lookup_lt_Some.
    + exists (x_relay x). split; [|by left]. cbn. by rewrite list_lookup_insert_ne.
Qed.

(** What an SSH handler signals: the last session of the channel that is closed. *)
Lemma kills_of_close k0 y i cl r sv acts i' target sig :
  ssh_inv k0 y → y_clients y !! i = Some cl → handle_request i (length (cl_requests cl)) r (cl_server cl) = (sv, acts) →
  (i', (target, sig)) ∈ kills_of i acts →
  i' = i ∧ sig = SIGTERM ∧ ∃ c j x, r = RClose c ∧ last_on (y_sessions y) i c j x ∧ target = (- ses_pgid (x_child x))%Z.
Proof.
  intros Hy Hi Hh. unfold kills_of. rewrite list_elem_of_omap. intros (a & Ha & Hk).
  destruct a as [| | | | | | | | |c p sig0| |]; try done. injection Hk as <- <- <-.
  assert (AKill c p sig0 ∈ (handle_request i (length (cl_requests cl)) r (cl_server cl)).2) as Hin by by rewrite Hh.
  apply handle_actions in Hin as (Hc & Hp & Hr & ->). cbn in Hc. subst r. cbn in Hp.
  split; [done|]. split; [done|]. destruct (yi_active _ _ Hy i cl c p Hi (eq_sym (eq_sym Hp))) as (j & x & Hl & <-).
  exists c, j, x. split; [done|]. split; [done|]. apply wrap_i32_neg. destruct Hl as (Hj & _).
  by destruct (Forall_lookup_1 _ _ _ _ (yi_sessions _ _ Hy) Hj) as (_ & Hpid & _).
Qed.

(** A step in which connection [i] was asked [r]. *)
Definition asked_next (y y' : SshKeeper) (i : nat) (r : SshRequest) : Prop :=
  ∃ cl cl', y_clients y !! i = Some cl ∧ y_clients y' !! i = Some cl' ∧ cl_requests cl' = cl_requests cl ++ [r].

Lemma answered_next y i cl r sv acts :
  y_clients y !! i = Some cl → <[i := answered r sv acts cl]> (y_clients y) !! i = Some (answered r sv acts cl).
Proof. intros Hi. apply list_lookup_insert_eq. by eapply lookup_lt_Some. Qed.

Lemma kills_of_step k0 y y' i target sig :
  ssh_inv k0 y → ssh_step y y' → (i, (target, sig)) ∈ drop (length (y_kills y)) (y_kills y') →
  ∃ c j x, last_on (y_sessions y) i c j x ∧ target = (- ses_pgid (x_child x))%Z ∧ sig = SIGTERM ∧ asked_next y y' i (RClose c).
Proof.
  intros Hy Hs Hin.
  destruct Hs as [| |i0 cl r sv acts _ Hi _ Hh _|i0 cl r sv acts c sp req s _ Hi _ Hh| |];
    cbn [with_keeper with_sessions with_clients y_kills] in Hin; rewrite ?drop_app_length, ?drop_ge in Hin by done;
    try (by apply not_elem_of_nil in Hin);
    destruct (kills_of_close _ _ _ _ _ _ _ _ _ _ Hy Hi Hh Hin) as (-> & -> & c' & j & x & -> & Hl & ->);
    exists c', j, x; (do 3 (split; [done|])); eexists _, _; (split; [exact Hi|]); (split; [by apply answered_next|done]).
Qed.

Lemma unreaped_held (xs : list SshSession) j x p : xs !! j = Some x → ssh_unreaped x = Some p → p ∈ omap ssh_unreaped xs.
Proof. intros Hj Hu. apply list_elem_of_omap. exists x. split; [by eapply list_elem_of_lookup_2|done]. Qed.

Lemma unreaped_pgid x p : ssh_unreaped x = Some p → p = ses_pgid (x_child x).
Proof. unfold ssh_unreaped. by destruct (rl_waiter _); intros [= <-]. Qed.

(** A child nobody waited for has its group to itself. *)
Lemma unreaped_unique (xs : list SshSession) i j x x' p :
  NoDup (omap ssh_unreaped xs) → xs !! i = Some x → xs !! j = Some x' → ssh_unreaped x = Some p → ssh_unreaped x' = Some p → i = j.
Proof.
  revert i j. induction xs as [|e xs IH]; intros [|i] [|j] Hn Hi Hj Hu Hu'; simplify_eq/=; [done|..].
  - rewrite Hu in Hn. apply NoDup_cons in Hn as [Hn _]. destruct Hn. by eapply unreaped_held.
  - rewrite Hu' in Hn. apply NoDup_cons in Hn as [Hn _]. destruct Hn. by eapply unreaped_held.
  - f_equal. eapply IH; try done. destruct (ssh_unreaped e); [by apply NoDup_cons in Hn as [_ ?]|done].
Qed.

(** A session that was waited for and is still registered. *)
Definition zombie (k : System) (p : Z) : Prop :=
  ∃ i req now s input c, serves k i req now s input c ∧ c_waiter c = WRemove ∧ ses_pgid s = p.

Lemma entry_group k id info :
  sys_inv k → reg_sessions (s_registry k) !! id = Some info → info_pgid info ∈ held k ∨ zombie k (info_pgid info).
Proof.
  intros Hk [Hs|(i & req & now & s & input & c & Hc & <- & Hreg & ->)]%(si_registry _ Hk).
  - left. apply elem_of_app. left. apply list_elem_of_fmap. exists (id, info). split; [done|by apply elem_of_map_to_list].
  - destruct (reaped (c_waiter c)) eqn:E.
    + right. exists i, req, now, s, input, c. split_and!; try done. by destruct (c_waiter c).
    + left. apply elem_of_app. right. apply list_elem_of_omap. exists (Serving req now s input c).
      split; [by eapply list_elem_of_lookup_2|]. cbn. by rewrite E.
Qed.

(** The work all relays have left. *)
Definition ssh_work (y : SshKeeper) : nat := sum_list ((λ x, relay_work (x_relay x)) <$> y_sessions y).

(** ** Properties *)

Section runs.
Context (r : Registry) (foreign : gset Z) (y : SshKeeper).
Context (Hstart : startable r foreign) (Hrun : rtc ssh_step (ssh_keeper_new (system_new r foreign)) y).
#[local] Set Default Proof Using "Type*".

Lemma run_ssh_inv : ssh_inv (system_new r foreign) y.
Proof. by apply ssh_reach_inv. Qed.

Lemma run_keeper_inv : sys_inv (y_keeper y).
Proof. exact (sys_reach_inv _ _ (yi_keeper _ _ run_ssh_inv) (inv_new _ _ Hstart)). Qed.

Lemma run_groups : NoDup (held (y_keeper y) ++ ssh_held y).
Proof.
  pose proof run_ssh_inv as Hy. pose proof run_keeper_inv as Hk. apply NoDup_app. split; [apply Hk|]. split; [|apply Hy].
  intros p Hp Hq. apply (yi_foreign _ _ Hy) in Hq. by apply (si_foreign _ Hk) in Hp.
Qed.


(** Whom the SSH side of a keeper signals: only when a client closes a channel,
    with SIGTERM, the process group of the last session started on that channel
    of that connection; and while that session's child was not waited for,
    nobody else has its group: no other session, of SSH or not, no declared
    service. *)
Theorem ssh_signals_own_session y' i target sig (Hs : ssh_step y y') (Hin : (i, (target, sig)) ∈ drop (length (y_kills y)) (y_kills y')) :
  ∃ c j x, last_on (y_sessions y) i c j x ∧ target = (- ses_pgid (x_child x))%Z ∧ sig = SIGTERM ∧ asked_next y y' i (RClose c) ∧
    (is_Some (ssh_unreaped x) →
       ses_pgid (x_child x) ∉ held (y_keeper y) ∧
       ∀ j' x', y_sessions y !! j' = Some x' → ssh_unreaped x' = Some (ses_pgid (x_child x)) → j' = j).
Proof.
  pose proof run_ssh_inv as Hy. destruct (kills_of_step _ _ _ _ _ _ Hy Hs Hin) as (c & j & x & Hl & -> & -> & Hr).
  exists c, j, x. split; [done|]. split; [done|]. split; [done|]. split; [done|].
  intros [p Hp]. pose proof (unreaped_pgid _ _ Hp) as ->. destruct Hl as (Hj & _). split.
  - intros Hh'. pose proof run_groups as Hn. apply NoDup_app in Hn as (_ & Hn & _). by eapply Hn, unreaped_held.
  - intros j' x' Hj' Hu. by eapply unreaped_unique; [apply (yi_held _ _ Hy)|..].
Qed.

(** The process groups of a keeper: those of declared services, of sessions and
    of SSH sessions whose children nobody waited for are pairwise distinct, and
    no SSH session is in the registry: an entry with its group is one of a
    session that was waited for and is about to be removed.  So no SSH session
    is in what a query is answered with. *)
Theorem ssh_sessions_unregistered :
  NoDup (held (y_keeper y) ++ ssh_held y) ∧
  ∀ id info, reg_sessions (s_registry (y_keeper y)) !! id = Some info → info_pgid info ∈ ssh_held y → zombie (y_keeper y) (info_pgid info).
Proof.
  split; [apply run_groups|]. intros id info Hid Hp. pose proof run_groups as Hn. apply NoDup_app in Hn as (_ & Hn & _).
  destruct (entry_group _ _ _ run_keeper_inv Hid) as [Hh|Hz]; [|done]. by destruct (Hn _ Hh).
Qed.

(** No session of SSH waits for another one: while the keeper runs, each is
    finished, or its child still has an output open without writing, or it has a
    step of its own to take (which may have to wait for its client to receive
    data, or for its child to exit), and every such step lowers the work all of
    them have left. *)
Theorem ssh_progress j x (Hj : y_sessions y !! j = Some x) (Hrn : running (y_keeper y)) :
  (rl_task (x_relay x) = TDone ∨ rl_out (x_relay x) = Some [] ∨ rl_err (x_relay x) = Some [] ∨
   ∃ rl, relay_step (ses_wait (x_child x)) (x_relay x) rl) ∧
  ∀ rl, relay_step (ses_wait (x_child x)) (x_relay x) rl →
    let y' := with_sessions (<[j := with_relay rl x]> (y_sessions y)) y in
    ssh_step y y' ∧ ssh_work y' < ssh_work y.
Proof.
  destruct (Forall_lookup_1 _ _ _ _ (yi_sessions _ _ run_ssh_inv) Hj) as (Hr & _).
  pose proof (relay_reach_inv _ _ Hr) as Hi. split; [by apply (relay_progress (x_child x))|].
  intros rl Hs. split; [by apply ssh_relay|]. unfold ssh_work. cbn [with_sessions y_sessions].
  eapply (sum_insert (λ x, relay_work (x_relay x))); [exact Hj|]. by eapply (relay_step_work (x_child x)).
Qed.
End runs.

(** ** The shutdown *)

(** What the supervisor reported to the shutdown thread. *)
Definition reported (p : ShutdownPhase) : list Z :=
  match p with Waiting => [] | Terminating _ _ svc | Killing _ _ _ svc | Exited _ _ svc => svc end.
Definition still_to_signal (p : ShutdownPhase) : list Z :=
  match p with Terminating _ todo _ | Killing _ _ todo _ => todo | Waiting | Exited _ _ _ => [] end.

Section shutdown.
Context (r : Registry) (foreign : gset Z) (y1 : SshKeeper) (j : nat) (s : Connection.Session).
Context (Hstart : startable r foreign) (Hrun : rtc ssh_step (ssh_keeper_new (system_new r foreign)) y1).
Context (Hservices : ∀ id info, reg_sessions r !! id = Some info → (0 < info_pgid info ≤ 2147483647)%Z).
Context (Hwaiting : s_shutdown (y_keeper y1) = Waiting) (Hj : x_child <$> (y_sessions y1 !! j) = Some s).
#[local] Set Default Proof Using "Type*".

(** Why a signal to the session's group may be sent: the supervisor reported
    it, or a session waited for but still registered had it at some moment. *)
Definition blamed (y : SshKeeper) : Prop :=
  (∃ q, q ∈ reported (s_shutdown (y_keeper y)) ∧ wrap_i32 (- q) = (- ses_pgid s)%Z) ∨
  ∃ y2, rtc ssh_step y1 y2 ∧ rtc ssh_step y2 y ∧ zombie (y_keeper y2) (ses_pgid s).

Definition spared (y : SshKeeper) : Prop :=
  (∀ q, q ∈ still_to_signal (s_shutdown (y_keeper y)) → wrap_i32 (- q) = (- ses_pgid s)%Z → blamed y) ∧
  (∀ sig, (- ses_pgid s, sig)%Z ∈ by_shutdown (s_kills (y_keeper y)) → blamed y) ∧
  (s_shutdown (y_keeper y) = Waiting → by_shutdown (s_kills (y_keeper y)) = []).

Lemma blamed_later y y' :
  ssh_step y y' → (s_shutdown (y_keeper y) = Waiting ∨ reported (s_shutdown (y_keeper y')) = reported (s_shutdown (y_keeper y))) →
  blamed y → blamed y'.
Proof.
  clear Hstart Hrun Hservices Hwaiting Hj. intros Hs Hp [(q & Hq & E)|(y2 & R1 & R2 & Hz)].
  - left. exists q. destruct Hp as [Hw|Hp]; [|by rewrite Hp]. rewrite Hw in Hq. by apply not_elem_of_nil in Hq.
  - right. exists y2. split; [done|]. split; [by eapply rtc_r|done].
Qed.

(** A snapshot taken while the session's child is not waited for. *)
Lemma targets_blamed y svc q :
  rtc ssh_step y1 y → (∃ x, y_sessions y !! j = Some x ∧ x_child x = s ∧ is_Some (ssh_unreaped x)) →
  q ∈ targets (s_registry (y_keeper y)) svc → wrap_i32 (- q) = (- ses_pgid s)%Z → q ∈ svc ∨ zombie (y_keeper y) (ses_pgid s).
Proof.
  intros Hr (x & Hx & <- & [p Hp]) Hq E. pose proof (unreaped_pgid _ _ Hp) as ->.
  assert (rtc ssh_step (ssh_keeper_new (system_new r foreign)) y) as Hry by by etrans.
  pose proof (run_ssh_inv r foreign y Hstart Hry) as Hy. pose proof (run_keeper_inv r foreign y Hstart Hry) as Hk.
  destruct (Forall_lookup_1 _ _ _ _ (yi_sessions _ _ Hy) Hx) as (_ & Hpid & _).
  unfold targets in Hq. apply elem_of_app in Hq as [Hq|Hq]; [right|by left].
  apply list_elem_of_fmap in Hq as ([id info] & -> & Hin%elem_of_map_to_list). cbn in *.
  assert (0 < info_pgid info ≤ 2147483647)%Z as Hrange.
  { apply (si_registry _ Hk) in Hin as [Hs|(i & req & now & s' & input & c & Hc & _ & _ & ->)].
    - rewrite (services_fixed _ _ _ Hstart (yi_keeper _ _ Hy)) in Hs. by eapply Hservices.
    - exact (Forall_lookup_1 _ _ _ _ (si_pids _ Hk) Hc). }
  rewrite wrap_i32_neg in E by done. assert (info_pgid info = ses_pgid (x_child x)) as Ep by lia.
  rewrite <- Ep. destruct (entry_group _ _ _ Hk Hin) as [Hh|Hz]; [|done].
  apply (si_foreign _ Hk) in Hh. destruct Hh. rewrite Ep. apply (yi_foreign _ _ Hy). by eapply unreaped_held.
Qed.

Lemma spared_step y y' :
  rtc ssh_step y1 y → ssh_step y y' → (∃ x, y_sessions y !! j = Some x ∧ x_child x = s ∧ is_Some (ssh_unreaped x)) →
  spared y → spared y'.
Proof.
  intros Hr Hs Hx (Ht & Hk & Hw). pose proof Hs as Hstep.
  assert (s_shutdown (y_keeper y') = s_shutdown (y_keeper y) → by_shutdown (s_kills (y_keeper y')) = by_shutdown (s_kills (y_keeper y)) → spared y') as Hsame.
  { intros E1 E2. unfold spared. rewrite E1, E2. split_and!; [..|done].
    - intros q Hq E. eapply blamed_later; [exact Hstep|right; by rewrite E1|by eapply Ht].
    - intros sig Hin. eapply blamed_later; [exact Hstep|right; by rewrite E1|by eapply Hk]. }
  destruct Hs as [k Hs Hf| | | | |]; try (by apply Hsame).
  assert (∀ svc q, q ∈ targets (s_registry (y_keeper y)) svc → wrap_i32 (- q) = (- ses_pgid s)%Z → reported (s_shutdown k) = svc → blamed (with_keeper k y)) as Hsnap.
  { intros svc q Hq E Hsvc. destruct (targets_blamed y svc q Hr Hx Hq E) as [Hin|Hz].
    - left. exists q. cbn. by rewrite Hsvc.
    - right. exists y. split; [done|]. split; [by apply rtc_once|done]. }
  assert (∀ p0, s_shutdown k = p0 → reported p0 = reported (s_shutdown (y_keeper y)) → blamed y → blamed (with_keeper k y)) as Hlater.
  { intros p0 E Hrep. apply (blamed_later y); [exact Hstep|right; cbn; by rewrite E]. }
  destruct Hs; try (apply Hsame; [done|]; cbn; rewrite ?by_shutdown_app, ?by_shutdown_calls; by rewrite ?app_nil_r).
  - unfold spared. cbn [with_keeper with_shutdown y_keeper s_shutdown s_kills still_to_signal]. rewrite app_nil_r. rewrite (Hw H). split_and!; [|by intros sig ?%not_elem_of_nil|done].
    intros q Hq E. by eapply Hsnap.
  - rewrite H in *. unfold spared. cbn [with_keeper with_shutdown y_keeper s_shutdown s_kills still_to_signal]. rewrite by_shutdown_app. split_and!; [| |done].
    + intros q Hq E. eapply Hlater; [done..|]. eapply Ht; [by right|done].
    + intros sig [Hin|Hin]%elem_of_app; eapply Hlater; try done; [by eapply Hk|].
      cbn in Hin. apply list_elem_of_singleton in Hin. injection Hin as E _. eapply Ht; [by left|done].
  - rewrite H in *. unfold spared. cbn [with_keeper with_shutdown y_keeper s_shutdown s_kills still_to_signal]. rewrite app_nil_r. split_and!; [| |done].
    + intros q Hq E. by eapply Hsnap.
    + intros sig Hin. eapply Hlater; [done..|]. by eapply Hk.
  - rewrite H in *. unfold spared. cbn [with_keeper with_shutdown y_keeper s_shutdown s_kills still_to_signal]. rewrite by_shutdown_app. split_and!; [| |done].
    + intros q Hq E. eapply Hlater; [done..|]. eapply Ht; [by right|done].
    + intros sig [Hin|Hin]%elem_of_app; eapply Hlater; try done; [by eapply Hk|].
      cbn in Hin. apply list_elem_of_singleton in Hin. injection Hin as E _. eapply Ht; [by left|done].
  - rewrite H in *. unfold spared. cbn [with_keeper with_shutdown y_keeper s_shutdown s_kills still_to_signal]. rewrite app_nil_r. split_and!; [by intros q ?%not_elem_of_nil| |done].
    intros sig Hin. eapply Hlater; [done..|]. by eapply Hk.
Qed.

(** A session stays, and what was waited for stays so. *)
Lemma session_later y y' x' :
  ssh_step y y' → (∃ x, y_sessions y !! j = Some x ∧ x_child x = s) → y_sessions y' !! j = Some x' →
  x_child x' = s ∧ (is_Some (ssh_unreaped x') → ∃ x, y_sessions y !! j = Some x ∧ x_child x = s ∧ is_Some (ssh_unreaped x)).
Proof.
  clear Hstart Hrun Hservices Hwaiting Hj. intros Hs (x & Hx & Hc) Hx'.
  destruct (step_session y y' j x Hs Hx) as (rl & Hl & Hrl). assert (x' = with_relay rl x) as -> by congruence.
  split; [done|]. intros Hu. exists x. split; [done|]. split; [done|]. destruct Hrl as [->|Hst]; [by destruct x|].
  destruct (relay_step_unreaped x rl Hst) as [E|E]; rewrite E in Hu; [done|by destruct Hu].
Qed.

End shutdown.

End system.

(** ** A run *)

Section sample.
Definition sample_spawned : SpawnedSession :=
  {| sp_child := 42; sp_pgid := 42; sp_stdin := Some ChildStdin; sp_stdout := ChildStdout; sp_stderr := Some ChildStderr; sp_resize := None |}.
Definition sample_child : Connection.Session :=
  {| ses_pgid := 42; ses_stdin := true; ses_stdout := [ReadBytes []]; ses_stderr := Some [ReadBytes []]; ses_resizable := false;
     ses_wait := Ok (Some 0%Z, None) |}.
#[local] Abbreviation sample_step := (ssh_step [] (λ _, None) (Ok ("/p" : str)) (λ _ _ _, Ok sample_spawned) (λ _ _, true) (λ _ _ _ _, true)).
#[local] Abbreviation sample_request_at := (handle_request (λ _, None) (Ok ("/p" : str)) (λ _ _ _, Ok sample_spawned) (λ _ _, true) (λ _ _ _ _, true) 0).

Definition sample_new : SshKeeper := ssh_keeper_new (system_new registry_new ∅).
Definition sample_accepted : SshKeeper := with_clients [new_connection []] [] sample_new.
Definition sample_shell : SshServer * list SshAction := sample_request_at 0 (RShell 1) (ssh_new []).
Definition sample_asked : SpawnRequest := {| cmd := "sh"; args := []; cwd := "/p"; req_env := ∅; pty := None |}.
Definition sample_started : SshKeeper :=
  with_keeper (with_foreign ({[42%Z]} ∪ ∅) (system_new registry_new ∅))
    (with_sessions [new_session 0 1 sample_asked sample_child]
      (with_clients [answered (RShell 1) sample_shell.1 sample_shell.2 (new_connection [])] (kills_of 0 sample_shell.2) sample_accepted)).

Lemma sample_started_run : rtc sample_step sample_new sample_started.
Proof.
  eapply rtc_l; [by apply ssh_accept|]. apply rtc_once.
  apply (ssh_start _ _ _ _ _ _ sample_accepted 0 (new_connection []) (RShell 1) sample_shell.1 sample_shell.2 1 sample_spawned sample_asked sample_child);
    try done.
  apply (bool_decide_unpack _). by vm_compute.
Qed.

(** The run of the relay of a session whose child is done. *)
Definition sample_relayed : Relay :=
  {| rl_out := None; rl_err := None; rl_waiter := RDone; rl_queue := []; rl_task := TDone; rl_wire := [WExitStatus 0; WEof; WClose] |}.

Lemma sample_relay_run : rtc (relay_step (ses_wait sample_child)) (relay_session_to_channel sample_child) sample_relayed.
Proof.
  eapply rtc_l; [by eapply rs_out_stop|]. eapply rtc_l; [by eapply rs_err_stop|].
  eapply rtc_l; [by eapply rs_join_stdout|]. eapply rtc_l; [by eapply rs_join_stderr|].
  eapply rtc_l; [by eapply rs_wait|]. eapply rtc_l; [eapply rs_send_exit; [done|cbn; unfold QUEUE; lia]|].
  eapply rtc_l; [by eapply rs_drain|]. eapply rtc_l; [by eapply rs_ended|].
  eapply rtc_l; [by eapply rs_eof|]. apply rtc_once. by eapply rs_close.
Qed.
End sample.

(** A run of one session's relay is a run of the whole. *)
Lemma lift_relay key env dir spawn write conn y j x s rl0 rl :
  running (y_keeper y) → y_sessions y !! j = Some x → x_child x = s → x_relay x = rl0 → rtc (relay_step (ses_wait s)) rl0 rl →
  rtc (ssh_step key env dir spawn write conn) y (with_sessions (<[j := with_relay rl x]> (y_sessions y)) y).
Proof.
  intros Hrn Hj Hc E Hr. revert x y Hrn Hj Hc E. induction Hr as [rl|rl0 rl1 rl Hs Hr IH]; intros x y Hrn Hj Hc E.
  - subst rl. replace (with_sessions _ y) with y; [done|]. rewrite list_insert_id; [by destruct y|]. rewrite Hj. by destruct x.
  - eapply rtc_l; [apply (ssh_relay _ _ _ _ _ _ y j x rl1); [done|done|by rewrite E, Hc]|].
    etrans; [apply (IH (with_relay rl1 x)); [done| |done|done]|].
    + cbn. apply list_lookup_insert_eq. by eapply lookup_lt_Some.
    + cbn. rewrite list_insert_insert_eq. apply rtc_refl.
Qed.

(** A session that ended is signalled when its channel is closed, as every
    client does after it received the exit status; its child was waited for
    long before, so that by then the process group may be anybody's. *)
Lemma closed_session_signals_recycled :
  ∃ key env dir spawn write conn y y',
    rtc (ssh_step key env dir spawn write conn) sample_new y ∧ ssh_step key env dir spawn write conn y y' ∧
    42%Z ∈ s_foreign (y_keeper y) ∧ ssh_held y = [] ∧ held (y_keeper y) = [] ∧ (0%nat, (-42, SIGTERM)%Z) ∈ drop (length (y_kills y)) (y_kills y').
Proof.
  exists [], (λ _, None), (Ok ("/p" : str)), (λ _ _ _, Ok sample_spawned), (λ _ _, true), (λ _ _ _ _, true).
  set (y0 := with_sessions (<[0 := with_relay sample_relayed (new_session 0 1 sample_asked sample_child)]> (y_sessions sample_started)) sample_started).
  set (k0 := with_foreign (s_foreign (y_keeper y0) ∖ {[42%Z]}) (y_keeper y0)). set (k := with_foreign ({[42%Z]} ∪ s_foreign k0) k0).
  eexists (with_keeper k y0), _. split; [|split; [|split; [|split; [|split]]]].
  - etrans; [exact sample_started_run|]. etrans; [exact (lift_relay _ _ _ _ _ _ sample_started 0 _ _ _ _ I eq_refl eq_refl eq_refl sample_relay_run)|].
    eapply rtc_l; [apply (ssh_keeper _ _ _ _ _ _ y0 _ (step_foreign_gone (y_keeper y0) 42)); by intros p ?%not_elem_of_nil|].
    apply rtc_once. apply (ssh_keeper _ _ _ _ _ _ (with_keeper k0 y0) k); [|by intros p ?%not_elem_of_nil].
    apply (step_foreign_new k0 42). apply (bool_decide_unpack _). by vm_compute.
  - apply (ssh_request _ _ _ _ _ _ (with_keeper k y0) 0 (answered (RShell 1) sample_shell.1 sample_shell.2 (new_connection [])) (RClose 1) (ssh_new [])
      [AKill 1 42 SIGTERM; ACloseStdin 1 42]); try done.
  - unfold k. cbn. set_solver.
  - done.
  - by vm_compute.
  - apply (bool_decide_unpack _). by vm_compute.
Qed.

(** ** Witnesses *)

(** The channel is closed while its session runs. *)
Definition sample_closed : SshKeeper :=
  with_clients [answered (RClose 1) (ssh_new []) [AKill 1 42 SIGTERM; ACloseStdin 1 42] (answered (RShell 1) sample_shell.1 sample_shell.2 (new_connection []))]
    [(0%nat, (-42, SIGTERM)%Z)] sample_started.

Lemma sample_closed_run :
  rtc (ssh_step [] (λ _, None) (Ok ("/p" : str)) (λ _ _ _, Ok sample_spawned) (λ _ _, true) (λ _ _ _ _, true)) sample_new sample_closed.
Proof.
  eapply rtc_r; [exact sample_started_run|].
  apply (ssh_request _ _ _ _ _ _ sample_started 0 (answered (RShell 1) sample_shell.1 sample_shell.2 (new_connection [])) (RClose 1) (ssh_new [])
      [AKill 1 42 SIGTERM; ACloseStdin 1 42]); done.
Qed.


Lemma ssh_signals_own_session_witness :
  (0%nat, (-42, SIGTERM)%Z) ∈ drop (length (y_kills sample_started)) (y_kills sample_closed) ∧
  ∃ c j x, last_on (y_sessions sample_started) 0 c j x ∧ (-42)%Z = (- ses_pgid (x_child x))%Z.
Proof.
  assert ((0%nat, (-42, SIGTERM)%Z) ∈ drop (length (y_kills sample_started)) (y_kills sample_closed)) as Hin
    by (apply (bool_decide_unpack _); by vm_compute).
  split; [exact Hin|].
  destruct (ssh_signals_own_session [] (λ _, None) (Ok ("/p" : str)) (λ _ _ _, Ok sample_spawned) (λ _ _, true) (λ _ _ _ _, true)
    registry_new ∅ sample_started sample_startable sample_started_run sample_closed 0 (-42)%Z SIGTERM) as (c & j & x & Hl & E & _).
  - apply (ssh_request _ _ _ _ _ _ sample_started 0 (answered (RShell 1) sample_shell.1 sample_shell.2 (new_connection [])) (RClose 1) (ssh_new [])
      [AKill 1 42 SIGTERM; ACloseStdin 1 42]); done.
  - exact Hin.
  - exists c, j, x. split; [exact Hl|exact E].
Defined.

Lemma ssh_progress_witness :
  running (y_keeper sample_started) ∧ ∃ rl, relay_step (ses_wait sample_child) (relay_session_to_channel sample_child) rl ∧
  ssh_work (with_sessions (<[0%nat := with_relay rl (new_session 0 1 sample_asked sample_child)]> (y_sessions sample_started)) sample_started)
    < ssh_work sample_started.
Proof.
  split; [exact I|].
  assert (relay_step (ses_wait sample_child) (relay_session_to_channel sample_child) (set_out None (relay_session_to_channel sample_child))) as Hs
    by by eapply rs_out_stop.
  eexists. split; [exact Hs|].
  destruct (ssh_progress _ _ _ _ _ _ registry_new ∅ sample_started sample_startable sample_started_run 0 _ eq_refl I) as [_ H].
  exact (proj2 (H _ Hs)).
Defined.

Lemma ssh_sessions_unregistered_witness :
  ssh_held sample_started = [42%Z] ∧ NoDup (held (y_keeper sample_started) ++ ssh_held sample_started).
Proof.
  split; [reflexivity|].
  exact (proj1 (ssh_sessions_unregistered _ _ _ _ _ _ registry_new ∅ sample_started sample_startable sample_started_run)).
Defined.

(** A supervisor that reports the session's group. *)
Definition sample_reported : SshKeeper :=
  with_keeper (with_shutdown (Terminating registry_new [] [42%Z]) [(ByShutdown, (-42, SIGTERM)%Z)]
    (with_shutdown (Terminating registry_new [42%Z] [42%Z]) [] (y_keeper sample_started))) sample_started.

Lemma sample_reported_run :
  rtc (ssh_step [] (λ _, None) (Ok ("/p" : str)) (λ _ _ _, Ok sample_spawned) (λ _ _, true) (λ _ _ _ _, true)) sample_started sample_reported.
Proof.
  set (k0 := with_shutdown (Terminating registry_new [42%Z] [42%Z]) [] (y_keeper sample_started)).
  eapply rtc_l.
  - apply (ssh_keeper _ _ _ _ _ _ sample_started k0).
    + assert (targets registry_new [42%Z] = [42%Z]) as E by by vm_compute.
      pose proof (step_signal (y_keeper sample_started) true
        (Ok [{| st_name := "db"; st_health := Services.Running; st_pid := Some 42%Z |}]) eq_refl) as Hs.
      change (service_process_groups _ _) with [42%Z] in Hs. cbn [y_keeper with_keeper with_foreign system_new s_registry sample_started] in Hs.
      rewrite E in Hs. exact Hs.
    + intros p ->%list_elem_of_singleton. cbn. set_solver.
  - apply rtc_once. apply (ssh_keeper _ _ _ _ _ _ (with_keeper k0 sample_started)); [exact (step_term k0 registry_new 42%Z [] [42%Z] eq_refl)|].
    intros p ->%list_elem_of_singleton. cbn. set_solver.
Qed.

