(* ===== verification/Descriptors.v ===== *)
(** * Descriptors across processes, and the terminal
    ([src/lifecycle/up.rs], [src/proxy/mod.rs], [src/keeper/session.rs], [src/keeper/pty.rs], [src/exec.rs])

    Which descriptors a process starts with is decided by the close-on-exec flag
    of each one its parent holds.  The chain is modelled from the process that
    runs [up] over the egress proxy and the keeper to the child of a session:
    tables of descriptors, the calls that change the flag, the forks.  The last
    part is the terminal of a [shell]. *)

From S2P Require Import Prelude Protocol Session.

#[local] Set Default Proof Using "Type".

(** ** Tables of descriptors *)

Inductive Object :=
| ControlListener | SshListener        (* the sandbox's two sockets *)
| ProxyTcp | ProxyUnix                 (* the egress proxy's *)
| LogFile | NullDevice | Pipe | PtyMasterEnd | PtySlaveEnd
| Other (name : str).                  (* whatever else a process holds *)
#[export] Instance object_eq_dec : EqDecision Object.
Proof. solve_decision. Defined.

Definition FD_CLOEXEC : Z := 1.

(** A descriptor refers to an object and has flags. *)
Abbreviation Table := (gmap Z (Object * Z)).

Definition closes_on_exec (flags : Z) : bool := Z.testbit flags 0.

(** The least descriptor not in use. *)
Definition lowest (t : Table) : Z :=
  default (Z.of_nat (size t)) (find (λ fd, bool_decide (t !! fd = None)) (seqZ 0 (Z.of_nat (size t)))).

(** A call that creates a descriptor. *)
Definition open_fd (o : Object) (flags : Z) (t : Table) : Table * Z :=
  let fd := lowest t in (<[fd := (o, flags)]> t, fd).

(** What the standard library opens. *)
Definition open_std (o : Object) (t : Table) : Table * Z := open_fd o FD_CLOEXEC t.

(** [clear_cloexec] (up.rs) and [set_cloexec] (pty.rs): [F_GETFD], then [F_SETFD]. *)
Definition clear_cloexec (fd : Z) (t : Table) : result str Table :=
  match t !! fd with
  | None => Err ("EBADF" : str)
  | Some (o, flags) => Ok (<[fd := (o, Z.land flags (Z.lnot FD_CLOEXEC))]> t)
  end.
Definition set_cloexec (fd : Z) (t : Table) : result str Table :=
  match t !! fd with
  | None => Err ("EBADF" : str)
  | Some (o, flags) => Ok (<[fd := (o, Z.lor flags FD_CLOEXEC)]> t)
  end.

(** [execve]. *)
Definition exec_table (t : Table) : Table := filter (λ e, closes_on_exec e.2.2 = false) t.

(** The calls of a [pre_exec] closure that touch descriptors. *)
Definition pre_exec_step (t : Table) (c : PreExec) : Table :=
  match c with
  | Dup2 fd target =>
      if decide (fd = target) then t
      else match t !! fd with Some (o, _) => <[target := (o, 0%Z)]> t | None => t end
  | CloseFd fd => delete fd t
  | _ => t
  end.

(** [Command::spawn]: a fork, the three standard descriptors, the closure, the
    exec. *)
Definition spawn_child (stdin stdout stderr : Object) (pre : list PreExec) (t : Table) : Table :=
  exec_table (foldl pre_exec_step (<[2%Z := (stderr, 0%Z)]> (<[1%Z := (stdout, 0%Z)]> (<[0%Z := (stdin, 0%Z)]> t))) pre).

(** ** The process that runs [up] *)

(** [proxy::spawn]: its own table afterwards (both listeners stay open, they
    are forgotten) and that of the proxy. *)
Definition proxy_spawn_fds (t : Table) : result str (Table * Table) :=
  let '(t, tcp) := open_std ProxyTcp t in
  t ← clear_cloexec tcp t;
  let '(t, unix) := open_std ProxyUnix t in
  t ← clear_cloexec unix t;
  let '(t_log, _) := open_std LogFile t in
  Ok (t, spawn_child NullDevice LogFile LogFile [Setsid] t_log).

(** [up_process] and [spawn_keeper]: the same, with the two descriptors named
    in the keeper's arguments. *)
Definition keeper_spawn_fds (t : Table) : result str (Table * Table * Z * Z) :=
  let '(t, fd) := open_std ControlListener t in
  t ← clear_cloexec fd t;
  let '(t, ssh_fd) := open_std SshListener t in
  t ← clear_cloexec ssh_fd t;
  let '(t_log, _) := open_std LogFile t in
  Ok (t, spawn_child NullDevice LogFile LogFile [Setsid] t_log, fd, ssh_fd).

(** [up]: the proxy, when this [up] starts one, before the keeper. *)
Definition up_fds (starts_proxy : bool) (t : Table) : result str (Table * Z * Z) :=
  t ← (if starts_proxy then '(t, _) ← proxy_spawn_fds t; Ok t else Ok t);
  '(_, keeper, fd, ssh_fd) ← keeper_spawn_fds t;
  Ok (keeper, fd, ssh_fd).

(** ** The keeper *)

(** [spawn_piped]: the pipes are the standard library's. *)
Definition piped_child (req : SpawnRequest) (t : Table) : Table :=
  spawn_child Pipe Pipe Pipe (pre_exec (piped_command req)) t.

(** The child of [spawn_pty]. *)
Definition pty_child (req : SpawnRequest) (slave_fd : Z) (t : Table) : Table :=
  spawn_child NullDevice NullDevice NullDevice (pre_exec (pty_command req slave_fd)) t.

(** Where the thread of a session is in [spawn]: before it; in [open_pty],
    whose two descriptors are created without the flag and get it one after the
    other; cloning the master; past it. *)
Inductive SpawnPhase :=
| Starting
| Opened (master_fd slave_fd : Z)
| MasterSet (master_fd slave_fd : Z)
| BothSet (master_fd slave_fd : Z) (clones : nat)
| Past.

(** The descriptors the keeper holds while it runs, and its threads in
    [spawn]; one table for all of them. *)
Record KeeperFds := { kf_table : Table; kf_spawns : list (SpawnRequest * SpawnPhase) }.
Definition kf_new (t : Table) : KeeperFds := {| kf_table := t; kf_spawns := [] |}.

Definition owned (ph : SpawnPhase) : list Z :=
  match ph with Opened m s | MasterSet m s | BothSet m s _ => [m; s] | Starting | Past => [] end.

Definition set_phase (i : nat) (req : SpawnRequest) (ph : SpawnPhase) (t : Table) (k : KeeperFds) : KeeperFds :=
  {| kf_table := t; kf_spawns := <[i := (req, ph)]> (kf_spawns k) |}.

Section keeper_fds.
(** What the keeper started with. *)
Context (start : Table).

(** One call of one thread.  What the standard library opens (connections,
    pipes, clones) has the flag from the start; nobody closes what the keeper
    started with, or what a thread in [open_pty] holds. *)
Inductive kf_step (k : KeeperFds) : KeeperFds → Prop :=
| kf_open o : kf_step k {| kf_table := (open_std o (kf_table k)).1; kf_spawns := kf_spawns k |}
| kf_close fd :
    start !! fd = None → (∀ i req ph, kf_spawns k !! i = Some (req, ph) → fd ∉ owned ph) →
    kf_step k {| kf_table := delete fd (kf_table k); kf_spawns := kf_spawns k |}
| kf_begin req : kf_step k {| kf_table := kf_table k; kf_spawns := kf_spawns k ++ [(req, Starting)] |}
| kf_openpty i req size :
    kf_spawns k !! i = Some (req, Starting) → pty req = Some size →
    let '(t, master_fd) := open_fd PtyMasterEnd 0 (kf_table k) in
    let '(t, slave_fd) := open_fd PtySlaveEnd 0 t in
    kf_step k (set_phase i req (Opened master_fd slave_fd) t k)
| kf_set_master i req m s t :
    kf_spawns k !! i = Some (req, Opened m s) → set_cloexec m (kf_table k) = Ok t → kf_step k (set_phase i req (MasterSet m s) t k)
| kf_set_slave i req m s t :
    kf_spawns k !! i = Some (req, MasterSet m s) → set_cloexec s (kf_table k) = Ok t → kf_step k (set_phase i req (BothSet m s 0) t k)
| kf_clone i req m s n :
    kf_spawns k !! i = Some (req, BothSet m s n) → n < 2 →
    kf_step k (set_phase i req (BothSet m s (S n)) (open_std PtyMasterEnd (kf_table k)).1 k)
(* the child was started, or it could not be; the descriptors can be closed from here on *)
| kf_past i req ph :
    kf_spawns k !! i = Some (req, ph) → (match ph with Starting | BothSet _ _ _ => True | _ => False end) →
    kf_step k (set_phase i req Past (kf_table k) k).
End keeper_fds.

(** The child thread [i] starts now. *)
Definition session_child (k : KeeperFds) (i : nat) : option Table :=
  match kf_spawns k !! i with
  | Some (req, Starting) => match pty req with None => Some (piped_child req (kf_table k)) | Some _ => None end
  | Some (req, BothSet _ s n) => if (n =? 2)%nat then Some (pty_child req s (kf_table k)) else None
  | _ => None
  end.

(** A descriptor of a terminal that has no flag yet. *)
Definition in_window (ph : SpawnPhase) (fd : Z) (o : Object) : Prop :=
  match ph with
  | Opened m s => (fd = m ∧ o = PtyMasterEnd) ∨ (fd = s ∧ o = PtySlaveEnd)
  | MasterSet m s => fd = s ∧ o = PtySlaveEnd
  | _ => False
  end.

(** The table of a process begins with the three standard descriptors: the
    runtime of the language opens them when they are closed. *)
Definition has_stdio (t : Table) : Prop := is_Some (t !! 0%Z) ∧ is_Some (t !! 1%Z) ∧ is_Some (t !! 2%Z).

(** ** Lemmas: the flag *)

Lemma clear_cloexec_flag flags : closes_on_exec (Z.land flags (Z.lnot FD_CLOEXEC)) = false.
Proof. unfold closes_on_exec. rewrite Z.land_spec, Z.lnot_spec by lia. by rewrite andb_false_r. Qed.

Lemma set_cloexec_flag flags : closes_on_exec (Z.lor flags FD_CLOEXEC) = true.
Proof. unfold closes_on_exec. rewrite Z.lor_spec. by rewrite orb_true_r. Qed.

(** The other flags are left alone, and the two calls undo each other. *)
Lemma cloexec_other_flags flags n :
  (0 < n)%Z → Z.testbit (Z.land flags (Z.lnot FD_CLOEXEC)) n = Z.testbit flags n ∧
            Z.testbit (Z.lor flags FD_CLOEXEC) n = Z.testbit flags n.
Proof.
  intros Hn. rewrite Z.land_spec, Z.lnot_spec, Z.lor_spec by lia.
  assert (Z.testbit FD_CLOEXEC n = false) as ->; [|by rewrite andb_true_r, orb_false_r].
  apply Z.bits_above_log2; [done|]. simpl. lia.
Qed.

(** ** Lemmas: tables *)

Lemma lowest_fresh t : t !! lowest t = None ∧ (0 ≤ lowest t)%Z.
Proof.
  unfold lowest. destruct (find _ _) as [fd|] eqn:E; simpl.
  - apply find_some in E as [E2 E1]. apply bool_decide_eq_true in E1. apply elem_of_seqZ in E2. split; [done|lia].
  - split; [|lia]. destruct (t !! Z.of_nat (size t)) as [e|] eqn:El; [|done]. exfalso.
    assert (list_to_set (seqZ 0 (Z.of_nat (size t) + 1)) ⊆@{gset Z} dom t) as Hsub.
    { intros fd. rewrite elem_of_list_to_set, elem_of_seqZ, elem_of_dom. intros Hfd.
      destruct (decide (fd = Z.of_nat (size t))) as [->|Hne]; [by eexists|].
      pose proof (proj1 (find_none _ _) E fd) as Hf. rewrite elem_of_seqZ in Hf. specialize (Hf ltac:(lia)).
      apply bool_decide_eq_false in Hf. by apply not_eq_None_Some. }
    apply subseteq_size in Hsub. rewrite size_list_to_set, length_seqZ, size_dom in Hsub by apply NoDup_seqZ. lia.
Qed.

Lemma lowest_above t : has_stdio t → (2 < lowest t)%Z.
Proof.
  intros (H0 & H1 & H2). destruct (lowest_fresh t) as [Hn Hp].
  destruct (decide (lowest t = 0%Z)) as [E|]; [rewrite E in Hn; by rewrite Hn in H0; destruct H0|].
  destruct (decide (lowest t = 1%Z)) as [E|]; [rewrite E in Hn; by rewrite Hn in H1; destruct H1|].
  destruct (decide (lowest t = 2%Z)) as [E|]; [rewrite E in Hn; by rewrite Hn in H2; destruct H2|]. lia.
Qed.

Lemma has_stdio_insert t fd e : has_stdio t → has_stdio (<[fd := e]> t).
Proof.
  intros (H0 & H1 & H2). unfold has_stdio. rewrite !lookup_insert_is_Some'. auto.
Qed.

(** A listener that crosses the exec: opened, then its flag cleared. *)
Definition listen (o : Object) (t : Table) : Table := <[lowest t := (o, 0%Z)]> t.

Lemma open_clear o t : clear_cloexec (lowest t) (<[lowest t := (o, FD_CLOEXEC)]> t) = Ok (listen o t).
Proof. unfold clear_cloexec. rewrite lookup_insert_eq. unfold listen. by rewrite insert_insert_eq. Qed.

Lemma has_stdio_listen o t : has_stdio t → has_stdio (listen o t).
Proof. apply has_stdio_insert. Qed.

Lemma listen_self o t : listen o t !! lowest t = Some (o, 0%Z).
Proof. apply lookup_insert_eq. Qed.

Lemma listen_keeps o t fd e : t !! fd = Some e → listen o t !! fd = Some e.
Proof.
  intros E. unfold listen. rewrite lookup_insert_ne; [done|]. intros <-. by rewrite (proj1 (lowest_fresh t)) in E.
Qed.

Lemma listen_inv o t fd e : listen o t !! fd = Some e → e = (o, 0%Z) ∨ t !! fd = Some e.
Proof. unfold listen. intros [[_ <-]|[_ ?]]%lookup_insert_Some; auto. Qed.

Lemma proxy_spawn_fds_eq t :
  ∃ child, proxy_spawn_fds t = Ok (listen ProxyUnix (listen ProxyTcp t), child).
Proof.
  unfold proxy_spawn_fds, open_std, open_fd, mbind, result_bind. rewrite open_clear. cbn -[spawn_child]. rewrite open_clear.
  by eexists.
Qed.

Lemma keeper_spawn_fds_eq t :
  let t1 := listen ControlListener t in let t2 := listen SshListener t1 in
  keeper_spawn_fds t = Ok (t2, spawn_child NullDevice LogFile LogFile [Setsid] (open_std LogFile t2).1, lowest t, lowest t1).
Proof.
  unfold keeper_spawn_fds, open_std, open_fd, mbind, result_bind. rewrite open_clear. cbn -[spawn_child]. by rewrite open_clear.
Qed.

(** The calls before the exec leave a descriptor alone. *)
Definition untouched (fd : Z) (pre : list PreExec) : Prop :=
  Forall (λ c, match c with Dup2 _ target => target ≠ fd | CloseFd f => f ≠ fd | _ => True end) pre.

Lemma pre_exec_untouched fd pre t : untouched fd pre → foldl pre_exec_step t pre !! fd = t !! fd.
Proof.
  intros Hp. revert t. induction Hp as [|c pre Hc _ IH]; intros t; [done|]. cbn. rewrite IH.
  destruct c; cbn; try done; [|by apply lookup_delete_ne].
  case_decide; [done|]. destruct (t !! fd0) as [[]|]; [|done]. by apply lookup_insert_ne.
Qed.

(** Beyond the standard three, a child has what its parent had without the
    flag. *)
Lemma spawn_child_other a b c pre t fd o flags :
  (2 < fd)%Z → untouched fd pre →
  spawn_child a b c pre t !! fd = Some (o, flags) ↔ t !! fd = Some (o, flags) ∧ closes_on_exec flags = false.
Proof.
  intros Hfd Hp. unfold spawn_child, exec_table. rewrite map_lookup_filter_Some, pre_exec_untouched by done.
  by rewrite !lookup_insert_ne by lia.
Qed.

Lemma child_of_open a b c o t fd e :
  (2 < fd)%Z → spawn_child a b c [Setsid] (open_std o t).1 !! fd = Some e ↔ t !! fd = Some e ∧ closes_on_exec e.2 = false.
Proof.
  intros Hfd. destruct e as [o' flags]. rewrite spawn_child_other by (done || by repeat constructor).
  cbn. destruct (lowest_fresh t) as [Hn _]. split.
  - intros [[[<- [= <- <-]]|[_ E]]%lookup_insert_Some Hc]; [done|done].
  - intros [E Hc]. split; [|done]. rewrite lookup_insert_ne; [done|]. intros <-. by rewrite Hn in E.
Qed.

(** ** Lemmas: the keeper *)

Section keeper_inv.
Context (start : Table).

(** The two descriptors of a terminal, with their flags. *)
Definition pty_at (t : Table) (m s fm fs : Z) : Prop :=
  m ≠ s ∧ start !! m = None ∧ start !! s = None ∧ t !! m = Some (PtyMasterEnd, fm) ∧ t !! s = Some (PtySlaveEnd, fs).

Definition phase_ok (t : Table) (ph : SpawnPhase) : Prop :=
  match ph with
  | Starting | Past => True
  | Opened m s => pty_at t m s 0 0
  | MasterSet m s => pty_at t m s 1 0
  | BothSet m s _ => pty_at t m s 1 1
  end.

Record kf_inv (k : KeeperFds) : Prop := {
  ki_start fd e : start !! fd = Some e → kf_table k !! fd = Some e;
  ki_phase i req ph : kf_spawns k !! i = Some (req, ph) → phase_ok (kf_table k) ph;
  ki_owner i j req req' ph ph' fd :
    kf_spawns k !! i = Some (req, ph) → kf_spawns k !! j = Some (req', ph') → fd ∈ owned ph → fd ∈ owned ph' → i = j;
  ki_flag fd o flags :
    kf_table k !! fd = Some (o, flags) → start !! fd = None → closes_on_exec flags = false →
    flags = 0%Z ∧ ∃ i req ph, kf_spawns k !! i = Some (req, ph) ∧ in_window ph fd o;
}.

Lemma phase_table t t' ph : phase_ok t ph → (∀ fd, fd ∈ owned ph → t' !! fd = t !! fd) → phase_ok t' ph.
Proof.
  unfold phase_ok, pty_at. intros Hp Ht. destruct ph; try done; destruct Hp as (H1 & H2 & H3 & H4 & H5);
    (split; [done|]; split; [done|]; split; [done|]; split; (rewrite Ht; [done|cbn; set_solver])).
Qed.

Lemma owned_open k i req ph fd :
  kf_inv k → kf_spawns k !! i = Some (req, ph) → fd ∈ owned ph → is_Some (kf_table k !! fd) ∧ start !! fd = None.
Proof.
  intros Hk Hi Hfd. pose proof (ki_phase _ Hk _ _ _ Hi) as Hp. unfold phase_ok, pty_at in Hp.
  destruct ph; cbn in Hfd; try (by apply not_elem_of_nil in Hfd); destruct Hp as (_ & H2 & H3 & H4 & H5);
    apply elem_of_cons in Hfd as [->| ->%list_elem_of_singleton]; eauto.
Qed.

Lemma lookup_phase (l : list (SpawnRequest * SpawnPhase)) i j x y :
  <[i := x]> l !! j = Some y → (j = i ∧ y = x) ∨ (j ≠ i ∧ l !! j = Some y).
Proof.
  destruct (decide (j = i)) as [->|Hne]; [|rewrite list_lookup_insert_ne by done; auto].
  intros Hj. assert (i < length l) as Hl by (apply lookup_lt_Some in Hj; by rewrite length_insert in Hj).
  rewrite list_lookup_insert_eq in Hj by done. injection Hj as <-. auto.
Qed.

(** A descriptor that closes on exec is opened. *)
Lemma inv_open k o : kf_inv k → kf_inv {| kf_table := (open_std o (kf_table k)).1; kf_spawns := kf_spawns k |}.
Proof.
  intros Hk. destruct (lowest_fresh (kf_table k)) as [Hf _]. cbn.
  assert (∀ fd e, kf_table k !! fd = Some e → lowest (kf_table k) ≠ fd) as Hne by (intros fd e E <-; by rewrite Hf in E).
  split; cbn.
  - intros fd e E%(ki_start _ Hk). rewrite lookup_insert_ne; [done|]. by eapply Hne.
  - intros i req ph Hi. apply (phase_table (kf_table k)); [by eapply ki_phase|]. intros fd Hfd.
    destruct (owned_open k i req ph fd Hk Hi Hfd) as [[e E] _]. rewrite lookup_insert_ne; [done|]. by eapply Hne.
  - apply Hk.
  - intros fd o' flags [[<- [= <- <-]]|[_ E]]%lookup_insert_Some Hs Hc; [done|]. by apply (ki_flag _ Hk).
Qed.

Lemma inv_close k fd :
  kf_inv k → start !! fd = None → (∀ i req ph, kf_spawns k !! i = Some (req, ph) → fd ∉ owned ph) →
  kf_inv {| kf_table := delete fd (kf_table k); kf_spawns := kf_spawns k |}.
Proof.
  intros Hk Hs Ho. split; cbn.
  - intros fd' e E. rewrite lookup_delete_ne; [by apply (ki_start _ Hk)|]. intros <-. congruence.
  - intros i req ph Hi. apply (phase_table (kf_table k)); [by eapply ki_phase|]. intros fd' Hfd.
    rewrite lookup_delete_ne; [done|]. intros <-. by eapply Ho.
  - apply Hk.
  - intros fd' o flags [_ E]%lookup_delete_Some Hst Hc. by apply (ki_flag _ Hk).
Qed.

(** A thread moves on with the terminal it holds; the table changes there only. *)
Lemma inv_phase k i req ph ph' t :
  kf_inv k → kf_spawns k !! i = Some (req, ph) → phase_ok t ph' →
  (∀ fd, fd ∉ owned ph → fd ∉ owned ph' → kf_table k !! fd = t !! fd) →
  (∀ fd, fd ∈ owned ph' → fd ∈ owned ph ∨ kf_table k !! fd = None) →
  (∀ fd o flags, t !! fd = Some (o, flags) → fd ∈ owned ph ∨ fd ∈ owned ph' → closes_on_exec flags = false →
     flags = 0%Z ∧ in_window ph' fd o) →
  kf_inv (set_phase i req ph' t k).
Proof.
  intros Hk Hi Hp Hsame Ho Hf.
  assert (∀ fd, start !! fd ≠ None → fd ∉ owned ph ∧ fd ∉ owned ph') as Hst.
  { intros fd Hs. assert (fd ∉ owned ph) as Hn by (intros Hfd; by destruct (owned_open k i req ph fd Hk Hi Hfd)). split; [done|].
    intros Hfd. destruct (Ho fd Hfd) as [?|E]; [done|]. destruct (start !! fd) as [e|] eqn:Es; [|done]. apply (ki_start _ Hk) in Es. congruence. }
  assert (∀ j req' qh fd, j ≠ i → kf_spawns k !! j = Some (req', qh) → fd ∈ owned qh → fd ∉ owned ph ∧ fd ∉ owned ph') as Hothers.
  { intros j req' qh fd Hne Hj Hfd. assert (fd ∉ owned ph) as Hn by (intros Hfd'; apply Hne; by eapply (ki_owner _ Hk)). split; [done|].
    intros Hfd'. destruct (Ho fd Hfd') as [?|E]; [done|]. destruct (owned_open k j req' qh fd Hk Hj Hfd) as [[e Ee] _]. congruence. }
  split; cbn.
  - intros fd e E. destruct (Hst fd ltac:(by rewrite E)) as [H1 H2]. rewrite <- (Hsame fd H1 H2). by apply (ki_start _ Hk).
  - intros j req' qh [[-> [= -> ->]]|[Hne Hj]]%lookup_phase; [done|]. apply (phase_table (kf_table k)); [by eapply ki_phase|].
    intros fd Hfd. destruct (Hothers _ _ _ _ Hne Hj Hfd). symmetry. by apply Hsame.
  - intros a b ra rb qa qb fd [[-> [= -> ->]]|[Ha Ea]]%lookup_phase [[-> [= -> ->]]|[Hb Eb]]%lookup_phase H1 H2; try done.
    + by destruct (Hothers _ _ _ _ Hb Eb H2).
    + by destruct (Hothers _ _ _ _ Ha Ea H1).
    + by eapply (ki_owner _ Hk).
  - intros fd o flags E Hs Hc. assert (i < length (kf_spawns k)) as Hlt by by eapply lookup_lt_Some.
    destruct (decide (fd ∈ owned ph ∨ fd ∈ owned ph')) as [Hfd|Hfd].
    + destruct (Hf fd o flags E Hfd Hc) as [-> Hw]. split; [done|]. exists i, req, ph'. split; [|done]. by apply list_lookup_insert_eq.
    + rewrite <- Hsame in E by tauto. destruct (ki_flag _ Hk _ _ _ E Hs Hc) as [-> (j & req' & qh & Hj & Hw)]. split; [done|].
      exists j, req', qh. split; [|done]. rewrite list_lookup_insert_ne; [done|]. intros <-.
      rewrite Hi in Hj. injection Hj as <- <-. apply Hfd. left. destruct ph; cbn in *; set_solver.
Qed.

Lemma inv_openpty k i req :
  kf_inv k → kf_spawns k !! i = Some (req, Starting) →
  let m := lowest (kf_table k) in let t := <[m := (PtyMasterEnd, 0%Z)]> (kf_table k) in let s := lowest t in
  kf_inv (set_phase i req (Opened m s) (<[s := (PtySlaveEnd, 0%Z)]> t) k).
Proof.
  intros Hk Hi m t s. destruct (lowest_fresh (kf_table k)) as [Hm _]. destruct (lowest_fresh t) as [Hs _]. fold m in Hm. fold s in Hs.
  assert (m ≠ s) as Hne by (intros E; rewrite <- E in Hs; unfold t in Hs; by rewrite lookup_insert_eq in Hs).
  assert (kf_table k !! s = None) as Hks by (unfold t in Hs; by rewrite lookup_insert_ne in Hs).
  assert (∀ fd, kf_table k !! fd = None → start !! fd = None) as Hstart.
  { intros fd E. destruct (start !! fd) as [e|] eqn:Es; [|done]. apply (ki_start _ Hk) in Es. congruence. }
  apply (inv_phase k i req Starting); try done.
  - split; [done|]. split; [by apply Hstart|]. split; [by apply Hstart|]. unfold t.
    by rewrite lookup_insert_ne, !lookup_insert_eq by done.
  - intros fd _ Hfd. cbn in Hfd. unfold t. rewrite !lookup_insert_ne by (intros <-; set_solver). done.
  - intros fd Hfd. cbn in Hfd. right. apply elem_of_cons in Hfd as [->| ->%list_elem_of_singleton]; done.
  - unfold t. intros fd o flags E [Hfd|Hfd] _; [by apply not_elem_of_nil in Hfd|]. cbn in Hfd.
    apply elem_of_cons in Hfd as [->| ->%list_elem_of_singleton].
    + rewrite lookup_insert_ne, lookup_insert_eq in E by done. injection E as <- <-. cbn. auto.
    + rewrite lookup_insert_eq in E. injection E as <- <-. cbn. auto.
Qed.

Lemma inv_set_master k i req m s t :
  kf_inv k → kf_spawns k !! i = Some (req, Opened m s) → set_cloexec m (kf_table k) = Ok t → kf_inv (set_phase i req (MasterSet m s) t k).
Proof.
  intros Hk Hi Ht. pose proof (ki_phase _ Hk _ _ _ Hi) as (Hne & Hm & Hs & Em & Es). unfold set_cloexec in Ht. rewrite Em in Ht. injection Ht as <-.
  apply (inv_phase k i req (Opened m s)); try done.
  - split; [done|]. do 2 (split; [done|]). by rewrite lookup_insert_eq, lookup_insert_ne.
  - intros fd Hfd _. cbn in Hfd. rewrite lookup_insert_ne by (intros <-; set_solver). done.
  - intros fd Hfd. by left.
  - intros fd o flags E Hfd Hc. destruct (decide (fd = m)) as [->|Hn].
    { rewrite lookup_insert_eq in E. injection E as <- <-. done. }
    assert (fd = s) as -> by (cbn in Hfd; set_solver). rewrite lookup_insert_ne, Es in E by done. by injection E as <- <-.
Qed.

Lemma inv_set_slave k i req m s t :
  kf_inv k → kf_spawns k !! i = Some (req, MasterSet m s) → set_cloexec s (kf_table k) = Ok t → kf_inv (set_phase i req (BothSet m s 0) t k).
Proof.
  intros Hk Hi Ht. pose proof (ki_phase _ Hk _ _ _ Hi) as (Hne & Hm & Hs & Em & Es). unfold set_cloexec in Ht. rewrite Es in Ht. injection Ht as <-.
  apply (inv_phase k i req (MasterSet m s)); try done.
  - split; [done|]. do 2 (split; [done|]). by rewrite lookup_insert_eq, lookup_insert_ne.
  - intros fd Hfd _. cbn in Hfd. rewrite lookup_insert_ne by (intros <-; set_solver). done.
  - intros fd Hfd. by left.
  - intros fd o flags E Hfd Hc. destruct (decide (fd = s)) as [->|Hn].
    { rewrite lookup_insert_eq in E. injection E as <- <-. done. }
    assert (fd = m) as -> by (cbn in Hfd; set_solver). rewrite lookup_insert_ne, Em in E by done. by injection E as <- <-.
Qed.

(** A thread that holds nothing unflagged moves on. *)
Lemma inv_settled k i req ph ph' :
  kf_inv k → kf_spawns k !! i = Some (req, ph) → (∀ fd o, ¬ in_window ph fd o) →
  ph' = Past ∨ (∃ m s n n', ph = BothSet m s n ∧ ph' = BothSet m s n') → kf_inv (set_phase i req ph' (kf_table k) k).
Proof.
  intros Hk Hi Hw Hph. pose proof (ki_phase _ Hk _ _ _ Hi) as Hp.
  assert (∀ fd, fd ∈ owned ph' → fd ∈ owned ph) as Hsub by (intros fd; destruct Hph as [->|(? & ? & ? & ? & -> & ->)]; [by intros ?%not_elem_of_nil|done]).
  apply (inv_phase k i req ph); try done.
  - destruct Hph as [->|(? & ? & ? & ? & -> & ->)]; done.
  - intros fd Hfd. left. by apply Hsub.
  - intros fd o flags E Hfd Hc. assert (fd ∈ owned ph) as Hin by (destruct Hfd; [done|by apply Hsub]). clear Hfd. exfalso.
    destruct ph as [|m s|m s|m s n|]; cbn in Hin; try (by apply not_elem_of_nil in Hin).
    + by apply (Hw m PtyMasterEnd); left.
    + by apply (Hw s PtySlaveEnd).
    + destruct Hp as (_ & _ & _ & Em & Es). apply elem_of_cons in Hin as [->| ->%list_elem_of_singleton]; simplify_eq.
Qed.

Lemma kf_step_inv k k' : kf_step start k k' → kf_inv k → kf_inv k'.
Proof.
  intros Hs Hk. destruct Hs as [o|fd Hn Ho|req|i req size Hi Hp|i req m s t Hi Ht|i req m s t Hi Ht|i req m s n Hi Hn|i req ph Hi Hph].
  - by apply inv_open.
  - by apply inv_close.
  - split; try apply Hk; cbn.
    + intros i rq ph [Hi|[_ Hi]]%lookup_app_Some; [by eapply (ki_phase _ Hk)|]. by apply list_lookup_singleton_Some in Hi as [_ [= <- <-]].
    + intros i j rq rq' ph ph' fd [Hi|[_ Hi]]%lookup_app_Some [Hj|[_ Hj]]%lookup_app_Some H1 H2; [by eapply (ki_owner _ Hk)|..];
        try (apply list_lookup_singleton_Some in Hi as [_ [= <- <-]]; by apply not_elem_of_nil in H1);
        apply list_lookup_singleton_Some in Hj as [_ [= <- <-]]; by apply not_elem_of_nil in H2.
    + intros fd o flags E Hst Hc. destruct (ki_flag _ Hk _ _ _ E Hst Hc) as [-> (i & rq & ph & Hi & Hw)]. split; [done|].
      exists i, rq, ph. split; [by apply lookup_app_l_Some|done].
  - by apply inv_openpty.
  - by eapply inv_set_master.
  - by eapply inv_set_slave.
  - change (kf_inv (set_phase i req (BothSet m s (S n)) (kf_table {| kf_table := (open_std PtyMasterEnd (kf_table k)).1; kf_spawns := kf_spawns k |})
      {| kf_table := (open_std PtyMasterEnd (kf_table k)).1; kf_spawns := kf_spawns k |})).
    apply (inv_settled _ i req (BothSet m s n)); [by apply inv_open|done|by intros fd o []|right; by exists m, s, n, (S n)].
  - apply (inv_settled k i req ph); [done|done|by intros fd o Hw; destruct ph|by left].
Qed.

Lemma kf_reach_inv k : rtc (kf_step start) (kf_new start) k → kf_inv k.
Proof.
  intros Hr. assert (kf_inv (kf_new start)) as H0.
  { split; cbn; try done. intros fd o flags E Hs. congruence. }
  refine (rtc_ind_r (R := kf_step start) kf_inv (kf_new start) H0 _ k Hr). intros k1 k2 _ Hs. by apply kf_step_inv.
Qed.

Lemma pty_untouched req slave_fd fd : (2 < fd)%Z → fd ≠ slave_fd → untouched fd (pre_exec (pty_command req slave_fd)).
Proof.
  intros Hfd Hne. unfold untouched. cbn. repeat (constructor; [lia || done|]).
  case_match; repeat constructor; congruence.
Qed.

(** What a child takes from the keeper's table. *)
Lemma session_child_table k i c fd o flags :
  kf_inv k → session_child k i = Some c → (2 < fd)%Z →
  c !! fd = Some (o, flags) ↔ kf_table k !! fd = Some (o, flags) ∧ closes_on_exec flags = false.
Proof.
  intros Hk Hc Hfd. unfold session_child in Hc. destruct (kf_spawns k !! i) as [[req ph]|] eqn:Hi; [|done].
  destruct ph as [|m s|m s|m s n|]; try done.
  - destruct (pty req); [done|]. injection Hc as <-. apply spawn_child_other; [done|]. by repeat constructor.
  - destruct (n =? 2)%nat; [|done]. injection Hc as <-. destruct (decide (fd = s)) as [->|Hne]; [|by apply spawn_child_other; [|apply pty_untouched]].
    destruct (ki_phase _ Hk _ _ _ Hi) as (_ & _ & _ & _ & ->). split; [|by intros [[= <- <-] ?]].
    unfold pty_child, spawn_child, exec_table. rewrite map_lookup_filter_Some. intros [E _]. cbn in E.
    destruct (Z.ltb_spec 2 s); [|lia]. cbn in E. by rewrite lookup_delete_eq in E.
Qed.

(** The descriptors a child inherits beyond the standard three: what the
    keeper itself inherited, and what another thread is opening just then. *)
Lemma session_child_other k i c fd o flags :
  rtc (kf_step start) (kf_new start) k → session_child k i = Some c → (2 < fd)%Z →
  c !! fd = Some (o, flags) ↔
    (start !! fd = Some (o, flags) ∧ closes_on_exec flags = false) ∨
    (flags = 0%Z ∧ ∃ j req ph, j ≠ i ∧ kf_spawns k !! j = Some (req, ph) ∧ in_window ph fd o).
Proof.
  intros Hr Hc Hfd. pose proof (kf_reach_inv _ Hr) as Hk. rewrite (session_child_table _ _ _ _ _ _ Hk Hc Hfd). split.
  - intros [E Hcl]. destruct (start !! fd) as [e|] eqn:Es; [left; apply (ki_start _ Hk) in Es; by simplify_eq|right].
    destruct (ki_flag _ Hk _ _ _ E Es Hcl) as [-> (j & req & ph & Hj & Hw)]. split; [done|]. exists j, req, ph. split; [|done].
    intros ->. unfold session_child in Hc. rewrite Hj in Hc. by destruct ph.
  - intros [[E Hcl]|[-> (j & req & ph & _ & Hj & Hw)]]; [split; [by apply (ki_start _ Hk)|done]|]. split; [|done].
    pose proof (ki_phase _ Hk _ _ _ Hj) as Hp. destruct ph; cbn in Hw; try done; destruct Hp as (_ & _ & _ & Em & Es); naive_solver.
Qed.
End keeper_inv.
(** The listeners the process of [up] leaves open for the keeper. *)
Definition passed_on (starts_proxy : bool) (t : Table) : Table :=
  listen SshListener (listen ControlListener (if starts_proxy then listen ProxyUnix (listen ProxyTcp t) else t)).

Lemma up_fds_eq (starts_proxy : bool) t :
  let t0 := if starts_proxy then listen ProxyUnix (listen ProxyTcp t) else t in
  up_fds starts_proxy t =
    Ok (spawn_child NullDevice LogFile LogFile [Setsid] (open_std LogFile (passed_on starts_proxy t)).1,
        lowest t0, lowest (listen ControlListener t0)).
Proof.
  unfold up_fds, passed_on. destruct starts_proxy.
  - destruct (proxy_spawn_fds_eq t) as [child ->]. unfold mbind, result_bind. by rewrite keeper_spawn_fds_eq.
  - unfold mbind, result_bind. by rewrite keeper_spawn_fds_eq.
Qed.

(** ** Terminals *)

(** [pty::resize] and the size [open_pty] starts with: rows, columns, no pixels. *)
Record Winsize := { ws_row : N; ws_col : N; ws_xpixel : N; ws_ypixel : N }.
Definition winsize (size : PtySize) : Winsize := {| ws_row := rows size; ws_col := cols size; ws_xpixel := 0; ws_ypixel := 0 |}.
Definition resize (ioctl : Winsize → bool) (size : PtySize) : result str unit :=
  if ioctl (winsize size) then Ok tt else Err ("TIOCSWINSZ" : str).

Section raw_mode.
(** The settings of a terminal, [cfmakeraw] on them, and what the terminal on
    standard input answers: whether there is one, its settings, whether it
    takes new ones. *)
Context {termios : Type} (cfmakeraw : termios → termios) (isatty tcgetattr_ok : bool) (tcsetattr_ok : termios → bool).

Definition tcsetattr (new now : termios) : termios := if tcsetattr_ok new then new else now.

(** [RawModeGuard::enable]: the guard's [original] and the terminal's settings. *)
Definition raw_mode_enable (now : termios) : option termios * termios :=
  if negb isatty || negb tcgetattr_ok then (None, now) else (Some now, tcsetattr (cfmakeraw now) now).

(** [drop]. *)
Definition raw_mode_drop (original : option termios) (now : termios) : termios :=
  match original with Some t => tcsetattr t now | None => now end.

(** [shell] around a session: the settings during it and afterwards, whatever
    the session's result.  Nothing is set when no session started. *)
Definition shell_terminal {E A : Type} (connected : result E unit) (session : result E A) (now : termios) : option termios * termios :=
  match connected with
  | Err _ => (None, now)
  | Ok _ =>
      let '(original, during) := raw_mode_enable now in
      (Some during, raw_mode_drop original during)
  end.
End raw_mode.

(** ** Properties *)

(** C15: what the child of a session starts with.  Whatever [up] was started with,
    whatever the keeper and its other threads have done since it started, and
    whenever the child is started, beyond its standard three descriptors it
    holds: the listener of the keeper's control socket and that of its SSH
    socket; the two listeners of the egress proxy, when the [up] that started
    the keeper started it too; what the process of [up] itself inherited; and
    the terminal of every other session that is just being opened, between
    [openpty] and the call that sets its flag.  Nothing else the keeper opened
    reaches it. *)
Theorem session_descriptors (starts_proxy : bool) t (Hstd : has_stdio t) :
  ∃ keeper fd ssh_fd, up_fds starts_proxy t = Ok (keeper, fd, ssh_fd) ∧
    ∀ k i c, rtc (kf_step keeper) (kf_new keeper) k → session_child k i = Some c →
      c !! fd = Some (ControlListener, 0%Z) ∧ c !! ssh_fd = Some (SshListener, 0%Z) ∧
      (starts_proxy = true → ∃ tcp unix, c !! tcp = Some (ProxyTcp, 0%Z) ∧ c !! unix = Some (ProxyUnix, 0%Z)) ∧
      (∀ j req ph n o, j ≠ i → kf_spawns k !! j = Some (req, ph) → in_window ph n o → (2 < n)%Z → c !! n = Some (o, 0%Z)) ∧
      ∀ n o flags, (2 < n)%Z → c !! n = Some (o, flags) →
        o = ControlListener ∨ o = SshListener ∨ (starts_proxy = true ∧ (o = ProxyTcp ∨ o = ProxyUnix)) ∨
        (t !! n = Some (o, flags) ∧ closes_on_exec flags = false) ∨
        ∃ j req ph, j ≠ i ∧ kf_spawns k !! j = Some (req, ph) ∧ in_window ph n o.
Proof.
  pose proof (up_fds_eq starts_proxy t) as Hup. cbv zeta in Hup.
  set (t0 := if starts_proxy then _ else _) in Hup. eexists _, _, _. split; [exact Hup|]. intros k i c Hr Hc.
  pose proof (λ n o flags, session_child_other _ k i c n o flags Hr Hc) as Hin.
  assert (has_stdio t0) as Ht0 by (unfold t0; destruct starts_proxy; [by do 2 apply has_stdio_listen|done]).
  assert (∀ n o flags, (2 < n)%Z → passed_on starts_proxy t !! n = Some (o, flags) → closes_on_exec flags = false → c !! n = Some (o, flags)) as Hpass.
  { intros n o flags Hn E Hf. apply (Hin n o flags Hn). left. rewrite (child_of_open _ _ _ _ _ _ _ Hn). done. }
  split; [|split; [|split; [|split]]].
  - apply Hpass; [by apply lowest_above| |done]. apply listen_keeps, listen_self.
  - apply Hpass; [by apply lowest_above, has_stdio_listen| |done]. apply listen_self.
  - intros ->. exists (lowest t), (lowest (listen ProxyTcp t)).
    split; (apply Hpass; [apply lowest_above; try done; by apply has_stdio_listen| |done]).
    + do 3 apply listen_keeps. apply listen_self.
    + do 2 apply listen_keeps. apply listen_self.
  - intros j req ph n o Hne Hj Hw Hn. apply (Hin n o 0%Z Hn). right. split; [done|]. by exists j, req, ph.
  - intros n o flags Hn Hcn. apply (Hin n o flags Hn) in Hcn as [Hcn|[_ Hw]]; [|by do 4 right].
    rewrite (child_of_open _ _ _ _ _ _ _ Hn) in Hcn. destruct Hcn as [[Hcn Hfl] _]. cbn in Hfl.
    unfold passed_on in Hcn. do 2 (apply listen_inv in Hcn as [Hcn|Hcn]; [injection Hcn as -> ->; by auto|]).
    destruct starts_proxy; [|right; right; right; by left].
    do 2 (apply listen_inv in Hcn as [Hcn|Hcn]; [injection Hcn as -> ->; right; right; left; split; [done|by auto]|]).
    right; right; right; by left.
Qed.

(** An ordinary shell's table, a keeper that serves a connection, a command. *)
Definition sample_table : Table :=
  {[ 0%Z := (Other "tty", 0%Z); 1%Z := (Other "tty", 0%Z); 2%Z := (Other "tty", 0%Z); 7%Z := (Other "editor", 1%Z) ]}.

Definition sample_session_request : SpawnRequest :=
  {| cmd := "sh"; args := []; cwd := "/p"; req_env := ∅; pty := Some {| rows := 24; cols := 80 |} |}.
Definition sample_command_request : SpawnRequest := {| cmd := "ls"; args := []; cwd := "/p"; req_env := ∅; pty := None |}.

Definition sample_keeper : Table := match up_fds true sample_table with Ok (keeper, _, _) => keeper | Err _ => ∅ end.

(** A keeper that opens the terminal of one session while it starts a command
    for another. *)
Definition sample_opened : KeeperFds :=
  let '(t, m) := open_fd PtyMasterEnd 0 sample_keeper in
  let '(t, s) := open_fd PtySlaveEnd 0 t in
  {| kf_table := t; kf_spawns := [(sample_session_request, Opened m s); (sample_command_request, Starting)] |}.

Lemma sample_opened_run : rtc (kf_step sample_keeper) (kf_new sample_keeper) sample_opened.
Proof.
  eapply rtc_l; [by apply (kf_begin _ _ sample_session_request)|]. eapply rtc_l; [by apply (kf_begin _ _ sample_command_request)|].
  apply rtc_once. exact (kf_openpty sample_keeper
    {| kf_table := sample_keeper; kf_spawns := [(sample_session_request, Starting); (sample_command_request, Starting)] |} 0
    sample_session_request {| rows := 24; cols := 80 |} eq_refl eq_refl).
Qed.

(** The command holds both ends of the other session's terminal. *)
Lemma terminal_inherited :
  ∃ c, session_child sample_opened 1 = Some c ∧
    (λ n, fst <$> c !! n) <$> seqZ 0 9 =
    [Some Pipe; Some Pipe; Some Pipe; Some ProxyTcp; Some ProxyUnix; Some ControlListener; Some SshListener;
     Some PtyMasterEnd; Some PtySlaveEnd].
Proof. eexists. split; [reflexivity|]. by vm_compute. Qed.

Lemma session_descriptors_witness :
  has_stdio sample_table ∧ ∃ c fd, session_child sample_opened 1 = Some c ∧ c !! fd = Some (ControlListener, 0%Z).
Proof.
  assert (has_stdio sample_table) as Hstd by (split; [|split]; by eexists).
  split; [exact Hstd|].
  destruct (session_descriptors true sample_table Hstd) as (keeper & fd & ssh_fd & E & H).
  assert (keeper = sample_keeper) as -> by (unfold sample_keeper; by rewrite E).
  destruct terminal_inherited as (c & Hc & _). exists c, fd. split; [exact Hc|].
  exact (proj1 (H sample_opened 1%nat c sample_opened_run Hc)).
Defined.

(** The terminal of a [shell] is as it was found whatever came of the session,
    when it accepts its own settings back; during the session it is raw; and a
    standard input that is no terminal, or a session that never started, leaves
    it untouched. *)
Lemma terminal_restored {termios E A : Type} (cfmakeraw : termios → termios) isatty get_ok set_ok
    (connected : result E unit) (session : result E A) now :
  set_ok now = true →
  let '(during, after) := shell_terminal cfmakeraw isatty get_ok set_ok connected session now in
  after = now ∧
  (during = None ↔ is_ok connected = false) ∧
  (∀ d, during = Some d → d = if isatty && get_ok && set_ok (cfmakeraw now) then cfmakeraw now else now).
Proof.
  intros Hset. unfold shell_terminal, raw_mode_enable, raw_mode_drop, tcsetattr.
  destruct connected; [|by split_and!]. destruct isatty, get_ok; simpl; rewrite ?Hset; split_and!; try done; by intros d [= <-].
Qed.
