(* ===== verification/KeeperLog.v ===== *)
(** * The keeper's log ([src/keeper/connection.rs])

    The records a keeper writes to its standard error, which [up] connects to the
    sandbox's log file: one when a session is registered, one when its child is
    gone.  A record quotes the command a client asked for, so the client chooses
    part of its text.  The same file takes what the keeper prints and, from
    [up], the output of the hooks as it comes ([lifecycle/hooks.rs]). *)

From S2P Require Import Prelude Paths Manifest Protocol Registry Capture Connection Hooks Tunnel.

#[local] Set Default Proof Using "Type".

(** ** [log_timestamp]

    What [gmtime_r] fills in. *)
Record Tm := { tm_year : Z; tm_mon : Z; tm_mday : Z; tm_hour : Z; tm_min : Z; tm_sec : Z }.

(** [{:02}] and [{:04}]: zeros between the sign and the digits. *)
Definition pad_zero (width : nat) (z : Z) : str :=
  let digits := show_N (Z.to_N (Z.abs z)) in
  if (z <? 0)%Z then "-"%char :: replicate (width - 1 - length digits) "0"%char ++ digits
  else replicate (width - length digits) "0"%char ++ digits.

Definition log_timestamp (tm : Tm) : str :=
  pad_zero 4 (tm_year tm + 1900) ++ "-" ++ pad_zero 2 (tm_mon tm + 1) ++ "-" ++ pad_zero 2 (tm_mday tm)
  ++ "T" ++ pad_zero 2 (tm_hour tm) ++ ":" ++ pad_zero 2 (tm_min tm) ++ ":" ++ pad_zero 2 (tm_sec tm) ++ "Z".

(** ** [{:?}]

    Of a string: quoted, its characters escaped.  [plain] is the Unicode data of
    the standard library: which characters beyond ASCII stand for themselves. *)
Definition hex_width (c : char) : nat := N.to_nat (N.log2 (N.lor c 1) / 4) + 1.

Section debug.
Context (plain : char → bool).

Definition escape_debug (c : char) : list char :=
  (if c =? 0 then [92; 48]
   else if c =? 9 then [92; 116]
   else if c =? 13 then [92; 114]
   else if c =? 10 then [92; 110]
   else if c =? 92 then [92; 92]
   else if c =? 34 then [92; 34]
   else if (if c <? 128 then in_range 32 126 c else plain c) then [c]
   else [92; 117; 123] ++ (byte <$> hex_digits (hex_width c) c) ++ [125])%N.

Definition debug_str (s : str) : str := of_chars (34%N :: mjoin (escape_debug <$> chars s) ++ [34%N]).

Definition debug_option (o : option Z) : str :=
  match o with Some z => "Some(" ++ show_Z z ++ ")" | None => "None" end.

(** ** The records *)
Inductive LogRecord :=
| SpawnRecord (session : N) (pgid : Z) (command : str)
| ExitRecord (session : N) (status : ExitStatus).

Definition show_record (time : str) (r : LogRecord) : str :=
  match r with
  | SpawnRecord id pgid command =>
      time ++ " spawn session=" ++ show_N id ++ " pgid=" ++ show_Z pgid ++ " command=" ++ debug_str command
  | ExitRecord id st =>
      time ++ " exit session=" ++ show_N id ++ " code=" ++ debug_option (exit_code st)
      ++ " signal=" ++ debug_option (exit_signal st)
  end.

(** [log_record]: one [write_all] to a file opened for appending; [written] is
    how much of it the kernel took before it failed. *)
Definition log_record (written : nat) (log line : str) : str := log ++ take written (line ++ [NL]).

(** What the threads of one connection log: the spawn once the session is
    registered, the exit once it is not. *)
Definition spawn_logged (s : Session) (req : SpawnRequest) (id : N) : LogRecord :=
  SpawnRecord id (ses_pgid s) (describe req).
Definition exit_logged (c : Conn) : list LogRecord :=
  match c_waiter c, c_status c with
  | (WSend | WDone), Some st => [ExitRecord (c_id c) st]
  | _, _ => []
  end.
Definition conn_log (req : SpawnRequest) (c : Conn) : list LogRecord :=
  spawn_logged (c_session c) req (c_id c) :: exit_logged c.

(** The writes of a log: records, each whole, and between them the lines
    others write. *)
Inductive LogWrite := WRecord (tm : Tm) (r : LogRecord) | WLines (others : list str).

Definition line_of (tm : Tm) (r : LogRecord) : str := show_record (log_timestamp tm) r.

Definition write_log (log : str) (w : LogWrite) : str :=
  match w with
  | WRecord tm r => log_record (S (length (line_of tm r))) log (line_of tm r)
  | WLines others => log ++ mjoin ((λ l, l ++ [NL]) <$> others)
  end.
Definition log_file (ws : list LogWrite) : str := foldl write_log [] ws.

Definition record_of (w : LogWrite) : option LogRecord := match w with WRecord _ r => Some r | WLines _ => None end.
Definition lines_of (w : LogWrite) : list str := match w with WRecord tm r => [line_of tm r] | WLines others => others end.

(** ** Escaping is a code: each character's escape ends where the next begins *)

Lemma hex_digit_spec n : (n < 16)%N → ∃ b, byte (hex_digit n) = b ∧ (48 ≤ b ≤ 57 ∨ 97 ≤ b ≤ 102)%N.
Proof.
  intros Hn. eexists. split; [done|]. unfold hex_digit. destruct (N.ltb_spec n 10); rewrite byte_of_N by lia; lia.
Qed.

Lemma hex_digits_range k n : Forall (λ b, (48 ≤ b ≤ 57 ∨ 97 ≤ b ≤ 102)%N) (byte <$> hex_digits k n).
Proof.
  revert n. induction k as [|k IH]; intros n; cbn [hex_digits]; [constructor|]. rewrite fmap_app. apply Forall_app. split; [apply IH|].
  constructor; [|constructor]. destruct (hex_digit_spec (n mod 16)) as (b & -> & Hb); [by apply N.mod_lt|exact Hb].
Qed.

Lemma hex_width_bound c : (c < 16 ^ N.of_nat (hex_width c))%N.
Proof.
  unfold hex_width. rewrite Nat2N.inj_add, N2Nat.id. set (l := N.log2 (N.lor c 1)).
  assert (c < 2 ^ N.succ l)%N as Hc.
  { destruct (decide (c = 0)%N) as [->|Hn]; [by vm_compute|]. eapply N.lt_le_trans; [apply N.log2_spec; lia|].
    apply N.pow_le_mono_r; [done|]. apply N.succ_le_mono. rewrite <- N.succ_le_mono. unfold l. rewrite N.log2_lor. lia. }
  eapply N.lt_le_trans; [exact Hc|]. change 16%N with (2 ^ 4)%N. rewrite <- N.pow_mul_r. apply N.pow_le_mono_r; [done|].
  pose proof (N.div_mod l 4 ltac:(done)). pose proof (N.mod_lt l 4 ltac:(done)). lia.
Qed.

(** What a short escape stands for. *)
Definition unescaped (x : char) : option char :=
  list_to_map (M := gmap char char) [(48, 0); (116, 9); (114, 13); (110, 10); (92, 92); (34, 34)]%N !! x.

Lemma escape_cases c :
  (escape_debug c = [c] ∧ c ∉ [10; 34; 92]%N) ∨
  (∃ x, escape_debug c = [92; x]%N ∧ unescaped x = Some c ∧ x ∉ [10; 117]%N) ∨
  escape_debug c = [92; 117; 123]%N ++ (byte <$> hex_digits (hex_width c) c) ++ [125]%N.
Proof.
  unfold escape_debug. repeat match goal with
  | |- context [if (c =? ?k)%N then _ else _] => destruct (N.eqb_spec c k) as [->|]; [right; left; eexists; split; [done|]; split; [done|by apply (bool_decide_unpack _); vm_compute]|]
  end.
  destruct (if (c <? 128)%N then _ else _); [left; split; [done|set_solver]|by right; right].
Qed.

Lemma hex_inj c c' : hex_digits (hex_width c) c = hex_digits (hex_width c') c' → c = c'.
Proof.
  intros E. pose proof (f_equal length E) as Hl. rewrite !length_hex in Hl.
  pose proof (hex_width_bound c) as Hc. pose proof (hex_width_bound c') as Hc'. rewrite <- Hl in *. by eapply hex_digits_inj.
Qed.

Lemma hex_no_brace k n : (125 : char)%N ∉ (byte <$> hex_digits k n).
Proof. intros Hin. pose proof (hex_digits_range k n) as Hr. rewrite Forall_forall in Hr. apply Hr in Hin. lia. Qed.

Lemma escape_inj c c' t t' : escape_debug c ++ t = escape_debug c' ++ t' → c = c' ∧ t = t'.
Proof.
  destruct (escape_cases c) as [[-> Hc]|[(x & -> & Hx & Hn)| ->]],
           (escape_cases c') as [[-> Hc']|[(x' & -> & Hx' & Hn')| ->]]; cbn [app]; intros E; simplify_eq; try done;
    try (exfalso; set_solver).
  rewrite <- !app_assoc in E. apply sep_inj in E as [E ->]; [|apply hex_no_brace..]. split; [|done].
  apply hex_inj. revert E. apply list_fmap_eq_inj. exact byte_inj.
Qed.

Lemma escapes_inj cs cs' t t' :
  mjoin (escape_debug <$> cs) ++ 34%N :: t = mjoin (escape_debug <$> cs') ++ 34%N :: t' → cs = cs' ∧ t = t'.
Proof.
  assert (∀ c r r', escape_debug c ++ r ≠ 34%N :: r') as Hq.
  { intros c r r'. destruct (escape_cases c) as [[-> Hc]|[(x & -> & _)| ->]]; cbn; intros [=]. set_solver. }
  revert cs'. induction cs as [|c cs IH]; intros [|c' cs'] E; cbn in E.
  - by simplify_eq.
  - symmetry in E. rewrite <- app_assoc in E. by apply Hq in E.
  - rewrite <- app_assoc in E. by apply Hq in E.
  - rewrite <- !app_assoc in E. apply escape_inj in E as [-> E]. by apply IH in E as [-> ->].
Qed.

(** Escaped text has no newline, and its characters are characters. *)
Lemma escape_no_nl c : 10%N ∉ escape_debug c.
Proof.
  destruct (escape_cases c) as [[-> Hc]|[(x & -> & _ & Hn)| ->]]; [set_solver|set_solver|].
  rewrite !elem_of_app. intros [Hin|[Hin|Hin]]; [set_solver| |set_solver].
  pose proof (hex_digits_range (hex_width c) c) as Hr. rewrite Forall_forall in Hr. apply Hr in Hin. lia.
Qed.

Lemma escape_scalar c : scalar c → Forall scalar (escape_debug c).
Proof.
  intros Hc. destruct (escape_cases c) as [[-> _]|[(x & -> & Hx & _)| ->]].
  - by constructor.
  - constructor; [by left|constructor; [|constructor]]. unfold unescaped in Hx.
    apply elem_of_list_to_map_2 in Hx. rewrite !elem_of_cons, elem_of_nil in Hx. left. destruct_or! Hx; try done; by injection Hx as -> ->.
  - rewrite !Forall_app. split_and!; [repeat (constructor; [left; lia|]); constructor| |repeat (constructor; [left; lia|]); constructor].
    eapply Forall_impl; [apply hex_digits_range|]. intros b Hb. cbn in Hb. left. lia.
Qed.

Lemma quoted_scalar l : Forall scalar l → Forall scalar (34%N :: mjoin (escape_debug <$> l) ++ [34%N]).
Proof.
  intros Hl. constructor; [left; lia|]. apply Forall_app. split; [|constructor; [left; lia|constructor]].
  induction Hl as [|c l Hc _ IH]; cbn; [constructor|]. apply Forall_app. split; [by apply escape_scalar|exact IH].
Qed.

Lemma debug_str_inj s s' : Forall scalar (chars s) → Forall scalar (chars s') → debug_str s = debug_str s' → chars s = chars s'.
Proof.
  intros Hs Hs' E. apply (f_equal chars) in E. unfold debug_str in E. rewrite !chars_of_chars in E by by apply quoted_scalar.
  injection E as E. by apply escapes_inj in E as [-> _].
Qed.

Lemma debug_str_no_nl s : Forall scalar (chars s) → NL ∉ debug_str s.
Proof.
  intros Hs Hin. apply of_chars_ascii_byte in Hin; [|done|].
  - change (byte NL) with 10%N in Hin. rewrite elem_of_cons, elem_of_app, list_elem_of_singleton in Hin.
    destruct Hin as [?|[Hin|?]]; [done| |done]. apply list_elem_of_join in Hin as (x & Hx & Hin).
    apply list_elem_of_fmap in Hin as (c & -> & _). by apply escape_no_nl in Hx.
  - eapply Forall_impl; [by apply quoted_scalar|]. unfold scalar. intros c Hc. lia.
Qed.

(** ** The records of a log *)

Definition command_of (r : LogRecord) : str := match r with SpawnRecord _ _ command => command | ExitRecord _ _ => [] end.

(** A [String] of the program: what its characters encode to. *)
Definition text (s : str) : Prop := Forall scalar (chars s) ∧ of_chars (chars s) = s.

Lemma pad_zero_chars w z c : c ∈ pad_zero w z → c = "-"%char ∨ is_ascii_digit c = true.
Proof.
  assert (∀ n c, c ∈ show_N n → is_ascii_digit c = true) as Hd.
  { intros n d. pose proof (show_N_digits n) as Hs. rewrite Forall_forall in Hs. apply Hs. }
  assert (∀ k n c, c ∈ replicate k "0"%char ++ show_N n → is_ascii_digit c = true) as Hz.
  { intros k n d [[-> _]%elem_of_replicate|?%Hd]%elem_of_app; done. }
  unfold pad_zero. destruct (z <? 0)%Z; [|intros ?%Hz; by right].
  intros [->|?%Hz]%elem_of_cons; [by left|by right].
Qed.

(** The separators of a record do not occur in its timestamp. *)
Lemma log_timestamp_not_in tm c :
  is_ascii_digit c = false → c ∉ ("-T:Z" : str) → c ∉ log_timestamp tm.
Proof.
  intros Hd Hn. unfold log_timestamp. rewrite !elem_of_app.
  assert (∀ w z, c ∉ pad_zero w z) as Hp.
  { intros w z [->|Hc]%pad_zero_chars; [by destruct Hn; left|congruence]. }
  intros Hin. destruct_or! Hin; try (by eapply Hp); apply list_elem_of_singleton in Hin as ->;
    apply Hn; by apply (bool_decide_unpack _); vm_compute.
Qed.

Lemma debug_option_not_in o c : is_ascii_digit c = false → c ∉ ("-Some()None" : str) → c ∉ debug_option o.
Proof.
  intros Hd Hn. destruct o as [z|]; cbn [debug_option]; [|set_solver].
  rewrite !elem_of_app. intros Hin. assert (c ≠ "-"%char) as Hm by set_solver. destruct_or! Hin; [set_solver| |set_solver].
  by apply show_Z_not_in in Hin.
Qed.

Lemma debug_option_inj o o' : debug_option o = debug_option o' → o = o'.
Proof.
  destruct o as [z|], o' as [z'|]; cbn [debug_option]; try done. intros E. apply app_inv_head, app_inv_tail in E.
  by apply show_Z_inj in E as ->.
Qed.

(** A record is read off its line. *)
Lemma show_record_inj tm tm' r r' :
  text (command_of r) → text (command_of r') →
  show_record (log_timestamp tm) r = show_record (log_timestamp tm') r' → r = r'.
Proof.
  intros Hr Hr'. assert (∀ t, " "%char ∉ log_timestamp t) as Ht.
  { intros t. apply log_timestamp_not_in; [done|]. by apply (bool_decide_unpack _); vm_compute. }
  assert (∀ n, " "%char ∉ show_N n) as Hn by (intros n; by apply show_N_not_in).
  assert (∀ z, " "%char ∉ show_Z z) as Hz by (intros z; by apply show_Z_not_in).
  assert (∀ o, " "%char ∉ debug_option o) as Ho.
  { intros o. apply debug_option_not_in; [done|]. by apply (bool_decide_unpack _); vm_compute. }
  destruct r as [id pgid command|id st], r' as [id' pgid' command'|id' st']; cbn [show_record command_of app] in *; intros E;
    (apply sep_inj in E as [_ E]; [|apply Ht..]); try discriminate E.
  - injection E as E. apply sep_inj in E as [->%show_N_inj E]; [|apply Hn..]. injection E as E.
    apply sep_inj in E as [->%show_Z_inj E]; [|apply Hz..]. apply (app_inv_head ("command=" : str)) in E. apply debug_str_inj in E; [|apply Hr|apply Hr'].
    f_equal. destruct Hr as [_ <-], Hr' as [_ <-]. by rewrite E.
  - injection E as E. apply sep_inj in E as [->%show_N_inj E]; [|apply Hn..]. injection E as E.
    apply sep_inj in E as [Ec%debug_option_inj E]; [|apply Ho..]. apply (app_inv_head ("signal=" : str)) in E. apply debug_option_inj in E.
    destruct st, st'; cbn in *; by subst.
Qed.

Lemma show_record_no_nl tm r : text (command_of r) → NL ∉ show_record (log_timestamp tm) r.
Proof.
  intros Hr. assert (NL ∉ log_timestamp tm) as Ht.
  { apply log_timestamp_not_in; [done|]. by apply (bool_decide_unpack _); vm_compute. }
  assert (∀ o, NL ∉ debug_option o) as Ho.
  { intros o. apply debug_option_not_in; [done|]. by apply (bool_decide_unpack _); vm_compute. }
  destruct r as [id pgid command|id st]; cbn [show_record command_of] in *; rewrite !elem_of_app; intros Hin;
    destruct_or! Hin; try done; try (by apply show_N_not_in in Hin); try (by apply show_Z_not_in in Hin);
    try (by apply Ho in Hin); try (by apply debug_str_no_nl in Hin; [|apply Hr]);
    revert Hin; by apply (bool_decide_unpack _); vm_compute.
Qed.

(** A line that reads as a record. *)
Definition record_shaped (l : str) : Prop := ∃ tm r, text (command_of r) ∧ l = line_of tm r.

(** Writes no one forges: commands are strings of the program, and no line
    written by another reads as a record. *)
Definition honest (w : LogWrite) : Prop :=
  match w with
  | WRecord _ r => text (command_of r)
  | WLines others => Forall (λ l, NL ∉ l ∧ ¬ record_shaped l) others
  end.

Lemma write_log_app log w : write_log log w = log ++ mjoin ((λ l, l ++ [NL]) <$> lines_of w).
Proof.
  destruct w as [tm r|others]; [|done]. cbn. unfold log_record. rewrite app_nil_r. f_equal. apply take_ge. rewrite length_app. cbn. lia.
Qed.

Lemma write_all_lines log ws : foldl write_log log ws = log ++ mjoin ((λ l, l ++ [NL]) <$> mjoin (lines_of <$> ws)).
Proof.
  revert log. induction ws as [|w ws IH]; intros log; [by rewrite app_nil_r|]. cbn [foldl]. rewrite IH, write_log_app. cbn [fmap list_fmap].
  change (mjoin (lines_of w :: (lines_of <$> ws))) with (lines_of w ++ mjoin (lines_of <$> ws)).
  by rewrite fmap_app, join_app, app_assoc.
Qed.

Lemma log_file_lines ws : log_file ws = mjoin ((λ l, l ++ [NL]) <$> mjoin (lines_of <$> ws)).
Proof. apply write_all_lines. Qed.

Lemma split_lines ls : Forall (λ l, NL ∉ l) ls → split_on NL (mjoin ((λ l, l ++ [NL]) <$> ls)) = ls ++ [[]].
Proof.
  induction 1 as [|l ls Hl _ IH]; [done|].
  change (mjoin _) with ((l ++ [NL]) ++ mjoin ((λ l, l ++ [NL]) <$> ls)). rewrite <- app_assoc. cbn [app].
  by rewrite split_on_app, split_on_plain, IH by done.
Qed.

Lemma honest_no_nl ws : Forall honest ws → Forall (λ l, NL ∉ l) (mjoin (lines_of <$> ws)).
Proof.
  intros Hw. rewrite Forall_forall. intros l (ls & Hl & (w & -> & Hin)%list_elem_of_fmap)%list_elem_of_join.
  rewrite Forall_forall in Hw. specialize (Hw w Hin). destruct w as [tm r|others]; cbn in *.
  - apply list_elem_of_singleton in Hl as ->. by apply show_record_no_nl.
  - rewrite Forall_forall in Hw. by apply Hw.
Qed.

(** What a line is: the record it reads as, or none. *)
Definition reads_as (l : str) (o : option LogRecord) : Prop :=
  match o with Some r => text (command_of r) ∧ ∃ tm, l = line_of tm r | None => ¬ record_shaped l end.

Lemma reads_as_unique l o o' : reads_as l o → reads_as l o' → o = o'.
Proof.
  destruct o as [r|], o' as [r'|]; cbn; [|intros [Hr [tm ->]] Hn; destruct Hn; by exists tm, r|intros Hn [Hr [tm ->]]; destruct Hn; by exists tm, r'|done].
  intros [Hr [tm ->]] [Hr' [tm' E]]. apply show_record_inj in E; [by subst|done..].
Qed.

Lemma reads_as_all ls os os' : Forall2 reads_as ls os → Forall2 reads_as ls os' → os = os'.
Proof.
  intros H. revert os'. induction H as [|l o ls os Ho _ IH]; intros os' H'; inversion_clear H'; [done|].
  f_equal; [by eapply reads_as_unique|by apply IH].
Qed.

Lemma honest_reads ws :
  Forall honest ws → ∃ os, Forall2 reads_as (mjoin (lines_of <$> ws)) os ∧ omap id os = omap record_of ws.
Proof.
  induction 1 as [|w ws Hw _ (os & H & E)]; [by exists []|]. destruct w as [tm r|others]; cbn in Hw |- *.
  - exists (Some r :: os). split; [constructor; [split; [done|by exists tm]|done]|]. cbn. by rewrite E.
  - exists (replicate (length others) None ++ os). split.
    + apply Forall2_app; [|done]. clear -Hw. induction Hw as [|l ls [_ Hl] _ IH]; cbn; by constructor.
    + clear -E. induction (length others); cbn; [done|]. done.
Qed.

(** C22: no command a client asks for can end its record, add another or pass
    for one of another session.  Whatever bytes others append, a record that
    starts on a line of its own is exactly that line.  And where the others
    write whole lines none of which reads as a record, the lines of the file
    are the records and those lines in the order written, and two such files
    with the same text have the same records. *)
Theorem log_unforgeable :
  (∀ before tm r after, text (command_of r) → (before = [] ∨ ∃ b, before = b ++ [NL]) →
     let log := log_record (S (length (line_of tm r))) before (line_of tm r) in
     split_on NL (log ++ after) = removelast (split_on NL before) ++ line_of tm r :: split_on NL after) ∧
  (∀ ws, Forall honest ws → split_on NL (log_file ws) = mjoin (lines_of <$> ws) ++ [[]]) ∧
  ∀ ws ws', Forall honest ws → Forall honest ws' → log_file ws = log_file ws' → omap record_of ws = omap record_of ws'.
Proof.
  split; [|split].
  - intros before tm r after Hr Hb log.
    assert (log = before ++ line_of tm r ++ [NL]) as ->.
    { unfold log, log_record. f_equal. apply take_ge. rewrite length_app. cbn. lia. }
    rewrite <- !app_assoc. cbn [app]. pose proof (show_record_no_nl tm r Hr) as Hn. fold (line_of tm r) in Hn.
    destruct Hb as [->|[b ->]]; cbn [app]; [by rewrite split_on_app, split_on_plain by done|].
    rewrite <- !app_assoc. cbn [app]. rewrite !split_on_app, (split_on_plain NL (line_of tm r)) by done. cbn [split_on app].
    by rewrite removelast_last.
  - intros ws Hw. rewrite log_file_lines. apply split_lines. by apply honest_no_nl.
  - intros ws ws' Hw Hw' E. apply (f_equal (split_on NL)) in E. rewrite !log_file_lines, !split_lines in E by by apply honest_no_nl.
    apply app_inv_tail in E. destruct (honest_reads _ Hw) as (os & H & <-), (honest_reads _ Hw') as (os' & H' & <-).
    rewrite E in H. by rewrite (reads_as_all _ _ _ H H').
Qed.

(** A line that does not start as a time does reads as no record: those the
    keeper prints of itself, and the one that heads the output of a hook. *)
Lemma other_lines (c : ascii) l : c ≠ "-"%char → is_ascii_digit c = false → ¬ record_shaped (c :: l).
Proof.
  intros Hm Hd (tm & r & _ & E).
  assert (∃ l', line_of tm r = pad_zero 4 (tm_year tm + 1900) ++ "-"%char :: l') as [l' El].
  { unfold line_of, log_timestamp. destruct r; eexists; cbn [show_record]; rewrite <- app_assoc; reflexivity. }
  rewrite El in E. destruct (pad_zero 4 (tm_year tm + 1900)) as [|x p] eqn:Ep; [by injection E as -> _|].
  injection E as -> _. destruct (pad_zero_chars 4 (tm_year tm + 1900) x) as [?|?]; [rewrite Ep; by left|done|congruence].
Qed.

(** What [up] appends of a hook's output is not kept apart from the records: a
    hook that prints a record's line leaves the file a keeper that logged the
    record would leave. *)
Lemma hook_output_forges keeper project_root st tm r :
  let say := line_of tm r ++ [NL] in
  keeper (length (hs_runs st)) (hook_request project_root "x") =
    {| ha_connect := Ok tt; ha_write := Ok tt; ha_frames := [FSpawnOk 1; FStdout say; FExit {| exit_code := Some 0%Z; exit_signal := None |}];
       ha_end := UnexpectedEof; ha_open_log := Ok tt |} →
  hs_log st = [] →
  hs_log (run_one keeper "post_start" "x" project_root st).2 = log_file [WLines ["[hook post_start] $ x" : str]; WRecord tm r].
Proof.
  intros say Hk Hl. unfold run_one. rewrite Hk. cbn [ha_connect ha_write ha_frames ha_open_log ha_end hook_output]. rewrite Hl.
  rewrite log_file_lines. cbn. by rewrite !app_nil_r.
Qed.
End debug.

(** ** The records of a session *)

(** In every reachable state of a connection the log has its session's spawn
    record, and its exit record exactly when the session has left the registry;
    the record tells the status the child was waited for with. *)
Theorem session_logged id reg now s req input c :
  registry_wf reg → (1 ≤ id ≤ next_id reg)%N → rtc step (start_session id reg now s req input) c →
  conn_log req c =
    SpawnRecord (id) (ses_pgid s) (describe req) ::
    (if contains_me c then [] else [ExitRecord (id) (to_exit_status (ses_wait s))]).
Proof.
  intros Hwf Hn Hr. pose proof (reach_inv _ _ Hr (start_inv id reg now s req input Hwf Hn)) as Hi.
  destruct (reach_fixed _ _ Hr) as [Hid Hs]. unfold conn_log, spawn_logged, exit_logged. rewrite (inv_contains _ Hi), Hid, Hs.
  pose proof (inv_status _ Hi) as Hst. rewrite Hs in Hst. change (c_id (start_session id reg now s req input)) with (id).
  change (c_session (start_session id reg now s req input)) with s in *.
  f_equal. destruct (c_waiter c); try done; by rewrite (Hst eq_refl).
Qed.

(** ** Sample records *)

Definition sample_tm : Tm := {| tm_year := 126; tm_mon := 0; tm_mday := 9; tm_hour := 8; tm_min := 7; tm_sec := 6 |}.

(** A command that tries to end its record and add another. *)
Definition sample_command : str := ("sh -c 'x" ++ DOUBLE_QUOTE ++ [NL] ++ "2026-01-09T08:07:06Z exit session=1 code=Some(0) signal=None")%list.
Definition sample_log : list LogWrite :=
  [WRecord sample_tm (SpawnRecord 1 42 sample_command); WLines ["devcroft: ssh: server exited: broken" : str];
   WRecord sample_tm (ExitRecord 1 {| exit_code := None; exit_signal := Some 15%Z |})].

Lemma sample_text : text sample_command ∧ text [].
Proof.
  split; (split; [|by vm_compute]); [|constructor].
  assert (Forall (λ c, (c < 0xD800)%N) (chars sample_command)) as Hc by (apply (bool_decide_unpack _); by vm_compute).
  eapply Forall_impl; [exact Hc|]. intros c Hlt. by left.
Qed.

Lemma log_unforgeable_witness :
  split_on NL (log_file (λ _, false) sample_log) =
    [("2026-01-09T08:07:06Z spawn session=1 pgid=42 command=" ++ DOUBLE_QUOTE ++ "sh -c 'x\" ++ DOUBLE_QUOTE
      ++ "\n2026-01-09T08:07:06Z exit session=1 code=Some(0) signal=None" ++ DOUBLE_QUOTE)%list;
     ("devcroft: ssh: server exited: broken" : str);
     ("2026-01-09T08:07:06Z exit session=1 code=None signal=Some(15)" : str); []].
Proof.
  assert (Forall (honest (λ _, false)) sample_log) as Ht.
  { destruct sample_text as [H1 H2]. constructor; [exact H1|]. constructor; [|constructor; [exact H2|constructor]].
    constructor; [|constructor]. split; [by apply (bool_decide_unpack _); vm_compute|]. by apply other_lines. }
  rewrite (proj1 (proj2 (log_unforgeable (λ _, false))) sample_log Ht). by vm_compute.
Defined.

Lemma session_logged_witness :
  ∃ c, c_sent c = sample_conversation ∧
    conn_log sample_request c =
      [SpawnRecord 1 42 (describe sample_request); ExitRecord 1 {| exit_code := Some 0%Z; exit_signal := None |}].
Proof.
  destruct sample_run as (c & Hr & Hs & _). exists c. split; [exact Hs|].
  pose proof (reach_inv _ _ Hr (start_inv 1 (registry_number registry_new).1 0 sample_session sample_request [FSignal Int] sample_registry_wf ltac:(by vm_compute))) as [_ _ Hc _ _ _ _ _ _ _ (outs & tail & Hv)].
  rewrite (session_logged 1 (registry_number registry_new).1 0 sample_session sample_request [FSignal Int] c sample_registry_wf ltac:(by vm_compute) Hr).
  assert (contains_me c = false) as ->; [|reflexivity].
  rewrite Hc. destruct (conv_tail _ _ _ Hv) as [->|[-> _]]; [|done]. exfalso.
  pose proof (conv_sent _ _ _ Hv) as E. rewrite Hs, app_nil_r in E. injection E as _ <-.
  pose proof (conv_outs _ _ _ Hv) as Ho. by inversion_clear Ho as [|?? _ Ho']; inversion_clear Ho'.
Defined.
