(* ===== verification/Messages.v ===== *)
(** * What users read ([impl Display] of the error types, [src/bin/devcroft.rs])

    The texts of the errors and warnings as functions of their values, what
    [up] prints in which order, the advice of [init], the usage text, and the
    list of known sandboxes.  Texts of the operating system and of third-party
    crates come with the values that carry them. *)

From S2P Require Import Prelude Paths ProviderKind Manifest Validate Config Policy Capability Protocol State Exec Hooks World SshKeys Up Status Terminate KeeperLog.
From S2P Require Import Services Capture Flox Nix Devbox Providers SshConfig Init Cli.

#[local] Set Default Proof Using "Type".

Definition BACKTICK : str := ["096"%char].
Definition code (s : str) : str := BACKTICK ++ s ++ BACKTICK.

(** ** Errors *)

(** [provider/mod.rs]. *)
Definition show_provider_error (e : ProviderError) : str :=
  match e with
  | OutOfScope name reason => "provider " ++ code name ++ " is out of scope: " ++ reason
  | VersionManager name reason => "provider " ++ code name ++ " is not supported: " ++ reason
  | NotYetSupported name reason => "provider " ++ code name ++ " is not yet supported: " ++ reason
  | Unknown name => "unknown provider " ++ code name ++ "; devcroft supports `flox`, `nix`, and `devbox` in this release"
  | MissingBinary provider hint => code provider ++ " is not installed or not on PATH; run " ++ code hint
  | NoEnvironment provider hint => "no " ++ provider ++ " environment found in this project; run " ++ code hint
  | MissingLock provider hint => "no lockfile found for the " ++ provider ++ " environment; run " ++ code hint
  | ResolutionFailed msg => "provider resolution failed: " ++ msg
  end.

(** [config/mod.rs]. *)
Definition show_config_error (e : ConfigError) : str :=
  match e with
  | Manifest.NotFound => "no devcroft.toml found in this directory or its ancestors; run `devcroft init`"
  | Io e => "reading manifest: " ++ e
  | Parse e => "invalid TOML: " ++ e
  | UnknownKey path suggestion =>
      "unknown key " ++ code path ++ match suggestion with Some s => "; did you mean " ++ code s ++ "?" | None => [] end
  | MissingName => "`[sandbox].name` is required"
  | InvalidName name suggestion => "invalid sandbox name " ++ code name ++ ": must match [a-z0-9][a-z0-9-]{0,31}; try " ++ code suggestion
  | InvalidPath field value => "invalid path in `filesystem." ++ field ++ "`: " ++ code value
  | UselessDeny path => "`filesystem.deny` entry " ++ code path ++ " is never granted by `allow` or `read`"
  | InvalidProvider e => show_provider_error e
  | RemovedIsolationTier name =>
      "`[sandbox].isolation = " ++ DOUBLE_QUOTE ++ name ++ DOUBLE_QUOTE ++ "` names a tier devcroft no longer provides; the supported tier is "
      ++ code ISOLATION_TIER ++ ". For a boundary stronger than the process tier, run devcroft inside a VM — that is the supported path, and is already how the macOS path works"
  | InvalidIsolationTier name =>
      "`[sandbox].isolation = " ++ DOUBLE_QUOTE ++ name ++ DOUBLE_QUOTE ++ "` is not a known isolation tier; the supported tier is " ++ code ISOLATION_TIER
  end.

Definition show_warning (w : Warning) : str :=
  match w with
  | SensitivePath field path => "`filesystem." ++ field ++ "` grants " ++ code path ++ ", a known credential directory"
  | NoInterpolation => "`[env] vars` values are literal strings; host environment variables are not interpolated"
  end.

(** [policy/capability_set.rs]; the last is nono's [Backend]. *)
Definition show_capability_error (e : CapabilitySetError) : str :=
  match e with
  | DenyOverlapsAllow deny allow =>
      "'" ++ deny ++ "' is denied but falls inside the broader grant '" ++ allow
      ++ "' — Landlock cannot enforce a deny nested inside an allow; narrow the allow, remove the deny, or restructure the manifest so they don't overlap"
  | SymlinkEscapesProjectRoot value canonical_target =>
      "'" ++ value ++ "' resolves outside the project root once symlinks are followed (real target: " ++ canonical_target
      ++ ") — a project-relative grant must stay inside the project; if this path outside the project is genuinely intended, grant it directly with an absolute path or a `~/...` form instead"
  | Canonicalize value source => "resolving the real path of '" ++ value ++ "': " ++ source
  | Backend e => e
  | UnreachableSignalMode mode => mode
  end.

Section texts.
(** The text of an [io::Error]: of the system's, of a frame that did not read, of
    the failure to read a manifest. *)
Context (os_text : str → str) (read_text : io_error → str) (unreadable : str → str).

Definition show_io (e : state_error) : str :=
  match e with
  | NotFoundHome => "HOME is not set"
  | InvalidInput name => "'" ++ name ++ "' is not a valid sandbox name ([a-z0-9][a-z0-9-]{0,31})"
  | IoFailure e | BadData e => os_text e
  end.

(** [ssh/keys.rs], [lifecycle/hooks.rs], [exec.rs], [ssh/proxy.rs],
    [lifecycle/status.rs], [lifecycle/terminate.rs]. *)
Definition show_key_error (e : KeyError) : str :=
  match e with KeyIo e => show_io e | KeyFormat e => e end.

Definition show_hook_error (e : HookError) : str :=
  match e with
  | HookConnect e => "connecting to keeper: " ++ e
  | HookProtocol e => "protocol error: " ++ read_text e
  | Failed name detail => "hook " ++ code name ++ " failed: " ++ detail
  end.

Definition show_exec_error (e : ExecError) : str :=
  match e with
  | Exec.NotRunning => "sandbox is not up; run `devcroft up` first"
  | Connect e => "connecting to keeper: " ++ show_io e
  | SpawnErr msg => "keeper refused to spawn: " ++ msg
  | ProtocolErr e => "keeper protocol error: " ++ read_text e
  end.

Definition show_proxy_error (e : ProxyError) : str :=
  match e with
  | NotRunning => "sandbox is not up; run `devcroft up` first"
  | ProxyConnect e => "connecting to keeper: " ++ show_io e
  end.

Definition show_status_error (e : StatusError) : str :=
  match e with StatusState e => "state: " ++ show_io e | StatusKeeper e => "keeper: " ++ show_io e end.

Definition show_terminate_error (e : TerminateError) : str :=
  match e with TermState e => "state: " ++ show_io e end.

(** What [up] puts in [UpError::Keeper]. *)
Definition keeper_message (e : KeeperFailure) : str :=
  match e with
  | ProxyStart e => "starting egress proxy: " ++ show_io e
  | SpawnFailed e => show_io e
  | Unresponsive => "keeper did not become responsive: timed out waiting for the keeper's control socket to accept connections"
  | HookFailed e => show_hook_error e
  end.

(** [lifecycle/up.rs]. *)
Definition show_up_error (e : UpError) : str :=
  match e with
  | UpState e => "state: " ++ show_io e
  | UpPolicy e => "config: " ++ show_capability_error e
  | UpConfig msg => "config: " ++ msg
  | UpProvider e => "provider: " ++ show_provider_error e
  | UpBackend msg => "backend: " ++ msg
  | UpKeeper e => "keeper: " ++ keeper_message e
  | UpSsh e => "ssh: " ++ show_key_error e
  end.

(** ** Discovery *)

Definition known_sandboxes_suffix (ps : result state_error (list SandboxSummary)) : str :=
  match ps with
  | Ok sandboxes =>
      if negb (bool_decide (sandboxes = [])) then " Known sandboxes: " ++ join ", " (sum_name <$> sandboxes) ++ "." else []
  | Err _ => []
  end.

Definition show_discover_error (ps : result state_error (list SandboxSummary)) (e : DiscoverError) : str :=
  match e with
  | NoManifest => "no devcroft.toml found in this directory or its ancestors; pass a sandbox name explicitly." ++ known_sandboxes_suffix ps
  | Unreadable path => "reading " ++ path ++ ": " ++ unreadable path
  | Unparsable path e => path ++ ": " ++ show_config_error e
  end.

(** ** What [up] prints: the lines on standard output and on standard error, in
    order, and the exit code *)

Inductive stream := Out (line : str) | Error (line : str).

Definition print_manifest_warnings (r : result DiscoverError (Manifest * str * list Warning)) : list stream :=
  match r with
  | Ok (_, _, warnings) => (λ w, Error ("devcroft: warning: " ++ show_warning w)) <$> warnings
  | Err _ => []
  end.

Definition print_degraded_capabilities (os : Os) (m : Manifest) : list stream :=
  (λ d, Error ("devcroft: warning: " ++ show_degraded d)) <$> detect os (compile os m).

Definition outcome_text (o : UpOutcome) : str :=
  match o with
  | AlreadyUp => "already up"
  | Recovered => "recovered from stale state"
  | Started => "started"
  | Recreated => "recreated"
  end.

(** [warn_if_activation_hook_ran]. *)
Definition hook_warning (m : Manifest) : str :=
  "devcroft: warning: provider '" ++ provider (m_env m)
  ++ "' ran this project's activation hook on the host while resolving the environment — outside the sandbox, with your own network and filesystem access. devcroft cannot capture this provider's environment without running it. Treat `devcroft up` on a repository you have not read as running its code.".

(** [cli_up] from the call of [up] on: what it returned and whether the hook
    warning is due. *)
Definition report_up (m : Manifest) (ran : result UpError UpOutcome) (hook_ran : bool) : list stream * Z :=
  let name := sandbox_name (m_sandbox m) in
  match ran with
  | Ok outcome =>
      (Out ("devcroft: sandbox '" ++ name ++ "' is " ++ outcome_text outcome ++ ".")
       :: (if hook_ran then [Error (hook_warning m)] else []), 0%Z)
  | Err e => ([Error ("devcroft up: " ++ show_up_error e)], up_exit_code e)
  end.
End texts.

Definition print_explanation (e : Explanation) : list str := [if allowed e then "ALLOWED" : str else "DENIED"; detail e].

Section commands.
Context `{Host} `{Provider} `{Codec} {caps : Type} `{CapBuilder caps}.
Context (os_text : str → str) (read_text : io_error → str) (unreadable : str → str).
Context (parse_table : str → result str (list (str * toml))) (try_into : list (str * toml) → result str RawManifest)
        (current_dir : result str str) (stdout_is_tty : bool) (ps : result state_error (list SandboxSummary)).

Abbreviation discovered := (discover_manifest_with_warnings parse_table try_into).

(** [resolve_manifest_strict]: the manifest, or the line printed. *)
Definition resolve_strict_text (cmd : str) (f : fs) (name_arg : option str) (cwd : str) : result str Manifest :=
  match discovered f cwd with
  | Ok (manifest, _, _) =>
      let found := sandbox_name (m_sandbox manifest) in
      match name_arg with
      | Some name =>
          if bool_decide (found = name) then Ok manifest
          else Err ("devcroft " ++ cmd ++ ": the manifest discovered from this directory is for sandbox '" ++ found ++ "', not '" ++ name
                    ++ "'; run from within " ++ name ++ "'s own project directory")
      | None => Ok manifest
      end
  | Err e => Err ("devcroft " ++ cmd ++ ": " ++ show_discover_error unreadable ps e)
  end.

Definition UP_USAGE : str := "devcroft up: usage: devcroft up [name] [--recreate] [--yes] [--skip-hooks]".

(** The lines [up] wrote to standard error on the way. *)
Definition notes_of (before after : World) : list stream :=
  omap (λ ev, match ev with EvNote line => Some (Error line) | _ => None end) (drop (length (w_events before)) (w_events after)).

(** [cli_up]: everything it prints, and the exit code. *)
Definition up_output (args : list str) (w : World) : list stream * Z :=
  let f := w_fs w in
  match single_name (without UP_FLAGS args) with
  | Err code => ([Error UP_USAGE], code)
  | Ok name =>
      match current_dir with
      | Err e => ([Error ("devcroft up: cannot determine current directory: " ++ e)], 1%Z)
      | Ok cwd =>
          match resolve_strict_text "up" f name cwd with
          | Err line => ([Error line], 2%Z)
          | Ok m =>
              let warnings := print_manifest_warnings (discovered f cwd) ++ print_degraded_capabilities h_os m in
              let root := match find_manifest f cwd with Some p => abs_path (removelast p) | None => cwd end in
              let recreate := has_flag RECREATE args in
              if recreate && negb (has_flag YES args) && negb stdout_is_tty then
                (warnings ++ [Error "devcroft up: --recreate is destructive; pass --yes to run non-interactively"], 2%Z)
              else
                let '(ran, w') := up m root {| recreate := recreate; skip_hooks := has_flag SKIP_HOOKS args |} w in
                let '(lines, code) := report_up os_text read_text m ran (warns_of_hook (w_fs w') m) in
                (warnings ++ [Out ("devcroft: bringing up sandbox '" ++ sandbox_name (m_sandbox m) ++ "'...")] ++ notes_of w w' ++ lines, code)
          end
      end
  end.
End commands.

(** ** The advice of [init] *)

Definition ALSO_DEVBOX : str :=
  "devcroft: a devbox project (devbox.json) was also found; `provider = " ++ DOUBLE_QUOTE ++ "devbox" ++ DOUBLE_QUOTE ++ "` is available if you'd rather use that instead.".
Definition ALSO_FLAKE : str :=
  "devcroft: a nix flake (flake.nix) was also found; `provider = " ++ DOUBLE_QUOTE ++ "nix" ++ DOUBLE_QUOTE ++ "` is available if you'd rather use that instead.".

(** The lines [cli_init] prints after the manifest was written. *)
Definition init_advice (f : fs) (cwd : str) : list str :=
  let has_flox := is_directory f (path_join cwd ".flox") in
  let has_devbox := regular_file f (path_join cwd "devbox.json") in
  let has_flake := regular_file f (path_join cwd "flake.nix") in
  if has_flox then
    ["devcroft: found an existing flox environment (.flox/); ready for `devcroft up`." : str]
    ++ (if has_devbox then [ALSO_DEVBOX] else []) ++ (if has_flake then [ALSO_FLAKE] else [])
  else if has_devbox then
    (if negb (regular_file f (path_join cwd "devbox.lock")) then
       ["devcroft: found an existing devbox project (devbox.json) with no devbox.lock." : str;
        "devcroft: run `devbox install` before `devcroft up`." : str]
     else ["devcroft: found an existing devbox project (devbox.json); ready for `devcroft up`." : str])
    ++ (if has_flake then [ALSO_FLAKE] else [])
  else if has_flake then
    if regular_file f (path_join cwd "flake.lock") then
      ["devcroft: found an existing nix flake (flake.nix) with flake.lock; ready for `devcroft up`." : str]
    else ["devcroft: found flake.nix but no flake.lock." : str; "devcroft: run `nix flake lock` before `devcroft up`." : str]
  else if path_exists f (path_join cwd "rust-toolchain.toml") then
    ["devcroft: found rust-toolchain.toml but no .flox/ environment." : str;
     "devcroft: rustup alone can't provide a complete build environment (no C toolchain, no other language runtimes) — run `flox init`, then add the pinned Rust channel (via the fenix or rust-overlay flox package) before `devcroft up`." : str]
  else if path_exists f (path_join cwd ".nvmrc") then
    ["devcroft: found .nvmrc but no .flox/ environment." : str;
     "devcroft: nvm alone can't provide a complete build environment — run `flox init`, then pin the Node.js version from .nvmrc before `devcroft up`." : str]
  else if path_exists f (path_join cwd ".python-version") then
    ["devcroft: found .python-version but no .flox/ environment." : str;
     "devcroft: pyenv alone can't provide a complete build environment — run `flox init`, then pin the Python version from .python-version before `devcroft up`." : str]
  else ["devcroft: no .flox/ environment found; run `flox init` before `devcroft up`." : str].

(** What the provider written by [init] asks of the project before it runs
    anything, with the provider's own tests. *)
Definition presence_checks (f : fs) (cwd : str) : result ProviderError unit :=
  let provider := detected_provider f cwd in
  if bool_decide (provider = ("flox" : str)) then ensure_environment_present (is_directory f) cwd
  else if bool_decide (provider = ("devbox" : str)) then
    _ ← ensure_project_present regular_file f cwd;
    if regular_file f (lock_path cwd) then Ok tt else Err devbox_lock_missing
  else
    _ ← ensure_flake_present (regular_file f) cwd;
    ensure_lock_present (regular_file f) cwd.

(** The command an error asks for. *)
Definition hint_of (e : ProviderError) : option str :=
  match e with
  | MissingBinary _ hint | NoEnvironment _ hint | MissingLock _ hint => Some hint
  | _ => None
  end.

(** ** The usage text *)

Definition USAGE : list str := strs [
  "devcroft — isolated, reproducible development environments, each reachable over SSH";
  EmptyString;
  "usage: devcroft <command> [args...]";
  EmptyString;
  "sandboxes";
  "  init [--force]              write a devcroft.toml for this project";
  "  up [name] [--recreate]      build the environment, apply the policy, start the sandbox";
  "  down [name]                 stop a sandbox, keeping its state";
  "  rm [name] [--yes]           stop a sandbox and delete its state";
  EmptyString;
  "running things";
  "  exec [name] -- <cmd>        run one command inside a sandbox";
  "  shell [name]                open an interactive shell inside a sandbox";
  EmptyString;
  "inspecting";
  "  status [name]               whether a sandbox is up, and since when";
  "  logs [name] [--tail N]      the keeper's log";
  "  ps                          every sandbox on this host";
  "  policy --render [name]      the compiled profile, every rule with its origin";
  "  why --path P --op <mode>    whether one operation is allowed, and which rule decides";
  "  why --host <domain>         the same question for an outbound host";
  "  doctor                      check this host for what devcroft needs";
  EmptyString;
  "ssh";
  "  ssh [name]                  connect over the sandbox's own SSH server";
  "  ssh-config [--write]        emit (or install) the ~/.ssh/config block";
  "  proxy <name>.devcroft       ProxyCommand handler; not typed directly";
  EmptyString;
  "  help                        this text";
  "  --version                   print the version";
  EmptyString;
  "Misusing a command prints that command's own usage line, which carries";
  "the flags this summary leaves out. Full documentation:";
  "https://github.com/dragosv/devcroft"].

(** The line each command prints when it is misused. *)
Definition EXEC_USAGE : str := "devcroft exec: usage: devcroft exec [--no-up] [name] -- <cmd> [args...]".
Definition SHELL_USAGE : str := "devcroft shell: usage: devcroft shell [--no-up] [name]".
Definition PROXY_USAGE : str := "devcroft proxy: usage: devcroft proxy [--no-up] <name>.devcroft".
Definition SSH_CONFIG_USAGE : str := "devcroft ssh-config: usage: devcroft ssh-config [--write]".
Definition INIT_USAGE : str := "devcroft init: usage: devcroft init [--force]".
Definition DOWN_USAGE : str := "devcroft down: usage: devcroft down [name]".
Definition RM_USAGE : str := "devcroft rm: usage: devcroft rm [name] [--yes]".
Definition STATUS_USAGE : str := "devcroft status: usage: devcroft status [name]".
Definition LOGS_USAGE : str := "devcroft logs: usage: devcroft logs [name] [--tail N]".
Definition SSH_USAGE : str := "devcroft ssh: usage: devcroft ssh [--no-up] [name]".
Definition POLICY_USAGE : str := "devcroft policy: usage: devcroft policy --render [--backend nono] [name]".
Definition WHY_USAGE : str := "devcroft why: usage: devcroft why --path <p> --op <read|write|readwrite> [name] | devcroft why --host <domain> [name]".

(** [doctor] and [ps] take their arguments as they come. *)
Definition command_usage (c : Command) : option str :=
  match c with
  | CExec => Some EXEC_USAGE
  | CShell => Some SHELL_USAGE
  | CProxy => Some PROXY_USAGE
  | CSshConfig => Some SSH_CONFIG_USAGE
  | CInit => Some INIT_USAGE
  | CUp => Some UP_USAGE
  | CDown => Some DOWN_USAGE
  | CRm => Some RM_USAGE
  | CStatus => Some STATUS_USAGE
  | CLogs => Some LOGS_USAGE
  | CSsh => Some SSH_USAGE
  | CPolicy => Some POLICY_USAGE
  | CWhy => Some WHY_USAGE
  | CDoctor | CPs => None
  end.

(** The command an indented line documents, and its flags. *)
Definition documented (line : str) : option str :=
  match strip_prefix "  " line with
  | Some rest => head (split_on " " rest)
  | None => None
  end.
Definition documented_flags (line : str) : list str :=
  List.filter (λ w, starts_with "--" w) ((λ w, List.filter (λ c, negb (member c (["091"; "093"]%char : str))) w) <$> split_on " " (take 30 line)).

(** The subcommands [main] dispatches that nobody types: re-executions of the
    program by itself. *)
Definition HIDDEN : list str :=
  strs ["__keeper"; "__bind_probe"; "__netns_probe"; "__uds_probe"; "__netns_agent_sim"; "__egress_proxy"].

(** What [main] prints when it runs no command: the text on standard output
    or on standard error, with the exit code; [plain] as for [{:?}]. *)
Definition main_text (plain : char → bool) (version : str) (args : list str) : option (list stream * Z) :=
  match args with
  | [] => Some (Error <$> USAGE, 2%Z)
  | a :: _ =>
      match table_get COMMANDS a with
      | Some _ => None
      | None =>
          if member a HIDDEN then None
          else if member a (strs ["help"; "--help"; "-h"]) then Some (Out <$> USAGE, 0%Z)
          else if member a (strs ["--version"; "-V"]) then Some ([Out ("devcroft " ++ version)], 0%Z)
          else Some (Error <$> (("devcroft: unknown command " ++ debug_str plain a) :: [] :: USAGE), 2%Z)
      end
  end.

(** ** Lemmas *)

(** The layer of an error, as its text names it. *)
Definition layer (e : UpError) : str :=
  match e with
  | UpState _ => "state" | UpPolicy _ | UpConfig _ => "config" | UpProvider _ => "provider"
  | UpBackend _ => "backend" | UpKeeper _ => "keeper" | UpSsh _ => "ssh"
  end.

(** The error contract: the exit code of each layer. *)
Definition LAYERS : list (str * Z) :=
  [("state" : str, 1%Z); ("config" : str, 2%Z); ("provider" : str, 3%Z); ("backend" : str, 4%Z); ("keeper" : str, 5%Z); ("ssh" : str, 5%Z)].

Lemma layer_prefix os_text read_text e :
  ∃ body, show_up_error os_text read_text e = layer e ++ ": " ++ body ∧ table_get LAYERS (layer e) = Some (up_exit_code e).
Proof. destruct e; eexists; (split; [reflexivity|by vm_compute]). Qed.

Definition COLON : ascii := ":".

(** A layer's name holds no colon, so that the text tells it. *)
Lemma layer_no_colon e : COLON ∉ layer e.
Proof. destruct e; apply (bool_decide_unpack _); by vm_compute. Qed.

Lemma split_once_layer (l body : str) : COLON ∉ l → split_once COLON (l ++ ": " ++ body) = Some (l, (" " : str) ++ body).
Proof.
  induction l as [|c l IH]; intros Hl; [done|].
  apply not_elem_of_cons in Hl as [Hc Hl]. cbn [app split_once]. rewrite decide_False by done. by rewrite IH.
Qed.

Lemma text_tells_layer os_text read_text e :
  fst <$> split_once COLON (show_up_error os_text read_text e) = Some (layer e).
Proof.
  destruct (layer_prefix os_text read_text e) as (body & -> & _).
  by rewrite (split_once_layer _ _ (layer_no_colon e)).
Qed.

Lemma last_report os_text read_text m e hook :
  last (report_up os_text read_text m (Err e) hook).1 = Some (Error ("devcroft up: " ++ show_up_error os_text read_text e)).
Proof. done. Qed.

(** ** Properties *)

Lemma last_after {A} (a : list A) b c d : last (a ++ b :: c ++ [d]) = Some d.
Proof. change (b :: c ++ [d]) with ((b :: c) ++ [d]). by rewrite app_assoc, last_snoc. Qed.

Section up_spec.
Context `{Host} `{Provider} `{Codec} {caps : Type} `{CapBuilder caps}.
Context (os_text : str → str) (read_text : io_error → str) (unreadable : str → str).
Context (parse_table : str → result str (list (str * toml))) (try_into : list (str * toml) → result str RawManifest)
        (current_dir : result str str) (stdout_is_tty : bool) (ps : result state_error (list SandboxSummary)).

Abbreviation run_up := (cli_up (caps := caps) parse_table try_into current_dir stdout_is_tty).
Abbreviation printed_up := (up_output (caps := caps) os_text read_text unreadable parse_table try_into current_dir stdout_is_tty ps).

Lemma resolve_strict_agrees cmd f name cwd :
  match resolve_strict_text unreadable parse_table try_into ps cmd f name cwd with
  | Ok m => resolve_manifest_strict parse_table try_into f name cwd = Ok m
  | Err line => resolve_manifest_strict parse_table try_into f name cwd = Err 2%Z
  end.
Proof.
  unfold resolve_strict_text, resolve_manifest_strict, discover_manifest, mbind, result_bind.
  destruct (discover_manifest_with_warnings _ _ f cwd) as [[[m root] ws]|e]; [|done].
  destruct name as [name|]; [|done]. by case_bool_decide.
Qed.

(** What [devcroft up] tells.  The exit code printed with the text is the
    command's; it is 0 exactly when the last line of the sandbox's own says what
    the sandbox is now; on every failure the last line is on standard error, and
    when [up] itself failed that line names the layer whose exit code in the
    error contract is the command's, readable back from the text. *)
Theorem up_output_spec args w :
  let '(lines, code) := printed_up args w in
  code = printed (run_up args w).1 ∧
  (code = 0%Z → ∃ name outcome, Out ("devcroft: sandbox '" ++ name ++ "' is " ++ outcome_text outcome ++ ".") ∈ lines) ∧
  (code ≠ 0%Z → ∃ line, last lines = Some (Error line)) ∧
  (∀ m root opts e, up_call parse_table try_into current_dir stdout_is_tty (w_fs w) args = Ok (m, root, opts) → (up m root opts w).1 = Err e →
     ∃ text, last lines = Some (Error ("devcroft up: " ++ text)) ∧
       (fst <$> split_once COLON text) ≫= table_get LAYERS = Some code).
Proof.
  unfold up_output, cli_up, up_call, mbind, M_bind, result_bind, get_fs, lift. cbn -[single_name resolve_strict_text up has_flag].
  destruct (single_name (without UP_FLAGS args)) as [name|code] eqn:En; cbn -[resolve_strict_text up has_flag].
  2: { assert (code = 2%Z) as -> by (unfold single_name in En; repeat case_match; congruence). split_and!; try done. intros _. by eexists. }
  destruct current_dir as [cwd|e]; cbn -[resolve_strict_text up has_flag]; [|split_and!; try done; intros _; by eexists].
  pose proof (resolve_strict_agrees "up" (w_fs w) name cwd) as Hm.
  destruct (resolve_strict_text _ _ _ _ _ _ name cwd) as [m|line]; rewrite Hm; cbn -[up has_flag].
  2: { split_and!; try done. intros _. by eexists. }
  destruct (has_flag RECREATE args && negb (has_flag YES args) && negb stdout_is_tty); cbn -[up has_flag].
  { split_and!; try done. intros _. eexists. by rewrite last_snoc. }
  unfold map_error, mret, M_ret.
  destruct (up m _ _ w) as [[outcome|e] w'] eqn:Eu; cbn -[up has_flag].
  - split; [done|]. split; [|split; [done|]].
    + intros _. exists (sandbox_name (m_sandbox m)), outcome. apply elem_of_app. right. right. apply elem_of_app. right. by left.
    + intros m' root opts e [= <- <- <-] Hu. rewrite Eu in Hu. done.
  - split; [done|]. split; [|split].
    + by destruct e.
    + intros _. eexists. apply last_after.
    + intros m' root opts e' [= <- <- <-] Hu. rewrite Eu in Hu. injection Hu as <-.
      exists (show_up_error os_text read_text e). split; [apply last_after|].
      rewrite text_tells_layer. by destruct (layer_prefix os_text read_text e) as (_ & _ & T).
Qed.
End up_spec.

(** Two failures of [up] with the same text have the same exit code. *)
Lemma up_text_tells_code os_text read_text e e' :
  show_up_error os_text read_text e = show_up_error os_text read_text e' → layer e = layer e' ∧ up_exit_code e = up_exit_code e'.
Proof.
  intros E. pose proof (text_tells_layer os_text read_text e) as H1. rewrite E, text_tells_layer in H1. injection H1 as H1.
  destruct (layer_prefix os_text read_text e) as (_ & _ & T1). destruct (layer_prefix os_text read_text e') as (_ & _ & T2).
  rewrite H1 in T2. split; [done|congruence].
Qed.

(** The usage text documents exactly the commands there are: the names that
    begin its indented lines are those [main] dispatches on, and the two that
    print something and exit; no internal entry point is among them. *)
Theorem usage_documents_commands name :
  name ∈ omap documented USAGE ↔ name ∈ COMMANDS.*1 ∨ name ∈ strs ["help"; "--version"].
Proof.
  rewrite <- elem_of_app.
  assert (Forall (λ n, n ∈ COMMANDS.*1 ++ strs ["help"; "--version"]) (omap documented USAGE)) as H1
    by (apply (bool_decide_unpack _); by vm_compute).
  assert (Forall (λ n, n ∈ omap documented USAGE) (COMMANDS.*1 ++ strs ["help"; "--version"])) as H2
    by (apply (bool_decide_unpack _); by vm_compute).
  rewrite Forall_forall in H1, H2. split; [apply H1|apply H2].
Qed.

(** The flags a text mentions. *)
Definition mentions (text flag : str) : bool :=
  existsb (λ w, bool_decide (List.filter (λ c, negb (member c (["091"; "093"]%char : str))) w = flag)) (split_on " " text).

(** Every flag the usage text shows for a command is in that command's own
    usage line, which begins with the command's name. *)
Lemma own_usage_line name c line :
  (name, c) ∈ COMMANDS → command_usage c = Some line →
  starts_with ("devcroft " ++ name ++ ": usage: devcroft " ++ name) line = true ∧
  ∀ l flag, l ∈ USAGE → documented l = Some name → flag ∈ documented_flags l → mentions line flag = true.
Proof.
  assert (Forall (λ e : str * Command, match command_usage e.2 with
    | Some line => starts_with ("devcroft " ++ e.1 ++ ": usage: devcroft " ++ e.1) line = true ∧
        Forall (λ l, documented l = Some e.1 → Forall (λ flag, mentions line flag = true) (documented_flags l)) USAGE
    | None => True end) COMMANDS) as Hall.
  { repeat (constructor; [first [exact I|split; [by vm_compute|apply (bool_decide_unpack _); by vm_compute]]|]). constructor. }
  intros Hin Hu. rewrite Forall_forall in Hall. specialize (Hall _ Hin). cbn [fst snd] in Hall. rewrite Hu in Hall.
  destruct Hall as [Hs Hf]. split; [done|]. intros l flag Hl Hd Hflag.
  rewrite Forall_forall in Hf. specialize (Hf l Hl Hd). rewrite Forall_forall in Hf. by apply Hf.
Qed.

Lemma table_get_none {V} (t : list (str * V)) k : table_get t k = None → k ∉ t.*1.
Proof.
  unfold table_get. intros E (e & -> & He)%list_elem_of_fmap. revert E. induction t as [|e' t IH]; [by apply not_elem_of_nil in He|].
  cbn. case_bool_decide as Hk; [done|]. apply IH. apply elem_of_cons in He as [->|He]; done.
Qed.

(** [main] prints text instead of running a command exactly for the arguments
    it does not dispatch, with the exit code it returns. *)
Lemma main_text_code `{Host} `{Provider} `{Codec} {caps : Type} `{CapBuilder caps} plain version args :
  match main_text plain version args with
  | Some (_, code) => (∀ name rest, args = name :: rest → name ∉ COMMANDS.*1) ∧ (code = 0%Z ∨ code = 2%Z)
  | None => ∃ name rest, args = name :: rest ∧ (is_Some (table_get COMMANDS name) ∨ name ∈ HIDDEN)
  end.
Proof.
  destruct args as [|a args]; [split; [done|by right]|]. unfold main_text.
  destruct (table_get COMMANDS a) as [c|] eqn:E; [exists a, args; split; [done|by left; eexists]|].
  apply table_get_none in E. destruct (member a HIDDEN) eqn:Eh; [exists a, args; split; [done|right]; by apply member_spec|]. repeat case_match; simplify_eq; (split; [|by auto]); by intros name rest [= <- <-].
Qed.

Definition READY : str := "ready for `devcroft up`".

Lemma advice_of_checks f cwd :
  (presence_checks f cwd = Ok tt ↔ Exists (λ l, contains_str READY l = true) (init_advice f cwd)) ∧
  ∀ e, presence_checks f cwd = Err e → ∃ hint, hint_of e = Some hint ∧
    Exists (λ l, contains_str ("run " ++ code hint) l = true) (init_advice f cwd).
Proof.
  unfold presence_checks, init_advice, detected_provider, ensure_environment_present, ensure_project_present, ensure_flake_present, ensure_lock_present,
    json_path, lock_path.
  destruct (is_directory f (path_join cwd ".flox")), (regular_file f (path_join cwd "devbox.json")),
    (regular_file f (path_join cwd "flake.nix")), (regular_file f (path_join cwd "devbox.lock")), (regular_file f (path_join cwd "flake.lock"));
    try (destruct (path_exists f (path_join cwd "rust-toolchain.toml")), (path_exists f (path_join cwd ".nvmrc")),
           (path_exists f (path_join cwd ".python-version")));
    (split; [split; intros Hc; (done || (apply (bool_decide_unpack _); by vm_compute) || (exfalso; revert Hc; apply (bool_decide_unpack _); by vm_compute))|
             intros e Hc; (done || (injection Hc as <-; eexists; split; [reflexivity|apply (bool_decide_unpack _); by vm_compute]))]).
Qed.

Section advice.
Context (home : option str) (io : DeriveIo) (command_files : ProviderKind → str → fs → fs).
Context (parse_table : str → result str (list (str * toml))) (toml_to_string : list (str * toml) → result str str)
        (flox_bin : option str) (activate : str → str → gmap str str → result str str).
Context (from_slice : str → result str (list (str * DevVariable))) (nix_bin : option str)
        (metadata : str → str → CommandResult) (print_dev_env : str → str → gmap str str → CommandResult).
Context (from_str : str → result str json) (devbox_bin : option str) (nix_eval : str → bool)
        (shellenv : str → str → gmap str str → fs → CommandResult * fs)
        (eval_env : str → str → gmap str str → CommandResult) (restore_error : option str).

Abbreviation resolve_kind f := (kind_resolve home (is_directory f) io parse_table toml_to_string flox_bin activate
  from_slice nix_bin metadata print_dev_env from_str devbox_bin nix_eval shellenv eval_env restore_error command_files).

(** The host has the provider's commands; a devbox project declares a package. *)
Definition usable (kind : ProviderKind) (f : fs) (cwd : str) : Prop :=
  match kind with
  | Flox => True
  | Nix => is_Some nix_bin
  | Devbox => is_Some devbox_bin ∧ ensure_nix_usable nix_bin nix_eval = Ok tt ∧
      ∃ key keys, declared_package_keys from_str f cwd = Ok (key :: keys)
  end.

Lemma detected_kind f cwd : ∃ kind, from_name (detected_provider f cwd) = Ok kind ∧
  detected_provider f cwd = match kind with Flox => "flox" | Nix => "nix" | Devbox => "devbox" end.
Proof. unfold detected_provider. repeat case_match; eexists; (split; [by vm_compute|done]). Qed.

Lemma checks_fail_resolve kind f cwd e :
  detected_provider f cwd = match kind with Flox => "flox" | Nix => "nix" | Devbox => "devbox" end →
  presence_checks f cwd = Err e → usable kind f cwd → (resolve_kind f kind cwd f).1 = Err e.
Proof.
  unfold presence_checks. intros Hd Hc Hu. rewrite Hd in Hc. destruct kind.
  - rewrite bool_decide_true in Hc by done. cbn [kind_resolve fst]. unfold Flox.resolve. by rewrite Hc.
  - rewrite !bool_decide_false in Hc by by vm_compute. destruct Hu as [bin Hb].
    cbn [kind_resolve fst]. unfold nix_resolve, mbind, result_bind in *. rewrite Hb.
    destruct (ensure_flake_present _ cwd) as [[]|]; [|by simplify_eq/=]. cbn in *. by rewrite Hc.
  - rewrite (bool_decide_false (("devbox" : str) = "flox")), bool_decide_true in Hc by (done || by vm_compute).
    destruct Hu as ([bin Hb] & Hn & key & keys & Hk).
    cbn [kind_resolve]. unfold devbox_resolve, devbox_checks, mbind, result_bind in *. rewrite Hb.
    destruct (ensure_project_present regular_file f cwd) as [[]|]; [|by simplify_eq/=]. cbn [ok_or]. rewrite Hn.
    unfold ensure_everything_locked, mbind, result_bind. rewrite Hk. rewrite bool_decide_false by done.
    destruct (regular_file f (lock_path cwd)); [done|]. by simplify_eq/=.
Qed.

(** The advice of [init] is what the provider it chose will ask for.  It calls
    the project ready exactly when that provider's own presence checks pass.
    Otherwise it names the command that the provider's error names, and that
    error is the one resolving the environment now fails with, on a host with
    the provider's commands (and, for devbox, a project that declares a
    package). *)
Theorem advice_matches_provider f cwd :
  ∃ kind, from_name (detected_provider f cwd) = Ok kind ∧
    (presence_checks f cwd = Ok tt ↔ Exists (λ l, contains_str READY l = true) (init_advice f cwd)) ∧
    ∀ e, presence_checks f cwd = Err e →
      (∃ hint, hint_of e = Some hint ∧ Exists (λ l, contains_str ("run " ++ code hint) l = true) (init_advice f cwd)) ∧
      (usable kind f cwd → (resolve_kind f kind cwd f).1 = Err e).
Proof.
  destruct (detected_kind f cwd) as (kind & Hk & Hd). exists kind. split; [exact Hk|].
  destruct (advice_of_checks f cwd) as [Hr Hh]. split; [exact Hr|]. intros e He. split; [by apply Hh|].
  by apply checks_fail_resolve.
Qed.
End advice.
