(* ===== verification/KeeperLines.v ===== *)
(** * What the keeper and its helpers print while they start ([src/bin/devcroft.rs], [src/ssh/])

    {!KeeperMain} has the steps of the keeper's start; here are the lines it
    writes meanwhile to its log: why it gave up, and what it goes without (the
    relay, the declared services, the SSH server); and those of the egress
    proxy's process and of the SSH server's thread. *)

From S2P Require Import Prelude Paths Manifest Policy Capability Protocol Registry Session Connection Exec Services KeeperMain SshServer Messages.

#[local] Set Default Proof Using "Type".

Section keeper_lines.
(** The parameters of {!KeeperMain}, with the texts of their failures. *)
Context (env : str → option str) (process_cwd : result str str) (bind_loopback : N → result str unit).
Context (plan_of_json : str → result str CapabilityPlan).
Context (exists_path is_dir : str → bool) (canonicalize : str → result str str).
Context {caps : Type} `{CapBuilder caps} (apply_auto : caps → result str unit).
Context (backend_spawn : SpawnRequest → result str SpawnedSession) (now : N).
Context (private_key public_key : str → result str unit).

(** [keeper_main]: the relay the environment asks for. *)
Definition relay_asked : option (N * str) :=
  port ← env_var env "DEVCROFT_PROXY_RELAY_PORT" ≫= parse_unsigned U16_MAX;
  sock ← env_var env "DEVCROFT_PROXY_SOCKET"; Some (port, sock).

Definition relay_lines : list str :=
  match relay_asked with
  | Some (port, _) =>
      match bind_loopback port with
      | Err e => ["devcroft keeper: could not bind egress relay on 127.0.0.1:" ++ show_N port ++ ": " ++ e]
      | Ok _ => []
      end
  | None => []
  end.

(** [self_restrict]; the panic's own message is not devcroft's. *)
Definition self_restrict_lines : list str :=
  match env_var env "DEVCROFT_CAPABILITY_PLAN" with
  | None => ["devcroft keeper: DEVCROFT_CAPABILITY_PLAN not set" : str]
  | Some plan_json =>
      match plan_of_json plan_json with
      | Err e => ["devcroft keeper: parsing DEVCROFT_CAPABILITY_PLAN: " ++ e]
      | Ok plan =>
          match process_cwd with
          | Err e => ["devcroft keeper: determining project root: " ++ e]
          | Ok project_root =>
              match to_capability_set (default [] (env_var env "HOME")) exists_path is_dir canonicalize plan project_root with
              | Err (UnreachableSignalMode _) => []
              | Err e => ["devcroft keeper: building capability set: " ++ show_capability_error e]
              | Ok c => match apply_auto c with Err e => ["devcroft keeper: applying sandbox: " ++ e] | Ok _ => [] end
              end
          end
      end
  end.

(** [start_services_if_requested]. *)
Definition services_lines (r : Registry) : list str :=
  if services_requested env then
    match backend_spawn (services_request env) with
    | Ok spawned =>
        let '(_, id) := registry_insert (sp_pgid spawned) "process-compose (services)" now r in
        ["services started session=" ++ show_N id ++ " pgid=" ++ show_Z (sp_pgid spawned)]
    | Err e => ["services failed to start: " ++ e]
    end
  else [].

(** [ssh::start_from_env]. *)
Definition start_from_env_lines : list str :=
  match env_var env "DEVCROFT_SSH_HOST_KEY" with
  | None => ["devcroft: ssh: DEVCROFT_SSH_HOST_KEY not set; ssh server disabled" : str]
  | Some host_key_pem =>
      match env_var env "DEVCROFT_SSH_AUTHORIZED_KEY" with
      | None => ["devcroft: ssh: DEVCROFT_SSH_AUTHORIZED_KEY not set; ssh server disabled" : str]
      | Some authorized_key_pem =>
          match private_key host_key_pem with
          | Err e => ["devcroft: ssh: parsing host key: " ++ e]
          | Ok _ =>
              match public_key authorized_key_pem with
              | Err e => ["devcroft: ssh: parsing authorized key: " ++ e]
              | Ok _ => []
              end
          end
      end
  end.

#[local] Abbreviation run :=
  (keeper_main env process_cwd (λ port, is_ok (bind_loopback port)) plan_of_json exists_path is_dir canonicalize apply_auto backend_spawn now
     (λ k, is_ok (private_key k)) (λ k, is_ok (public_key k))).

(** All of it, in order: a keeper that gives up says no more. *)
Definition startup_lines : list str :=
  relay_lines ++ self_restrict_lines ++
  match (self_restrict env process_cwd plan_of_json exists_path is_dir canonicalize apply_auto).2 with
  | Ok _ => services_lines registry_new ++ start_from_env_lines
  | Err _ => []
  end.

(** The one line that reports a success. *)
Definition reports_start (line : str) : bool := starts_with "services started " line.
Definition complaints : list str := List.filter (λ line, negb (reports_start line)) startup_lines.

(** Everything the environment asks for runs: the restriction holds, the relay,
    the services and the SSH server were started. *)
Definition all_started (steps : list (KeeperStep caps)) : Prop :=
  (∃ c, KRestrict c ∈ steps) ∧
  (∀ port sock, relay_asked = Some (port, sock) → KThread (RelayThread port sock) ∈ steps) ∧
  (services_requested env = true → ∃ pgid, KSpawn (services_request env) pgid ∈ steps) ∧
  KThread SshThread ∈ steps.

(** ** Lemmas *)

#[local] Abbreviation restrict := (self_restrict env process_cwd plan_of_json exists_path is_dir canonicalize apply_auto).
#[local] Abbreviation relay_bound := (relay_of env (λ port, is_ok (bind_loopback port))).
#[local] Abbreviation services := (start_services_if_requested (caps := caps) env backend_spawn now registry_new).
#[local] Abbreviation ssh := (start_from_env (caps := caps) env (λ k, is_ok (private_key k)) (λ k, is_ok (public_key k))).

Lemma relay_of_asked :
  relay_bound = match relay_asked with Some (port, sock) => if is_ok (bind_loopback port) then Some (port, sock) else None | None => None end.
Proof. unfold relay_of, relay_asked. destruct (_ ≫= parse_unsigned U16_MAX), (env_var env "DEVCROFT_PROXY_SOCKET"); done. Qed.

(** The relay is bound exactly when nothing is said about it. *)
Lemma relay_silent : relay_lines = [] ↔ relay_bound = relay_asked.
Proof. rewrite relay_of_asked. unfold relay_lines. destruct relay_asked as [[port sock]|]; [|done]. by destruct (bind_loopback port). Qed.

(** The restriction fails with 1 exactly when it says why. *)
Lemma restrict_says :
  match restrict.2 with
  | Ok _ => self_restrict_lines = []
  | Err code => (code = 1%Z ∧ ∃ line, self_restrict_lines = [line]) ∨ (code = 101%Z ∧ self_restrict_lines = [])
  end.
Proof.
  unfold self_restrict, self_restrict_lines, or_exit, exit_with.
  destruct (env_var env "DEVCROFT_CAPABILITY_PLAN") as [json|]; cbn -[to_capability_set show_capability_error]; [|left; by eauto].
  destruct (plan_of_json json) as [plan|]; cbn -[to_capability_set show_capability_error]; [|left; by eauto].
  destruct process_cwd as [root|]; cbn -[to_capability_set show_capability_error]; [|left; by eauto].
  destruct (to_capability_set _ _ _ _ plan root) as [c|e]; cbn -[show_capability_error].
  - destruct (apply_auto c); cbn; [done|left; by eauto].
  - destruct e; cbn -[show_capability_error]; [left; by eauto..|right; done].
Qed.

Lemma ssh_silent : start_from_env_lines = [] ↔ KThread SshThread ∈ ssh.1.
Proof.
  unfold start_from_env_lines, start_from_env.
  destruct (env_var env "DEVCROFT_SSH_HOST_KEY") as [k|]; [|split; [done|by intros ?%not_elem_of_nil]].
  destruct (env_var env "DEVCROFT_SSH_AUTHORIZED_KEY") as [a|]; [|split; [done|by intros ?%not_elem_of_nil]].
  destruct (private_key k); [|split; [done|by intros ?%not_elem_of_nil]].
  destruct (public_key a); [|split; [done|by intros ?%not_elem_of_nil]]. split; [by left|done].
Qed.

Lemma services_complain :
  List.filter (λ line, negb (reports_start line)) (services_lines registry_new) = [] ↔
  (services_requested env = true → ∃ pgid, KSpawn (services_request env) pgid ∈ services.1).
Proof.
  unfold services_lines, start_services_if_requested. destruct (services_requested env); [|done].
  destruct (backend_spawn (services_request env)) as [sp|e].
  - split; [intros _ _|done]. exists (sp_pgid sp). cbn. by left.
  - split; [done|]. intros Hs. by destruct (Hs eq_refl) as (pgid & ?%not_elem_of_nil).
Qed.

Lemma quiet_lines (l : list str) : Forall (λ line, reports_start line = false) l → List.filter (λ line, negb (reports_start line)) l = l.
Proof. induction 1 as [|line l Hl _ IH]; cbn; [done|]. by rewrite Hl, IH. Qed.

Lemma filter_app_bool {A} (f : A → bool) (a b : list A) : List.filter f (a ++ b) = List.filter f a ++ List.filter f b.
Proof. apply List.filter_app. Qed.

Lemma relay_lines_quiet : Forall (λ line, reports_start line = false) relay_lines.
Proof. unfold relay_lines. repeat case_match; by repeat constructor. Qed.
Lemma self_restrict_lines_quiet : Forall (λ line, reports_start line = false) self_restrict_lines.
Proof. unfold self_restrict_lines. repeat case_match; by repeat constructor. Qed.
Lemma start_from_env_lines_quiet : Forall (λ line, reports_start line = false) start_from_env_lines.
Proof. unfold start_from_env_lines. repeat case_match; by repeat constructor. Qed.

(** The steps of the parts of a start. *)
Lemma services_steps s : s ∈ services.1 → (∃ pgid, s = KSpawn (services_request env) pgid) ∨ ∃ id pgid, s = KRegister id pgid.
Proof.
  unfold start_services_if_requested. destruct (services_requested env); [|by intros ?%not_elem_of_nil].
  destruct (backend_spawn _) as [sp|]; [|by intros ?%not_elem_of_nil]. cbn. rewrite !elem_of_cons, elem_of_nil.
  intros [->|[->|[]]]; [left; by eexists|right; by eexists _, _].
Qed.

Lemma ssh_steps s : s ∈ ssh.1 → s = KThread SshThread.
Proof. unfold start_from_env. repeat case_match; cbn; rewrite ?elem_of_cons, ?elem_of_nil; by try intros [->|[]]. Qed.

Lemma serve_steps accepts (s : KeeperStep caps) : s ∈ KThread <$> serve accepts → ∃ stream, s = KThread (ConnectionThread stream).
Proof.
  rewrite list_elem_of_fmap. intros (th & -> & Hin). assert (∃ stream, th = ConnectionThread stream) as [stream ->]; [|by eexists].
  revert Hin. induction accepts as [|[stream|] accepts IH]; cbn; [by intros ?%not_elem_of_nil| |by intros ?%not_elem_of_nil].
  intros [->|Hin]%elem_of_cons; [by eexists|by apply IH].
Qed.

(** What a start that got past its restriction started. *)
Lemma run_started c accepts :
  restricted_to env process_cwd plan_of_json exists_path is_dir canonicalize apply_auto c →
  (∀ port sock, KThread (RelayThread port sock) ∈ (run accepts).1 ↔ relay_bound = Some (port, sock)) ∧
  (∀ pgid, KSpawn (services_request env) pgid ∈ (run accepts).1 ↔ KSpawn (services_request env) pgid ∈ services.1) ∧
  (KThread SshThread ∈ (run accepts).1 ↔ KThread SshThread ∈ ssh.1) ∧ (∃ c, KRestrict c ∈ (run accepts).1) ∧ (run accepts).2 = Err 0%Z.
Proof.
  intros Hc. rewrite (run_ok _ _ (λ port, is_ok (bind_loopback port)) _ _ _ _ _ _ _ (λ k, is_ok (private_key k)) (λ k, is_ok (public_key k)) c accepts Hc). cbn [fst snd].
  assert (∀ s, s ∈ relay_bind relay_bound ++ KRestrict c :: relay_thread relay_bound ++ KBlockSignals :: KThread ShutdownThread ::
    services.1 ++ ssh.1 ++ (KThread <$> serve accepts) ++ [KExit 0] ↔
    s ∈ relay_bind relay_bound ∨ s = KRestrict c ∨ s ∈ relay_thread relay_bound ∨ s = KBlockSignals ∨ s = KThread ShutdownThread ∨
    s ∈ services.1 ∨ s ∈ ssh.1 ∨ s ∈ KThread <$> serve accepts ∨ s = KExit 0) as Hel.
  { intros s. by rewrite elem_of_app, elem_of_cons, elem_of_app, !elem_of_cons, !elem_of_app, list_elem_of_singleton. }
  assert (∀ s, s ∈ relay_bind (caps := caps) relay_bound → ∃ port, s = KBind port) as Hb.
  { intros s. destruct relay_bound as [[port sock]|]; cbn; [intros ->%list_elem_of_singleton; by eexists|by intros ?%not_elem_of_nil]. }
  assert (∀ s, s ∈ relay_thread (caps := caps) relay_bound → ∃ port sock, s = KThread (RelayThread port sock) ∧ relay_bound = Some (port, sock)) as Ht.
  { intros s. destruct relay_bound as [[port sock]|]; cbn; [intros ->%list_elem_of_singleton; by eexists _, _|by intros ?%not_elem_of_nil]. }
  pose proof services_steps as Hsv. pose proof ssh_steps as Hsh. pose proof (serve_steps accepts) as Hac.
  assert (∀ port sock, KThread (RelayThread port sock) ∈ relay_thread (caps := caps) relay_bound ↔ relay_bound = Some (port, sock)) as Hth.
  { intros port sock. split; [intros (? & ? & [= -> ->] & ?)%Ht; done|intros ->; by left]. }
  split_and!.
  - intros port sock. rewrite Hel, Hth. naive_solver.
  - intros pgid. rewrite Hel. naive_solver.
  - rewrite Hel. naive_solver.
  - exists c. rewrite Hel. auto.
  - done.
Qed.

Lemma complaints_parts :
  complaints = [] ↔
  relay_lines = [] ∧ self_restrict_lines = [] ∧
  match restrict.2 with
  | Ok _ => List.filter (λ line, negb (reports_start line)) (services_lines registry_new) = [] ∧ start_from_env_lines = []
  | Err _ => True
  end.
Proof.
  unfold complaints, startup_lines.
  rewrite !filter_app_bool, (quiet_lines _ relay_lines_quiet), (quiet_lines _ self_restrict_lines_quiet).
  rewrite !app_nil. destruct restrict.2; [|naive_solver].
  rewrite filter_app_bool, app_nil, (quiet_lines _ start_from_env_lines_quiet). done.
Qed.

(** A keeper says what it could not do: it exits with 1 exactly when its
    restriction failed, and then with one line that says why; and it complains
    about nothing exactly when all its environment asks for was started: the
    restriction, the relay, the declared services and the SSH server.  (The
    exception is a plan of a signal mode there is not, a panic.) *)
Theorem keeper_says_why accepts :
  ((run accepts).2 = Err 1%Z ↔ ∃ line, self_restrict_lines = [line]) ∧
  ((run accepts).2 = Err 101%Z ∨ (complaints = [] ↔ all_started (run accepts).1)).
Proof.
  pose proof restrict_says as Hr.
  destruct (restrict_spec env process_cwd plan_of_json exists_path is_dir canonicalize apply_auto) as [(code & E & Hcode)|(c & E & Hc)].
  - rewrite complaints_parts. rewrite E in *. rewrite (run_failed _ _ _ _ _ _ _ _ _ _ _ _ _ _ E). cbn [fst snd] in *. destruct Hr as [[-> Hl]|[-> Hl]].
    + split; [done|]. right. destruct Hl as [line Hl]. rewrite Hl. split; [naive_solver|]. intros ((c & Hin) & _). exfalso.
      apply elem_of_app in Hin as [Hin|Hin]; [|apply list_elem_of_singleton in Hin; done].
      destruct relay_bound as [[port sock]|]; cbn in Hin; rewrite ?list_elem_of_singleton, ?elem_of_nil in Hin; done.
    + split; [|by left]. rewrite Hl. split; [done|]. by intros [line [=]].
  - destruct (run_started c accepts Hc) as (H1 & H2 & H3 & H4 & H5). rewrite complaints_parts. rewrite E in *. cbn [snd] in *.
    rewrite H5, Hr. split; [split; [done|by intros [line [=]]]|]. right.
    rewrite relay_silent, services_complain, ssh_silent. unfold all_started. setoid_rewrite H1. setoid_rewrite H2. rewrite H3.
    assert (relay_bound = relay_asked ↔ ∀ port sock, relay_asked = Some (port, sock) → relay_bound = Some (port, sock)) as ->.
    { rewrite relay_of_asked. destruct relay_asked as [[port sock]|]; [|done]. split; [intros ->; naive_solver|]. intros Hp. by apply Hp. }
    naive_solver.
Qed.
End keeper_lines.

(** [egress_proxy_main]. *)
Section egress_lines.
Context (env : str → option str) (allow_of_json : str → result str (list str)) (local_port : result str N).

Definition egress_proxy_lines : list str :=
  match env_var env "DEVCROFT_EGRESS_ALLOW" ≫= λ s, match allow_of_json s with Ok l => Some l | Err _ => None end with
  | None => ["devcroft __egress_proxy: DEVCROFT_EGRESS_ALLOW missing or invalid" : str]
  | Some _ =>
      match env_var env "DEVCROFT_EGRESS_LOG", env_var env "DEVCROFT_EGRESS_TOKEN", local_port with
      | None, _, _ => ["devcroft __egress_proxy: DEVCROFT_EGRESS_LOG missing" : str]
      | _, None, _ => ["devcroft __egress_proxy: DEVCROFT_EGRESS_TOKEN missing" : str]
      | _, _, Err e => ["devcroft __egress_proxy: reading own port: " ++ e]
      | _, _, Ok _ => []
      end
  end.
End egress_lines.

(** [server::spawn] and [serve]: why the SSH server's thread has ended, if it has. *)
Fixpoint accept_error (accepts : list (result str unit)) : option str :=
  match accepts with [] => None | Ok _ :: accepts => accept_error accepts | Err e :: _ => Some e end.

Definition ssh_spawn_lines (set_nonblocking runtime from_std : result str unit) (accepts : list (result str unit)) : list str :=
  match set_nonblocking, runtime, from_std with
  | Err e, _, _ => ["devcroft: ssh: set_nonblocking on the ssh socket: " ++ e]
  | _, Err e, _ => ["devcroft: ssh: starting tokio runtime: " ++ e]
  | _, _, Err e => ["devcroft: ssh: adopting the ssh socket into tokio: " ++ e]
  | _, _, _ => match accept_error accepts with Some e => ["devcroft: ssh: server exited: " ++ e] | None => [] end
  end.

(** The egress proxy's process serves, or says why it does not. *)
Lemma egress_says_why env allow_of_json local_port :
  match egress_proxy_main env allow_of_json local_port with
  | Ok _ => egress_proxy_lines env allow_of_json local_port = []
  | Err code => code = 1%Z ∧ ∃ line, egress_proxy_lines env allow_of_json local_port = [line]
  end.
Proof.
  unfold egress_proxy_main, egress_proxy_lines.
  destruct (env_var env "DEVCROFT_EGRESS_ALLOW" ≫= _) as [allow|]; cbn; [|by eauto].
  destruct (env_var env "DEVCROFT_EGRESS_LOG"); cbn; [|by eauto]. destruct (env_var env "DEVCROFT_EGRESS_TOKEN"); cbn; [|by eauto].
  destruct local_port; cbn; by eauto.
Qed.

(** While the SSH server's thread has said nothing, every connection it accepted is served. *)
Lemma ssh_silent_serves nb rt fs key accepts :
  ssh_spawn_lines nb rt fs accepts = [] → length (ssh_spawn nb rt fs key accepts) = length accepts.
Proof.
  unfold ssh_spawn_lines, ssh_spawn. destruct nb, rt, fs; try done. generalize (ssh_new key) as sv. intros sv.
  induction accepts as [|[|] accepts IH]; cbn; [done| |done]. intros Hl. by rewrite IH.
Qed.
