(* ===== verification/Spike.v ===== *)
(** * The feasibility spike ([src/bin/spike.rs])

    The experiment the design rests on, a second binary: a supervisor binds a
    listener, starts a client outside the boundary and executes itself as a
    keeper inside it; the keeper reports what it and its child can read and
    answers on the inherited listener.  The files, the processes and the backend
    are parameters; the reports are the program's. *)

From S2P Require Import Prelude Paths.

#[local] Set Default Proof Using "Type".

(** ** [main] *)
Inductive Mode :=
| RunMode
| KeeperMode (fd : Z) (root : str)
| ProbeMode (path : str)
| ClientMode (sock out : str)
| UnknownMode (other : str)
| Panics.            (* a missing argument or a descriptor that is not a number *)

(** [args] as the process gets them, the program's name first; a descriptor is
    an [i32]. *)
Definition spike_main (args : list str) : Mode :=
  match default ("run" : str) (args !! 1) with
  | m =>
      if bool_decide (m = "run") then RunMode
      else if bool_decide (m = "keeper") then
        match args !! 2 with
        | Some fd => match parse_i32 fd, args !! 3 with
                     | Some fd, Some root => KeeperMode fd root
                     | _, _ => Panics
                     end
        | None => Panics
        end
      else if bool_decide (m = "probe") then match args !! 2 with Some path => ProbeMode path | None => Panics end
      else if bool_decide (m = "client") then
        match args !! 2, args !! 3 with Some sock, Some out => ClientMode sock out | _, _ => Panics end
      else UnknownMode m
  end.

(** ** [supervisor] *)
Inductive SpikeStep :=
| CreateDirAll (path : str)
| WriteFile (path contents : str)
| BindListener (path : str)
| SpawnSelf (args : list str)
| ClearCloexec (fd : N)
| PrintLine (line : str)
| ExecNono (args : list str).

Definition supervisor (home exe exe_dir : str) (pid fd : N) : list SpikeStep :=
  let root := path_join home (".devcroft-spike-" ++ show_N pid) in
  let inside := path_join root "inside" in
  let outside := path_join root "outside" in
  let sock := path_join root "keeper.sock" in
  [CreateDirAll inside; CreateDirAll outside;
   WriteFile (path_join inside "allowed.txt") ("granted" ++ [NL]);
   WriteFile (path_join outside "secret.txt") ("ungranted" ++ [NL]);
   BindListener sock;
   SpawnSelf [("client" : str); sock; path_join root "client-report.txt"];
   ClearCloexec fd;
   PrintLine ("supervisor: root=" ++ root ++ " fd=" ++ show_N fd);
   ExecNono [("wrap" : str); ("--silent" : str); ("--allow-cwd" : str); ("--allow" : str); inside; ("--read" : str); exe_dir;
             ("--" : str); exe; ("keeper" : str); show_N fd; root]].

(** ** Inside the boundary *)

(** [outcome]: the kind of the error is the standard library's text for it. *)
Definition outcome (r : result str str) : str :=
  match r with Ok _ => "ALLOWED" | Err kind => "DENIED (" ++ kind ++ ")" end.

Definition probe (r : result str str) : str := outcome r ++ [NL].

(** [{:<20}]. *)
Definition pad20 (s : str) : str := s ++ replicate (20 - length (chars s)) " "%char.

Definition child_verdict (output : result str str) : str :=
  match output with Ok stdout => trim (from_utf8_lossy stdout) | Err e => "SPAWN FAILED: " ++ e end.

Section boundary.
(** What a process inside the boundary reads, and what running one of its
    children gives: standard output, or the error of starting it. *)
Context (read : str → result str str) (run_probe : str → result str str).

Definition report_head (root : str) : str :=
  "== keeper (inside the boundary) ==" ++ [NL]
  ++ "P3 keeper  read inside/allowed.txt  : " ++ outcome (read (path_join root "inside/allowed.txt")) ++ [NL]
  ++ "P3 keeper  read outside/secret.txt  : " ++ outcome (read (path_join root "outside/secret.txt")) ++ [NL]
  ++ mjoin ((λ label : str, "P3 child   read " ++ pad20 label ++ ": " ++ child_verdict (run_probe (path_join root label)) ++ [NL])
            <$> ["inside/allowed.txt" : str; "outside/secret.txt" : str])
  ++ "P1 keeper  read keeper.sock (path)  : " ++ outcome (read (path_join root "keeper.sock")) ++ [NL]
  ++ "P1 inherited fd is a live listener  : OK" ++ [NL].

Record KeeperEnd := {
  ke_stdout : str;
  ke_sent : str;             (* to the connection accepted *)
  ke_code : Z;
}.

Definition keeper (root : str) (accepted : option str) : KeeperEnd :=
  match accepted with
  | None =>
      let report := report_head root ++ "P2 accepted a connection from host  : OK" ++ [NL] in
      {| ke_stdout := report; ke_sent := report; ke_code := 0 |}
  | Some e =>
      let report := report_head root ++ "P2 accept FAILED: " ++ e ++ [NL] in
      {| ke_stdout := report; ke_sent := []; ke_code := 1 |}
  end.
End boundary.

(** ** [client]

    What it writes to its report: [received] is what the stream gave before it
    ended or failed ([read_to_string] keeps it only when all of it is UTF-8). *)
Definition client (connected : option str) (received : str) : str :=
  match connected with
  | Some e => "client: connect failed: " ++ e ++ [NL]
  | None => "client (outside) received:" ++ [NL] ++ (if utf8_valid received then received else [])
  end.

(** ** What the experiment shows *)

(** Trimming a printed line that begins and ends with visible characters. *)
Lemma trim_printed a s z :
  is_ascii (a :: s ++ [z]) → is_whitespace (byte a) = false → is_whitespace (byte z) = false →
  trim ((a :: s ++ [z]) ++ [NL]) = a :: s ++ [z].
Proof.
  intros Hs Ha Hz. unfold trim. rewrite chars_snoc_nl, (chars_ascii _ Hs).
  assert (drop_while is_whitespace ((byte <$> a :: s ++ [z]) ++ [10%N]) = (byte <$> a :: s ++ [z]) ++ [10%N]) as Hd.
  { cbn [fmap list_fmap app drop_while]. by rewrite Ha. }
  unfold char in *. rewrite Hd. unfold of_chars. rewrite fmap_app, join_app. change (mjoin (encode_char <$> [10%N])) with [NL].
  rewrite trim_end_snoc_nl. change (mjoin (encode_char <$> ?l)) with (of_chars l). rewrite (of_chars_ascii _ Hs).
  unfold trim_end. rewrite (chars_ascii _ Hs).
  assert (drop_while is_whitespace (reverse (byte <$> a :: s ++ [z])) = reverse (byte <$> a :: s ++ [z])) as Hr.
  { change (a :: s ++ [z]) with ((a :: s) ++ [z]). rewrite fmap_app, reverse_app. cbn [fmap list_fmap]. rewrite reverse_singleton.
    cbn [app drop_while]. by rewrite Hz. }
  unfold char in *. rewrite Hr, reverse_involutive. apply (of_chars_ascii _ Hs).
Qed.

(** An outcome survives the child's output: printed with a newline, decoded,
    trimmed. *)
Lemma child_verdict_outcome r :
  match r with Ok _ => True | Err kind => is_ascii kind end → child_verdict (Ok (probe r)) = outcome r.
Proof.
  intros Hr. assert (∃ a s z, outcome r = a :: s ++ [z] ∧ is_ascii (a :: s ++ [z]) ∧
    is_whitespace (byte a) = false ∧ is_whitespace (byte z) = false) as (a & s & z & E & Ha & Hw & Hz).
  { destruct r as [b|kind]; cbn [outcome].
    - exists "A"%char, "LLOWE", "D"%char. split_and!; [done|by apply (bool_decide_unpack _); vm_compute|done..].
    - exists "D"%char, ("ENIED (" ++ kind), ")"%char.
      assert (("DENIED (" : str) ++ kind ++ [")"%char] = "D"%char :: ("ENIED (" ++ kind) ++ [")"%char]) as E by (cbn [app]; by rewrite <- app_assoc).
      split_and!; [exact E| |done..]. rewrite <- E. apply Forall_app. split; [by apply (bool_decide_unpack _); vm_compute|].
      apply Forall_app. split; [exact Hr|by apply (bool_decide_unpack _); vm_compute]. }
  unfold child_verdict, probe, from_utf8_lossy. rewrite E, chars_snoc_nl, (chars_ascii _ Ha).
  unfold of_chars. rewrite fmap_app, join_app. change (mjoin (encode_char <$> [10%N])) with [NL].
  change (mjoin (encode_char <$> ?l)) with (of_chars l). rewrite (of_chars_ascii _ Ha). by apply trim_printed.
Qed.

(** The supervisor's commands are those [main] understands: the client it starts
    is a client of the socket it bound, and what the backend executes is a keeper
    over the descriptor of that socket, which is no longer closed on exec. *)
Theorem supervisor_starts_both home exe exe_dir pid fd :
  (fd ≤ 2147483647)%N →
  let root := path_join home (".devcroft-spike-" ++ show_N pid) in
  let steps := supervisor home exe exe_dir pid fd in
  BindListener (path_join root "keeper.sock") ∈ steps ∧
  (∃ args out, SpawnSelf args ∈ steps ∧ spike_main (exe :: args) = ClientMode (path_join root "keeper.sock") out) ∧
  (∃ flags command, last steps = Some (ExecNono (flags ++ ("--" : str) :: command)) ∧ spike_main command = KeeperMode (Z.of_N fd) root) ∧
  ClearCloexec fd ∈ steps.
Proof.
  intros Hfd root steps. split_and!.
  - set_solver.
  - eexists _, _. split; [unfold steps, supervisor; rewrite !elem_of_cons; naive_solver|done].
  - exists [("wrap" : str); ("--silent" : str); ("--allow-cwd" : str); ("--allow" : str); path_join root "inside"; ("--read" : str); exe_dir],
      [exe; ("keeper" : str); show_N fd; root].
    split; [done|]. unfold spike_main. cbn [lookup list_lookup default].
    rewrite bool_decide_false by done. rewrite bool_decide_true by done.
    rewrite <- show_Z_of_N, parse_i32_show by done. done.
  - unfold steps, supervisor. rewrite !elem_of_cons. naive_solver.
Qed.

(** What the experiment shows: inside the boundary a child whose reads go as the
    keeper's has exactly the verdicts of the keeper in the report, and the client
    outside writes the whole report down. *)
Theorem report_tells read root label :
  (∀ path, match read path with Ok _ => True | Err kind => is_ascii kind end) →
  let report := keeper read (λ path, Ok (probe (read path))) root None in
  child_verdict (Ok (probe (read (path_join root label)))) = outcome (read (path_join root label)) ∧
  ke_stdout report = ke_sent report ∧
  client None (ke_sent report) = "client (outside) received:" ++ [NL] ++ ke_stdout report.
Proof.
  intros Hr report. split_and!; [apply child_verdict_outcome, Hr|done|].
  assert (utf8_valid (ke_sent report) = true) as Hv; [|unfold client; by rewrite Hv].
  apply utf8_valid_ascii. assert (∀ path, is_ascii (outcome (read path))) as Ho.
  { intros path. specialize (Hr path). destruct (read path) as [b|kind]; cbn [outcome]; [by apply (bool_decide_unpack _); vm_compute|].
    apply Forall_app. split; [by apply (bool_decide_unpack _); vm_compute|]. apply Forall_app. split; [done|by apply (bool_decide_unpack _); vm_compute]. }
  cbn [keeper report ke_sent]. unfold report_head. cbn [fmap list_fmap mjoin list_join].
  rewrite !child_verdict_outcome by apply Hr.
  assert (is_ascii []) as Hnil by constructor.
  repeat first [apply Ho|exact Hnil|apply Forall_app; split]; by apply (bool_decide_unpack _); vm_compute.
Qed.

(** ** Samples *)

Definition sample_read (path : str) : result str str :=
  if contains_str "allowed.txt" path then Ok ("granted" ++ [NL]) else Err ("permission denied" : str).

Lemma report_tells_witness :
  child_verdict (Ok (probe (sample_read (path_join "/r" "outside/secret.txt")))) = "DENIED (permission denied)".
Proof.
  rewrite (proj1 (report_tells sample_read "/r" "outside/secret.txt" ltac:(
    intros path; unfold sample_read; destruct (contains_str _ _); [done|by apply (bool_decide_unpack _); vm_compute]))).
  reflexivity.
Defined.

Lemma supervisor_starts_both_witness :
  (3 ≤ 2147483647)%N ∧ ClearCloexec 3 ∈ supervisor "/home/u" "/t/spike" "/t" 7 3.
Proof.
  split; [done|]. apply (supervisor_starts_both "/home/u" "/t/spike" "/t" 7 3). done.
Defined.
