(* ===== verification/Permissions.v ===== *)
(** * Permissions of a sandbox's state
    ([src/lifecycle/up.rs], [src/lifecycle/state.rs], [src/proxy/mod.rs], [src/ssh/keys.rs])

    Connecting to a Unix socket is not mediated by the sandbox backend, so what
    keeps other users of the host away from a sandbox (and from the egress
    proxy's token) is the permissions of the directory and of the files.  These
    are the calls of a start that create files or set modes, in order, over the
    modes of the paths that exist. *)

From S2P Require Import Prelude Slug Paths State.

#[local] Set Default Proof Using "Type".

(** ** Calls *)

(** A mode as it is written. *)
Definition octal (u g o : N) : N := (u * 64 + g * 8 + o)%N.

Inductive PermCall :=
| MakeDirs (mode : N) (dirs : list str)    (* [DirBuilder] with its parents, outermost first *)
| OpenCreate (path : str)                  (* [fs::write], [File::create], [OpenOptions::create] *)
| BindSocket (path : str)
| SetMode (path : str) (mode : N)
| Unlink (path : str)
| RenameTo (from to : str)
| KeyFile (path : str) (mode : N).         (* the key crate's writer: the mode it asks for *)

Abbreviation Modes := (gmap str N).

(** What a new file gets of the mode asked for. *)
Definition masked (umask mode : N) : N := N.ldiff mode umask.

Definition create_as (mode : N) (path : str) (ms : Modes) : Modes :=
  match ms !! path with Some _ => ms | None => <[path := mode]> ms end.

Definition perm_step (umask : N) (ms : Modes) (c : PermCall) : Modes :=
  match c with
  | MakeDirs mode dirs => foldl (λ ms d, create_as (masked umask mode) d ms) ms dirs
  | OpenCreate path => create_as (masked umask (octal 6 6 6)) path ms
  | BindSocket path => <[path := masked umask (octal 7 7 7)]> ms
  | SetMode path mode => match ms !! path with Some _ => <[path := mode]> ms | None => ms end
  | Unlink path => delete path ms
  | RenameTo a b => match ms !! a with Some m => <[b := m]> (delete a ms) | None => ms end
  | KeyFile path mode => create_as (masked umask mode) path ms
  end.

Definition perm_run (umask : N) (calls : list PermCall) (ms : Modes) : Modes := foldl (perm_step umask) ms calls.

(** ** A start *)

(** The data directory and the directories above it, below the home directory. *)
Definition data_chain (home : str) : list str :=
  [path_join home ".local"; path_join home ".local/share"; path_join home DATA_SUBDIR].

(** [acquire_lifecycle_lock]. *)
Definition lock_calls (home : str) (p : StatePaths) : list PermCall :=
  [MakeDirs (octal 7 7 7) (data_chain home); OpenCreate (lifecycle_lock p)].

(** A socket of the state directory: removed, bound, restricted. *)
Definition socket_calls (path : str) : list PermCall := [Unlink path; BindSocket path; SetMode path (octal 6 0 0)].

(** [proxy::spawn] and the pidfile. *)
Definition proxy_calls (p : StatePaths) : list PermCall :=
  socket_calls (proxy_socket p) ++ [OpenCreate (proxy_log p); OpenCreate (proxy_pidfile p)].

Definition meta_calls (p : StatePaths) : list PermCall :=
  [OpenCreate (meta_tmp (meta p)); RenameTo (meta_tmp (meta p)) (meta p)].

Section start.
(** The modes the key crate asks for, of a private and of a public key. *)
Context (private_mode public_mode : N).

(** [ensure_client_keypair] on first use; [generate_host_key]. *)
Definition client_key_calls (home : str) (keys : str * str) : list PermCall :=
  [MakeDirs (octal 7 7 7) (data_chain home); KeyFile keys.1 private_mode; KeyFile keys.2 public_mode; SetMode keys.2 (octal 6 0 0)].
Definition host_key_calls (p : StatePaths) : list PermCall := [KeyFile (ssh_host_key p) private_mode].

(** What follows the creation of the state directory. *)
Definition start_calls (home : str) (p : StatePaths) (keys : str * str) (starts_proxy new_keys : bool) : list PermCall :=
  (if starts_proxy then proxy_calls p else []) ++ meta_calls p ++ [OpenCreate (profile p)]
  ++ socket_calls (socket p) ++ socket_calls (ssh_socket p)
  ++ (if new_keys then client_key_calls home keys else []) ++ host_key_calls p
  ++ [OpenCreate (log p); OpenCreate (pidfile p)].

(** [up], when the sandbox is not up. *)
Definition up_calls (home : str) (p : StatePaths) (keys : str * str) (starts_proxy new_keys : bool) : list PermCall :=
  lock_calls home p ++ MakeDirs (octal 7 0 0) (data_chain home ++ [root p]) :: start_calls home p keys starts_proxy new_keys.
End start.

(** No bit for the group or for others. *)
Definition owner_only (mode : N) : Prop := N.land mode (octal 0 7 7) = 0%N.

(** ** Lemmas *)

(** The paths whose mode a call may change. *)
Definition touched (c : PermCall) : list str :=
  match c with
  | MakeDirs _ dirs => dirs
  | OpenCreate path | BindSocket path | SetMode path _ | Unlink path | KeyFile path _ => [path]
  | RenameTo a b => [a; b]
  end.

Lemma create_as_other mode path ms x : x ≠ path → create_as mode path ms !! x = ms !! x.
Proof. intros Hx. unfold create_as. destruct (ms !! path); [done|]. by rewrite lookup_insert_ne. Qed.

Lemma make_dirs_other mode dirs ms x : x ∉ dirs → foldl (λ ms d, create_as mode d ms) ms dirs !! x = ms !! x.
Proof.
  revert ms. induction dirs as [|d dirs IH]; intros ms Hx; [done|]. apply not_elem_of_cons in Hx as [Hd Hx]. cbn [foldl].
  rewrite IH by done. by apply create_as_other.
Qed.

Lemma perm_step_other umask ms c x : x ∉ touched c → perm_step umask ms c !! x = ms !! x.
Proof.
  destruct c; cbn [touched perm_step]; rewrite ?not_elem_of_cons; intros Hx; destruct_and?;
    try (by apply make_dirs_other); try (by apply create_as_other); repeat case_match; simplify_map_eq; done.
Qed.

Lemma perm_run_other umask calls ms x : Forall (λ c, x ∉ touched c) calls → perm_run umask calls ms !! x = ms !! x.
Proof.
  intros Hc. revert ms. induction Hc as [|c calls Hx _ IH]; intros ms; [done|]. unfold perm_run. cbn [foldl].
  rewrite <- (perm_step_other umask ms c x Hx). apply IH.
Qed.

Lemma perm_run_app umask a b ms : perm_run umask (a ++ b) ms = perm_run umask b (perm_run umask a ms).
Proof. apply foldl_app. Qed.

Lemma owner_only_masked umask mode : owner_only mode → owner_only (masked umask mode).
Proof.
  unfold owner_only, masked. intros H. apply N.bits_inj_iff. intros n. apply (f_equal (λ m, N.testbit m n)) in H.
  rewrite N.land_spec in H. rewrite N.land_spec, N.ldiff_spec, N.bits_0 in *.
  destruct (N.testbit mode n); [|done]. cbn in *. by rewrite H, andb_false_r.
Qed.

(** A socket ends with the mode set on it, whatever it was made with. *)
Lemma socket_calls_mode umask path ms : perm_run umask (socket_calls path) ms !! path = Some (octal 6 0 0).
Proof. unfold perm_run. cbn [socket_calls foldl perm_step]. by rewrite !lookup_insert_eq. Qed.

Lemma create_as_present mode path ms x : is_Some (ms !! x) → create_as mode path ms !! x = ms !! x.
Proof.
  intros [m Hm]. unfold create_as. destruct (ms !! path) eqn:E; [done|]. destruct (decide (x = path)) as [->|]; [congruence|].
  by rewrite lookup_insert_ne.
Qed.

(** *** The paths of a start are apart *)

Definition other_paths (home : str) (p : StatePaths) (keys : str * str) : list str :=
  lifecycle_lock p :: meta_tmp (meta p) :: keys.1 :: keys.2 :: data_chain home.

Lemma comps_ne a b : path_comps a ≠ path_comps b → a ≠ b.
Proof. by intros H ->. Qed.

Lemma comps_of a c : components a = (Absolute, c) → path_comps a = c.
Proof. unfold path_comps. by intros ->. Qed.

Section apart.
Context (home name : str) (p : StatePaths) (keys : str * str).
Context (Hh : path_root home = Absolute) (Hp : state_paths (Some home) name = Ok p) (Hk : client_key_paths (Some home) = Ok keys).
#[local] Set Default Proof Using "Type*".

Lemma root_comps : path_comps (root p) = (path_comps home ++ DATA_COMPS) ++ [name].
Proof. destruct (state_paths_components home name p Hh Hp) as (_ & H & _). by apply comps_of. Qed.

Lemma file_comps x : x ∈ files_of p → ∃ s, path_comps x = (path_comps home ++ DATA_COMPS) ++ [name; s].
Proof.
  destruct (state_paths_components home name p Hh Hp) as (_ & _ & _ & -> & H).
  intros (s & -> & Hs)%list_elem_of_fmap. exists s. apply comps_of. by apply H.
Qed.

Lemma chain_comps d : d ∈ data_chain home → length (path_comps d) ≤ length (path_comps home) + 3.
Proof.
  assert (∀ s, starts_with "/" s = false → path_root s = Project → length (path_comps s) ≤ 3 →
    length (path_comps (path_join home s)) ≤ length (path_comps home) + 3) as Hj.
  { intros s H1 H2 H3. rewrite (comps_of _ _ (components_join home s Hh H1 H2)), length_app. lia. }
  unfold data_chain. rewrite !elem_of_cons, elem_of_nil.
  intros Hd. destruct_or! Hd; subst; try done; apply Hj; vm_compute; (done || lia).
Qed.

Lemma keys_comps x : x = keys.1 ∨ x = keys.2 →
  ∃ s, path_comps x = (path_comps home ++ DATA_COMPS) ++ [s] ∧ s ≠ name.
Proof.
  unfold client_key_paths, data_dir in Hk. cbn [fmap result_fmap] in Hk. injection Hk as <-. cbn [fst snd].
  destruct (state_paths_components home name p Hh Hp) as (Hv & _). pose proof (data_dir_components home Hh) as Hd.
  assert (∀ s, plain_segment s → path_comps (path_join (path_join home DATA_SUBDIR) s) = (path_comps home ++ DATA_COMPS) ++ [s]) as Hs.
  { intros s Hs. rewrite (comps_of _ _ (join_segment _ s ltac:(unfold path_root; by rewrite Hd) Hs)). by rewrite (comps_of _ _ Hd). }
  assert (∀ s, "_"%char ∈ s → s ≠ name) as Hn.
  { intros s Hs' ->. revert Hs'. by apply is_valid_name_no_byte. }
  intros [->| ->]; (eexists; split; [apply Hs; split_and!; by apply (bool_decide_unpack _); vm_compute|]); apply Hn;
    by apply (bool_decide_unpack _); vm_compute.
Qed.

Lemma meta_tmp_comps : path_comps (meta_tmp (meta p)) = (path_comps home ++ DATA_COMPS) ++ [name; ("meta.json.tmp" : str)].
Proof.
  assert (meta p = path_join (root p) "meta.json") as Hm.
  { unfold state_paths in Hp. destruct (negb _); [done|]. cbn [data_dir mbind result_bind] in Hp. by injection Hp as <-. }
  assert (meta_tmp (meta p) = path_join (root p) "meta.json.tmp") as ->.
  { rewrite Hm. destruct (path_join_prefix (root p)) as [k Hkp]. rewrite !Hkp by done. unfold meta_tmp, strip_suffix.
    change ("meta.json" : str) with (("meta" : str) ++ (".json" : str)). rewrite app_assoc, reverse_app, strip_prefix_app.
    cbn [fmap option_fmap option_map]. rewrite reverse_involutive, <- app_assoc. done. }
  destruct (state_paths_components home name p Hh Hp) as (_ & Hr & _).
  rewrite (comps_of _ _ (join_segment (root p) "meta.json.tmp" ltac:(unfold path_root; by rewrite Hr)
    ltac:(split_and!; by apply (bool_decide_unpack _); vm_compute))). by rewrite root_comps, <- app_assoc.
Qed.

(** The state directory and its files are none of the other paths. *)
Lemma apart_others x : x = root p ∨ x ∈ files_of p → x ∉ other_paths home p keys.
Proof.
  intros Hx. assert (∀ y, y ∈ other_paths home p keys → path_comps x ≠ path_comps y) as Hne; [|intros Hin; by apply (Hne x Hin)].
  assert (∀ s, path_comps x = (path_comps home ++ DATA_COMPS) ++ [s] → s = name) as Hone.
  { intros s Hs. destruct Hx as [->|(s' & Hf)%file_comps].
    - rewrite root_comps in Hs. by apply app_inv_head in Hs as [= ->].
    - rewrite Hf in Hs. apply app_inv_head in Hs. discriminate Hs. }
  assert (length (path_comps home) + 4 ≤ length (path_comps x)) as Hlen.
  { destruct Hx as [->|(s' & ->)%file_comps]; [rewrite root_comps|]; rewrite !length_app; change (length DATA_COMPS) with 3; cbn [length]; lia. }
  intros y Hy E. unfold other_paths in Hy. rewrite !elem_of_cons in Hy.
  destruct Hy as [->|[->|[Hy|[Hy|Hy]]]].
  - destruct (state_paths_components home name p Hh Hp) as (_ & _ & Hl & _). apply comps_of in Hl. rewrite Hl in E.
    apply Hone in E. apply (f_equal length) in E. rewrite length_app in E.
    assert (length (".lock" : str) = 5) as Hl5 by done. lia.
  - rewrite meta_tmp_comps in E. destruct Hx as [->|Hf].
    + rewrite root_comps in E. apply app_inv_head in E. discriminate E.
    + destruct (state_paths_components home name p Hh Hp) as (_ & _ & _ & Hfs & Hc). rewrite Hfs in Hf.
      apply list_elem_of_fmap in Hf as (s & -> & Hs). rewrite (comps_of _ _ (Hc s Hs)) in E. apply app_inv_head in E. injection E as ->.
      revert Hs. by apply (bool_decide_unpack _); vm_compute.
  - destruct (keys_comps y ltac:(by left)) as (s & Hs & Hn). rewrite Hs in E. by apply Hn, Hone.
  - destruct (keys_comps y ltac:(by right)) as (s & Hs & Hn). rewrite Hs in E. by apply Hn, Hone.
  - pose proof (chain_comps y Hy). rewrite E in Hlen. lia.
Qed.

Lemma root_not_file : root p ∉ files_of p.
Proof.
  intros (s & Hs)%file_comps. rewrite root_comps in Hs. apply app_inv_head in Hs. discriminate Hs.
Qed.
End apart.

(** *** Prefixes of a start *)

Definition state_private (p : StatePaths) (ms : Modes) : Prop :=
  ∀ f, f ∈ files_of p → is_Some (ms !! f) → ∃ m, ms !! root p = Some m ∧ owner_only m.

Section start_run.
Context (umask private_mode public_mode : N) (home name : str) (p : StatePaths) (keys : str * str).
Context (Hh : path_root home = Absolute) (Hp : state_paths (Some home) name = Ok p) (Hk : client_key_paths (Some home) = Ok keys).
Context (starts_proxy new_keys : bool).
#[local] Set Default Proof Using "Type*".

Abbreviation calls := (up_calls private_mode public_mode home p keys starts_proxy new_keys).
Abbreviation rest := (start_calls private_mode public_mode home p keys starts_proxy new_keys).

(** Every call's paths are the sandbox's files or the other ones. *)
Lemma start_touches c : c ∈ rest → ∀ x, x ∈ touched c → x ∈ files_of p ∨ x ∈ other_paths home p keys.
Proof.
  intros Hc x Hx. unfold start_calls, proxy_calls, meta_calls, socket_calls, client_key_calls, host_key_calls in Hc.
  unfold files_of, other_paths.
  rewrite !elem_of_app in Hc. destruct starts_proxy, new_keys; rewrite ?elem_of_app, ?elem_of_cons, ?elem_of_nil in Hc;
    destruct_or! Hc; try done; subst c; cbn [touched] in Hx; rewrite !elem_of_cons in *; tauto.
Qed.

Lemma lock_touches c : c ∈ lock_calls home p → ∀ x, x ∈ touched c → x ∈ other_paths home p keys.
Proof.
  unfold lock_calls, other_paths. rewrite !elem_of_cons, elem_of_nil. intros [->|[->|[]]] x; cbn [touched]; rewrite ?elem_of_cons, ?elem_of_nil; tauto.
Qed.

Lemma root_untouched c : c ∈ rest → root p ∉ touched c.
Proof.
  intros Hc Hx. destruct (start_touches c Hc _ Hx) as [Hf|Ho].
  - by eapply root_not_file.
  - by eapply apart_others in Ho; [|done|done|done|left].
Qed.

Lemma lock_untouched c x : c ∈ lock_calls home p → x = root p ∨ x ∈ files_of p → x ∉ touched c.
Proof. intros Hc Hx Hin. eapply apart_others; [done..|exact Hx|]. by eapply lock_touches. Qed.

Lemma root_after ms : ms !! root p = None →
  perm_step umask ms (MakeDirs (octal 7 0 0) (data_chain home ++ [root p])) !! root p = Some (masked umask (octal 7 0 0)).
Proof.
  intros Hr. cbn [perm_step]. rewrite foldl_app. cbn [foldl].
  assert (foldl (λ ms d, create_as (masked umask (octal 7 0 0)) d ms) ms (data_chain home) !! root p = None) as Hn.
  { rewrite make_dirs_other; [done|]. intros Hin. eapply apart_others; [done..|by left|]. unfold other_paths.
    do 4 right. exact Hin. }
  unfold create_as at 1. by rewrite Hn, lookup_insert_eq.
Qed.

(** What stays true while a fresh sandbox starts. *)
Lemma fresh_private ms n :
  ms !! root p = None → (∀ f, f ∈ files_of p → ms !! f = None) → state_private p (perm_run umask (take n calls) ms).
Proof.
  intros Hr Hf f Hin [m Hm]. unfold up_calls in *.
  assert (∀ l, l ⊆ lock_calls home p → ∀ x, x = root p ∨ x ∈ files_of p → perm_run umask l ms !! x = ms !! x) as Hlock.
  { intros l Hl x Hx. apply perm_run_other, Forall_forall. intros c Hc. apply lock_untouched; [by apply Hl|exact Hx]. }
  destruct (decide (n ≤ length (lock_calls home p))) as [Hn|Hn].
  - rewrite take_app_le in Hm by done. rewrite Hlock in Hm; [by rewrite Hf in Hm| |by right].
    intros c Hc. by eapply subseteq_take.
  - rewrite take_app_ge by lia. destruct (n - length (lock_calls home p)) as [|k] eqn:Ek; [lia|]. cbn [take].
    exists (masked umask (octal 7 0 0)). split; [|by apply owner_only_masked].
    rewrite perm_run_app. change (perm_run umask (?c :: ?l) ?m) with (perm_run umask l (perm_step umask m c)).
    rewrite (perm_run_other umask (take k rest)); [apply root_after; by rewrite Hlock by (done || by left)|].
    apply Forall_forall. intros c Hc. apply root_untouched. by eapply subseteq_take.
Qed.

(** The mode of a socket at the end: what is left of the start leaves it alone. *)
Lemma socket_mode pre post path ms :
  rest = pre ++ socket_calls path ++ post → path ∉ mjoin (touched <$> post) → perm_run umask calls ms !! path = Some (octal 6 0 0).
Proof using Type.
  intros E Hpost. unfold up_calls. rewrite perm_run_app.
  change (perm_run umask (?c :: ?l) ?m) with (perm_run umask l (perm_step umask m c)).
  rewrite E, !perm_run_app. rewrite perm_run_other; [apply socket_calls_mode|]. apply Forall_forall. intros c Hc Hin.
  apply Hpost, list_elem_of_join. exists (touched c). split; [done|]. by apply list_elem_of_fmap_2.
Qed.
End start_run.

(** C38: the state of a sandbox is its owner's.  While a fresh sandbox starts, after
    any number of the calls and whatever the umask, each of its files that
    exists is in a directory closed to the group and to others.  And whatever
    directory was there before, even an open one, the sockets are the owner's
    alone when the start is over. *)
Theorem state_dir_private umask private_mode public_mode home name p keys (starts_proxy new_keys : bool) ms
    (Hh : path_root home = Absolute) (Hp : state_paths (Some home) name = Ok p) (Hk : client_key_paths (Some home) = Ok keys) :
  let calls := up_calls private_mode public_mode home p keys starts_proxy new_keys in
  (ms !! root p = None → (∀ f, f ∈ files_of p → ms !! f = None) →
     ∀ n f, f ∈ files_of p → is_Some (perm_run umask (take n calls) ms !! f) →
       ∃ m, perm_run umask (take n calls) ms !! root p = Some m ∧ owner_only m) ∧
  perm_run umask calls ms !! socket p = Some (octal 6 0 0) ∧
  perm_run umask calls ms !! ssh_socket p = Some (octal 6 0 0) ∧
  (starts_proxy = true → perm_run umask calls ms !! proxy_socket p = Some (octal 6 0 0)).
Proof.
  intros calls. split; [intros Hr Hf n; by eapply fresh_private|].
  pose proof (files_distinct _ _ _ Hp) as Hnd. unfold files_of in Hnd. rewrite !NoDup_cons, !not_elem_of_cons in Hnd. destruct_and! Hnd.
  assert (∀ x, x ∈ files_of p → x ∉ other_paths home p keys) as Ho by (intros x Hx; eapply apart_others; [done..|by right]).
  pose proof (Ho (socket p) ltac:(by left)) as Hs1. pose proof (Ho (ssh_socket p) ltac:(do 5 right; by left)) as Hs2.
  pose proof (Ho (proxy_socket p) ltac:(do 9 right; by left)) as Hs3.
  unfold other_paths, data_chain in Hs1, Hs2, Hs3. rewrite !not_elem_of_cons in Hs1, Hs2, Hs3. destruct_and?.
  set (keyed := (if new_keys then client_key_calls private_mode public_mode home keys else []) ++ host_key_calls private_mode p
    ++ [OpenCreate (log p); OpenCreate (pidfile p)]).
  set (proxied := if starts_proxy then proxy_calls p else []).
  split_and!; [apply (socket_mode _ _ _ _ _ _ _ _ (proxied ++ meta_calls p ++ [OpenCreate (profile p)]) (socket_calls (ssh_socket p) ++ keyed))
              |apply (socket_mode _ _ _ _ _ _ _ _ (proxied ++ meta_calls p ++ [OpenCreate (profile p)] ++ socket_calls (socket p)) keyed)
              |intros ->; apply (socket_mode _ _ _ _ _ _ _ _ [] ([OpenCreate (proxy_log p); OpenCreate (proxy_pidfile p)] ++ meta_calls p
                 ++ [OpenCreate (profile p)] ++ socket_calls (socket p) ++ socket_calls (ssh_socket p) ++ keyed))];
    try (unfold start_calls, proxied, proxy_calls; by rewrite <- ?app_assoc).
  all: intros Hin; unfold keyed in Hin; destruct new_keys; cbn in Hin; rewrite !elem_of_cons, elem_of_nil in Hin; destruct_or! Hin; congruence.
Qed.

(** ** Samples *)

Definition sample_modes : Modes := {[ ("/h" : str) := octal 7 5 5 ]}.

(** A directory that was there before keeps its mode: in an open one the
    metadata, with the proxy's token, can be read by every user. *)
Lemma open_root_exposes_meta p keys :
  state_paths (Some ("/h" : str)) "n" = Ok p → client_key_paths (Some ("/h" : str)) = Ok keys →
  let ms := perm_run (octal 0 2 2) (up_calls (octal 6 0 0) (octal 6 6 6) "/h" p keys true true) {[ root p := octal 7 5 5 ]} in
  ms !! root p = Some (octal 7 5 5) ∧ ms !! meta p = Some (octal 6 4 4).
Proof. intros [= <-] [= <-]. by vm_compute. Qed.

Lemma state_dir_private_witness :
  ∃ p keys, state_paths (Some ("/h" : str)) "n" = Ok p ∧
    perm_run (octal 0 0 2) (up_calls (octal 6 0 0) (octal 6 6 6) "/h" p keys true true) sample_modes !! socket p = Some (octal 6 0 0) ∧
    ∃ m, perm_run (octal 0 0 2) (take 20 (up_calls (octal 6 0 0) (octal 6 6 6) "/h" p keys true true)) sample_modes !! root p = Some m ∧ owner_only m.
Proof.
  destruct (state_paths (Some ("/h" : str)) "n") as [p|e] eqn:Ep; [|vm_compute in Ep; discriminate Ep].
  destruct (client_key_paths (Some ("/h" : str))) as [keys|e] eqn:Ek; [|vm_compute in Ek; discriminate Ek].
  exists p, keys. split; [reflexivity|].
  destruct (state_dir_private (octal 0 0 2) (octal 6 0 0) (octal 6 6 6) "/h" "n" p keys true true sample_modes ltac:(vm_compute; reflexivity) Ep Ek)
    as (Hfresh & Hs & _).
  split; [exact Hs|]. injection Ep as <-. injection Ek as <-. apply (Hfresh ltac:(vm_compute; reflexivity)) with (f := path_join "/h/.local/share/devcroft/n" "meta.json").
  - intros f Hf. unfold files_of in Hf. rewrite !elem_of_cons, elem_of_nil in Hf. destruct_or! Hf; subst; try done; by vm_compute.
  - do 4 right. left.
  - eexists. vm_compute. reflexivity.
Defined.
